(** * csv_to_obsidian_contacts: frontmatter codec, identity composition,
      document matching and merge policy.

    Shallow embedding of [src/csv_vault/csv_to_obsidian_contacts.py].

    Conventions of the embedding:
    - a Python [str] is a list of characters, a character being a code point
      below 256 (type [ascii]); the character classes of Python
      ([str.isspace], [str.isdigit], the line boundaries of
      [str.splitlines], the classes of the regular expressions) and the
      case and NFKD tables are given on that range; [str.upper] alone
      leaves it, at two characters, and its result is a list of [wchar];
    - the interpreter is a 64-bit CPython with its default bound of 4300
      digits on the conversions between [int] and [str]; memory is not
      bounded;
    - a Python [dict] is an association list in insertion order, a key being
      bound at most once ([dict_set] replaces in place or appends);
    - a metadata value is a string, a list of strings or a boolean; a row of
      the source binds field names to strings;
    - the document store is the list of the [.md] files of the output
      folder, in the order of the scan, a file being a name and the text
      that was written to it; reading and writing a file always succeed;
      [read_text] turns the line ends of the file into newlines, and the
      line separator of the platform is the newline, so that a text is
      written as it is;
    - the sequence counter of [process_contact_row] and the store are
      passed and returned; the clock is an argument;
    - a function of the source that may raise an exception which the source
      does not catch returns an [option], [None] standing for the
      exception; a call that may end the process returns an [exits]; the
      title of a contact whose name has a capital above 255 is not
      represented, and [None] stands for it as well;
    - the sequence counter stays below the bound on the length of its
      decimal writing;
    - [json.loads], which [parse_maybe_list] calls on a text in square
      brackets, is a variable of the sections that need it. *)

From Stdlib Require Import Ascii String.
From Stdlib Require Import List ZArith Lia Bool Arith DecimalN FinFun.
From Stdlib Require Import Permutation Sorted.
Import ListNotations.

(** ** Strings *)

Definition str := list ascii.

Definition lit (s : string) : str := list_ascii_of_string s.

Definition code (c : ascii) : nat := nat_of_ascii c.

Fixpoint str_eqb (a b : str) : bool :=
  match a, b with
  | [], [] => true
  | x :: a', y :: b' => Ascii.eqb x y && str_eqb a' b'
  | _, _ => false
  end.

Definition is_empty_str (s : str) : bool :=
  match s with [] => true | _ => false end.

Definition mem_str (k : str) (l : list str) : bool := existsb (str_eqb k) l.

Definition has_char (c : ascii) (s : str) : bool := existsb (Ascii.eqb c) s.

(** [s.startswith(p)] *)
Fixpoint startswith (p s : str) : bool :=
  match p, s with
  | [], _ => true
  | x :: p', y :: s' => Ascii.eqb x y && startswith p' s'
  | _ :: _, [] => false
  end.

(** [s.endswith(p)] *)
Definition endswith (p s : str) : bool := startswith (rev p) (rev s).

(** [c.isspace()] for a code point below 256. *)
Definition is_space (c : ascii) : bool :=
  let n := code c in
  ((9 <=? n) && (n <=? 13)) || ((28 <=? n) && (n <=? 32))
  || (n =? 133) || (n =? 160).

(** The line boundaries of [str.splitlines] below 256. *)
Definition is_linebreak (c : ascii) : bool :=
  let n := code c in
  ((10 <=? n) && (n <=? 13)) || ((28 <=? n) && (n <=? 30)) || (n =? 133).

Fixpoint drop_while (f : ascii -> bool) (s : str) : str :=
  match s with
  | [] => []
  | c :: s' => if f c then drop_while f s' else s
  end.

Definition lstrip_with (f : ascii -> bool) (s : str) : str := drop_while f s.
Definition rstrip_with (f : ascii -> bool) (s : str) : str :=
  rev (drop_while f (rev s)).
Definition strip_with (f : ascii -> bool) (s : str) : str :=
  rstrip_with f (lstrip_with f s).

(** [s.lstrip()], [s.strip()] *)
Definition lstrip (s : str) : str := lstrip_with is_space s.
Definition strip (s : str) : str := strip_with is_space s.

(** [s.strip(chars)] for a one-character [chars]. *)
Definition strip_char (q : ascii) (s : str) : str := strip_with (Ascii.eqb q) s.

(** [not s.strip()] *)
Definition is_blank (s : str) : bool := is_empty_str (strip s).

(** [s[1:-1]] *)
Definition drop_ends (s : str) : str := removelast (tl s).

(** [s.partition(sep)] at the first occurrence of a non-empty [sep]:
    [None] when [sep] does not occur. *)
Fixpoint partition_sub (sep s : str) : option (str * str) :=
  if startswith sep s then Some ([], skipn (length sep) s)
  else match s with
       | [] => None
       | c :: s' =>
           match partition_sub sep s' with
           | Some (a, b) => Some (c :: a, b)
           | None => None
           end
       end.

(** [s.split(sep, 1)] and [s.split(sep, 2)] *)
Definition split_max1 (sep s : str) : list str :=
  match partition_sub sep s with
  | None => [s]
  | Some (a, b) => [a; b]
  end.

Definition split_max2 (sep s : str) : list str :=
  match partition_sub sep s with
  | None => [s]
  | Some (a, b) => a :: split_max1 sep b
  end.

(** [s.split(c)] for a one-character separator. *)
Fixpoint split_char (c : ascii) (s : str) : list str :=
  match s with
  | [] => [[]]
  | x :: s' =>
      if Ascii.eqb x c then [] :: split_char c s'
      else match split_char c s' with
           | [] => [[x]]
           | p :: ps => (x :: p) :: ps
           end
  end.

(** [s.splitlines()]: the lines without their boundaries, CR LF counting as
    one boundary, and no empty last line. *)
Fixpoint splitlines (s : str) : list str :=
  match s with
  | [] => []
  | c :: s' =>
      if is_linebreak c then
        match s' with
        | d :: t =>
            if (code c =? 13) && (code d =? 10) then [] :: splitlines t
            else [] :: splitlines s'
        | [] => [[]]
        end
      else match splitlines s' with
           | [] => [[c]]
           | l :: ls => (c :: l) :: ls
           end
  end.

(** [sep.join(parts)] *)
Fixpoint join (sep : str) (parts : list str) : str :=
  match parts with
  | [] => []
  | [p] => p
  | p :: ps => p ++ sep ++ join sep ps
  end.

(** [s.replace(old, new)] for a one-character [old]. *)
Definition replace_char (old : ascii) (new : str) (s : str) : str :=
  flat_map (fun c => if Ascii.eqb c old then new else [c]) s.

(** ** Dictionaries *)

Definition dict (V : Type) := list (str * V).

Fixpoint dict_get {V} (d : dict V) (k : str) : option V :=
  match d with
  | [] => None
  | (k', v) :: d' => if str_eqb k k' then Some v else dict_get d' k
  end.

Definition dict_mem {V} (d : dict V) (k : str) : bool :=
  match dict_get d k with Some _ => true | None => false end.

(** [d[k] = v]: replaces the value where [k] is bound, appends otherwise. *)
Fixpoint dict_set {V} (d : dict V) (k : str) (v : V) : dict V :=
  match d with
  | [] => [(k, v)]
  | (k', v') :: d' =>
      if str_eqb k k' then (k', v) :: d' else (k', v') :: dict_set d' k v
  end.

Definition dict_keys {V} (d : dict V) : list str := map fst d.

(** ** Metadata values *)

Inductive value :=
| VStr (s : str)
| VList (l : list str)
| VBool (b : bool).

Definition metadata := dict value.

(** ** Character constants and classes *)

Definition dquote : ascii := ascii_of_nat 34.
Definition squote : ascii := ascii_of_nat 39.
Definition backslash : ascii := ascii_of_nat 92.
Definition newline : ascii := ascii_of_nat 10.

Definition in_range (lo hi : nat) (c : ascii) : bool :=
  (lo <=? code c) && (code c <=? hi).

Definition is_ascii_digit (c : ascii) : bool := in_range 48 57 c.
Definition is_ascii_upper (c : ascii) : bool := in_range 65 90 c.
Definition is_ascii_lower (c : ascii) : bool := in_range 97 122 c.

(** [c.isdigit()] below 256: the decimal digits and the superscripts
    two, three and one. *)
Definition is_digit_char (c : ascii) : bool :=
  is_ascii_digit c || (code c =? 178) || (code c =? 179) || (code c =? 185).

(** [s.isdigit()] *)
Definition str_isdigit (s : str) : bool :=
  negb (is_empty_str s) && forallb is_digit_char s.

(** The class [[A-Za-z0-9_-]] of [SAFE_RE]. *)
Definition safe_char (c : ascii) : bool :=
  is_ascii_upper c || is_ascii_lower c || is_ascii_digit c
  || (code c =? 95) || (code c =? 45).

(** [SAFE_RE.match(s)]: [$] also matches before one final newline. *)
Definition safe_re_match (s : str) : bool :=
  let b := if endswith [newline] s then removelast s else s in
  negb (is_empty_str b) && forallb safe_char b.

(** ** [repr] and [str] of the values *)

Definition hex_digit (n : nat) : ascii :=
  nth n (lit "0123456789abcdef") "0"%char.

Definition is_printable (c : ascii) : bool :=
  in_range 32 126 c || (in_range 161 255 c && negb (code c =? 173)).

Definition repr_char (q c : ascii) : str :=
  if Ascii.eqb c q || Ascii.eqb c backslash then [backslash; c]
  else if code c =? 9 then lit "\t"
  else if code c =? 10 then lit "\n"
  else if code c =? 13 then lit "\r"
  else if is_printable c then [c]
  else lit "\x" ++ [hex_digit (code c / 16); hex_digit (code c mod 16)].

(** [repr(s)] of a string. *)
Definition py_repr (s : str) : str :=
  let q := if has_char squote s && negb (has_char dquote s)
           then dquote else squote in
  q :: flat_map (repr_char q) s ++ [q].

(** [str(l)] of a list of strings. *)
Definition py_str_list (l : list str) : str :=
  lit "[" ++ join (lit ", ") (map py_repr l) ++ lit "]".

(** [str(v)] *)
Definition py_str (v : value) : str :=
  match v with
  | VStr s => s
  | VList l => py_str_list l
  | VBool b => if b then lit "True" else lit "False"
  end.

(** Truth value of [v]. *)
Definition truthy (v : value) : bool :=
  match v with
  | VStr s => negb (is_empty_str s)
  | VList l => match l with [] => false | _ => true end
  | VBool b => b
  end.

(** ** Frontmatter codec *)

(** The string case of [quote_scalar]. *)
Definition quote_str (s : str) : str :=
  if is_empty_str s then [dquote; dquote]
  else if str_isdigit s || startswith (lit "+") s
          || ((1 <? length s) && startswith (lit "0") s)
  then dquote :: s ++ [dquote]
  else if safe_re_match s then s
  else dquote :: replace_char dquote [backslash; dquote] s ++ [dquote].

Definition quote_scalar (v : value) : str :=
  match v with
  | VBool b => if b then lit "true" else lit "false"
  | VStr s => quote_str s
  | VList l => quote_str (py_str_list l)
  end.

Definition dump_entry (kv : str * value) : list str :=
  let (k, v) := kv in
  match v with
  | VList [] => [k ++ lit ": []"]
  | VList l =>
      (k ++ lit ":") :: map (fun item => lit "  - " ++ quote_scalar (VStr item)) l
  | _ => [k ++ lit ": " ++ quote_scalar v]
  end.

Definition dump_lines (data : metadata) : list str :=
  lit "---" :: flat_map dump_entry data ++ [lit "---"].

Definition dump_frontmatter (data : metadata) : str :=
  join [newline] (dump_lines data) ++ [newline].

(** An item: stripped of blanks, then of double quotes, then of single
    quotes, at both ends. *)
Definition unquote_item (x : str) : str :=
  strip_char squote (strip_char dquote (strip x)).

(** The value of a [key: val] line whose [val] is not empty. *)
Definition parse_inline (val : str) : value :=
  if startswith (lit "[") val && endswith (lit "]") val then
    let inner := strip (drop_ends val) in
    if is_empty_str inner then VList []
    else VList (map unquote_item (split_char ","%char inner))
  else if (startswith [dquote] val && endswith [dquote] val)
          || (startswith [squote] val && endswith [squote] val)
  then VStr (drop_ends val)
  else VStr val.

(** The inner loop of [read_frontmatter], which gathers the items of a
    block list: [cont] is the outer loop, [rest0] the lines after the key,
    [l] the lines left and [items] the items gathered. *)
Definition items_loop (cont : list str -> metadata -> metadata)
  (rest0 : list str) (data : metadata) (key : str)
  : list str -> list str -> metadata :=
  fix loop (l : list str) (items : list str) {struct l} : metadata :=
    let finish :=
      match items with
      | [] => cont rest0 (dict_set data key (VStr []))
      | _ => cont l (dict_set data key (VList items))
      end in
    match l with
    | [] => finish
    | nxt :: l' =>
        if startswith (lit "  - ") nxt then
          loop l' (items ++ [unquote_item (skipn 4 nxt)])
        else if startswith (lit "- ") (strip nxt) then
          loop l' (items ++ [unquote_item (skipn 2 (strip nxt))])
        else finish
    end.

(** The loop of [read_frontmatter] over the lines of the block. *)
Fixpoint parse_lines (lines : list str) (data : metadata) {struct lines}
  : metadata :=
  match lines with
  | [] => data
  | line :: rest =>
      if is_blank line then parse_lines rest data
      else if has_char ":"%char line
              && negb (startswith (lit "- ") (lstrip line)) then
        match partition_sub (lit ":") line with
        | None => parse_lines rest data
        | Some (key0, val0) =>
            let key := strip key0 in
            let val := strip val0 in
            if is_empty_str val then items_loop parse_lines rest data key rest []
            else parse_lines rest (dict_set data key (parse_inline val))
        end
      else parse_lines rest data
  end.

Definition read_frontmatter (md_text : str) : metadata * str :=
  if negb (startswith (lit "---") md_text) then ([], md_text)
  else match split_max2 (lit "---") md_text with
       | [_; yaml_block; body] => (parse_lines (splitlines yaml_block) [], body)
       | _ => ([], md_text)
       end.

(** ** Metadata that the codec carries through unchanged *)

Definition delim : str := lit "---".

Definition no_linebreak (s : str) : bool :=
  forallb (fun c => negb (is_linebreak c)) s.

(** The delimiter does not occur in [s]. *)
Definition no_delim (s : str) : bool :=
  match partition_sub delim s with None => true | Some _ => false end.

Definition no_dquote (s : str) : bool := negb (has_char dquote s).

Definition key_ok (k : str) : bool :=
  negb (has_char ":"%char k) && no_linebreak k && str_eqb (strip k) k
  && negb (startswith (lit "- ") k) && no_delim k.

Definition scalar_ok (s : str) : bool :=
  no_dquote s && no_linebreak s && no_delim s.

Definition item_ok (s : str) : bool :=
  scalar_ok s && negb (startswith [squote] s) && negb (endswith [squote] s).

Definition value_ok (v : value) : bool :=
  match v with
  | VStr s => scalar_ok s
  | VList l => forallb item_ok l
  | VBool _ => false
  end.

Fixpoint distinct (l : list str) : bool :=
  match l with
  | [] => true
  | k :: l' => negb (mem_str k l') && distinct l'
  end.

Definition entry_ok (kv : str * value) : bool :=
  key_ok (fst kv) && value_ok (snd kv).

Definition metadata_ok (m : metadata) : bool :=
  forallb entry_ok m && distinct (dict_keys m).

(** A value on two lines. *)
Definition two_line_meta : metadata :=
  [(lit "notes", VStr (lit "a" ++ [newline] ++ lit "b"))].

Definition sample_meta : metadata :=
  [(lit "Nom", VStr (lit "Dupont")); (lit "Tel_Mobile", VStr (lit "+33600000000"));
   (lit "organisation", VStr (lit "Mairie d'Annonay"));
   (lit "groupes", VList [lit "Ecole A"; lit "B"]); (lit "tags", VList []);
   (lit "notes", VStr [])].

(** ** Merge policy *)

Definition Prenom : str := lit "Pr" ++ [ascii_of_nat 233] ++ lit "nom".

Definition DEFAULT_PRESERVE_KEYS : list str := [lit "notes"; lit "custom_tags"].

Definition DEFAULT_OVERWRITE_KEYS : list str :=
  [lit "Nom"; Prenom; lit "Tel_Mobile"; lit "Tel_Fixe"; lit "Mail_Pro";
   lit "Mail_Perso"; lit "organisation"; lit "groupes"; lit "type";
   lit "id_mslist"; lit "source_updated"].

(** [is_empty] of [merge_frontmatter], on the result of [existing.get(k)]. *)
Definition is_empty (val : option value) : bool :=
  match val with
  | None => true
  | Some (VStr s) => is_empty_str (strip s)
  | Some (VList l) => match l with [] => true | _ => false end
  | Some (VBool _) => false
  end.

(** A value that is empty in the words of the specification: a string that
    is empty or made of blanks only, or a list without items. *)
Definition blank_value (v : value) : bool :=
  match v with
  | VStr s => forallb is_space s
  | VList l => (length l =? 0)%nat
  | VBool _ => false
  end.

Definition merge_step (existing : metadata) (preserve_keys overwrite_keys : list str)
  (out : metadata) (kv : str * value) : metadata :=
  let (k, v) := kv in
  if mem_str k preserve_keys && dict_mem existing k then out
  else if mem_str k overwrite_keys || negb (dict_mem existing k)
          || is_empty (dict_get existing k)
  then dict_set out k v
  else out.

(** [merge_frontmatter(existing, newdata, preserve_keys, overwrite_keys)];
    the lists of keys that the source gathers for its debug log are left
    out. *)
Definition merge_frontmatter (existing newdata : metadata)
  (preserve_keys overwrite_keys : list str) : metadata :=
  fold_left (merge_step existing preserve_keys overwrite_keys) newdata existing.

Definition merge_existing : metadata :=
  [(lit "notes", VStr (lit "mine")); (lit "ville", VStr (lit "Lyon"));
   (lit "Nom", VStr (lit "Old")); (lit "role", VStr (lit " "))].

Definition merge_incoming : metadata :=
  [(lit "Nom", VStr (lit "New")); (lit "notes", VStr (lit "theirs"));
   (lit "role", VStr (lit "chef")); (lit "site", VStr (lit "x"))].

(** ** Configuration *)

(** The value that [json.load] returns, an object being a dictionary. *)
#[local] Set Warnings "-register-all".

Inductive json :=
| JNull
| JBool (b : bool)
| JNum (n : Z)
| JStr (s : str)
| JArr (l : list json)
| JObj (fields : list (str * json)).

Definition is_obj (j : json) : bool :=
  match j with JObj _ => true | _ => false end.

Definition is_arr (j : json) : bool :=
  match j with JArr _ => true | _ => false end.

(** What opening the configuration file and [json.load] give: [OSError],
    [UnicodeDecodeError] (the bytes of the file are not UTF-8),
    [JSONDecodeError], or the decoded value. *)
Inductive config_file :=
| Unreadable
| Undecodable
| Malformed
| Decoded (j : json).

(** A call that may end the process: through [sys.exit], or through an
    exception that nothing catches (the interpreter then prints the
    traceback and ends with status 1). *)
Inductive exits (A : Type) :=
| Exit (status : Z)
| Raises
| Returns (a : A).

Arguments Exit {A} status.
Arguments Raises {A}.
Arguments Returns {A} a.

(** The status with which the process ends, when it does. *)
Definition exit_status {A} (x : exits A) : option Z :=
  match x with
  | Exit status => Some status
  | Raises => Some 1%Z
  | Returns _ => None
  end.

(** [load_config(path)]: [JSONDecodeError] and [OSError] are caught and end
    the process with status 2; [UnicodeDecodeError] is neither. *)
Definition load_config (f : config_file) : exits json :=
  match f with
  | Decoded j => Returns j
  | Malformed => Exit 2
  | Unreadable => Exit 2
  | Undecodable => Raises
  end.

(** The sections that [validate_config] warns about when they are bound to
    a value of the wrong shape. *)
Definition object_sections : list str :=
  [lit "aliases"; lit "projects"; lit "transforms"; lit "list_fields"].

Definition list_sections : list str :=
  [lit "preserve_keys"; lit "overwrite_keys"].

Definition misshaped (fields : list (str * json)) (shape : json -> bool)
  (key : str) : bool :=
  match dict_get fields key with
  | Some j => negb (shape j)
  | None => false
  end.

(** [validate_config(cfg)]: exits with status 2 when the top level is not
    an object; otherwise returns, the result here being the sections it has
    warned about. *)
Definition validate_config (cfg : json) : exits (list str) :=
  match cfg with
  | JObj fields =>
      Returns (filter (misshaped fields is_obj) object_sections
               ++ filter (misshaped fields is_arr) list_sections)
  | _ => Exit 2
  end.

(** The two calls of [main] on the configuration, before any row is read:
    the value loaded and the warnings, or the exit status. *)
Definition config_stage (f : config_file) : exits (json * list str) :=
  match load_config f with
  | Exit c => Exit c
  | Raises => Raises
  | Returns cfg =>
      match validate_config cfg with
      | Exit c => Exit c
      | Raises => Raises
      | Returns warned => Returns (cfg, warned)
      end
  end.

(** A section of the wrong shape. *)
Definition wrong_shape (cfg : json) : bool :=
  match cfg with
  | JObj fields =>
      existsb (misshaped fields is_obj) object_sections
      || existsb (misshaped fields is_arr) list_sections
  | _ => false
  end.

Definition string_preserve_cfg : json :=
  JObj [(lit "preserve_keys", JStr (lit "notes"))].

(** ** Case and accents *)

Definition codeN (c : ascii) : N := N_of_ascii c.

Definition shift_char (c : ascii) (d : Z) : ascii :=
  ascii_of_N (Z.to_N (Z.of_N (codeN c) + d)).

(** [c.lower()] below 256. *)
Definition lower_char (c : ascii) : ascii :=
  if is_ascii_upper c || (in_range 192 222 c && negb (code c =? 215))
  then shift_char c 32 else c.

Definition lower (s : str) : str := map lower_char s.

(** A character of an upper-cased text: a code point below 256, or the code
    point of a capital that lies above. *)
Inductive wchar :=
| Low (c : ascii)
| High (n : N).

(** [c.upper()] of a code point below 256: the sharp s gives two letters,
    the micro sign (181) the capital mu (924) and the y with diaeresis (255)
    its capital (376). *)
Definition upper_char (c : ascii) : list wchar :=
  if is_ascii_lower c || (in_range 224 254 c && negb (code c =? 247))
  then [Low (shift_char c (-32))]
  else if code c =? 223 then [Low "S"%char; Low "S"%char]
  else if code c =? 181 then [High 924]
  else if code c =? 255 then [High 376]
  else [Low c].

(** [s.upper()] *)
Definition upper (s : str) : list wchar := flat_map upper_char s.

(** The text as a [str], when every character of it is below 256. *)
Fixpoint narrow (w : list wchar) : option str :=
  match w with
  | [] => Some []
  | Low c :: w' => option_map (cons c) (narrow w')
  | High _ :: _ => None
  end.

(** [unicodedata.normalize('NFKD', c).encode('ascii', 'ignore')] of a code
    point below 256. *)
Definition nfkd_ascii_char (c : ascii) : str :=
  if code c <? 128 then [c]
  else
    match codeN c with
    | 160 | 168 | 175 | 180 | 184 => lit " "
    | 170 | 224 | 225 | 226 | 227 | 228 | 229 => lit "a"
    | 178 => lit "2"
    | 179 => lit "3"
    | 185 => lit "1"
    | 186 | 242 | 243 | 244 | 245 | 246 => lit "o"
    | 188 => lit "14"
    | 189 => lit "12"
    | 190 => lit "34"
    | 192 | 193 | 194 | 195 | 196 | 197 => lit "A"
    | 199 => lit "C"
    | 200 | 201 | 202 | 203 => lit "E"
    | 204 | 205 | 206 | 207 => lit "I"
    | 209 => lit "N"
    | 210 | 211 | 212 | 213 | 214 => lit "O"
    | 217 | 218 | 219 | 220 => lit "U"
    | 221 => lit "Y"
    | 231 => lit "c"
    | 232 | 233 | 234 | 235 => lit "e"
    | 236 | 237 | 238 | 239 => lit "i"
    | 241 => lit "n"
    | 249 | 250 | 251 | 252 => lit "u"
    | 253 | 255 => lit "y"
    | _ => []
    end%N.

Definition nfkd_ascii (s : str) : str := flat_map nfkd_ascii_char s.

Definition is_ascii_alnum (c : ascii) : bool :=
  is_ascii_upper c || is_ascii_lower c || is_ascii_digit c.

(** [_norm_key_for_match(name)] *)
Definition _norm_key_for_match (name : str) : str :=
  filter (fun c => is_ascii_lower c || is_ascii_digit c)
         (lower (nfkd_ascii name)).

(** [_singularize_norm(s)] *)
Definition _singularize_norm (s : str) : str :=
  if endswith (lit "s") s then removelast s else s.

(** ** Identity composition *)

(** [re.sub(r'[-\s]+', '-', s)]: every run of hyphens and blanks becomes one
    hyphen. *)
Fixpoint collapse_runs (f : ascii -> bool) (by_ : ascii) (s : str) : str :=
  match s with
  | [] => []
  | c :: s' =>
      if f c then
        match s' with
        | d :: _ => if f d then collapse_runs f by_ s'
                    else by_ :: collapse_runs f by_ s'
        | [] => [by_]
        end
      else c :: collapse_runs f by_ s'
  end.

Definition hyphen : ascii := "-"%char.
Definition underscore : ascii := "_"%char.

(** [slugify(value, allow_unicode=False)] *)
Definition slugify (value : str) : str :=
  let v := nfkd_ascii value in
  let v := filter (fun c => is_ascii_alnum c || Ascii.eqb c underscore
                            || is_space c || Ascii.eqb c hyphen) v in
  let v := lower (strip v) in
  collapse_runs (fun c => Ascii.eqb c hyphen || is_space c) hyphen v.

(** [make_id_prefix(s)]: the upper-cased slug with an underscore for each
    hyphen, then without the characters that are not in [[A-Z0-9_]]. *)
Definition make_id_prefix (s : str) : str :=
  if is_empty_str s then []
  else
    let base :=
      map (fun w => match w with
                    | Low c => if Ascii.eqb c hyphen then Low underscore else w
                    | High _ => w
                    end) (upper (slugify s)) in
    flat_map (fun w => match w with
                       | Low c =>
                           if is_ascii_upper c || is_ascii_digit c
                              || Ascii.eqb c underscore
                           then [c] else []
                       | High _ => []
                       end) base.

(** The number that a string of decimal digits denotes. *)
Definition digit_val (c : ascii) : Z := Z.of_nat (code c) - 48.

Definition num_of_digits (s : str) : Z :=
  fold_left (fun (a : Z) c => (10 * a + digit_val c)%Z) s 0%Z.

(** The digits of an integer literal: decimal digits, with single
    underscores between digits allowed. *)
Fixpoint literal_digits (s : str) (prev_digit : bool) : option str :=
  match s with
  | [] => if prev_digit then Some [] else None
  | c :: s' =>
      if is_ascii_digit c then
        match literal_digits s' true with
        | Some ds => Some (c :: ds)
        | None => None
        end
      else if Ascii.eqb c underscore && prev_digit then
        match s' with
        | [] => None
        | _ => literal_digits s' false
        end
      else None
  end.

(** The bound of the interpreter on the number of digits of a decimal
    literal that [int] reads. *)
Definition int_max_str_digits : nat := 4300.

(** The number that the digits denote, [None] when they are more than the
    bound allows. *)
Definition bounded_number (ds : str) : option Z :=
  if (int_max_str_digits <? length ds)%nat then None
  else Some (num_of_digits ds).

(** [int(s)] on a string without blanks at its ends: [None] stands for
    [ValueError], which a literal of more than 4300 digits raises as
    well. *)
Definition py_int (s : str) : option Z :=
  let number (o : option str) : option Z :=
    match o with
    | Some ds => bounded_number ds
    | None => None
    end in
  match s with
  | [] => None
  | c :: s' =>
      if Ascii.eqb c "+" then number (literal_digits s' false)
      else if Ascii.eqb c "-" then
        option_map Z.opp (number (literal_digits s' false))
      else number (literal_digits s false)
  end.

Fixpoint str_of_uint (d : Decimal.uint) : str :=
  match d with
  | Decimal.Nil => []
  | Decimal.D0 d => "0"%char :: str_of_uint d
  | Decimal.D1 d => "1"%char :: str_of_uint d
  | Decimal.D2 d => "2"%char :: str_of_uint d
  | Decimal.D3 d => "3"%char :: str_of_uint d
  | Decimal.D4 d => "4"%char :: str_of_uint d
  | Decimal.D5 d => "5"%char :: str_of_uint d
  | Decimal.D6 d => "6"%char :: str_of_uint d
  | Decimal.D7 d => "7"%char :: str_of_uint d
  | Decimal.D8 d => "8"%char :: str_of_uint d
  | Decimal.D9 d => "9"%char :: str_of_uint d
  end.

(** The decimal writing of a natural number. *)
Definition decimal (n : N) : str := str_of_uint (N.to_uint n).

(** [str(n)] of an integer. *)
Definition str_of_Z (n : Z) : str :=
  if (n <? 0)%Z then hyphen :: decimal (Z.abs_N n) else decimal (Z.abs_N n).

(** [s] with zeros on its left up to [width] characters. *)
Definition zero_padded (width : nat) (s : str) : str :=
  repeat "0"%char (width - length s) ++ s.

(** The greatest width that a format specification may hold. *)
Definition format_width_max : Z := (2 ^ 63 - 1)%Z.

(** [f"{n:0{pad}d}"]: the sign first, zeros up to the width; [None] stands
    for the [ValueError] that a negative [pad] gives, and a [pad] above the
    greatest width. *)
Definition format_padded (n pad : Z) : option str :=
  if (pad <? 0)%Z || (format_width_max <? pad)%Z then None
  else if (n <? 0)%Z then
    Some (hyphen :: zero_padded (Z.to_nat pad - 1) (decimal (Z.abs_N n)))
  else Some (zero_padded (Z.to_nat pad) (decimal (Z.abs_N n))).

(** [format_composed_id(prefix, raw_id, pad)] *)
Definition format_composed_id (prefix raw_id : str) (pad : Z) : str :=
  let pfx := make_id_prefix prefix in
  if is_empty_str raw_id then pfx
  else
    let s := strip raw_id in
    let with_prefix (t : str) :=
      if is_empty_str pfx then t else pfx ++ [hyphen] ++ t in
    match py_int s with
    | Some n =>
        match format_padded n pad with
        | Some t => with_prefix t
        | None => with_prefix s
        end
    | None => with_prefix s
    end.

(** ** Rows, contacts and the typed configuration *)

(** A row of the source: field name to text. *)
Definition row := dict str.

Definition contact := metadata.

Inductive extras_policy :=
| ExtrasAll
| ExtrasList (names : list str)
| ExtrasOther.

(** The configuration that the pipeline reads, its sections having the
    expected shapes. A section that [cfg.get] finds absent is [None] where
    the source gives it a default of its own. *)
Record config := {
  cfg_aliases : dict (list str);
  cfg_extras : extras_policy;
  cfg_list_fields : list str;
  cfg_normalize_phone_fr : bool;
  cfg_projects : dict (option (dict (list str)));
  cfg_boolean_fields : list str;
  cfg_preserve_keys : option (list str);
  cfg_overwrite_keys : list str;
  cfg_required_fields : option (list str)
}.

Inductive fallback := FbSeq | FbHash | FbRaw | FbSkip.

(** The command-line arguments that the pipeline reads. *)
Record arguments := {
  arg_project : str;
  arg_id_key : str;
  arg_id_prefix : str;
  arg_id_pad : Z;
  arg_id_fallback : fallback;
  arg_dry_run : bool
}.

Definition LOGICAL_FIELDS : list str :=
  [lit "id_mslist"; lit "Nom"; Prenom; lit "Tel_Mobile"; lit "Tel_Fixe";
   lit "Mail_Pro"; lit "Mail_Perso"; lit "organisation"; lit "groupes";
   lit "type"].

Definition DEFAULT_REQUIRED : list str :=
  [lit "Nom"; Prenom; lit "Tel_Mobile"; lit "Tel_Fixe"; lit "Mail_Pro";
   lit "Mail_Perso"; lit "organisation"].

(** [sub in s] *)
Definition contains (sub s : str) : bool :=
  match partition_sub sub s with Some _ => true | None => false end.

(** [split_list(val)] on a string, with the separators of the source that
    lie below 256. *)
Definition split_list (val : str) : list str :=
  let seps := [";"%char; ","%char; "|"%char; ascii_of_nat 183] in
  let s := map (fun c => if existsb (Ascii.eqb c) seps then ","%char else c) val in
  filter (fun p => negb (is_empty_str p)) (map strip (split_char ","%char s)).

(** [select_first_present(row, candidates)] *)
Definition norm_to_orig (r : row) : dict str :=
  fold_left (fun m kv =>
               let k := fst kv in
               let n := _norm_key_for_match k in
               dict_set (dict_set m n k) (_singularize_norm n) k)
            r ([] : dict str).

Definition row_text (r : row) (k : str) : str :=
  match dict_get r k with Some v => v | None => [] end.

Definition first_normalized (r : row) (index : dict str) (keys : list str)
  : option str :=
  fold_left (fun found ck =>
               match found with
               | Some v => Some v
               | None =>
                   match dict_get index ck with
                   | Some orig =>
                       if is_blank (row_text r orig) then None
                       else Some (row_text r orig)
                   | None => None
                   end
               end) keys None.

Fixpoint select_loop (r : row) (index : dict str) (candidates : list str) : str :=
  match candidates with
  | [] => []
  | c :: cs =>
      if dict_mem r c && negb (is_blank (row_text r c)) then row_text r c
      else
        let cn := _norm_key_for_match c in
        match first_normalized r index [cn; _singularize_norm cn] with
        | Some v => v
        | None => select_loop r index cs
        end
  end.

Definition select_first_present (r : row) (candidates : list str) : str :=
  select_loop r (norm_to_orig r) candidates.

(** [is_bool_field(name, cfg)] *)
Definition is_bool_field (name : str) (cfg : config) : bool :=
  let n := _norm_key_for_match name in
  existsb (fun b => str_eqb (_norm_key_for_match b) n) (cfg_boolean_fields cfg)
  || startswith (lit "is") n || startswith (lit "has") n
  || contains (lit "actif") n || contains (lit "active") n
  || contains (lit "enabled") n || contains (lit "inscrit") n.

(** [coerce_bool_if_needed(name, val, cfg)] on a string. *)
Definition coerce_bool_if_needed (name val : str) (cfg : config) : value :=
  if negb (is_bool_field name cfg) then VStr val
  else
    let s := lower (strip val) in
    if mem_str s [lit "true"; lit "vrai"; lit "yes"; lit "oui"; lit "1"]
    then VBool true
    else if mem_str s [lit "false"; lit "faux"; lit "no"; lit "non"; lit "0"]
    then VBool false
    else VStr val.

Section Contacts.

(** [json.loads(s)] when it succeeds and gives a list: the [str(x)] of its
    elements. *)
Variable json_items : str -> option (list str).

(** [parse_maybe_list(val)] on a string, each element as its [str]. *)
Definition parse_maybe_list (val : str) : option (list str) :=
  let s := strip val in
  if startswith (lit "[") s && endswith (lit "]") s then json_items s
  else None.

(** [[str(x).strip() for x in parsed if str(x).strip()]] *)
Definition clean_items (parsed : list str) : list str :=
  filter (fun p => negb (is_empty_str p)) (map strip parsed).

Definition project_aliases (cfg : config) (project : str)
  : option (dict (list str)) :=
  match dict_get (cfg_projects cfg) project with
  | Some o => o
  | None => None
  end.

(** [candidates(field_key)] of [build_contact]. *)
Definition candidates (cfg : config) (project : str) (field_key : str)
  : list str :=
  let global :=
    match dict_get (cfg_aliases cfg) field_key with
    | Some l => l
    | None => [field_key]
    end in
  match project_aliases cfg project with
  | Some pa =>
      match dict_get pa field_key with
      | Some l => l
      | None => global
      end
  | None => global
  end.

Definition is_list_field (cfg : config) (name : str) : bool :=
  existsb (fun k => str_eqb (_norm_key_for_match k) (_norm_key_for_match name))
          (cfg_list_fields cfg).

(** The value of one logical field. *)
Definition logical_value (r : row) (cfg : config) (project : str)
  (logical : str) : value :=
  let val := select_first_present r (candidates cfg project logical) in
  if mem_str logical (cfg_list_fields cfg) then
    match parse_maybe_list val with
    | Some parsed => VList (clean_items parsed)
    | None => VList (split_list val)
    end
  else if str_eqb logical (lit "type") && is_empty_str val
  then VStr (lit "contact")
  else VStr val.

(** The value of a field copied as an extra. *)
Definition extra_value (cfg : config) (k v : str) : value :=
  match parse_maybe_list v with
  | Some parsed => VList (clean_items parsed)
  | None =>
      if is_list_field cfg k then VList (split_list v)
      else coerce_bool_if_needed k v cfg
  end.

(** [build_contact(row, cfg, project)] *)
Definition build_contact (r : row) (cfg : config) (project : str) : contact :=
  let base :=
    fold_left (fun c logical =>
                 dict_set c logical (logical_value r cfg project logical))
              LOGICAL_FIELDS ([] : contact) in
  match cfg_extras cfg with
  | ExtrasAll =>
      let used := flat_map (candidates cfg project) LOGICAL_FIELDS in
      let existing_norm := map _norm_key_for_match (dict_keys base) in
      fold_left (fun (c : contact) (kv : str * str) =>
                   let (k, v) := kv in
                   if mem_str k used then c
                   else if mem_str (_norm_key_for_match k) existing_norm then c
                   else dict_set c k (extra_value cfg k v))
                r base
  | ExtrasList names =>
      fold_left (fun c name =>
                   match dict_get r name with
                   | None => c
                   | Some v =>
                       if mem_str (_norm_key_for_match name)
                            (map _norm_key_for_match (dict_keys c))
                       then c
                       else dict_set c name (extra_value cfg name v)
                   end)
                names base
  | ExtrasOther => base
  end.

End Contacts.

(** ** The digest of a row *)

(** Order of Python on strings: by code point, a prefix first. *)
Fixpoint str_leb (a b : str) : bool :=
  match a, b with
  | [], _ => true
  | _ :: _, [] => false
  | x :: a', y :: b' =>
      if code x <? code y then true
      else if code y <? code x then false
      else str_leb a' b'
  end.

Fixpoint insert_sorted (kv : str * str) (l : list (str * str)) : list (str * str) :=
  match l with
  | [] => [kv]
  | kv' :: l' =>
      if str_leb (fst kv) (fst kv') then kv :: l
      else kv' :: insert_sorted kv l'
  end.

(** [sorted(row.items())] *)
Definition sort_items (r : row) : list (str * str) :=
  fold_right insert_sorted [] r.

Definition hex4 (n : nat) : str :=
  [hex_digit (n / 4096 mod 16); hex_digit (n / 256 mod 16);
   hex_digit (n / 16 mod 16); hex_digit (n mod 16)].

(** The escapes of [json.dumps(..., ensure_ascii=False)]. *)
Definition json_escape_char (c : ascii) : str :=
  if Ascii.eqb c dquote then [backslash; dquote]
  else if Ascii.eqb c backslash then [backslash; backslash]
  else if code c =? 10 then lit "\n"
  else if code c =? 13 then lit "\r"
  else if code c =? 9 then lit "\t"
  else if code c =? 8 then lit "\b"
  else if code c =? 12 then lit "\f"
  else if code c <? 32 then lit "\u" ++ hex4 (code c)
  else [c].

Definition json_string (s : str) : str :=
  dquote :: flat_map json_escape_char s ++ [dquote].

(** [json.dumps(row, sort_keys=True, ensure_ascii=False)] *)
Definition json_dumps_sorted (r : row) : str :=
  lit "{"
  ++ join (lit ", ")
       (map (fun kv => json_string (fst kv) ++ lit ": " ++ json_string (snd kv))
            (sort_items r))
  ++ lit "}".

(** [s.encode('utf-8')], a byte being a number below 256. *)
Definition utf8 (s : str) : list Z :=
  flat_map (fun c =>
              let n := Z.of_nat (code c) in
              if (n <? 128)%Z then [n]
              else [(192 + n / 64)%Z; (128 + n mod 64)%Z]) s.

(** SHA-1 on 32-bit words, a word being a number below [2^32]. *)
Module SHA1.

Local Open Scope Z_scope.

Definition wrap (x : Z) : Z := x mod 2 ^ 32.

Definition rotl (n x : Z) : Z :=
  wrap (Z.lor (Z.shiftl x n) (Z.shiftr x (32 - n))).

Definition add (x y : Z) : Z := wrap (x + y).

Definition lnot32 (x : Z) : Z := Z.lxor x (2 ^ 32 - 1).

(** The bytes of [n] on [k] bytes, most significant first. *)
Fixpoint be_bytes (k : nat) (n : Z) : list Z :=
  match k with
  | O => []
  | S k' => (Z.shiftr n (8 * Z.of_nat k')) mod 256 :: be_bytes k' n
  end.

Definition padding (len : Z) : list Z :=
  128 :: repeat 0 (Z.to_nat ((55 - len) mod 64)) ++ be_bytes 8 (8 * len).

Fixpoint words (fuel : nat) (bytes : list Z) : list Z :=
  match fuel, bytes with
  | S f, b0 :: b1 :: b2 :: b3 :: rest =>
      (b0 * 16777216 + b1 * 65536 + b2 * 256 + b3) :: words f rest
  | _, _ => []
  end.

Definition word (w : list Z) (i : nat) : Z := nth i w 0.

(** The eighty words of a block, from its sixteen. *)
Fixpoint schedule (n : nat) (w : list Z) : list Z :=
  match n with
  | O => w
  | S n' =>
      let i := length w in
      schedule n'
        (w ++ [rotl 1 (Z.lxor (Z.lxor (word w (i - 3)) (word w (i - 8)))
                              (Z.lxor (word w (i - 14)) (word w (i - 16))))])
  end.

Definition state := (Z * Z * Z * Z * Z)%type.

Definition round (i : nat) (st : state) (wi : Z) : state :=
  let '(a, b, c, d, e) := st in
  let '(f, k) :=
    if (i <? 20)%nat then
      (Z.lor (Z.land b c) (Z.land (lnot32 b) d), 1518500249)
    else if (i <? 40)%nat then (Z.lxor (Z.lxor b c) d, 1859775393)
    else if (i <? 60)%nat then
      (Z.lor (Z.lor (Z.land b c) (Z.land b d)) (Z.land c d), 2400959708)
    else (Z.lxor (Z.lxor b c) d, 3395469782) in
  let temp := add (add (add (add (rotl 5 a) f) e) k) wi in
  (temp, a, rotl 30 b, c, d).

Fixpoint rounds (i : nat) (ws : list Z) (st : state) : state :=
  match ws with
  | [] => st
  | wi :: ws' => rounds (S i) ws' (round i st wi)
  end.

Definition block (h : state) (w16 : list Z) : state :=
  let '(h0, h1, h2, h3, h4) := h in
  let '(a, b, c, d, e) := rounds 0 (schedule 64 w16) h in
  (add h0 a, add h1 b, add h2 c, add h3 d, add h4 e).

Fixpoint blocks (fuel : nat) (ws : list Z) (h : state) : state :=
  match fuel with
  | O => h
  | S f =>
      match ws with
      | [] => h
      | _ => blocks f (skipn 16 ws) (block h (firstn 16 ws))
      end
  end.

Definition init : state :=
  (1732584193, 4023233417, 2562383102, 271733878, 3285377520).

Definition digest (msg : list Z) : state :=
  let bytes := msg ++ padding (Z.of_nat (length msg)) in
  let ws := words (length bytes) bytes in
  blocks (length ws) ws init.

Definition hex8 (x : Z) : str :=
  map (fun k => hex_digit (Z.to_nat (Z.shiftr x (4 * Z.of_nat k) mod 16)))
      [7; 6; 5; 4; 3; 2; 1; 0]%nat.

(** [hashlib.sha1(msg).hexdigest()] *)
Definition hexdigest (msg : list Z) : str :=
  let '(h0, h1, h2, h3, h4) := digest msg in
  hex8 h0 ++ hex8 h1 ++ hex8 h2 ++ hex8 h3 ++ hex8 h4.

End SHA1.

(** [hashlib.sha1(basis.encode('utf-8')).hexdigest()[:8]] of the row. *)
Definition row_digest (r : row) : str :=
  firstn 8 (SHA1.hexdigest (utf8 (json_dumps_sorted r))).

(** ** Emails, phone numbers and file names *)

Definition email_local_char (c : ascii) : bool :=
  is_ascii_alnum c || existsb (Ascii.eqb c) (lit "._%+-").

Definition email_domain_char (c : ascii) : bool :=
  is_ascii_alnum c || existsb (Ascii.eqb c) (lit ".-").

Definition is_ascii_alpha (c : ascii) : bool :=
  is_ascii_upper c || is_ascii_lower c.

Definition nonempty_all (f : ascii -> bool) (s : str) : bool :=
  negb (is_empty_str s) && forallb f s.

(** [EMAIL_RE.match(t)] on a string without blanks at its ends: a local
    part, [@], a domain, and after the last dot of the domain two letters
    or more. *)
Definition email_re_match (t : str) : bool :=
  match partition_sub (lit "@") t with
  | None => false
  | Some (local, rest) =>
      nonempty_all email_local_char local
      && match partition_sub (lit ".") (rev rest) with
         | None => false
         | Some (rtld, rdom) =>
             nonempty_all email_domain_char rdom
             && (2 <=? length rtld) && forallb is_ascii_alpha rtld
         end
  end.

(** [is_valid_email(s)] *)
Definition is_valid_email (s : str) : bool :=
  if is_empty_str s then false else email_re_match (strip s).

(** [str(x or '')] of [x = d.get(k)]. *)
Definition text_of (o : option value) : str :=
  match o with
  | Some v => if truthy v then py_str v else []
  | None => []
  end.

(** [(x or '').strip()] of [x = d.get(k)]: [None] stands for the
    [AttributeError] of a list or of a boolean. *)
Definition strip_text (o : option value) : option str :=
  match o with
  | None => Some []
  | Some v =>
      if truthy v then
        match v with
        | VStr s => Some (strip s)
        | _ => None
        end
      else Some []
  end.

(** [normalize_phone(fr_phone)] *)
Definition normalize_phone (fr_phone : value) : str :=
  if negb (truthy fr_phone) then []
  else
    let s := filter (fun c => is_ascii_digit c || Ascii.eqb c "+")
                    (py_str fr_phone) in
    let s := if startswith (lit "00") s then "+"%char :: skipn 2 s else s in
    if startswith (lit "+33") s && ((length s =? 12) || (length s =? 13)) then
      let r := skipn 3 s in
      lit "+33" ++ (if startswith (lit "0") r then tl r else r)
    else if startswith (lit "0") s && (10 <=? length s) then
      lit "+33" ++ tl s
    else s.

(** [get_contact_value(contact, aliases)] *)
Definition get_contact_value (c : contact) (aliases : list str) : str :=
  let norm_map :=
    fold_left (fun m k => dict_set m (_norm_key_for_match k) k)
              (dict_keys c) ([] : dict str) in
  let fix loop (l : list str) : str :=
    match l with
    | [] => []
    | a :: l' =>
        match dict_get norm_map (_norm_key_for_match a) with
        | Some orig =>
            match dict_get c orig with
            | Some (VStr v) => if is_blank v then loop l' else strip v
            | _ => loop l'
            end
        | None => loop l'
        end
    end in
  loop aliases.

Definition forbidden_char (c : ascii) : bool :=
  Ascii.eqb c backslash || Ascii.eqb c dquote
  || existsb (Ascii.eqb c) (lit "/:*?<>|").

(** [sanitize_filename(title)] *)
Definition sanitize_filename (title : value) : str :=
  let s := strip (text_of (Some title)) in
  let s := collapse_runs forbidden_char " "%char s in
  let s := strip (collapse_runs is_space " "%char s) in
  if is_empty_str s then lit "contact" else s.

(** ** The store and its indexes *)

(** The [.md] files of the output folder, in the order of the scan: name
    to the text written. *)
Definition store := dict str.

(** [p.read_text(encoding='utf-8')] of a file that holds [s]: a carriage
    return, alone or before a newline, is read as a newline. *)
Fixpoint read_text (s : str) : str :=
  match s with
  | [] => []
  | c :: s' =>
      if code c =? 13 then
        match s' with
        | d :: t => if code d =? 10 then newline :: read_text t
                    else newline :: read_text s'
        | [] => [newline]
        end
      else c :: read_text s'
  end.

Definition email_key (key : str) : bool :=
  let n := _norm_key_for_match key in
  contains (lit "email") n || contains (lit "mail") n.

Definition email_candidates (fm : metadata) : list str :=
  flat_map (fun kv =>
              if email_key (fst kv) then
                match snd kv with
                | VList l => map (fun item => lower (strip item)) l
                | v => [lower (strip (py_str v))]
                end
              else []) fm.

Definition index_file (idx : dict str * dict str) (file : str * str)
  : dict str * dict str :=
  let (by_id, by_email) := idx in
  let (md, written) := file in
  let txt := read_text written in
  let fm := fst (read_frontmatter txt) in
  match fm with
  | [] => idx
  | _ =>
      let by_id :=
        match dict_get fm (lit "id_mslist") with
        | Some v => if truthy v then dict_set by_id (py_str v) md else by_id
        | None => by_id
        end in
      let by_email :=
        fold_left (fun m e =>
                     if negb (is_empty_str e) && is_valid_email e
                     then dict_set m e md else m)
                  (email_candidates fm) by_email in
      (by_id, by_email)
  end.

(** [build_existing_indexes(out_dir)], every file being readable. *)
Definition build_existing_indexes (st : store) : dict str * dict str :=
  fold_left index_file st ([], []).

(** [choose_primary_email_lower(contact)] *)
Definition choose_primary_email_lower (c : contact) : str :=
  let fix loop (keys : list str) : str :=
    match keys with
    | [] => []
    | ek :: keys' =>
        match dict_get c ek with
        | Some v =>
            if truthy v && negb (is_blank (py_str v)) then
              let candidate := lower (strip (py_str v)) in
              if is_valid_email candidate then candidate else loop keys'
            else loop keys'
        | None => loop keys'
        end
    end in
  loop [lit "email"; lit "Mail_Pro"; lit "Mail_Perso"; lit "mail_pro";
        lit "mail_perso"].

Definition get_or (c : contact) (k : str) (default : value) : value :=
  match dict_get c k with Some v => v | None => default end.

(** The fields that [build_frontmatter] sets first. *)
Definition frontmatter_base (c : contact) (now : str) : metadata :=
  [(lit "Nom", get_or c (lit "Nom") (VStr []));
   (Prenom, get_or c Prenom (VStr []));
   (lit "Tel_Mobile", get_or c (lit "Tel_Mobile") (VStr []));
   (lit "Tel_Fixe", get_or c (lit "Tel_Fixe") (VStr []));
   (lit "Mail_Pro", get_or c (lit "Mail_Pro") (VStr []));
   (lit "Mail_Perso", get_or c (lit "Mail_Perso") (VStr []));
   (lit "organisation", get_or c (lit "organisation") (VStr []));
   (lit "id_mslist", get_or c (lit "id_mslist") (VStr []));
   (lit "groupes", get_or c (lit "groupes") (VList []));
   (lit "type", get_or c (lit "type") (VStr (lit "contact")));
   (lit "source_updated", VStr now)].

(** The transform of one phone field. *)
Definition frontmatter_phone (fm : metadata) (k : str) : metadata :=
  match dict_get fm k with
  | Some v => if truthy v then dict_set fm k (VStr (normalize_phone v)) else fm
  | None => fm
  end.

(** One turn of the loop that adds the keys left of the contact. *)
Definition frontmatter_step (fm : metadata) (kv : str * value) : metadata :=
  let (k, v) := kv in
  if str_eqb k (lit "src_id_mslist") then fm
  else if mem_str k [lit "email"; lit "telephone"]
          && negb (truthy v && negb (is_blank (py_str v)))
  then fm
  else if dict_mem fm k then fm
  else dict_set fm k v.

(** [build_frontmatter(contact, cfg)], [now] being the text of the clock
    for [source_updated]. *)
Definition build_frontmatter (c : contact) (cfg : config) (now : str) : metadata :=
  let fm := frontmatter_base c now in
  let fm :=
    if cfg_normalize_phone_fr cfg
    then frontmatter_phone (frontmatter_phone fm (lit "Tel_Mobile"))
           (lit "Tel_Fixe")
    else fm in
  fold_left frontmatter_step c fm.

(** ** The pipeline on one row *)

Inductive action := SKIPPED | CREATED | UPDATED.

(** What [process_contact_row] returns. *)
Record outcome := {
  out_action : action;
  out_target : option str;
  out_text : option str;
  out_contact : contact
}.

Definition skipped (c : contact) : outcome :=
  {| out_action := SKIPPED; out_target := None; out_text := None;
     out_contact := c |}.

(** The identity composed for a row that is kept, and the sequence counter
    after it; [None] first when the row is to be skipped. *)
Definition compose_id (r : row) (args : arguments) (src_ms_id : str)
  (seq_counter : Z) : option (option str) * Z :=
  if str_isdigit src_ms_id then
    (Some (Some (format_composed_id (arg_id_prefix args) src_ms_id
                   (arg_id_pad args))), seq_counter)
  else
    match arg_id_fallback args with
    | FbSeq =>
        (Some (Some (format_composed_id (arg_id_prefix args)
                       (str_of_Z seq_counter) (arg_id_pad args))),
         (seq_counter + 1)%Z)
    | FbHash =>
        (Some (Some (format_composed_id (arg_id_prefix args) (row_digest r)
                       (arg_id_pad args))), seq_counter)
    | FbRaw =>
        if is_empty_str src_ms_id then (Some None, seq_counter)
        else (Some (Some (format_composed_id (arg_id_prefix args) src_ms_id
                            (arg_id_pad args))), seq_counter)
    | FbSkip => (None, seq_counter)
    end.

(** [contact.get(k1) or contact.get(k2) or ...]: the first value that is
    true, with its key. *)
Fixpoint first_true (c : contact) (keys : list str) : option (str * value) :=
  match keys with
  | [] => None
  | k :: keys' =>
      match dict_get c k with
      | Some v => if truthy v then Some (k, v) else first_true c keys'
      | None => first_true c keys'
      end
  end.

(** The title before the name of the establishment is added: a text of its
    own, or a value of the contact with the key that holds it. [None]
    stands for a name whose capitals are not all below 256. *)
Definition title_human_of (c : contact) (last_name first_name : str)
  : option (value * option str) :=
  if negb (is_empty_str last_name) then
    match narrow (upper last_name) with
    | Some u =>
        Some (VStr (u ++ (if is_empty_str first_name then []
                          else lit " " ++ first_name)), None)
    | None => None
    end
  else if negb (is_empty_str first_name) then Some (VStr first_name, None)
  else
    match first_true c [lit "organisation"; lit "email"] with
    | Some (k, v) => Some (v, Some k)
    | None => Some (VStr (lit "contact"), None)
    end.

(** [title_human += suffix], the title being held by the contact at
    [held]: a string is a new text; a list is extended in place by the
    characters of [suffix], so that the contact holds the longer list;
    [None] stands for the [TypeError] of a boolean. *)
Definition title_add (c : contact) (title : value) (held : option str)
  (suffix : str) : option (value * contact) :=
  match title with
  | VStr s => Some (VStr (s ++ suffix), c)
  | VList l =>
      let l' := l ++ map (fun ch => [ch]) suffix in
      Some (VList l', match held with
                      | Some k => dict_set c k (VList l')
                      | None => c
                      end)
  | VBool _ => None
  end.

Definition Etablissement_aliases : list str :=
  [lit "Etablissement"; ascii_of_nat 201 :: lit "tablissement";
   lit "etablissement"; lit "organisation"; lit "Organisation"].

(** The title of a contact and the contact after the title is made;
    [None] stands for an exception, or for a title that is not
    represented. *)
Definition title_of (c : contact) : option (value * contact) :=
  match strip_text (dict_get c (lit "Nom")),
        strip_text (dict_get c Prenom) with
  | Some last_name, Some first_name =>
      let etab := get_contact_value c Etablissement_aliases in
      match title_human_of c last_name first_name with
      | Some (title_human, held) =>
          if is_empty_str etab then Some (title_human, c)
          else title_add c title_human held (lit " - " ++ etab)
      | None => None
      end
  | _, _ => None
  end.

(** The contact after its title is made. *)
Definition titled (c : contact) : contact :=
  match title_of c with
  | Some (_, c') => c'
  | None => c
  end.

(** The loop that looks for a name that is free, [fuel] bounding its
    turns. *)
Fixpoint fresh_loop (st : store) (filename_base : str) (fuel : nat) (i : Z)
  (target : str) : str :=
  if dict_mem st target then
    match fuel with
    | O => target
    | S f =>
        fresh_loop st filename_base f (i + 1)%Z
          (filename_base ++ lit " - " ++ str_of_Z i ++ lit ".md")
    end
  else target.

Definition fresh_target (st : store) (filename_base : str) : str :=
  fresh_loop st filename_base (length st) 2%Z (filename_base ++ lit ".md").

(** The document that a contact goes to: the one indexed for its identity,
    else the one indexed for its primary email, else a new one. *)
Definition match_target (unique_id email_lc : str)
  (existing_by_id existing_by_email : dict str) (st : store)
  (filename_base : str) : str :=
  match (if is_empty_str unique_id then None
         else dict_get existing_by_id unique_id) with
  | Some target => target
  | None =>
      match (if is_empty_str email_lc then None
             else dict_get existing_by_email email_lc) with
      | Some target => target
      | None => fresh_target st filename_base
      end
  end.

Definition required_fields (cfg : config) : list str :=
  match cfg_required_fields cfg with
  | Some l => l
  | None => DEFAULT_REQUIRED
  end.

Definition preserve_keys_of (cfg : config) : list str :=
  match cfg_preserve_keys cfg with
  | Some l => l
  | None => DEFAULT_PRESERVE_KEYS
  end.

Definition body_default : str := [newline].

Section Pipeline.

Variable json_items : str -> option (list str).

(** The end of [process_contact_row], from the title on: [c0] is the
    contact before the title is made, [c] the contact after it. *)
Definition route_contact (c0 : contact) (cfg : config) (args : arguments)
  (existing_by_id existing_by_email : dict str) (st : store) (now : str)
  : option outcome :=
  match title_of c0 with
  | None => None
  | Some (title_human, c) =>
      let filename_base := sanitize_filename title_human in
      let unique_id := strip (text_of (dict_get c (arg_id_key args))) in
      let email_lc := choose_primary_email_lower c in
      let target :=
        match_target unique_id email_lc existing_by_id existing_by_email
          st filename_base in
      let new_fm := build_frontmatter c cfg now in
      match dict_get st target with
      | Some written =>
          let txt := read_text written in
          let (old_fm, old_body) := read_frontmatter txt in
          let authoritative :=
            DEFAULT_OVERWRITE_KEYS ++ cfg_overwrite_keys cfg in
          let merged :=
            merge_frontmatter old_fm new_fm (preserve_keys_of cfg)
              authoritative in
          Some {| out_action := UPDATED; out_target := Some target;
                  out_text :=
                    Some (dump_frontmatter merged
                          ++ (if is_empty_str old_body then body_default
                              else old_body));
                  out_contact := c |}
      | None =>
          Some {| out_action := CREATED; out_target := Some target;
                  out_text := Some (dump_frontmatter new_fm ++ body_default);
                  out_contact := c |}
      end
  end.

(** The contact of a row, after the test of the required fields and the
    composition of its identity. *)
Inductive prepared :=
| Skip (c : contact)
| Keep (c : contact).

(** The beginning of [process_contact_row], up to the title: the contact
    built from the row, skipped when every required field is blank or when
    the fallback says so, else kept with the identity composed for it; and
    the sequence counter after it. *)
Definition prepare_contact (r : row) (cfg : config) (args : arguments)
  (seq_counter : Z) : prepared * Z :=
  let c := build_contact json_items r cfg (arg_project args) in
  if negb (existsb (fun k => negb (is_blank (text_of (dict_get c k))))
             (required_fields cfg))
  then (Skip c, seq_counter)
  else
    let src_ms_id := strip (text_of (dict_get c (lit "id_mslist"))) in
    if is_empty_str (arg_id_prefix args) then (Keep c, seq_counter)
    else
      match compose_id r args src_ms_id seq_counter with
      | (None, n) => (Skip c, n)
      | (Some None, n) => (Keep c, n)
      | (Some (Some composed), n) =>
          if is_empty_str composed then (Keep c, n)
          else (Keep (dict_set c (lit "id_mslist") (VStr composed)), n)
      end.

(** [process_contact_row(row, cfg, args, existing_by_id,
    existing_by_email, out_dir)]: the outcome and the sequence counter
    after the call; [None] stands for an exception that the source does
    not catch. *)
Definition process_contact_row (r : row) (cfg : config) (args : arguments)
  (existing_by_id existing_by_email : dict str) (st : store) (now : str)
  (seq_counter : Z) : option (outcome * Z) :=
  match prepare_contact r cfg args seq_counter with
  | (Skip c, n) => Some (skipped c, n)
  | (Keep c, n) =>
      option_map (fun o => (o, n))
        (route_contact c cfg args existing_by_id existing_by_email st now)
  end.

(** The state of the loop of [main]. *)
Record run_state := {
  rs_store : store;
  rs_seq : Z;
  rs_created : nat;
  rs_updated : nat;
  rs_skipped : nat
}.

(** One turn of the loop of [main]; a write always succeeds. *)
Definition main_step (cfg : config) (args : arguments)
  (existing_by_id existing_by_email : dict str) (now : str)
  (s : run_state) (r : row) : option run_state :=
  match process_contact_row r cfg args existing_by_id existing_by_email
          (rs_store s) now (rs_seq s) with
  | None => None
  | Some (o, n) =>
      match out_action o with
      | SKIPPED =>
          Some {| rs_store := rs_store s; rs_seq := n;
                  rs_created := rs_created s; rs_updated := rs_updated s;
                  rs_skipped := S (rs_skipped s) |}
      | act =>
          let st' :=
            match out_target o, out_text o with
            | Some target, Some md_text =>
                if arg_dry_run args then rs_store s
                else dict_set (rs_store s) target md_text
            | _, _ => rs_store s
            end in
          Some {| rs_store := st'; rs_seq := n;
                  rs_created :=
                    match act with
                    | CREATED => S (rs_created s)
                    | _ => rs_created s
                    end;
                  rs_updated :=
                    match act with
                    | UPDATED => S (rs_updated s)
                    | _ => rs_updated s
                    end;
                  rs_skipped := rs_skipped s |}
      end
  end.

(** The loop of [main]; [clock i] is the text of the clock when the row
    of rank [i] is processed. *)
Fixpoint main_loop (cfg : config) (args : arguments)
  (existing_by_id existing_by_email : dict str) (clock : nat -> str)
  (i : nat) (rows : list row) (s : run_state) : option run_state :=
  match rows with
  | [] => Some s
  | r :: rows' =>
      match main_step cfg args existing_by_id existing_by_email (clock i)
              s r with
      | None => None
      | Some s' =>
          main_loop cfg args existing_by_id existing_by_email clock (S i)
            rows' s'
      end
  end.

Definition initial_state (st : store) : run_state :=
  {| rs_store := st; rs_seq := 1; rs_created := 0; rs_updated := 0;
     rs_skipped := 0 |}.

(** The run of [main] once the configuration and the rows are loaded: the
    indexes are built once from the store, the sequence counter starts at
    one. *)
Definition run (cfg : config) (args : arguments) (rows : list row)
  (st : store) (clock : nat -> str) : option run_state :=
  let (existing_by_id, existing_by_email) := build_existing_indexes st in
  main_loop cfg args existing_by_id existing_by_email clock 0 rows
    (initial_state st).

End Pipeline.

(** ** Sample inputs *)

(** A decoder of list literals for inputs that hold none. *)
Definition no_list_literal : str -> option (list str) := fun _ => None.

(** The configuration [{}]. *)
Definition empty_config : config :=
  {| cfg_aliases := []; cfg_extras := ExtrasOther; cfg_list_fields := [];
     cfg_normalize_phone_fr := false; cfg_projects := [];
     cfg_boolean_fields := []; cfg_preserve_keys := None;
     cfg_overwrite_keys := []; cfg_required_fields := None |}.

Definition sco_args (fb : fallback) : arguments :=
  {| arg_project := []; arg_id_key := lit "id_mslist";
     arg_id_prefix := lit "SCO"; arg_id_pad := 3; arg_id_fallback := fb;
     arg_dry_run := false |}.

Definition plain_args : arguments :=
  {| arg_project := []; arg_id_key := lit "id_mslist"; arg_id_prefix := [];
     arg_id_pad := 3; arg_id_fallback := FbSeq; arg_dry_run := false |}.

Definition noon (i : nat) : str := lit "2025-01-01T12:00:00Z".

Definition dupont_row : row :=
  [(lit "id_mslist", lit "7"); (lit "Nom", lit "Dupont");
   (lit "Mail_Pro", lit "jean.dupont@example.org")].


Definition name_only_row : row := [(lit "Nom", lit "Dupont")].

Definition digest_row : row := [(lit "Nom", lit "Dupont426")].

(** The store after a run, the empty store when the run raises. *)
Definition store_after (o : option run_state) : store :=
  match o with Some s => rs_store s | None => [] end.

(** Every document that an index names is in the store. *)
Definition index_in_store (idx : dict str) (st : store) : bool :=
  forallb (fun kv => dict_mem st (snd kv)) idx.

Definition outcome_of (x : option (outcome * Z)) : outcome :=
  match x with Some (o, _) => o | None => skipped [] end.

Definition counter_of (x : option (outcome * Z)) : Z :=
  match x with Some (_, n) => n | None => 0%Z end.

(** Two documents, and a row that has the identity of the first and the
    email of the second. *)
Definition two_docs : store :=
  [(lit "DUPONT.md",
    dump_frontmatter [(lit "id_mslist", VStr (lit "SCO-007"));
                      (lit "Mail_Pro", VStr (lit "jean.dupont@example.org"))]
    ++ [newline]);
   (lit "MARTIN.md",
    dump_frontmatter [(lit "id_mslist", VStr (lit "SCO-008"));
                      (lit "Mail_Pro", VStr (lit "anne.martin@example.org"))]
    ++ [newline])].

Definition crossed_row : row :=
  [(lit "id_mslist", lit "7"); (lit "Nom", lit "Dupont");
   (lit "Mail_Pro", lit "anne.martin@example.org")].

Definition crossed_result : option (outcome * Z) :=
  process_contact_row no_list_literal crossed_row empty_config (sco_args FbSeq)
    (fst (build_existing_indexes two_docs))
    (snd (build_existing_indexes two_docs)) two_docs (noon 0) 1.

(** A document whose text ends with the closing delimiter, and a row with
    its identity. *)
Definition bare_doc : store :=
  [(lit "DUPONT.md", lit "---" ++ [newline] ++ lit "id_mslist: A7"
                     ++ [newline] ++ lit "---")].

Definition a7_row : row := [(lit "id_mslist", lit "A7"); (lit "Nom", lit "Dupont")].

Definition a7_result : option (outcome * Z) :=
  process_contact_row no_list_literal a7_row empty_config plain_args
    (fst (build_existing_indexes bare_doc))
    (snd (build_existing_indexes bare_doc)) bare_doc (noon 0) 1.

(** Arguments that name an identity key of their own, and a row with an
    identity and no address. *)
Definition ref_args : arguments :=
  {| arg_project := []; arg_id_key := lit "Ref"; arg_id_prefix := lit "SCO";
     arg_id_pad := 3; arg_id_fallback := FbSeq; arg_dry_run := false |}.

Definition ref_result : option (outcome * Z) :=
  process_contact_row no_list_literal crossed_row empty_config ref_args
    (fst (build_existing_indexes two_docs))
    (snd (build_existing_indexes two_docs)) two_docs (noon 0) 1.

Definition plain_row : row := [(lit "id_mslist", lit "7"); (lit "Nom", lit "Dupont")].

Definition ref_plain_result : option (outcome * Z) :=
  process_contact_row no_list_literal plain_row empty_config ref_args
    (fst (build_existing_indexes two_docs))
    (snd (build_existing_indexes two_docs)) two_docs (noon 0) 1.

(** A document with a body, and the store after one update and after two
    updates of it by [a7_row]. *)
Definition noted_text : str :=
  lit "---" ++ [newline] ++ lit "id_mslist: A7" ++ [newline] ++ lit "---"
  ++ [newline] ++ lit "Mes notes".

Definition noted_doc : store := [(lit "DUPONT.md", noted_text)].

Definition update_noted (st : store) : store :=
  store_after (run no_list_literal empty_config plain_args [a7_row] st noon).



(** Three runs on the same row, each on the store that the run before it
    left. *)
Definition rerun (r : row) (st : store) : store :=
  store_after (run no_list_literal empty_config plain_args [r] st noon).

Definition state_of (o : option run_state) : run_state :=
  match o with Some s => s | None => initial_state [] end.

(** ** Auxiliary definitions of the proofs *)

(** The text of a sequence of lines, each followed by a newline. *)
Definition block_of (lines : list str) : str :=
  concat (map (fun l => l ++ [newline]) lines).

Definition hd_not (f : ascii -> bool) (s : str) : Prop :=
  match s with [] => True | c :: _ => f c = false end.

Definition bare (s : str) : Prop := s <> [] /\ forallb safe_char s = true.

Record key_facts (k : str) : Prop := {
  kf_colon : ~ In ":"%char k;
  kf_lines : no_linebreak k = true;
  kf_hd : hd_not is_space k;
  kf_dash : startswith (lit "- ") k = false;
  kf_delim : no_delim k = true
}.

(** A line that opens a key is not taken for a list item. *)
Definition not_item (l : str) : Prop :=
  startswith (lit "  - ") l = false /\ startswith (lit "- ") (strip l) = false.

Definition key_head (lines : list str) : Prop :=
  match lines with [] => True | l :: _ => not_item l end.

Record item_facts (s : str) : Prop := {
  if_dq : no_dquote s = true;
  if_lines : no_linebreak s = true;
  if_delim : no_delim s = true;
  if_hd : hd_not (Ascii.eqb squote) s;
  if_last : hd_not (Ascii.eqb squote) (rev s)
}.

Definition item_line (s : str) : str := lit "  - " ++ quote_str s.

Definition line_clean (l : str) : bool := no_delim l && no_linebreak l.

Definition candidate (filename_base : str) (k : nat) : str :=
  match k with
  | O => filename_base ++ lit ".md"
  | S _ => filename_base ++ lit " - " ++ str_of_Z (Z.of_nat k + 1) ++ lit ".md"
  end.

(** Two dictionaries with the same keys and, off one key, the same values. *)
Definition agree_off (x : str) (a b : metadata) : Prop :=
  forall k, dict_mem a k = dict_mem b k
            /\ (k <> x -> dict_get a k = dict_get b k).

Definition source_updated : str := lit "source_updated".

(** The merged metadata of a document that is updated. *)
Definition merged_for (c : contact) (cfg : config) (now : str) (txt : str)
  : metadata :=
  merge_frontmatter (fst (read_frontmatter txt)) (build_frontmatter c cfg now)
    (preserve_keys_of cfg) (DEFAULT_OVERWRITE_KEYS ++ cfg_overwrite_keys cfg).

Definition carried_body (txt : str) : str :=
  if is_empty_str (snd (read_frontmatter txt)) then body_default
  else snd (read_frontmatter txt).

Definition routed_target (c : contact) (args : arguments)
  (by_id by_email : dict str) (st : store) (base : str) : str :=
  match_target (strip (text_of (dict_get c (arg_id_key args))))
    (choose_primary_email_lower c) by_id by_email st base.

(** The order of [sort_items] on the items of a row. *)
Definition key_le (a b : str * str) : Prop := str_leb (fst a) (fst b) = true.

(** ** Runs on the store of a run *)

Definition id_field : str := lit "id_mslist".

(** The contacts that a run keeps, in the order of the rows, the sequence
    counter being [n] before the first row. *)
Fixpoint kept_contacts (json_items : str -> option (list str)) (cfg : config)
  (args : arguments) (rows : list row) (n : Z) : list contact :=
  match rows with
  | [] => []
  | r :: rows' =>
      match prepare_contact json_items r cfg args n with
      | (Keep c, m) => c :: kept_contacts json_items cfg args rows' m
      | (Skip _, m) => kept_contacts json_items cfg args rows' m
      end
  end.

(** The contacts that a run routes: those it keeps, after their titles are
    made. *)
Definition routed_contacts (json_items : str -> option (list str))
  (cfg : config) (args : arguments) (rows : list row) : list contact :=
  map titled (kept_contacts json_items cfg args rows 1).

(** The identity under which a contact is looked up. *)
Definition lookup_id (args : arguments) (c : contact) : str :=
  strip (text_of (dict_get c (arg_id_key args))).

(** The identity that the document written for a contact holds: the text of
    its value under [id_mslist], when that value is true. *)
Definition doc_id (c : contact) : option str :=
  if truthy (get_or c id_field (VStr []))
  then Some (py_str (get_or c id_field (VStr []))) else None.

(** The addresses under which the document written for a contact is
    indexed. *)
Definition doc_emails (cfg : config) (c : contact) : list str :=
  filter (fun e => negb (is_empty_str e) && is_valid_email e)
         (email_candidates (build_frontmatter c cfg [])).

Definition holds_identity (u : str) (c : contact) : bool :=
  match doc_id c with
  | Some u' => str_eqb u u'
  | None => false
  end.

Definition holds_address (cfg : config) (e : str) (c : contact) : bool :=
  mem_str e (doc_emails cfg c).

Definition count_of {A} (f : A -> bool) (l : list A) : nat :=
  length (filter f l).

(** A contact finds the document written for it, and no other, among the
    documents written for the contacts [all]: when the document of some
    contact holds the identity under which it is looked up, its own
    document does and no other; else its primary email is not empty, its
    own document is indexed under it and no other is. *)
Definition settled (cfg : config) (args : arguments) (all : list contact)
  (c : contact) : bool :=
  let u := lookup_id args c in
  let e := choose_primary_email_lower c in
  if negb (is_empty_str u) && existsb (holds_identity u) all
  then holds_identity u c && (count_of (holds_identity u) all =? 1)%nat
  else negb (is_empty_str e) && holds_address cfg e c
       && (count_of (holds_address cfg e) all =? 1)%nat.

(** A contact that is kept and whose runs are steady: it has a title, the
    codec carries its metadata through, and it finds its own document. *)
Definition steady (cfg : config) (args : arguments) (all : list contact)
  (c0 : contact) : bool :=
  match title_of c0 with
  | Some (_, c) =>
      metadata_ok (build_frontmatter c cfg []) && settled cfg args all c
  | None => false
  end.

(** The metadata with the text [now] for [source_updated]. *)
Definition retime (now : str) (m : metadata) : metadata :=
  map (fun kv => if str_eqb (fst kv) source_updated then (fst kv, VStr now)
                 else kv) m.

(** A file that holds the metadata built from a contact at some time, which
    the codec carries through, and a body. *)
Definition doc_of (cfg : config) (c : contact) (file : str * str) : Prop :=
  exists now body,
    snd file = dump_frontmatter (build_frontmatter c cfg now) ++ body
    /\ metadata_ok (build_frontmatter c cfg now) = true.

(** A store that holds, in their order and under distinct names, a document
    of each of the contacts. *)
Definition own_docs (cfg : config) (all : list contact) (st : store) : Prop :=
  Forall2 (doc_of cfg) all st /\ distinct (dict_keys st) = true.

(** The indexes send every contact that is settled to the document written
    for it, [names] being the names of the documents in their order. *)
Definition routes_home (cfg : config) (args : arguments) (all : list contact)
  (names : list str) (by_id by_email : dict str) : Prop :=
  forall l1 c l2 st base,
    all = l1 ++ c :: l2 -> settled cfg args all c = true ->
    routed_target c args by_id by_email st base = nth (length l1) names [].

(** Two files of the same name whose metadata, as they are read, bind every
    key but [source_updated] alike. *)
Definition same_values (f1 f2 : str * str) : Prop :=
  fst f1 = fst f2
  /\ forall k, k <> source_updated ->
       dict_get (fst (read_frontmatter (read_text (snd f1)))) k
       = dict_get (fst (read_frontmatter (read_text (snd f2)))) k.

(** Rows for runs that are steady: one with an identity and an address, one
    with an address only. *)
Definition martin_row : row :=
  [(lit "Nom", lit "Martin"); (lit "Mail_Pro", lit "anne.martin@example.org")].

Definition steady_rows : list row := [dupont_row; martin_row].

(** Rows whose runs are not steady: a name that holds the delimiter, an
    identity between blanks, notes with a quotation, and three rows of which
    two share an address and two an identity. *)
Definition dash_row : row :=
  [(lit "id_mslist", lit "7"); (lit "Nom", lit "a---b")].

Definition blank_id_row : row :=
  [(lit "id_mslist", lit " 7 "); (lit "Nom", lit "Dupont")].

Definition quoted_notes_row : row :=
  [(lit "id_mslist", lit "7"); (lit "Nom", lit "C");
   (lit "notes", lit "dit " ++ [dquote] ++ lit "oui" ++ [dquote])].

Definition shared_rows : list row :=
  [[(lit "Nom", lit "B"); (lit "Mail_Pro", lit "e@x.fr")];
   [(lit "id_mslist", lit "7"); (lit "Nom", lit "C");
    (lit "Mail_Pro", lit "e@x.fr")];
   [(lit "id_mslist", lit "7"); (lit "Nom", lit "D")]].

(** A run on rows, from a store, with the arguments and the clock of the
    samples. *)
Definition rerun_all (cfg : config) (rows : list row) (st : store) : store :=
  store_after (run no_list_literal cfg plain_args rows st noon).

(** The value that each document of a store binds to a key. *)
Definition values_at (k : str) (st : store) : list (option value) :=
  map (fun f => dict_get (fst (read_frontmatter (read_text (snd f)))) k) st.

(** ** Sample inputs and auxiliary definitions of further properties *)

(** Incoming metadata for [merge_existing] without a key bound twice. *)
Definition merge_fresh : metadata :=
  [(lit "Nom", VStr (lit "New")); (lit "site", VStr (lit "x"))].

(** The characters of a normalized key. *)
Definition key_char (c : ascii) : bool := is_ascii_lower c || is_ascii_digit c.

(** The characters of a slug. *)
Definition slug_char (c : ascii) : bool :=
  is_ascii_lower c || is_ascii_digit c || Ascii.eqb c underscore
  || Ascii.eqb c hyphen.

(** The characters of a prefix. *)
Definition prefix_char (c : ascii) : bool :=
  is_ascii_upper c || is_ascii_digit c || Ascii.eqb c underscore.

(** The character [x] never occurs twice in a row. *)
Fixpoint no_double (x : ascii) (s : str) : bool :=
  match s with
  | c :: ((d :: _) as s') =>
      negb (Ascii.eqb c x && Ascii.eqb d x) && no_double x s'
  | _ => true
  end.

(** The separators of [split_list] below 256. *)
Definition list_sep (c : ascii) : bool :=
  existsb (Ascii.eqb c) [";"%char; ","%char; "|"%char; ascii_of_nat 183].

(** An item that [split_list] gives back: not empty, no blank at its ends,
    no separator. *)
Definition clean_item (p : str) : bool :=
  negb (is_empty_str p) && str_eqb (strip p) p
  && forallb (fun c => negb (list_sep c)) p.

(** The characters of a normalized phone number. *)
Definition phone_char (c : ascii) : bool := is_ascii_digit c || Ascii.eqb c "+".

(** The keys under which [choose_primary_email_lower] looks for an
    address. *)
Definition email_fields : list str :=
  [lit "email"; lit "Mail_Pro"; lit "Mail_Perso"; lit "mail_pro";
   lit "mail_perso"].

(** The loop of [choose_primary_email_lower] over the keys that are left. *)
Fixpoint primary_email_loop (c : contact) (keys : list str) : str :=
  match keys with
  | [] => []
  | ek :: keys' =>
      match dict_get c ek with
      | Some v =>
          if truthy v && negb (is_blank (py_str v)) then
            let candidate := lower (strip (py_str v)) in
            if is_valid_email candidate then candidate
            else primary_email_loop c keys'
          else primary_email_loop c keys'
      | None => primary_email_loop c keys'
      end
  end.

(** The text [txt] holds the identity [u]: its metadata bind the identity
    field to a value that is true and whose text is [u]. *)
Definition holds_id (txt u : str) : Prop :=
  exists v, dict_get (fst (read_frontmatter txt)) id_field = Some v
            /\ truthy v = true /\ py_str v = u.

(** The text [txt] holds the address [e] under a key that names an email. *)
Definition holds_email (txt e : str) : Prop :=
  In e (email_candidates (fst (read_frontmatter txt))).

(** A store of two documents that hold the same identity. *)
Definition twin_docs : store :=
  [(lit "A.md", dump_frontmatter [(lit "id_mslist", VStr (lit "SCO-007"))]);
   (lit "B.md", dump_frontmatter [(lit "id_mslist", VStr (lit "SCO-007"))])].

(** A store of documents without metadata. *)
Definition plain_docs : store :=
  [(lit "A.md", lit "hello"); (lit "B.md", lit "--- not closed")].

(** Every value of the row is blank. *)
Definition blank_row (r : row) : bool := forallb (fun kv => is_blank (snd kv)) r.

(** A row of blanks. *)
Definition spaces_row : row :=
  [(lit "Nom", lit "  "); (lit "Mail_Pro", []); (lit "Ville", lit " ")].

(** A configuration that copies every column. *)
Definition all_extras_config : config :=
  {| cfg_aliases := []; cfg_extras := ExtrasAll; cfg_list_fields := [lit "groupes"];
     cfg_normalize_phone_fr := true; cfg_projects := [];
     cfg_boolean_fields := []; cfg_preserve_keys := None;
     cfg_overwrite_keys := []; cfg_required_fields := None |}.

Definition dry_args : arguments :=
  {| arg_project := []; arg_id_key := lit "id_mslist";
     arg_id_prefix := lit "SCO"; arg_id_pad := 3; arg_id_fallback := FbSeq;
     arg_dry_run := true |}.

(** A dry run on two rows, from the store of two documents. *)
Definition dry_run_sample : option run_state :=
  run no_list_literal empty_config dry_args [dupont_row; name_only_row]
    two_docs noon.

(** The values of a contact, the key [type] apart, have a blank text. *)
Definition blank_values (c : contact) : Prop :=
  forall k v, dict_get c k = Some v -> k <> lit "type" ->
              is_blank (text_of (Some v)) = true.

(** The keys that [build_frontmatter] sets first, in their order. *)
Definition CORE_FIELDS : list str :=
  [lit "Nom"; Prenom; lit "Tel_Mobile"; lit "Tel_Fixe"; lit "Mail_Pro";
   lit "Mail_Perso"; lit "organisation"; lit "id_mslist"; lit "groupes";
   lit "type"; lit "source_updated"].

(** A contact with keys that [build_frontmatter] treats apart. *)
Definition odd_contact : contact :=
  [(lit "Nom", VStr (lit "Dupont")); (lit "src_id_mslist", VStr (lit "7"));
   (lit "email", VStr (lit " ")); (lit "ville", VStr (lit "Lyon"));
   (lit "source_updated", VStr (lit "yesterday"))].

(** The strings that [quote_scalar] puts between double quotes as they
    are. *)
Definition plain_quoted (s : str) : bool :=
  str_isdigit s || startswith (lit "+") s
  || ((1 <? length s) && startswith (lit "0") s).

(** [s] with a backslash before each double quote. *)
Definition escaped (s : str) : str := replace_char dquote [backslash; dquote] s.

(** What the decoder returns for a string that was encoded. *)
Definition decoded_scalar (s : str) : str :=
  if plain_quoted s then s else escaped s.

Definition decoded_value (v : value) : value :=
  match v with
  | VStr s => VStr (decoded_scalar s)
  | VList l => VList l
  | VBool b => VStr (if b then lit "true" else lit "false")
  end.

Definition decoded (m : metadata) : metadata :=
  map (fun kv => (fst kv, decoded_value (snd kv))) m.

(** Values that are written on lines of their own: a string without line
    break or delimiter, a list of items that the codec carries through, a
    boolean. *)
Definition written_value_ok (v : value) : bool :=
  match v with
  | VStr s => no_linebreak s && no_delim s
  | VList l => forallb item_ok l
  | VBool _ => true
  end.

Definition written_entry_ok (kv : str * value) : bool :=
  key_ok (fst kv) && written_value_ok (snd kv).

Definition written_ok (m : metadata) : bool :=
  forallb written_entry_ok m && distinct (dict_keys m).

(** Metadata with a quotation and a boolean. *)
Definition quoted_meta : metadata :=
  [(lit "notes", VStr (lit "dit " ++ [dquote] ++ lit "oui" ++ [dquote]));
   (lit "actif", VBool true); (lit "Tel_Mobile", VStr (lit "0612"))].

(** What holds of every entry that the decoder returns: the key has no
    blank at its ends, no colon and no line break; the value is a string or
    a list. *)
Definition decoded_entry_ok (kv : str * value) : bool :=
  str_eqb (strip (fst kv)) (fst kv) && negb (has_char ":"%char (fst kv))
  && no_linebreak (fst kv)
  && match snd kv with VBool _ => false | _ => true end.

(** The characters of a digest. *)
Definition hex_char (c : ascii) : bool :=
  is_ascii_digit c || in_range 97 102 c.

(** The prefix as it is written before an identity. *)
Definition id_head (prefix : str) : str :=
  if is_empty_str (make_id_prefix prefix) then []
  else make_id_prefix prefix ++ [hyphen].

(** Two rows with the same columns in another order. *)
Definition row_ab : row := [(lit "Nom", lit "Dupont"); (lit "Ville", lit "Lyon")].
Definition row_ba : row := [(lit "Ville", lit "Lyon"); (lit "Nom", lit "Dupont")].

(** A row with two columns that have the same normalized name. *)
Definition shadow_row : row :=
  [(lit "NOM", lit "Dupont"); (lit "Ville", lit " Lyon ")].

(** The result of [process_contact_row] on [name_only_row], the store
    holding the document that a first run made of that row. *)
Definition second_dupont : option (outcome * Z) :=
  process_contact_row no_list_literal name_only_row empty_config plain_args
    (fst (build_existing_indexes (rerun name_only_row [])))
    (snd (build_existing_indexes (rerun name_only_row [])))
    (rerun name_only_row []) (noon 0) 1.

(** A contact without a name, whose organisations are a list, with an
    establishment. *)
Definition org_list_config : config :=
  {| cfg_aliases := []; cfg_extras := ExtrasAll;
     cfg_list_fields := [lit "organisation"];
     cfg_normalize_phone_fr := false; cfg_projects := [];
     cfg_boolean_fields := []; cfg_preserve_keys := None;
     cfg_overwrite_keys := []; cfg_required_fields := None |}.

Definition org_list_row : row :=
  [(lit "organisation", lit "Ecole A;Ecole B"); (lit "Etablissement", lit "MJC")].

Definition org_list_result : option (outcome * Z) :=
  process_contact_row no_list_literal org_list_row org_list_config plain_args
    [] [] [] (noon 0) 1.

(** ** The output folder *)

(** The arguments that [resolve_output_directory] reads. *)
Record out_args := {
  oa_vault_name : str;
  oa_vault : str;
  oa_out_subpath : str;
  oa_out : str
}.

Section OutputDirectory.

(** Paths: the folder of the vaults in iCloud, [p / s], [Path(s).expanduser()]
    and [p.exists()]. *)
Variable path : Type.
Variable icloud_obsidian : path.
Variable join_path : path -> str -> path.
Variable path_of : str -> path.
Variable path_exists : path -> bool.

(** [resolve_output_directory(args)] *)
Definition resolve_output_directory (a : out_args) : exits path :=
  if negb (is_empty_str (oa_vault_name a)) then
    let vault_dir := join_path icloud_obsidian (oa_vault_name a) in
    if negb (path_exists vault_dir) then Exit 2
    else
      Returns (if negb (is_empty_str (oa_out_subpath a))
               then join_path vault_dir (oa_out_subpath a) else vault_dir)
  else if negb (is_empty_str (oa_vault a))
          && negb (is_empty_str (oa_out_subpath a))
  then Returns (join_path (path_of (oa_vault a)) (oa_out_subpath a))
  else if negb (is_empty_str (oa_out a)) then Returns (path_of (oa_out a))
  else Exit 2.

End OutputDirectory.

(** Arguments with a vault and no subpath. *)
Definition vault_only : out_args :=
  {| oa_vault_name := []; oa_vault := lit "~/vault"; oa_out_subpath := [];
     oa_out := [] |}.

(** * Properties *)

(** ** Strings *)

Lemma str_eqb_refl (a : str) : str_eqb a a = true.
Proof.
  induction a as [|x a IH]; simpl; [reflexivity|].
  now rewrite Ascii.eqb_refl.
Qed.

Lemma str_eqb_eq (a b : str) : str_eqb a b = true <-> a = b.
Proof.
  split.
  - revert b; induction a as [|x a IH]; intros [|y b]; simpl; try discriminate.
    + reflexivity.
    + intros H; apply andb_true_iff in H as [H1 H2].
      apply Ascii.eqb_eq in H1; subst; f_equal; auto.
  - intros ->; apply str_eqb_refl.
Qed.

Lemma str_eqb_neq (a b : str) : str_eqb a b = false <-> a <> b.
Proof.
  split.
  - intros H E; subst; rewrite str_eqb_refl in H; discriminate.
  - intros H; destruct (str_eqb a b) eqn:E; [|reflexivity].
    apply str_eqb_eq in E; contradiction.
Qed.

Lemma str_eqb_sym (a b : str) : str_eqb a b = str_eqb b a.
Proof.
  destruct (str_eqb a b) eqn:E.
  - apply str_eqb_eq in E; subst; symmetry; apply str_eqb_refl.
  - symmetry; apply str_eqb_neq; apply str_eqb_neq in E; congruence.
Qed.

Lemma mem_str_In (k : str) (l : list str) : mem_str k l = true <-> In k l.
Proof.
  unfold mem_str; rewrite existsb_exists; split.
  - intros [x [Hx E]]; apply str_eqb_eq in E; subst; exact Hx.
  - intros H; exists k; split; [exact H | apply str_eqb_refl].
Qed.

(** ** The decoder on a block that is not closed (C10) *)

(** C10. The decoder is a total function, and on a text that begins with the
    delimiter [---] but has no closing delimiter (splitting on the delimiter
    gives fewer than three parts) it returns empty metadata and the whole
    text as the body, which is also what it returns on a text that does not
    begin with the delimiter. *)
Theorem read_frontmatter_unclosed (text : str) :
  startswith (lit "---") text = true ->
  length (split_max2 (lit "---") text) < 3 ->
  read_frontmatter text = ([], text)
  /\ (forall t, startswith (lit "---") t = false -> read_frontmatter t = ([], t)).
Proof.
  intros Hs Hl; split.
  - unfold read_frontmatter; rewrite Hs; simpl negb; cbv iota.
    destruct (split_max2 (lit "---") text) as [|p0 [|p1 [|p2 [|p3 ps]]]];
      simpl in Hl; try reflexivity; lia.
  - intros t Ht; unfold read_frontmatter; now rewrite Ht.
Qed.

Lemma read_frontmatter_unclosed_witness :
  read_frontmatter (lit "---" ++ [newline] ++ lit "k: v" ++ [newline])
  = ([], lit "---" ++ [newline] ++ lit "k: v" ++ [newline]).
Proof.
  refine (proj1 (read_frontmatter_unclosed
                   (lit "---" ++ [newline] ++ lit "k: v" ++ [newline]) _ _)).
  - reflexivity.
  - vm_compute; lia.
Defined.

(** ** Finding the delimiter *)

Lemma startswith_app (p b : str) : startswith p (p ++ b) = true.
Proof.
  induction p as [|x p IH]; simpl; [reflexivity|].
  now rewrite Ascii.eqb_refl.
Qed.

Lemma startswith_app_sep (p a : str) (c : ascii) (r : str) :
  startswith p a = false -> ~ In c p ->
  startswith p (a ++ c :: r) = false.
Proof.
  revert a; induction p as [|x p IH]; intros a H Hc; simpl in *.
  - discriminate.
  - destruct a as [|y a]; simpl.
    + destruct (Ascii.eqb x c) eqn:E; [|reflexivity].
      apply Ascii.eqb_eq in E; subst; exfalso; apply Hc; now left.
    + destruct (Ascii.eqb x y); simpl in *; [|reflexivity].
      apply IH; [exact H | intros Hin; apply Hc; now right].
Qed.

Lemma partition_sub_eq (p s : str) :
  partition_sub p s =
  if startswith p s then Some ([], skipn (length p) s)
  else match s with
       | [] => None
       | c :: s' =>
           match partition_sub p s' with
           | Some (a, b) => Some (c :: a, b)
           | None => None
           end
       end.
Proof. destruct s; reflexivity. Qed.

Lemma partition_sub_here (p b : str) : partition_sub p (p ++ b) = Some ([], b).
Proof.
  rewrite partition_sub_eq, startswith_app.
  f_equal; f_equal.
  induction p as [|x p IH]; simpl; [reflexivity | exact IH].
Qed.

Lemma partition_sub_sep (p a : str) (c : ascii) (r : str) :
  partition_sub p a = None -> ~ In c p ->
  partition_sub p (a ++ c :: r) =
  match partition_sub p r with
  | Some (x, y) => Some (a ++ c :: x, y)
  | None => None
  end.
Proof.
  intros H Hc; induction a as [|y a IH].
  - rewrite partition_sub_eq in H.
    destruct (startswith p []) eqn:E; [discriminate|].
    simpl app.
    rewrite (partition_sub_eq p (c :: r)).
    change (c :: r) with ([] ++ c :: r) at 1.
    rewrite (startswith_app_sep p [] c r E Hc).
    reflexivity.
  - rewrite partition_sub_eq in H.
    destruct (startswith p (y :: a)) eqn:E; [discriminate|].
    destruct (partition_sub p a) as [[u v]|] eqn:E2; [discriminate|].
    specialize (IH eq_refl).
    change ((y :: a) ++ c :: r) with (y :: (a ++ c :: r)).
    rewrite (partition_sub_eq p (y :: a ++ c :: r)).
    change (y :: a ++ c :: r) with ((y :: a) ++ c :: r) at 1.
    rewrite (startswith_app_sep p (y :: a) c r E Hc).
    rewrite IH.
    destruct (partition_sub p r) as [[x z]|]; reflexivity.
Qed.

Lemma join_block (x : str) (lines : list str) :
  join [newline] (x :: lines) ++ [newline] = block_of (x :: lines).
Proof.
  revert x; induction lines as [|l ls IH]; intros x.
  - unfold block_of; simpl. now rewrite app_nil_r.
  - change (join [newline] (x :: l :: ls))
      with (x ++ [newline] ++ join [newline] (l :: ls)).
    rewrite <- !app_assoc, IH.
    unfold block_of; simpl. now rewrite <- !app_assoc.
Qed.

Lemma block_of_app (l1 l2 : list str) :
  block_of (l1 ++ l2) = block_of l1 ++ block_of l2.
Proof. unfold block_of; now rewrite map_app, concat_app. Qed.

Lemma not_in_delim_newline : ~ In newline delim.
Proof. vm_compute; intuition discriminate. Qed.

Lemma partition_block (lines : list str) (b : str) :
  forallb no_delim lines = true ->
  partition_sub delim (block_of lines ++ delim ++ b)
  = Some (block_of lines, b).
Proof.
  induction lines as [|l ls IH]; intros H.
  - exact (partition_sub_here delim b).
  - simpl in H; apply andb_true_iff in H as [Hl Hls].
    change (block_of (l :: ls)) with ((l ++ [newline]) ++ block_of ls).
    rewrite <- !app_assoc.
    change ([newline] ++ block_of ls ++ delim ++ b)
      with (newline :: (block_of ls ++ delim ++ b)).
    rewrite (partition_sub_sep delim l newline (block_of ls ++ delim ++ b)).
    + rewrite (IH Hls). reflexivity.
    + unfold no_delim in Hl.
      destruct (partition_sub delim l); [discriminate | reflexivity].
    + exact not_in_delim_newline.
Qed.

(** ** Splitting a block into its lines *)

Lemma splitlines_line (l rest : str) :
  no_linebreak l = true ->
  splitlines (l ++ newline :: rest) = l :: splitlines rest.
Proof.
  induction l as [|c l IH]; intros H.
  - simpl app. destruct rest as [|d t]; reflexivity.
  - simpl in H; apply andb_true_iff in H as [Hc Hl].
    simpl app. simpl splitlines.
    apply negb_true_iff in Hc; rewrite Hc, (IH Hl). reflexivity.
Qed.

Lemma splitlines_block (lines : list str) :
  forallb no_linebreak lines = true ->
  splitlines (block_of lines) = lines.
Proof.
  induction lines as [|l ls IH]; intros H; [reflexivity|].
  simpl in H; apply andb_true_iff in H as [Hl Hls].
  change (block_of (l :: ls)) with ((l ++ [newline]) ++ block_of ls).
  rewrite <- app_assoc.
  change ([newline] ++ block_of ls) with (newline :: block_of ls).
  now rewrite (splitlines_line _ _ Hl), (IH Hls).
Qed.

(** ** Stripping *)

Lemma drop_while_id (f : ascii -> bool) (s : str) :
  hd_not f s -> drop_while f s = s.
Proof. destruct s as [|c s]; simpl; [reflexivity | now intros ->]. Qed.

Lemma strip_with_id (f : ascii -> bool) (s : str) :
  hd_not f s -> hd_not f (rev s) -> strip_with f s = s.
Proof.
  intros H1 H2; unfold strip_with, rstrip_with, lstrip_with.
  rewrite (drop_while_id f s H1), (drop_while_id f (rev s) H2).
  apply rev_involutive.
Qed.

Lemma drop_while_length (f : ascii -> bool) (s : str) :
  length (drop_while f s) <= length s.
Proof.
  induction s as [|c s IH]; simpl; [lia|].
  destruct (f c); simpl; lia.
Qed.

Lemma drop_while_shorter (f : ascii -> bool) (s : str) :
  ~ hd_not f s -> length (drop_while f s) < length s.
Proof.
  destruct s as [|c s]; simpl; [tauto|].
  destruct (f c); [|tauto].
  intros _. pose proof (drop_while_length f s). lia.
Qed.

Lemma hd_not_dec (f : ascii -> bool) (s : str) : hd_not f s \/ ~ hd_not f s.
Proof.
  destruct s as [|c s]; simpl; [now left|].
  destruct (f c); [right; discriminate | now left].
Qed.

Lemma strip_with_fixed (f : ascii -> bool) (s : str) :
  strip_with f s = s -> hd_not f s /\ hd_not f (rev s).
Proof.
  intros E.
  assert (L : length (strip_with f s) = length s) by now rewrite E.
  unfold strip_with, rstrip_with, lstrip_with in L.
  rewrite length_rev in L.
  pose proof (drop_while_length f s) as L1.
  pose proof (drop_while_length f (rev (drop_while f s))) as L2.
  rewrite length_rev in L2.
  destruct (hd_not_dec f s) as [H1|H1].
  - split; [exact H1|].
    rewrite (drop_while_id f s H1) in L.
    destruct (hd_not_dec f (rev s)) as [H2|H2]; [exact H2|].
    apply drop_while_shorter in H2. rewrite length_rev in H2. lia.
  - apply drop_while_shorter in H1. lia.
Qed.

Lemma hd_not_app (f : ascii -> bool) (a b : str) :
  hd_not f a -> hd_not f b -> hd_not f (a ++ b).
Proof. destruct a; simpl; auto. Qed.

Lemma hd_not_rev_snoc (f : ascii -> bool) (a : str) (c : ascii) :
  f c = false -> hd_not f (rev (a ++ [c])).
Proof. intros H; rewrite rev_app_distr; exact H. Qed.

Lemma startswith_rev_In (c : ascii) (s : str) :
  startswith [c] (rev s) = true -> In c s.
Proof.
  intros H. apply in_rev.
  destruct (rev s) as [|y r]; simpl in H; [discriminate|].
  rewrite andb_true_r in H. apply Ascii.eqb_eq in H; subst; now left.
Qed.

Lemma has_char_In (c : ascii) (s : str) : has_char c s = true <-> In c s.
Proof.
  unfold has_char; rewrite existsb_exists; split.
  - intros [x [Hx E]]; apply Ascii.eqb_eq in E; now subst.
  - intros H; exists c; split; [exact H | apply Ascii.eqb_refl].
Qed.

Lemma has_char_false (c : ascii) (s : str) :
  has_char c s = false <-> ~ In c s.
Proof.
  rewrite <- has_char_In. destruct (has_char c s); split; congruence.
Qed.

Lemma no_linebreak_In (s : str) (c : ascii) :
  no_linebreak s = true -> In c s -> is_linebreak c = false.
Proof.
  unfold no_linebreak; rewrite forallb_forall; intros H Hin.
  apply negb_true_iff; exact (H c Hin).
Qed.

Lemma replace_char_absent (old : ascii) (new s : str) :
  ~ In old s -> replace_char old new s = s.
Proof.
  unfold replace_char; induction s as [|c s IH]; intros H; [reflexivity|].
  simpl. destruct (Ascii.eqb c old) eqn:E.
  - apply Ascii.eqb_eq in E; subst; exfalso; apply H; now left.
  - simpl; f_equal; apply IH; intros Hin; apply H; now right.
Qed.

(** ** The two shapes of a quoted scalar *)

Lemma quote_str_shape (s : str) :
  no_dquote s = true -> no_linebreak s = true ->
  quote_str s = dquote :: s ++ [dquote] \/ (quote_str s = s /\ bare s).
Proof.
  intros Hq Hl; unfold quote_str.
  destruct s as [|c s]; [now left|].
  cbv beta iota delta [is_empty_str].
  destruct (str_isdigit (c :: s) || startswith (lit "+") (c :: s)
            || (1 <? length (c :: s)) && startswith (lit "0") (c :: s));
    [now left|].
  destruct (safe_re_match (c :: s)) eqn:Es.
  - right; split; [reflexivity|].
    unfold safe_re_match in Es.
    destruct (endswith [newline] (c :: s)) eqn:En.
    + apply startswith_rev_In in En.
      pose proof (no_linebreak_In _ _ Hl En) as Hb. discriminate Hb.
    + apply andb_true_iff in Es as [_ Es]. split; [discriminate | exact Es].
  - left. rewrite replace_char_absent; [reflexivity|].
    apply has_char_false. unfold no_dquote in Hq.
    now apply negb_true_iff in Hq.
Qed.

Lemma safe_char_facts (c : ascii) :
  safe_char c = true ->
  is_space c = false /\ is_linebreak c = false /\ c <> dquote /\ c <> squote
  /\ c <> "["%char.
Proof.
  destruct c as [[] [] [] [] [] [] [] []]; vm_compute;
    intros H; try discriminate H; repeat split; discriminate.
Qed.

Lemma bare_ends (f : ascii -> bool) (s : str) :
  (forall c, safe_char c = true -> f c = false) ->
  forallb safe_char s = true -> hd_not f s /\ hd_not f (rev s).
Proof.
  intros Hf Hs; rewrite forallb_forall in Hs; split.
  - destruct s as [|c s]; simpl; [exact I|]. apply Hf, Hs; now left.
  - destruct (rev s) as [|c r] eqn:E; simpl; [exact I|].
    apply Hf, Hs, in_rev. rewrite E; now left.
Qed.

(** ** One step of the decoder's loop *)

Lemma startswith_cons_ne (x y : ascii) (p s : str) :
  Ascii.eqb x y = false -> startswith (x :: p) (y :: s) = false.
Proof. intros H; simpl; now rewrite H. Qed.

Lemma parse_lines_cons (line : str) (rest : list str) (data : metadata) :
  parse_lines (line :: rest) data =
  if is_blank line then parse_lines rest data
  else if has_char ":"%char line
          && negb (startswith (lit "- ") (lstrip line)) then
    match partition_sub (lit ":") line with
    | None => parse_lines rest data
    | Some (key0, val0) =>
        if is_empty_str (strip val0) then
          items_loop parse_lines rest data (strip key0) rest []
        else parse_lines rest (dict_set data (strip key0)
                                 (parse_inline (strip val0)))
    end
  else parse_lines rest data.
Proof. reflexivity. Qed.

Lemma drop_while_keeps (f : ascii -> bool) (c : ascii) (s : str) :
  In c s -> f c = false -> In c (drop_while f s).
Proof.
  induction s as [|x s IH]; simpl; [tauto|].
  intros [->|H] Hc.
  - rewrite Hc; now left.
  - destruct (f x); [now apply IH | now right].
Qed.

Lemma strip_with_keeps (f : ascii -> bool) (c : ascii) (s : str) :
  In c s -> f c = false -> In c (strip_with f s).
Proof.
  intros H Hc; unfold strip_with, rstrip_with, lstrip_with.
  apply in_rev; rewrite rev_involutive.
  apply drop_while_keeps; [|exact Hc].
  apply in_rev; rewrite rev_involutive.
  now apply drop_while_keeps.
Qed.

Lemma partition_char (c : ascii) (k tail : str) :
  ~ In c k -> partition_sub [c] (k ++ c :: tail) = Some (k, tail).
Proof.
  induction k as [|x k IH]; intros H.
  - simpl. now rewrite Ascii.eqb_refl.
  - simpl app. rewrite partition_sub_eq.
    assert (E : startswith [c] (x :: k ++ c :: tail) = false).
    { simpl. destruct (Ascii.eqb c x) eqn:E; [|reflexivity].
      apply Ascii.eqb_eq in E; subst; exfalso; apply H; now left. }
    rewrite E, IH; [reflexivity|].
    intros Hin; apply H; now right.
Qed.

Lemma key_ok_facts (k : str) : key_ok k = true -> key_facts k.
Proof.
  unfold key_ok; intros H.
  repeat (apply andb_true_iff in H as [H ?]).
  apply negb_true_iff in H, H1.
  apply str_eqb_eq in H2. apply strip_with_fixed in H2 as [Hh _].
  constructor; auto. now apply has_char_false.
Qed.

Lemma key_strip (k : str) : key_ok k = true -> strip k = k.
Proof.
  unfold key_ok; intros H.
  repeat (apply andb_true_iff in H as [H ?]).
  now apply str_eqb_eq.
Qed.

Lemma colon_not_space : is_space ":"%char = false.
Proof. reflexivity. Qed.

Lemma key_line_hd (k tail : str) :
  key_facts k -> hd_not is_space (k ++ ":"%char :: tail).
Proof. intros [? ? ? ? ?]; apply hd_not_app; [assumption | reflexivity]. Qed.

Lemma key_line_not_item (k tail : str) :
  key_facts k -> hd_not is_space (rev (k ++ ":"%char :: tail)) ->
  not_item (k ++ ":"%char :: tail).
Proof.
  intros K Hend; pose proof (key_line_hd k tail K) as Hh.
  destruct K as [Hc Hl Hk Hd Hn]; split.
  - apply startswith_app_sep.
    + destruct k as [|c k]; [reflexivity|].
      simpl in Hk.
      change (lit "  - ") with (" "%char :: lit " - ").
      apply startswith_cons_ne.
      destruct (Ascii.eqb " " c) eqn:E; [|reflexivity].
      apply Ascii.eqb_eq in E; subst c; discriminate Hk.
    + vm_compute; intuition discriminate.
  - unfold strip. rewrite (strip_with_id is_space _ Hh Hend).
    apply startswith_app_sep; [exact Hd|].
    vm_compute; intuition discriminate.
Qed.

Lemma parse_lines_key (k tail : str) (rest : list str) (data : metadata) :
  key_ok k = true ->
  parse_lines ((k ++ ":"%char :: tail) :: rest) data =
  if is_empty_str (strip tail) then items_loop parse_lines rest data k rest []
  else parse_lines rest (dict_set data k (parse_inline (strip tail))).
Proof.
  intros Hk; pose proof (key_ok_facts k Hk) as K.
  rewrite parse_lines_cons.
  assert (Hin : In ":"%char (k ++ ":"%char :: tail))
    by (apply in_or_app; right; now left).
  assert (B : is_blank (k ++ ":"%char :: tail) = false).
  { unfold is_blank, strip.
    pose proof (strip_with_keeps is_space _ _ Hin colon_not_space) as H.
    destruct (strip_with is_space (k ++ ":"%char :: tail)); [destruct H|].
    reflexivity. }
  rewrite B.
  assert (C : has_char ":"%char (k ++ ":"%char :: tail) = true)
    by now apply has_char_In.
  rewrite C.
  unfold lstrip, lstrip_with.
  rewrite (drop_while_id is_space _ (key_line_hd k tail K)).
  assert (D : startswith (lit "- ") (k ++ ":"%char :: tail) = false).
  { apply startswith_app_sep; [apply K|]. vm_compute; intuition discriminate. }
  rewrite D.
  change (lit ":") with [":"%char].
  rewrite (partition_char ":"%char k tail (kf_colon k K)).
  rewrite (key_strip k Hk).
  reflexivity.
Qed.

(** ** Lines written by the encoder *)

Lemma hd_not_app_ne (f : ascii -> bool) (a b : str) :
  a <> [] -> hd_not f a -> hd_not f (a ++ b).
Proof. destruct a; simpl; [congruence | auto]. Qed.

Lemma hd_not_rev_app (f : ascii -> bool) (a b : str) :
  b <> [] -> hd_not f (rev b) -> hd_not f (rev (a ++ b)).
Proof.
  intros Hb H; rewrite rev_app_distr. apply hd_not_app_ne; [|exact H].
  intros E; apply Hb. rewrite <- (rev_involutive b), E. reflexivity.
Qed.

Lemma dquote_not_space : is_space dquote = false.
Proof. reflexivity. Qed.

Lemma quoted_ends (s : str) :
  no_dquote s = true -> no_linebreak s = true ->
  quote_str s <> [] /\ hd_not is_space (quote_str s)
  /\ hd_not is_space (rev (quote_str s)).
Proof.
  intros Hq Hl.
  destruct (quote_str_shape s Hq Hl) as [E|[E [Hne Hs]]]; rewrite E.
  - split; [discriminate|]. split; [reflexivity|].
    change (dquote :: s ++ [dquote]) with ((dquote :: s) ++ [dquote]).
    apply hd_not_rev_snoc; reflexivity.
  - split; [exact Hne|].
    apply bare_ends; [|exact Hs].
    intros c Hc; now apply safe_char_facts.
Qed.

Lemma strip_space_tail (q : str) :
  hd_not is_space q -> hd_not is_space (rev q) -> strip (" "%char :: q) = q.
Proof.
  intros H1 H2. unfold strip, strip_with, lstrip_with.
  change (drop_while is_space (" "%char :: q)) with (drop_while is_space q).
  rewrite (drop_while_id is_space q H1).
  unfold rstrip_with. rewrite (drop_while_id is_space (rev q) H2).
  apply rev_involutive.
Qed.

Lemma startswith_bare (c : ascii) (s : str) :
  safe_char c = false -> forallb safe_char s = true ->
  startswith [c] s = false.
Proof.
  intros Hc Hs; destruct s as [|x s]; [reflexivity|].
  simpl in Hs; apply andb_true_iff in Hs as [Hx _].
  apply startswith_cons_ne.
  destruct (Ascii.eqb c x) eqn:E; [|reflexivity].
  apply Ascii.eqb_eq in E; subst; congruence.
Qed.

Lemma parse_inline_quote (s : str) :
  no_dquote s = true -> no_linebreak s = true ->
  parse_inline (quote_str s) = VStr s.
Proof.
  intros Hq Hl.
  destruct (quote_str_shape s Hq Hl) as [E|[E [Hne Hs]]]; rewrite E.
  - unfold parse_inline.
    assert (A : startswith (lit "[") (dquote :: s ++ [dquote]) = false)
      by reflexivity.
    rewrite A; cbv beta iota delta [andb].
    assert (B : startswith [dquote] (dquote :: s ++ [dquote]) = true)
      by reflexivity.
    assert (C : endswith [dquote] (dquote :: s ++ [dquote]) = true).
    { unfold endswith.
      change (dquote :: s ++ [dquote]) with ((dquote :: s) ++ [dquote]).
      rewrite rev_app_distr. reflexivity. }
    rewrite B, C; cbv beta iota delta [andb orb].
    unfold drop_ends. change (tl (dquote :: s ++ [dquote])) with (s ++ [dquote]).
    now rewrite removelast_last.
  - unfold parse_inline.
    change (lit "[") with ["["%char].
    rewrite (startswith_bare "["%char s eq_refl Hs).
    rewrite (startswith_bare dquote s eq_refl Hs).
    rewrite (startswith_bare squote s eq_refl Hs).
    reflexivity.
Qed.

Lemma notin_hd_not (c : ascii) (s : str) :
  ~ In c s -> hd_not (Ascii.eqb c) s /\ hd_not (Ascii.eqb c) (rev s).
Proof.
  intros H.
  assert (G : forall t, (forall x, In x t -> In x s) -> hd_not (Ascii.eqb c) t).
  { intros [|x t] Ht; simpl; [exact I|].
    destruct (Ascii.eqb c x) eqn:E; [|reflexivity].
    apply Ascii.eqb_eq in E; subst x. exfalso; apply H, Ht; now left. }
  split; apply G; [auto | intros x Hx; now apply in_rev].
Qed.

Lemma strip_char_wrapped (q : ascii) (s : str) :
  ~ In q s -> strip_char q (q :: s ++ [q]) = s.
Proof.
  intros H; destruct (notin_hd_not q s H) as [H1 H2].
  unfold strip_char, strip_with, lstrip_with, rstrip_with.
  assert (E : drop_while (Ascii.eqb q) (q :: s ++ [q])
              = drop_while (Ascii.eqb q) (s ++ [q]))
    by (simpl; now rewrite Ascii.eqb_refl).
  rewrite E; clear E.
  destruct s as [|c s].
  - simpl. now rewrite Ascii.eqb_refl.
  - assert (E : drop_while (Ascii.eqb q) ((c :: s) ++ [q]) = (c :: s) ++ [q])
      by (apply drop_while_id; simpl; exact H1).
    rewrite E, rev_app_distr.
    assert (E2 : drop_while (Ascii.eqb q) (rev [q] ++ rev (c :: s))
                 = drop_while (Ascii.eqb q) (rev (c :: s)))
      by (change (rev [q]) with [q]; cbn [app drop_while];
          now rewrite Ascii.eqb_refl).
    rewrite E2, (drop_while_id _ _ H2). apply rev_involutive.
Qed.

Lemma startswith_one_hd (c : ascii) (s : str) :
  startswith [c] s = false -> hd_not (Ascii.eqb c) s.
Proof.
  destruct s as [|x s]; simpl; [auto|]. now rewrite andb_true_r.
Qed.

Lemma item_ok_facts (s : str) : item_ok s = true -> item_facts s.
Proof.
  unfold item_ok, scalar_ok; intros H.
  repeat (apply andb_true_iff in H as [H ?]).
  apply negb_true_iff in H0, H1.
  constructor; auto using startswith_one_hd.
Qed.

Lemma unquote_item_quote (s : str) :
  item_facts s -> unquote_item (quote_str s) = s.
Proof.
  intros [Hq Hl _ Hh Hr].
  destruct (quoted_ends s Hq Hl) as [_ [Q1 Q2]].
  unfold unquote_item, strip.
  rewrite (strip_with_id is_space _ Q1 Q2).
  assert (E : strip_char dquote (quote_str s) = s).
  { destruct (quote_str_shape s Hq Hl) as [E|[E [Hne Hs]]]; rewrite E.
    - apply strip_char_wrapped. apply has_char_false.
      unfold no_dquote in Hq. now apply negb_true_iff in Hq.
    - apply strip_with_id; apply (bare_ends (Ascii.eqb dquote) s); auto;
        intros c Hc; destruct (Ascii.eqb dquote c) eqn:E2; auto;
        apply Ascii.eqb_eq in E2; subst c; discriminate Hc. }
  rewrite E. apply strip_with_id; assumption.
Qed.

(** ** The inner loop on the items written by the encoder *)

Lemma items_loop_items (rest0 : list str) (data : metadata) (k : str)
  (its : list str) (rest : list str) :
  Forall item_facts its -> key_head rest ->
  forall acc, acc ++ its <> [] ->
  items_loop parse_lines rest0 data k (map item_line its ++ rest) acc
  = parse_lines rest (dict_set data k (VList (acc ++ its))).
Proof.
  intros Hits Hrest; induction Hits as [|it its Hit _ IH]; intros acc Hne.
  - rewrite app_nil_r in *. simpl app.
    destruct acc as [|a acc]; [congruence|].
    destruct rest as [|nxt l']; [reflexivity|].
    destruct Hrest as [N1 N2].
    cbn [items_loop]. rewrite N1, N2. reflexivity.
  - cbn [map app items_loop].
    assert (S1 : startswith (lit "  - ") (item_line it) = true)
      by apply startswith_app.
    rewrite S1.
    change (skipn 4 (item_line it)) with (quote_str it).
    rewrite (unquote_item_quote it Hit).
    fold (items_loop parse_lines rest0 data k).
    rewrite IH.
    + now rewrite <- app_assoc.
    + rewrite <- app_assoc; simpl. destruct acc; discriminate.
Qed.

(** ** Absence of the delimiter and of line breaks in the lines written *)

Lemma no_delim_sep (a : str) (c : ascii) (r : str) :
  no_delim a = true -> ~ In c delim -> no_delim (a ++ c :: r) = no_delim r.
Proof.
  unfold no_delim; intros Ha Hc.
  destruct (partition_sub delim a) eqn:E; [discriminate|].
  rewrite (partition_sub_sep delim a c r E Hc).
  destruct (partition_sub delim r) as [[x y]|]; reflexivity.
Qed.

Lemma not_in_delim (c : ascii) : c <> "-"%char -> ~ In c delim.
Proof. intros H [E|[E|[E|[]]]]; congruence. Qed.

Lemma no_linebreak_app (a b : str) :
  no_linebreak (a ++ b) = no_linebreak a && no_linebreak b.
Proof. apply forallb_app. Qed.

Lemma quote_str_clean (s : str) :
  scalar_ok s = true ->
  no_delim (quote_str s) = true /\ no_linebreak (quote_str s) = true.
Proof.
  unfold scalar_ok; intros H.
  apply andb_true_iff in H as [H Hd]; apply andb_true_iff in H as [Hq Hl].
  destruct (quote_str_shape s Hq Hl) as [E|[E _]]; rewrite E; [|now split].
  split.
  - change (dquote :: s ++ [dquote]) with ([] ++ dquote :: (s ++ [dquote])).
    rewrite no_delim_sep; [|reflexivity|apply not_in_delim; discriminate].
    rewrite no_delim_sep; [reflexivity|exact Hd|apply not_in_delim; discriminate].
  - change (dquote :: s ++ [dquote]) with ([dquote] ++ s ++ [dquote]).
    rewrite !no_linebreak_app, Hl. reflexivity.
Qed.

Lemma key_line_clean (k tail : str) :
  key_facts k -> no_delim tail = true -> no_linebreak tail = true ->
  line_clean (k ++ ":"%char :: tail) = true.
Proof.
  intros [Hc Hl Hh Hd Hn] T1 T2; unfold line_clean.
  rewrite no_delim_sep; [|exact Hn|apply not_in_delim; discriminate].
  change (k ++ ":"%char :: tail) with (k ++ [":"%char] ++ tail).
  rewrite !no_linebreak_app, T1, Hl, T2. reflexivity.
Qed.

Lemma space_tail_clean (q : str) :
  no_delim q = true -> no_linebreak q = true ->
  no_delim (" "%char :: q) = true /\ no_linebreak (" "%char :: q) = true.
Proof.
  intros H1 H2; split.
  - change (" "%char :: q) with ([] ++ " "%char :: q).
    rewrite no_delim_sep; [exact H1|reflexivity|apply not_in_delim; discriminate].
  - change (" "%char :: q) with ([" "%char] ++ q).
    rewrite no_linebreak_app, H2. reflexivity.
Qed.

Lemma item_line_clean (s : str) : item_ok s = true -> line_clean (item_line s) = true.
Proof.
  unfold item_ok; intros H.
  apply andb_true_iff in H as [H _]; apply andb_true_iff in H as [H _].
  destruct (quote_str_clean s H) as [Q1 Q2].
  unfold line_clean, item_line.
  change (lit "  - " ++ quote_str s) with (lit "  -" ++ " "%char :: quote_str s).
  rewrite no_delim_sep; [|reflexivity|apply not_in_delim; discriminate].
  change (lit "  -" ++ " "%char :: quote_str s)
    with (lit "  - " ++ quote_str s).
  rewrite no_linebreak_app, Q1, Q2. reflexivity.
Qed.

Lemma dump_entry_clean (kv : str * value) :
  entry_ok kv = true -> forallb line_clean (dump_entry kv) = true.
Proof.
  destruct kv as [k v]; unfold entry_ok; simpl fst; simpl snd; intros H.
  apply andb_true_iff in H as [Hk Hv].
  pose proof (key_ok_facts k Hk) as K.
  destruct v as [s|[|it its]|b]; cbn [value_ok] in Hv; try discriminate.
  - destruct (quote_str_clean s Hv) as [Q1 Q2].
    destruct (space_tail_clean _ Q1 Q2) as [T1 T2].
    cbn [dump_entry quote_scalar forallb].
    change (k ++ lit ": " ++ quote_str s)
      with (k ++ ":"%char :: " "%char :: quote_str s).
    now rewrite (key_line_clean k _ K T1 T2).
  - cbn [dump_entry forallb].
    change (k ++ lit ": []") with (k ++ ":"%char :: lit " []").
    now rewrite (key_line_clean k (lit " []") K eq_refl eq_refl).
  - cbn [dump_entry forallb quote_scalar].
    change (k ++ lit ":") with (k ++ ":"%char :: []).
    rewrite (key_line_clean k [] K eq_refl eq_refl).
    cbn [andb]. rewrite forallb_forall. intros l Hl.
    change (fun item : str => lit "  - " ++ quote_str item) with item_line in Hl.
    apply in_map_iff in Hl as [x [<- Hx]].
    apply item_line_clean.
    rewrite forallb_forall in Hv. apply Hv, Hx.
Qed.

Lemma dump_lines_clean (m : metadata) :
  forallb entry_ok m = true ->
  forallb line_clean (flat_map dump_entry m) = true.
Proof.
  induction m as [|kv m IH]; intros H; [reflexivity|].
  simpl in H; apply andb_true_iff in H as [H1 H2].
  cbn [flat_map]. rewrite forallb_app, (dump_entry_clean kv H1), (IH H2).
  reflexivity.
Qed.

(** ** Dictionaries *)

Lemma dict_set_fresh {V} (d : dict V) (k : str) (v : V) :
  dict_get d k = None -> dict_set d k v = d ++ [(k, v)].
Proof.
  induction d as [|[k' v'] d IH]; simpl; [reflexivity|].
  destruct (str_eqb k k'); [discriminate|].
  intros H; now rewrite IH.
Qed.

Lemma dict_get_snoc_other {V} (d : dict V) (k k' : str) (v : V) :
  k' <> k -> dict_get (d ++ [(k, v)]) k' = dict_get d k'.
Proof.
  intros Hne; induction d as [|[k0 v0] d IH]; simpl.
  - apply str_eqb_neq in Hne. now rewrite Hne.
  - destruct (str_eqb k' k0); [reflexivity | exact IH].
Qed.

(** ** The decoder on the lines written by the encoder *)

Lemma dump_entry_head (kv : str * value) :
  entry_ok kv = true ->
  exists l more, dump_entry kv = l :: more /\ not_item l.
Proof.
  destruct kv as [k v]; unfold entry_ok; simpl fst; simpl snd; intros H.
  apply andb_true_iff in H as [Hk Hv].
  pose proof (key_ok_facts k Hk) as K.
  destruct v as [s|[|it its]|b]; cbn [value_ok] in Hv; try discriminate.
  - exists (k ++ ":"%char :: " "%char :: quote_str s), []. split; [reflexivity|].
    apply key_line_not_item; [exact K|].
    unfold scalar_ok in Hv.
    apply andb_true_iff in Hv as [Hv _]; apply andb_true_iff in Hv as [Hq Hl].
    destruct (quoted_ends s Hq Hl) as [Q0 [_ Q2]].
    change (k ++ ":"%char :: " "%char :: quote_str s)
      with (k ++ lit ": " ++ quote_str s).
    rewrite app_assoc. now apply hd_not_rev_app.
  - exists (k ++ ":"%char :: lit " []"), []. split; [reflexivity|].
    apply key_line_not_item; [exact K|].
    apply hd_not_rev_app; [discriminate | reflexivity].
  - exists (k ++ ":"%char :: []), (map item_line (it :: its)).
    split; [reflexivity|].
    apply key_line_not_item; [exact K|].
    apply hd_not_rev_app; [discriminate | reflexivity].
Qed.

Lemma dump_lines_head (m : metadata) :
  forallb entry_ok m = true -> key_head (flat_map dump_entry m).
Proof.
  destruct m as [|kv m]; intros H; [exact I|].
  simpl in H; apply andb_true_iff in H as [H _].
  destruct (dump_entry_head kv H) as [l [more [E N]]].
  cbn [flat_map]. rewrite E. exact N.
Qed.

Lemma parse_dump (m : metadata) :
  forallb entry_ok m = true -> distinct (dict_keys m) = true ->
  forall data, (forall k, In k (dict_keys m) -> dict_get data k = None) ->
  parse_lines (flat_map dump_entry m) data = data ++ m.
Proof.
  induction m as [|[k v] m IH]; intros Hok Hd data Hfresh.
  - simpl. now rewrite app_nil_r.
  - simpl in Hok; apply andb_true_iff in Hok as [Hkv Hok].
    cbn [dict_keys map fst distinct] in Hd.
    apply andb_true_iff in Hd as [Hk Hd].
    apply negb_true_iff in Hk.
    assert (Hstep : forall v', parse_lines (flat_map dump_entry m)
                      (dict_set data k v') = data ++ (k, v') :: m).
    { intros v'. rewrite (dict_set_fresh data k v');
        [|apply Hfresh; now left].
      rewrite (IH Hok Hd).
      - now rewrite <- app_assoc.
      - intros k' Hk'. rewrite dict_get_snoc_other.
        + apply Hfresh; now right.
        + intros E; subst k'. apply mem_str_In in Hk'.
          unfold dict_keys in Hk'. rewrite Hk in Hk'. discriminate. }
    pose proof (dump_lines_head m Hok) as Hhead.
    unfold entry_ok in Hkv; simpl fst in Hkv; simpl snd in Hkv.
    apply andb_true_iff in Hkv as [Hkey Hv].
    destruct v as [s|[|it its]|b]; cbn [value_ok] in Hv; try discriminate.
    + cbn [flat_map dump_entry quote_scalar app].
      change (k ++ lit ": " ++ quote_str s)
        with (k ++ ":"%char :: " "%char :: quote_str s).
      rewrite (parse_lines_key k _ _ data Hkey).
      unfold scalar_ok in Hv.
      apply andb_true_iff in Hv as [Hv _]; apply andb_true_iff in Hv as [Hq Hl].
      destruct (quoted_ends s Hq Hl) as [Q0 [Q1 Q2]].
      rewrite (strip_space_tail _ Q1 Q2).
      destruct (quote_str s) eqn:E; [congruence|].
      cbn [is_empty_str]. rewrite <- E, (parse_inline_quote s Hq Hl).
      apply Hstep.
    + cbn [flat_map dump_entry app].
      change (k ++ lit ": []") with (k ++ ":"%char :: lit " []").
      rewrite (parse_lines_key k _ _ data Hkey).
      change (strip (lit " []")) with (lit "[]").
      change (parse_inline (lit "[]")) with (VList []).
      cbn [is_empty_str lit list_ascii_of_string]. apply Hstep.
    + cbn [flat_map dump_entry quote_scalar].
      change (k ++ lit ":") with (k ++ ":"%char :: []).
      change (fun item : str => lit "  - " ++ quote_str item) with item_line.
      rewrite <- app_comm_cons.
      rewrite (parse_lines_key k _ _ data Hkey).
      change (strip []) with (@nil ascii). cbn [is_empty_str].
      rewrite (items_loop_items _ data k (it :: its) _).
      * apply Hstep.
      * rewrite Forall_forall. rewrite forallb_forall in Hv.
        intros x Hx. apply item_ok_facts, Hv, Hx.
      * exact Hhead.
      * discriminate.
Qed.

(** ** Round trip of the codec (C1) *)

Lemma dump_frontmatter_blocks (m : metadata) :
  dump_frontmatter m
  = delim ++ block_of ([] :: flat_map dump_entry m) ++ delim ++ [newline].
Proof.
  unfold dump_frontmatter, dump_lines. fold delim.
  rewrite join_block.
  change (delim :: flat_map dump_entry m ++ [delim])
    with ([delim] ++ flat_map dump_entry m ++ [delim]).
  change ([] :: flat_map dump_entry m) with ([[]] ++ flat_map dump_entry m).
  rewrite !block_of_app.
  unfold block_of at 1 3 4; cbn [map concat].
  now rewrite !app_nil_r, <- !app_assoc.
Qed.

(** Decoding the encoded metadata followed by any text: the body returned
    is that text after the newline that ends the closing delimiter. *)
Lemma read_dump_body (m : metadata) (b : str) :
  metadata_ok m = true ->
  read_frontmatter (dump_frontmatter m ++ b) = (m, newline :: b).
Proof.
  unfold metadata_ok; intros H; apply andb_true_iff in H as [Hok Hd].
  pose proof (dump_lines_clean m Hok) as Hc.
  assert (Hdl : forallb no_delim ([] :: flat_map dump_entry m) = true).
  { cbn [forallb]. change (no_delim []) with true. cbn [andb].
    rewrite forallb_forall in *. intros l Hl. specialize (Hc l Hl).
    unfold line_clean in Hc. now apply andb_true_iff in Hc as [? _]. }
  assert (Hlb : forallb no_linebreak ([] :: flat_map dump_entry m) = true).
  { cbn [forallb]. change (no_linebreak []) with true. cbn [andb].
    rewrite forallb_forall in *. intros l Hl. specialize (Hc l Hl).
    unfold line_clean in Hc. now apply andb_true_iff in Hc as [_ ?]. }
  rewrite dump_frontmatter_blocks, <- !app_assoc.
  unfold read_frontmatter. fold delim.
  rewrite startswith_app. cbn [negb].
  unfold split_max2, split_max1.
  rewrite partition_sub_here, (partition_block _ ([newline] ++ b) Hdl).
  rewrite (splitlines_block _ Hlb).
  rewrite parse_lines_cons. change (is_blank []) with true. cbv iota.
  rewrite (parse_dump m Hok Hd []); [reflexivity|].
  reflexivity.
Qed.

(** C1, as the code has it. For every metadata mapping whose keys are
    pairwise distinct, hold no colon, no line break and no [---], have no
    blank at either end and do not begin with [- ], and whose values are
    strings or lists of strings without double quote, line break or [---]
    (a list item, moreover, neither beginning nor ending with a single
    quote), decoding the encoded text gives the mapping back, with a body of
    one newline. *)
Theorem dump_read_roundtrip (m : metadata) :
  metadata_ok m = true ->
  read_frontmatter (dump_frontmatter m) = (m, [newline]).
Proof.
  intros H. rewrite <- (app_nil_r (dump_frontmatter m)).
  exact (read_dump_body m [] H).
Qed.

Lemma dump_read_roundtrip_witness :
  read_frontmatter (dump_frontmatter sample_meta) = (sample_meta, [newline]).
Proof.
  apply (dump_read_roundtrip sample_meta). vm_compute. reflexivity.
Defined.

(** C1, as the spec states it, fails: a string value that holds a line
    break is written on two lines, and the decoder, which reads one key per
    line, returns the first line with its opening quote. *)
Lemma roundtrip_fails_on_two_lines :
  fst (read_frontmatter (dump_frontmatter two_line_meta))
  = [(lit "notes", VStr (dquote :: lit "a"))]
  /\ fst (read_frontmatter (dump_frontmatter two_line_meta)) <> two_line_meta.
Proof.
  split; [vm_compute; reflexivity|].
  vm_compute. intros H; discriminate H.
Qed.

(** ** Merge policy (C3, C4) *)

Lemma dict_get_set_same {V} (d : dict V) (k : str) (v : V) :
  dict_get (dict_set d k v) k = Some v.
Proof.
  induction d as [|[k' v'] d IH]; simpl.
  - now rewrite str_eqb_refl.
  - destruct (str_eqb k k') eqn:E; simpl; rewrite E; [reflexivity | exact IH].
Qed.

Lemma dict_get_set_other {V} (d : dict V) (k k' : str) (v : V) :
  k' <> k -> dict_get (dict_set d k v) k' = dict_get d k'.
Proof.
  intros Hne; induction d as [|[k0 v0] d IH]; simpl.
  - apply str_eqb_neq in Hne. now rewrite Hne.
  - destruct (str_eqb k k0) eqn:E; simpl.
    + apply str_eqb_eq in E; subst k0.
      apply str_eqb_neq in Hne. now rewrite Hne.
    + destruct (str_eqb k' k0); [reflexivity | exact IH].
Qed.

Lemma dict_get_In {V} (d : dict V) (k : str) (v : V) :
  dict_get d k = Some v -> In k (dict_keys d).
Proof.
  induction d as [|[k' v'] d IH]; simpl; [discriminate|].
  destruct (str_eqb k k') eqn:E.
  - apply str_eqb_eq in E; subst; now left.
  - intros H; right; now apply IH.
Qed.

Lemma dict_get_notin {V} (d : dict V) (k : str) :
  ~ In k (dict_keys d) -> dict_get d k = None.
Proof.
  intros H; destruct (dict_get d k) eqn:E; [|reflexivity].
  exfalso; apply H; exact (dict_get_In d k v E).
Qed.

Section Merge.

Variables (existing : metadata) (preserve_keys overwrite_keys : list str).

Let step := merge_step existing preserve_keys overwrite_keys.

(** A key that the loop does not meet keeps its binding. *)
Lemma merge_loop_absent (newdata out : metadata) (k : str) :
  dict_get newdata k = None ->
  dict_get (fold_left step newdata out) k = dict_get out k.
Proof.
  revert out; induction newdata as [|[k' v'] nd IH]; intros out H;
    [reflexivity|].
  simpl in H. destruct (str_eqb k k') eqn:E; [discriminate|].
  cbn [fold_left]. rewrite (IH _ H).
  unfold step, merge_step.
  apply str_eqb_neq in E.
  destruct (mem_str k' preserve_keys && dict_mem existing k'); [reflexivity|].
  destruct (mem_str k' overwrite_keys || negb (dict_mem existing k')
            || is_empty (dict_get existing k')); [|reflexivity].
  now apply dict_get_set_other.
Qed.

(** A preserved key bound in [existing] is never written. *)
Lemma merge_loop_preserved (newdata out : metadata) (k : str) :
  mem_str k preserve_keys = true -> dict_mem existing k = true ->
  dict_get (fold_left step newdata out) k = dict_get out k.
Proof.
  intros Hp He; revert out; induction newdata as [|[k' v'] nd IH];
    intros out; [reflexivity|].
  cbn [fold_left]. rewrite IH.
  unfold step, merge_step.
  destruct (str_eqb k k') eqn:E.
  - apply str_eqb_eq in E; subst k'. now rewrite Hp, He.
  - apply str_eqb_neq in E.
    destruct (mem_str k' preserve_keys && dict_mem existing k');
      [reflexivity|].
    destruct (mem_str k' overwrite_keys || negb (dict_mem existing k')
              || is_empty (dict_get existing k')); [|reflexivity].
    now apply dict_get_set_other.
Qed.

(** The binding of an incoming key after the loop, the keys of [newdata]
    being distinct. *)
Lemma merge_loop_incoming (newdata out : metadata) (k : str) (v : value) :
  distinct (dict_keys newdata) = true ->
  dict_get newdata k = Some v ->
  dict_get (fold_left step newdata out) k = dict_get (step out (k, v)) k.
Proof.
  revert out; induction newdata as [|[k' v'] nd IH]; intros out Hd H;
    [discriminate|].
  cbn [dict_keys map fst distinct] in Hd.
  apply andb_true_iff in Hd as [Hk Hd]. apply negb_true_iff in Hk.
  simpl in H. cbn [fold_left].
  destruct (str_eqb k k') eqn:E.
  - apply str_eqb_eq in E; subst k'. injection H as ->.
    apply merge_loop_absent.
    apply dict_get_notin. intros Hin. apply mem_str_In in Hin.
    unfold dict_keys in Hin. congruence.
  - rewrite (IH _ Hd H).
    apply str_eqb_neq in E.
    unfold step, merge_step.
    assert (G : forall o, dict_get
              (if mem_str k' preserve_keys && dict_mem existing k' then out
               else if mem_str k' overwrite_keys || negb (dict_mem existing k')
                       || is_empty (dict_get existing k')
               then dict_set out k' v' else out) o = dict_get out o
              \/ o = k').
    { intros o.
      destruct (mem_str k' preserve_keys && dict_mem existing k'); [now left|].
      destruct (mem_str k' overwrite_keys || negb (dict_mem existing k')
                || is_empty (dict_get existing k')); [|now left].
      destruct (str_eqb o k') eqn:Eo.
      - right; now apply str_eqb_eq.
      - left; apply dict_get_set_other; now apply str_eqb_neq. }
    destruct (mem_str k preserve_keys && dict_mem existing k).
    + destruct (G k) as [G1|G1]; [exact G1 | contradiction].
    + destruct (mem_str k overwrite_keys || negb (dict_mem existing k)
                || is_empty (dict_get existing k)).
      * now rewrite !dict_get_set_same.
      * destruct (G k) as [G1|G1]; [exact G1 | contradiction].
Qed.

End Merge.

(** C3. A key of [preserve_keys] that is bound in the existing metadata keeps
    its existing value in the merged metadata, whatever the incoming
    metadata and whatever [overwrite_keys] hold (so also when the key is in
    both lists); and a key that the incoming metadata does not bind has in
    the merged metadata the binding it has in the existing one. *)
Theorem merge_preserve_precedence
  (existing newdata : metadata) (preserve_keys overwrite_keys : list str)
  (k : str) :
  (forall v, mem_str k preserve_keys = true -> dict_get existing k = Some v ->
     dict_get (merge_frontmatter existing newdata preserve_keys overwrite_keys) k
     = Some v)
  /\ (dict_get newdata k = None ->
      dict_get (merge_frontmatter existing newdata preserve_keys overwrite_keys) k
      = dict_get existing k).
Proof.
  unfold merge_frontmatter; split.
  - intros v Hp He.
    rewrite merge_loop_preserved; [exact He | exact Hp|].
    unfold dict_mem; now rewrite He.
  - intros H. now apply merge_loop_absent.
Qed.

Lemma merge_preserve_precedence_witness :
  dict_get (merge_frontmatter merge_existing merge_incoming
              [lit "notes"] [lit "notes"; lit "Nom"]) (lit "notes")
  = Some (VStr (lit "mine"))
  /\ dict_get (merge_frontmatter merge_existing merge_incoming
                 [lit "notes"] [lit "notes"; lit "Nom"]) (lit "ville")
     = dict_get merge_existing (lit "ville").
Proof.
  split.
  - apply (proj1 (merge_preserve_precedence merge_existing merge_incoming
                    [lit "notes"] [lit "notes"; lit "Nom"] (lit "notes")));
      reflexivity.
  - apply (proj2 (merge_preserve_precedence merge_existing merge_incoming
                    [lit "notes"] [lit "notes"; lit "Nom"] (lit "ville")));
      reflexivity.
Defined.

(** [is_empty] of the source against the words of the specification. *)
Lemma drop_while_empty (f : ascii -> bool) (s : str) :
  is_empty_str (drop_while f s) = forallb f s.
Proof.
  induction s as [|c s IH]; [reflexivity|].
  simpl. destruct (f c); [exact IH | reflexivity].
Qed.

Lemma forallb_drop_while (f : ascii -> bool) (s : str) :
  forallb f (drop_while f s) = forallb f s.
Proof.
  induction s as [|c s IH]; [reflexivity|].
  simpl. destruct (f c) eqn:E; [exact IH|]. simpl. now rewrite E.
Qed.

Lemma forallb_rev_eq {A} (f : A -> bool) (l : list A) :
  forallb f (rev l) = forallb f l.
Proof.
  induction l as [|x l IH]; [reflexivity|].
  simpl. rewrite forallb_app, IH. simpl. rewrite andb_true_r. apply andb_comm.
Qed.

Lemma is_blank_spaces (s : str) : is_blank s = forallb is_space s.
Proof.
  unfold is_blank, strip, strip_with, rstrip_with, lstrip_with.
  transitivity (is_empty_str (drop_while is_space (rev (drop_while is_space s)))).
  - now destruct (drop_while is_space (rev (drop_while is_space s)))
      as [|x l]; [|simpl; destruct (rev l ++ [x]) eqn:E;
                    [now destruct (rev l)|]].
  - now rewrite drop_while_empty, forallb_rev_eq, forallb_drop_while.
Qed.

Lemma is_empty_blank_value (e : value) : is_empty (Some e) = blank_value e.
Proof.
  destruct e as [s|l|b]; [apply is_blank_spaces | now destruct l | reflexivity].
Qed.

(** C4. For an incoming key that is neither in [preserve_keys] nor in
    [overwrite_keys], the merged metadata hold the incoming value when the
    key is not bound in the existing metadata or is bound there to an empty
    value (a string made of blanks only, the empty string among them, or a
    list without items), and hold the existing value otherwise. *)
Theorem merge_default_policy
  (existing newdata : metadata) (preserve_keys overwrite_keys : list str)
  (k : str) (v : value) :
  distinct (dict_keys newdata) = true ->
  dict_get newdata k = Some v ->
  mem_str k preserve_keys = false ->
  mem_str k overwrite_keys = false ->
  dict_get (merge_frontmatter existing newdata preserve_keys overwrite_keys) k
  = match dict_get existing k with
    | None => Some v
    | Some (VStr s) => if forallb is_space s then Some v else Some (VStr s)
    | Some (VList []) => Some v
    | Some (VList (item :: items)) => Some (VList (item :: items))
    | Some (VBool b) => Some (VBool b)
    end.
Proof.
  intros Hd Hn Hp Ho. unfold merge_frontmatter.
  rewrite (merge_loop_incoming existing preserve_keys overwrite_keys
             newdata existing k v Hd Hn).
  unfold merge_step, dict_mem. rewrite Hp, Ho. cbn [andb orb].
  destruct (dict_get existing k) as [e|] eqn:E; cbn [negb orb].
  - rewrite is_empty_blank_value.
    destruct e as [s|[|item items]|b]; cbn [blank_value length Nat.eqb].
    + destruct (forallb is_space s); [apply dict_get_set_same | exact E].
    + apply dict_get_set_same.
    + exact E.
    + exact E.
  - apply dict_get_set_same.
Qed.

(** A key bound to a blank string takes the incoming value, a key bound to
    a name keeps it, a key that is not bound takes the incoming value. *)
Lemma merge_default_policy_witness :
  dict_get (merge_frontmatter merge_existing
              (merge_incoming ++ [(lit "ville", VStr (lit "Paris"))])
              [lit "notes"] [lit "Nom"]) (lit "role")
  = Some (VStr (lit "chef"))
  /\ dict_get (merge_frontmatter merge_existing
                 (merge_incoming ++ [(lit "ville", VStr (lit "Paris"))])
                 [lit "notes"] [lit "Nom"]) (lit "ville")
     = Some (VStr (lit "Lyon"))
  /\ dict_get (merge_frontmatter merge_existing
                 (merge_incoming ++ [(lit "ville", VStr (lit "Paris"))])
                 [lit "notes"] [lit "Nom"]) (lit "site")
     = Some (VStr (lit "x")).
Proof.
  split; [|split].
  - apply (merge_default_policy merge_existing
             (merge_incoming ++ [(lit "ville", VStr (lit "Paris"))])
             [lit "notes"] [lit "Nom"] (lit "role") (VStr (lit "chef")));
      reflexivity.
  - apply (merge_default_policy merge_existing
             (merge_incoming ++ [(lit "ville", VStr (lit "Paris"))])
             [lit "notes"] [lit "Nom"] (lit "ville") (VStr (lit "Paris")));
      reflexivity.
  - apply (merge_default_policy merge_existing
             (merge_incoming ++ [(lit "ville", VStr (lit "Paris"))])
             [lit "notes"] [lit "Nom"] (lit "site") (VStr (lit "x")));
      reflexivity.
Defined.

(** ** Reading a file *)

Lemma read_text_cons (c : ascii) (s : str) :
  read_text (c :: s)
  = if code c =? 13 then
      match s with
      | d :: t => if code d =? 10 then newline :: read_text t
                  else newline :: read_text s
      | [] => [newline]
      end
    else c :: read_text s.
Proof. reflexivity. Qed.

Lemma read_text_empty (s : str) : read_text s = [] -> s = [].
Proof.
  destruct s as [|c s]; [reflexivity|]. rewrite read_text_cons.
  destruct (code c =? 13); [|discriminate].
  destruct s as [|d t]; [discriminate|]. now destruct (code d =? 10).
Qed.

(** A text without carriage return is read as it is. *)
Lemma read_text_id (s : str) :
  forallb (fun c => negb (code c =? 13)) s = true -> read_text s = s.
Proof.
  induction s as [|c s IH]; [reflexivity|]. intros H.
  cbn [forallb] in H. apply andb_true_iff in H as [Hc Hs].
  apply negb_true_iff in Hc. rewrite read_text_cons, Hc. f_equal. now apply IH.
Qed.

Lemma code_eq (c : ascii) (n : nat) :
  (code c =? n) = true -> c = ascii_of_nat n.
Proof.
  intros H. apply Nat.eqb_eq in H. unfold code in H. rewrite <- H.
  symmetry. apply ascii_nat_embedding.
Qed.

Lemma startswith_read_text (p s : str) :
  forallb (fun c => negb (code c =? 13) && negb (code c =? 10)) p = true ->
  startswith p (read_text s) = startswith p s.
Proof.
  revert s. induction p as [|x p IH]; intros s H; [reflexivity|].
  cbn [forallb] in H. apply andb_true_iff in H as [Hx Hp].
  apply andb_true_iff in Hx as [H13 H10].
  apply negb_true_iff in H13, H10.
  destruct s as [|c s]; [reflexivity|].
  rewrite read_text_cons. destruct (code c =? 13) eqn:Ec.
  - assert (E1 : Ascii.eqb x newline = false).
    { apply Ascii.eqb_neq. intros ->. discriminate H10. }
    assert (E2 : Ascii.eqb x c = false).
    { apply Ascii.eqb_neq. intros ->. congruence. }
    cbn [startswith]. rewrite E2.
    destruct s as [|d t]; [cbn [startswith]; now rewrite E1|].
    destruct (code d =? 10); cbn [startswith]; now rewrite E1.
  - cbn [startswith]. now rewrite (IH s Hp).
Qed.

Lemma splitlines_cons (c : ascii) (s' : str) :
  splitlines (c :: s')
  = if is_linebreak c then
      match s' with
      | d :: t =>
          if (code c =? 13) && (code d =? 10) then [] :: splitlines t
          else [] :: splitlines s'
      | [] => [[]]
      end
    else match splitlines s' with
         | [] => [[c]]
         | l :: ls => (c :: l) :: ls
         end.
Proof. reflexivity. Qed.

Lemma splitlines_newline (s : str) :
  splitlines (newline :: s) = [] :: splitlines s.
Proof. now destruct s. Qed.

(** The lines of a text do not depend on the way its line ends are
    written. *)
Lemma splitlines_read_text (s : str) : splitlines (read_text s) = splitlines s.
Proof.
  assert (G : forall n s, length s <= n ->
              splitlines (read_text s) = splitlines s).
  { clear s. induction n as [|n IH]; intros s Hl.
    - destruct s; [reflexivity | simpl in Hl; lia].
    - destruct s as [|c s]; [reflexivity|]. simpl in Hl.
      rewrite read_text_cons. destruct (code c =? 13) eqn:Ec.
      + rewrite (code_eq c 13 Ec).
        destruct s as [|d t]; [reflexivity|].
        destruct (code d =? 10) eqn:Ed.
        * rewrite splitlines_newline, splitlines_cons.
          change (is_linebreak (ascii_of_nat 13)) with true.
          change (code (ascii_of_nat 13) =? 13) with true.
          rewrite Ed. cbn [andb]. f_equal. apply IH. simpl in Hl. lia.
        * rewrite splitlines_newline, (splitlines_cons _ (d :: t)).
          change (is_linebreak (ascii_of_nat 13)) with true.
          rewrite Ed, andb_false_r. f_equal. apply IH. lia.
      + rewrite !splitlines_cons, Ec. cbn [andb].
        rewrite (IH s) by lia.
        destruct (is_linebreak c); [|reflexivity].
        destruct s as [|d t]; [reflexivity|].
        destruct (read_text (d :: t)) eqn:E; [|reflexivity].
        apply read_text_empty in E. discriminate E. }
  now apply (G (length s)).
Qed.

Lemma delim_plain :
  forallb (fun c => negb (code c =? 13) && negb (code c =? 10)) delim = true.
Proof. reflexivity. Qed.

Lemma read_text_delim (s : str) :
  read_text (delim ++ s) = delim ++ read_text s.
Proof. reflexivity. Qed.

Lemma startswith_skipn_app (p s : str) :
  startswith p s = true -> s = p ++ skipn (length p) s.
Proof.
  revert s. induction p as [|x p IH]; intros s H; [reflexivity|].
  destruct s as [|c s]; [discriminate|]. cbn [startswith] in H.
  apply andb_true_iff in H as [H1 H2]. apply Ascii.eqb_eq in H1. subst c.
  cbn. f_equal. now apply IH.
Qed.

(** The first delimiter of a text that is read is the first delimiter of
    the text. *)
Lemma partition_read_text (s : str) :
  partition_sub delim (read_text s)
  = match partition_sub delim s with
    | Some (a, b) => Some (read_text a, read_text b)
    | None => None
    end.
Proof.
  assert (G : forall n s, length s <= n ->
              partition_sub delim (read_text s)
              = match partition_sub delim s with
                | Some (a, b) => Some (read_text a, read_text b)
                | None => None
                end).
  { clear s. induction n as [|n IH]; intros s Hl.
    - destruct s; [reflexivity | simpl in Hl; lia].
    - rewrite (partition_sub_eq delim s), (partition_sub_eq delim (read_text s)).
      rewrite (startswith_read_text delim s delim_plain).
      destruct (startswith delim s) eqn:Es.
      + rewrite (startswith_skipn_app delim s Es) at 1.
        rewrite read_text_delim. f_equal.
      + destruct s as [|c s]; [reflexivity|]. simpl in Hl.
        rewrite read_text_cons. destruct (code c =? 13) eqn:Ec.
        * destruct s as [|d t]; [reflexivity|].
          destruct (code d =? 10) eqn:Ed.
          -- rewrite (partition_sub_eq delim (d :: t)).
             assert (Ed' : startswith delim (d :: t) = false).
             { rewrite (code_eq d 10 Ed). reflexivity. }
             rewrite Ed', (IH t) by (simpl in Hl; lia).
             destruct (partition_sub delim t) as [[a b]|]; [|reflexivity].
             rewrite !read_text_cons, Ec, Ed. reflexivity.
          -- rewrite (IH (d :: t)) by lia.
             destruct (partition_sub delim (d :: t)) as [[a b]|] eqn:Ep;
               [|reflexivity].
             rewrite (read_text_cons c a), Ec.
             destruct a as [|d' a']; [reflexivity|].
             rewrite partition_sub_eq in Ep.
             destruct (startswith delim (d :: t)); [discriminate Ep|].
             destruct (partition_sub delim t) as [[a0 b0]|];
               [|discriminate Ep].
             injection Ep as <- _ _. now rewrite Ed.
        * rewrite (IH s) by lia.
          destruct (partition_sub delim s) as [[a b]|]; [|reflexivity].
          now rewrite (read_text_cons c a), Ec. }
  now apply (G (length s)).
Qed.

(** The metadata of a file do not depend on the way its line ends are
    written; its body is the body read. *)
Lemma read_frontmatter_read_text (s : str) :
  read_frontmatter (read_text s)
  = (fst (read_frontmatter s), read_text (snd (read_frontmatter s))).
Proof.
  unfold read_frontmatter.
  change (lit "---") with delim.
  rewrite (startswith_read_text delim s delim_plain).
  destruct (startswith delim s); [|reflexivity]. cbn [negb].
  unfold split_max2, split_max1. rewrite partition_read_text.
  destruct (partition_sub delim s) as [[a b]|]; [|reflexivity].
  rewrite partition_read_text.
  destruct (partition_sub delim b) as [[block body]|]; [|reflexivity].
  cbn [fst snd]. now rewrite splitlines_read_text.
Qed.

(** ** Configuration errors (C8) *)

Lemma filter_nil_existsb {A} (f : A -> bool) (l : list A) :
  filter f l = [] <-> existsb f l = false.
Proof.
  induction l as [|x l IH]; simpl; [tauto|].
  destruct (f x); simpl; [split; discriminate | exact IH].
Qed.

Lemma misshaped_spec (fields : list (str * json)) (shape : json -> bool)
  (key : str) :
  misshaped fields shape key = true
  <-> exists j, dict_get fields key = Some j /\ shape j = false.
Proof.
  unfold misshaped. destruct (dict_get fields key) as [j|].
  - rewrite negb_true_iff. split; [intros H; now exists j|].
    intros [j' [E H]]. now injection E as ->.
  - split; [discriminate | intros [j' [E _]]; discriminate].
Qed.

(** C8, as the code has it. A configuration file that cannot be opened or
    is not valid JSON, and a configuration whose top level is not an
    object, end the process with status 2; a file whose bytes are not UTF-8
    ends it with an exception that nothing catches; all of this before any
    row is read, and never with the status of success. Every other
    configuration passes the stage: [validate_config] returns, having
    warned about exactly the sections [aliases], [projects], [transforms],
    [list_fields] that are bound to a value that is not an object and the
    sections [preserve_keys], [overwrite_keys] that are bound to a value
    that is not a list. *)
Theorem config_stage_outcomes (f : config_file) :
  match f with
  | Unreadable | Malformed => config_stage f = Exit 2
  | Undecodable => config_stage f = Raises
  | Decoded (JObj fields) =>
      exists warned,
        config_stage f = Returns (JObj fields, warned)
        /\ (forall key,
              In key warned
              <-> (In key object_sections
                   /\ exists j, dict_get fields key = Some j
                                /\ is_obj j = false)
                  \/ (In key list_sections
                      /\ exists j, dict_get fields key = Some j
                                   /\ is_arr j = false))
        /\ (warned = [] <-> wrong_shape (JObj fields) = false)
  | Decoded _ => config_stage f = Exit 2
  end
  /\ exit_status (config_stage f) <> Some 0%Z.
Proof.
  split.
  - destruct f as [| | |j]; try reflexivity.
    destruct j as [| | | | |fields]; try reflexivity.
    cbn [config_stage load_config validate_config].
    eexists; split; [reflexivity|]. split.
    + intros key. rewrite in_app_iff, !filter_In, !misshaped_spec. tauto.
    + cbn [wrong_shape]. rewrite orb_false_iff, <- !filter_nil_existsb.
      split.
      * intros H; apply app_eq_nil in H; exact H.
      * intros [H1 H2]; now rewrite H1, H2.
  - destruct f as [| | |j]; try discriminate.
    destruct j; discriminate.
Qed.

(** C8, as the spec states it, fails: a [preserve_keys] that is a string is
    a section of the wrong shape, and the configuration stage does not end
    the process on it: [main] goes on to the rows. *)
Lemma wrong_shape_not_fatal :
  wrong_shape string_preserve_cfg = true
  /\ config_stage (Decoded string_preserve_cfg)
     = Returns (string_preserve_cfg, [lit "preserve_keys"])
  /\ exit_status (config_stage (Decoded string_preserve_cfg)) = None.
Proof. repeat split. Qed.

(** ** The hash fallback (C7) *)

(** C7 at a row whose digest is made of decimal digits: the eight
    characters [01752992] of the digest are read as a number by
    [format_composed_id], and the identity composed is [SCO-1752992], not
    the prefix joined to the eight characters. *)
Theorem hash_identity_of_digit_digest :
  row_digest digest_row = lit "01752992"
  /\ compose_id digest_row (sco_args FbHash) [] 1
     = (Some (Some (lit "SCO-1752992")), 1%Z)
  /\ option_map (fun s => map fst (rs_store s))
       (run no_list_literal empty_config (sco_args FbHash) [digest_row] [] noon)
     = Some [lit "DUPONT426.md"]
  /\ option_map
       (fun s => map (fun f => dict_get (fst (read_frontmatter (snd f)))
                                 (lit "id_mslist")) (rs_store s))
       (run no_list_literal empty_config (sco_args FbHash) [digest_row] [] noon)
     = Some [Some (VStr (lit "SCO-1752992"))].
Proof. repeat split; vm_compute; reflexivity. Qed.

(** The text that is hashed does not depend on the order of the fields of
    the row. *)

Lemma code_inj (x y : ascii) : code x = code y -> x = y.
Proof.
  unfold code; intros H.
  rewrite <- (ascii_nat_embedding x), <- (ascii_nat_embedding y). now rewrite H.
Qed.

Lemma str_leb_total (a b : str) : str_leb a b = true \/ str_leb b a = true.
Proof.
  revert b; induction a as [|x a IH]; intros [|y b]; simpl; auto.
  destruct (code x <? code y) eqn:E1; [now left|].
  destruct (code y <? code x) eqn:E2; [now right|].
  apply IH.
Qed.

Lemma str_leb_antisym (a b : str) :
  str_leb a b = true -> str_leb b a = true -> a = b.
Proof.
  revert b; induction a as [|x a IH]; intros [|y b]; simpl; try discriminate;
    [reflexivity|].
  destruct (code x <? code y) eqn:E1; destruct (code y <? code x) eqn:E2;
    try discriminate.
  - apply Nat.ltb_lt in E1, E2. lia.
  - intros H1 H2. apply Nat.ltb_ge in E1, E2.
    f_equal; [apply code_inj; lia | now apply IH].
Qed.

Lemma str_leb_trans (a b c : str) :
  str_leb a b = true -> str_leb b c = true -> str_leb a c = true.
Proof.
  revert b c; induction a as [|x a IH]; intros [|y b] [|z c]; simpl;
    try discriminate; try reflexivity.
  destruct (code x <? code y) eqn:E1; destruct (code y <? code z) eqn:E2;
    destruct (code x <? code z) eqn:E3; try reflexivity;
    destruct (code y <? code x) eqn:E4; try discriminate;
    destruct (code z <? code y) eqn:E5; try discriminate;
    destruct (code z <? code x) eqn:E6;
    repeat match goal with
           | H : (_ <? _) = true |- _ => apply Nat.ltb_lt in H
           | H : (_ <? _) = false |- _ => apply Nat.ltb_ge in H
           end; try lia; intros; try reflexivity.
  eapply IH; eauto.
Qed.

Lemma insert_sorted_perm (kv : str * str) (l : list (str * str)) :
  Permutation (insert_sorted kv l) (kv :: l).
Proof.
  induction l as [|x l IH]; simpl; [reflexivity|].
  destruct (str_leb (fst kv) (fst x)); [reflexivity|].
  rewrite IH. apply perm_swap.
Qed.

Lemma sort_items_perm (r : row) : Permutation (sort_items r) r.
Proof.
  unfold sort_items; induction r as [|kv r IH]; simpl; [reflexivity|].
  rewrite insert_sorted_perm. now constructor.
Qed.

Lemma insert_sorted_sorted (kv : str * str) (l : list (str * str)) :
  StronglySorted key_le l -> StronglySorted key_le (insert_sorted kv l).
Proof.
  induction l as [|x l IH]; intros H; simpl.
  - constructor; constructor.
  - inversion H as [|? ? Hs Hf]; subst.
    destruct (str_leb (fst kv) (fst x)) eqn:E.
    + constructor; [exact H|]. constructor; [exact E|].
      rewrite Forall_forall in *. intros y Hy.
      unfold key_le. eapply str_leb_trans; [exact E | exact (Hf y Hy)].
    + constructor; [now apply IH|].
      assert (Hx : key_le x kv)
        by (destruct (str_leb_total (fst kv) (fst x)); [congruence | assumption]).
      rewrite Forall_forall in *. intros y Hy.
      apply (Permutation_in _ (insert_sorted_perm kv l)) in Hy.
      destruct Hy as [<-|Hy]; [exact Hx | now apply Hf].
Qed.

Lemma sort_items_sorted (r : row) : StronglySorted key_le (sort_items r).
Proof.
  unfold sort_items; induction r as [|kv r IH]; simpl; [constructor|].
  now apply insert_sorted_sorted.
Qed.

Lemma distinct_NoDup (l : list str) : distinct l = true -> NoDup l.
Proof.
  induction l as [|k l IH]; simpl; intros H; [constructor|].
  apply andb_true_iff in H as [H1 H2]. apply negb_true_iff in H1.
  constructor; [|now apply IH].
  intros Hin. apply mem_str_In in Hin. congruence.
Qed.

Lemma same_key_same_item (l : list (str * str)) (a b : str * str) :
  NoDup (map fst l) -> In a l -> In b l -> fst a = fst b -> a = b.
Proof.
  induction l as [|x l IH]; simpl; [tauto|].
  intros Hn Ha Hb E. inversion Hn as [|? ? Hx Hl]; subst.
  destruct Ha as [->|Ha], Hb as [->|Hb]; auto.
  - exfalso; apply Hx. rewrite E. now apply in_map.
  - exfalso; apply Hx. rewrite <- E. now apply in_map.
Qed.

Lemma sorted_perm_unique (l1 l2 : list (str * str)) :
  StronglySorted key_le l1 -> StronglySorted key_le l2 ->
  Permutation l1 l2 -> NoDup (map fst l1) -> l1 = l2.
Proof.
  revert l2; induction l1 as [|a l1 IH]; intros l2 S1 S2 P N.
  - apply Permutation_nil in P. now subst.
  - destruct l2 as [|b l2];
      [apply Permutation_sym, Permutation_nil in P; discriminate|].
    inversion S1 as [|? ? S1' F1]; inversion S2 as [|? ? S2' F2]; subst.
    rewrite Forall_forall in F1, F2.
    assert (Hb : In b (a :: l1))
      by (apply (Permutation_in _ (Permutation_sym P)); now left).
    assert (Ha : In a (b :: l2)) by (apply (Permutation_in _ P); now left).
    assert (E : a = b).
    { destruct Hb as [Hb|Hb]; [exact Hb|]. destruct Ha as [Ha|Ha]; [auto|].
      apply (same_key_same_item (a :: l1)); auto; [now left | now right|].
      apply str_leb_antisym; [apply (F1 b Hb) | apply (F2 a Ha)]. }
    subst b. f_equal. apply IH; auto.
    + now apply Permutation_cons_inv in P.
    + now inversion N.
Qed.

(** Two rows with the same fields, in any order, have the same digest. *)
Lemma row_digest_order_free (r1 r2 : row) :
  Permutation r1 r2 -> distinct (dict_keys r1) = true ->
  json_dumps_sorted r1 = json_dumps_sorted r2 /\ row_digest r1 = row_digest r2.
Proof.
  intros P D.
  assert (E : sort_items r1 = sort_items r2).
  { apply sorted_perm_unique; try apply sort_items_sorted.
    - rewrite (sort_items_perm r1), P. symmetry. apply sort_items_perm.
    - apply (Permutation_NoDup (l := map fst r1)).
      + apply Permutation_map. symmetry. apply sort_items_perm.
      + apply distinct_NoDup. exact D. }
  unfold row_digest, json_dumps_sorted. now rewrite E.
Qed.

(** The identity composed under the hash fallback does not depend on the
    sequence counter, which it leaves as it is. *)
Lemma hash_identity_counter_free (r : row) (args : arguments) (src : str)
  (n1 n2 : Z) :
  arg_id_fallback args = FbHash ->
  fst (compose_id r args src n1) = fst (compose_id r args src n2)
  /\ snd (compose_id r args src n1) = n1.
Proof.
  intros H; unfold compose_id; rewrite H.
  destruct (str_isdigit src); split; reflexivity.
Qed.

(** ** Identity composition (C6) *)

Lemma ascii_digit_not_space (c : ascii) :
  is_ascii_digit c = true ->
  is_space c = false /\ Ascii.eqb c "+" = false /\ Ascii.eqb c "-" = false
  /\ (0 <= digit_val c)%Z.
Proof.
  destruct c as [[] [] [] [] [] [] [] []]; vm_compute;
    intros H; try discriminate H; repeat split; discriminate.
Qed.

Lemma digits_strip (s : str) :
  forallb is_ascii_digit s = true -> strip s = s.
Proof.
  intros H. apply strip_with_id.
  - destruct s as [|c s]; simpl; [exact I|].
    simpl in H; apply andb_true_iff in H as [H _].
    now apply ascii_digit_not_space.
  - rewrite forallb_forall in H.
    destruct (rev s) as [|c r] eqn:E; simpl; [exact I|].
    apply ascii_digit_not_space, H, in_rev. rewrite E; now left.
Qed.

Lemma literal_digits_all (s : str) :
  forallb is_ascii_digit s = true -> literal_digits s true = Some s.
Proof.
  induction s as [|c s IH]; intros H; [reflexivity|].
  simpl in H; apply andb_true_iff in H as [Hc Hs].
  simpl. now rewrite Hc, (IH Hs).
Qed.

Lemma py_int_digits_bounded (s : str) :
  s <> [] -> forallb is_ascii_digit s = true ->
  py_int s = bounded_number s.
Proof.
  intros Hne H; destruct s as [|c s]; [congruence|].
  simpl in H; apply andb_true_iff in H as [Hc Hs].
  destruct (ascii_digit_not_space c Hc) as [_ [Hp [Hm _]]].
  unfold py_int. rewrite Hp, Hm.
  cbn [literal_digits]. rewrite Hc, (literal_digits_all s Hs). reflexivity.
Qed.

Lemma py_int_digits (s : str) :
  s <> [] -> forallb is_ascii_digit s = true ->
  (length s <= int_max_str_digits)%nat ->
  py_int s = Some (num_of_digits s).
Proof.
  intros Hne H Hl. rewrite (py_int_digits_bounded s Hne H).
  unfold bounded_number.
  now replace (int_max_str_digits <? length s)%nat with false
    by (symmetry; apply Nat.ltb_ge; exact Hl).
Qed.


Lemma num_of_digits_nonneg (s : str) :
  forallb is_ascii_digit s = true -> (0 <= num_of_digits s)%Z.
Proof.
  unfold num_of_digits.
  assert (G : forall a, (0 <= a)%Z -> forallb is_ascii_digit s = true ->
              (0 <= fold_left (fun (a : Z) c => (10 * a + digit_val c)%Z) s a)%Z).
  { induction s as [|c s IH]; intros a Ha H; [exact Ha|].
    simpl in H; apply andb_true_iff in H as [Hc Hs].
    cbn [fold_left]. apply IH; [|exact Hs].
    destruct (ascii_digit_not_space c Hc) as [_ [_ [_ Hd]]]. lia. }
  apply G; lia.
Qed.

Lemma format_padded_width (n pad : Z) :
  (0 <= n)%Z -> (0 <= pad <= format_width_max)%Z ->
  format_padded n pad = Some (zero_padded (Z.to_nat pad) (decimal (Z.to_N n))).
Proof.
  intros Hn [H0 H1]. unfold format_padded.
  assert (E2 : (pad <? 0)%Z = false) by now apply Z.ltb_ge.
  assert (E3 : (n <? 0)%Z = false) by now apply Z.ltb_ge.
  assert (E4 : (format_width_max <? pad)%Z = false) by now apply Z.ltb_ge.
  now rewrite E2, E3, E4, (Zabs2N.abs_N_nonneg _ Hn).
Qed.


(** The identity composed from a raw id made of decimal digits. *)
Lemma format_composed_id_digits (prefix raw_id : str) (pad : Z) :
  raw_id <> [] -> forallb is_ascii_digit raw_id = true ->
  (length raw_id <= int_max_str_digits)%nat ->
  (0 <= pad <= format_width_max)%Z ->
  format_composed_id prefix raw_id pad
  = (if is_empty_str (make_id_prefix prefix) then []
     else make_id_prefix prefix ++ [hyphen])
    ++ zero_padded (Z.to_nat pad) (decimal (Z.to_N (num_of_digits raw_id))).
Proof.
  intros Hne Hd Hl Hpad. unfold format_composed_id.
  destruct raw_id as [|c s] eqn:E; [congruence|]. rewrite <- E in *.
  assert (E1 : is_empty_str raw_id = false) by now rewrite E.
  rewrite E1, (digits_strip raw_id Hd), (py_int_digits raw_id Hne Hd Hl).
  pose proof (num_of_digits_nonneg raw_id Hd) as Hn.
  rewrite (format_padded_width _ _ Hn Hpad).
  destruct (make_id_prefix prefix) as [|x p]; cbn [is_empty_str];
    [reflexivity | now rewrite <- app_assoc].
Qed.


(** ** A name that is free in the store *)

Lemma str_of_uint_inj (d d' : Decimal.uint) :
  str_of_uint d = str_of_uint d' -> d = d'.
Proof.
  revert d'; induction d; intros d' H; destruct d'; simpl in H;
    try discriminate; try reflexivity;
    injection H as H; f_equal; auto.
Qed.

Lemma str_of_Z_inj_pos (n m : Z) :
  (0 <= n)%Z -> (0 <= m)%Z -> str_of_Z n = str_of_Z m -> n = m.
Proof.
  intros Hn Hm; unfold str_of_Z.
  assert (E1 : (n <? 0)%Z = false) by now apply Z.ltb_ge.
  assert (E2 : (m <? 0)%Z = false) by now apply Z.ltb_ge.
  rewrite E1, E2. unfold decimal. intros H.
  apply str_of_uint_inj, DecimalN.Unsigned.to_uint_inj in H.
  rewrite !Zabs2N.abs_N_nonneg in H by assumption.
  now apply Z2N.inj.
Qed.

Lemma candidate_inj (b : str) (k k' : nat) :
  candidate b k = candidate b k' -> k = k'.
Proof.
  destruct k as [|k], k' as [|k']; unfold candidate; intros H;
    try reflexivity.
  - apply app_inv_head in H. discriminate H.
  - apply app_inv_head in H. discriminate H.
  - apply app_inv_head in H. apply app_inv_head in H.
    apply app_inv_tail in H. apply str_of_Z_inj_pos in H; lia.
Qed.

Lemma fresh_loop_taken (st : store) (b : str) (fuel k : nat) :
  dict_mem st (fresh_loop st b fuel (Z.of_nat k + 2) (candidate b k)) = true ->
  forall j, k <= j <= k + fuel -> dict_mem st (candidate b j) = true.
Proof.
  revert k; induction fuel as [|f IH]; intros k H j Hj.
  - assert (j = k) by lia; subst j.
    simpl in H. destruct (dict_mem st (candidate b k)) eqn:E; [reflexivity|].
    congruence.
  - cbn [fresh_loop] in H.
    destruct (dict_mem st (candidate b k)) eqn:E; [|congruence].
    destruct (Nat.eq_dec j k) as [->|Hne]; [exact E|].
    apply (IH (S k)); [|lia].
    replace (Z.of_nat (S k) + 2)%Z with (Z.of_nat k + 2 + 1)%Z by lia.
    replace (candidate b (S k))
      with (b ++ lit " - " ++ str_of_Z (Z.of_nat k + 2) ++ lit ".md");
      [exact H|].
    unfold candidate.
    replace (Z.of_nat (S k) + 1)%Z with (Z.of_nat k + 2)%Z by lia.
    reflexivity.
Qed.

Lemma dict_mem_In {V} (d : dict V) (k : str) :
  dict_mem d k = true -> In k (dict_keys d).
Proof.
  unfold dict_mem; destruct (dict_get d k) eqn:E; [|discriminate].
  intros _; exact (dict_get_In d k v E).
Qed.

(** The name that the loop settles on is not in the store. *)
Lemma fresh_target_free (st : store) (b : str) :
  dict_get st (fresh_target st b) = None.
Proof.
  destruct (dict_get st (fresh_target st b)) eqn:E; [|reflexivity].
  exfalso.
  assert (M : dict_mem st (fresh_target st b) = true)
    by (unfold dict_mem; now rewrite E).
  unfold fresh_target in M.
  pose proof (fresh_loop_taken st b (length st) 0 M) as T.
  assert (Hincl : incl (map (candidate b) (seq 0 (S (length st))))
                       (dict_keys st)).
  { intros x Hx. apply in_map_iff in Hx as [j [<- Hj]].
    apply in_seq in Hj. apply dict_mem_In, T. lia. }
  assert (Hnd : NoDup (map (candidate b) (seq 0 (S (length st))))).
  { apply Injective_map_NoDup; [|apply seq_NoDup].
    intros x y; apply candidate_inj. }
  pose proof (NoDup_incl_length Hnd Hincl) as L.
  unfold dict_keys in L. rewrite !length_map, length_seq in L. lia.
Qed.

(** ** The metadata built from a contact *)

Lemma build_frontmatter_eq (c : contact) (cfg : config) (now : str) :
  build_frontmatter c cfg now
  = fold_left frontmatter_step c
      (if cfg_normalize_phone_fr cfg
       then frontmatter_phone
              (frontmatter_phone (frontmatter_base c now) (lit "Tel_Mobile"))
              (lit "Tel_Fixe")
       else frontmatter_base c now).
Proof. reflexivity. Qed.

Lemma dict_mem_set {V} (d : dict V) (k k' : str) (v : V) :
  dict_mem (dict_set d k v) k' = str_eqb k' k || dict_mem d k'.
Proof.
  unfold dict_mem. destruct (str_eqb k' k) eqn:E.
  - apply str_eqb_eq in E; subst. now rewrite dict_get_set_same.
  - apply str_eqb_neq in E. now rewrite dict_get_set_other.
Qed.

Lemma agree_off_set (x : str) (a b : metadata) (k : str) (v : value) :
  agree_off x a b -> agree_off x (dict_set a k v) (dict_set b k v).
Proof.
  intros H k'; destruct (H k') as [H1 H2]; split.
  - now rewrite !dict_mem_set, H1.
  - intros Hne. destruct (str_eqb k' k) eqn:E.
    + apply str_eqb_eq in E; subst. now rewrite !dict_get_set_same.
    + apply str_eqb_neq in E. rewrite !dict_get_set_other by exact E. auto.
Qed.

Lemma agree_off_step (x : str) (a b : metadata) (kv : str * value) :
  agree_off x a b -> agree_off x (frontmatter_step a kv) (frontmatter_step b kv).
Proof.
  intros H; destruct kv as [k v]; unfold frontmatter_step.
  destruct (str_eqb k (lit "src_id_mslist")); [exact H|].
  destruct (mem_str k [lit "email"; lit "telephone"]
            && negb (truthy v && negb (is_blank (py_str v)))); [exact H|].
  destruct (H k) as [Hm _]. rewrite Hm.
  destruct (dict_mem b k); [exact H | now apply agree_off_set].
Qed.

Lemma agree_off_fold (x : str) (c : contact) (a b : metadata) :
  agree_off x a b ->
  agree_off x (fold_left frontmatter_step c a) (fold_left frontmatter_step c b).
Proof.
  revert a b; induction c as [|kv c IH]; intros a b H; [exact H|].
  cbn [fold_left]. apply IH. now apply agree_off_step.
Qed.

Lemma agree_off_phone (x : str) (a b : metadata) (k : str) :
  k <> x -> agree_off x a b ->
  agree_off x (frontmatter_phone a k) (frontmatter_phone b k).
Proof.
  intros Hk H; unfold frontmatter_phone.
  destruct (H k) as [_ Hg]. rewrite (Hg Hk).
  destruct (dict_get b k) as [v|]; [|exact H].
  destruct (truthy v); [now apply agree_off_set | exact H].
Qed.

Lemma agree_off_base (c : contact) (now now' : str) :
  agree_off source_updated (frontmatter_base c now) (frontmatter_base c now').
Proof.
  intros k; unfold frontmatter_base, dict_mem; cbn [dict_get]; split.
  - repeat (match goal with
            | |- context [str_eqb k ?x] => destruct (str_eqb k x); [reflexivity|]
            end).
    reflexivity.
  - intros Hne.
    repeat (match goal with
            | |- context [str_eqb k ?x] =>
                let E := fresh "E" in
                destruct (str_eqb k x) eqn:E; [try reflexivity|]
            end); try reflexivity.
    apply str_eqb_eq in E9. contradiction.
Qed.

(** Off [source_updated], the metadata built from a contact do not depend
    on the clock. *)
Lemma build_frontmatter_clock (c : contact) (cfg : config) (now now' : str) :
  agree_off source_updated (build_frontmatter c cfg now)
                           (build_frontmatter c cfg now').
Proof.
  rewrite !build_frontmatter_eq. apply agree_off_fold.
  destruct (cfg_normalize_phone_fr cfg).
  - apply agree_off_phone; [discriminate|].
    apply agree_off_phone; [discriminate|]. apply agree_off_base.
  - apply agree_off_base.
Qed.

Lemma frontmatter_step_keeps (fm : metadata) (kv : str * value) (k : str)
  (v : value) :
  dict_get fm k = Some v -> dict_get (frontmatter_step fm kv) k = Some v.
Proof.
  intros H; destruct kv as [k' v']; unfold frontmatter_step.
  destruct (str_eqb k' (lit "src_id_mslist")); [exact H|].
  destruct (mem_str k' [lit "email"; lit "telephone"]
            && negb (truthy v' && negb (is_blank (py_str v')))); [exact H|].
  destruct (dict_mem fm k') eqn:E; [exact H|].
  rewrite dict_get_set_other; [exact H|].
  intros ->. unfold dict_mem in E. now rewrite H in E.
Qed.

Lemma frontmatter_fold_keeps (c : contact) (fm : metadata) (k : str) (v : value) :
  dict_get fm k = Some v -> dict_get (fold_left frontmatter_step c fm) k = Some v.
Proof.
  revert fm; induction c as [|kv c IH]; intros fm H; [exact H|].
  cbn [fold_left]. apply IH. now apply frontmatter_step_keeps.
Qed.

Lemma frontmatter_phone_other (fm : metadata) (k k' : str) :
  k' <> k -> dict_get (frontmatter_phone fm k) k' = dict_get fm k'.
Proof.
  intros H; unfold frontmatter_phone.
  destruct (dict_get fm k) as [v|]; [|reflexivity].
  destruct (truthy v); [now apply dict_get_set_other | reflexivity].
Qed.

(** The identity field of the metadata built is that of the contact. *)
Lemma build_frontmatter_id (c : contact) (cfg : config) (now : str) :
  dict_get (build_frontmatter c cfg now) (lit "id_mslist")
  = Some (get_or c (lit "id_mslist") (VStr [])).
Proof.
  rewrite build_frontmatter_eq. apply frontmatter_fold_keeps.
  destruct (cfg_normalize_phone_fr cfg); [|reflexivity].
  rewrite !frontmatter_phone_other by discriminate. reflexivity.
Qed.

(** The metadata built from a contact bind a key at most once. *)

Lemma dict_keys_set {V} (d : dict V) (k : str) (v : V) :
  dict_keys (dict_set d k v)
  = if dict_mem d k then dict_keys d else dict_keys d ++ [k].
Proof.
  unfold dict_mem; induction d as [|[k' v'] d IH]; simpl; [reflexivity|].
  destruct (str_eqb k k') eqn:E; simpl; [reflexivity|].
  rewrite IH. destruct (dict_get d k); reflexivity.
Qed.

Lemma dict_mem_keys {V} (d : dict V) (k : str) :
  dict_mem d k = mem_str k (dict_keys d).
Proof.
  unfold dict_mem; induction d as [|[k' v'] d IH]; simpl; [reflexivity|].
  destruct (str_eqb k k'); simpl; [reflexivity | exact IH].
Qed.

Lemma mem_str_app (k : str) (l1 l2 : list str) :
  mem_str k (l1 ++ l2) = mem_str k l1 || mem_str k l2.
Proof. apply existsb_app. Qed.

Lemma distinct_snoc (l : list str) (k : str) :
  distinct l = true -> mem_str k l = false -> distinct (l ++ [k]) = true.
Proof.
  induction l as [|x l IH]; intros Hd Hk; [reflexivity|].
  simpl in Hd, Hk. apply andb_true_iff in Hd as [Hx Hd].
  apply orb_false_iff in Hk as [Hkx Hk].
  simpl. rewrite mem_str_app, (IH Hd Hk), andb_true_r.
  apply negb_true_iff in Hx. rewrite Hx. simpl.
  rewrite str_eqb_sym, Hkx. reflexivity.
Qed.

Lemma distinct_set {V} (d : dict V) (k : str) (v : V) :
  distinct (dict_keys d) = true -> distinct (dict_keys (dict_set d k v)) = true.
Proof.
  intros H. rewrite dict_keys_set. destruct (dict_mem d k) eqn:E; [exact H|].
  apply distinct_snoc; [exact H|]. now rewrite <- dict_mem_keys.
Qed.

Lemma build_frontmatter_distinct (c : contact) (cfg : config) (now : str) :
  distinct (dict_keys (build_frontmatter c cfg now)) = true.
Proof.
  rewrite build_frontmatter_eq.
  assert (F : forall fm, distinct (dict_keys fm) = true ->
              distinct (dict_keys (fold_left frontmatter_step c fm)) = true).
  { induction c as [|[k v] c IH]; intros fm H; [exact H|].
    cbn [fold_left]. apply IH. unfold frontmatter_step.
    destruct (str_eqb k (lit "src_id_mslist")); [exact H|].
    destruct (mem_str k [lit "email"; lit "telephone"]
              && negb (truthy v && negb (is_blank (py_str v)))); [exact H|].
    destruct (dict_mem fm k); [exact H | now apply distinct_set]. }
  assert (P : forall fm k, distinct (dict_keys fm) = true ->
              distinct (dict_keys (frontmatter_phone fm k)) = true).
  { intros fm k H; unfold frontmatter_phone.
    destruct (dict_get fm k) as [v|]; [|exact H].
    destruct (truthy v); [now apply distinct_set | exact H]. }
  apply F. destruct (cfg_normalize_phone_fr cfg); [apply P, P|]; reflexivity.
Qed.

(** ** The outcome of one row *)

Lemma In_dict_get {V} (d : dict V) (k : str) (v : V) :
  distinct (dict_keys d) = true -> In (k, v) d -> dict_get d k = Some v.
Proof.
  induction d as [|[k' v'] d IH]; simpl; [tauto|].
  intros Hd [H|H].
  - injection H as -> ->. now rewrite str_eqb_refl.
  - apply andb_true_iff in Hd as [Hk Hd]. apply negb_true_iff in Hk.
    destruct (str_eqb k k') eqn:E; [|now apply IH].
    apply str_eqb_eq in E; subst k'.
    assert (M : mem_str k (map fst d) = true)
      by (apply mem_str_In, in_map_iff; now exists (k, v)).
    unfold dict_keys in Hk. rewrite M in Hk. discriminate Hk.
Qed.

Lemma dict_get_pair_In {V} (d : dict V) (k : str) (v : V) :
  dict_get d k = Some v -> In (k, v) d.
Proof.
  induction d as [|[k' v'] d IH]; simpl; [discriminate|].
  destruct (str_eqb k k') eqn:E.
  - apply str_eqb_eq in E; subst k'. intros H; injection H as ->. now left.
  - intros H; right; now apply IH.
Qed.

Lemma is_empty_str_false (s : str) : s <> [] -> is_empty_str s = false.
Proof. destruct s; [congruence | reflexivity]. Qed.

Lemma is_empty_str_true (s : str) : is_empty_str s = true -> s = [].
Proof. destruct s; [reflexivity | discriminate]. Qed.

(** The indexes built from a store name documents of that store, and go on
    doing so when documents are written. *)

Lemma dict_set_In {V} (d : dict V) (k : str) (v : V) (kv : str * V) :
  In kv (dict_set d k v) -> In kv d \/ snd kv = v.
Proof.
  induction d as [|[k0 v0] d IH]; simpl.
  - intros [<-|[]]. now right.
  - destruct (str_eqb k k0); simpl.
    + intros [<-|H]; [now right | left; now right].
    + intros [<-|H]; [left; now left|].
      destruct (IH H) as [H1|H1]; [left; now right | now right].
Qed.

(** ** Matching a contact to a document (C5) *)

Lemma index_in_store_get (idx : dict str) (st : store) (k p : str) :
  index_in_store idx st = true -> dict_get idx k = Some p ->
  exists txt, dict_get st p = Some txt.
Proof.
  unfold index_in_store; intros H G.
  assert (M : dict_mem st p = true).
  { induction idx as [|[k' p'] idx IH]; simpl in *; [discriminate|].
    apply andb_true_iff in H as [H1 H2].
    destruct (str_eqb k k'); [now injection G as <- | now apply IH]. }
  unfold dict_mem in M. destruct (dict_get st p) as [txt|]; [|discriminate].
  now exists txt.
Qed.

Lemma index_in_store_iff (idx : dict str) (st : store) :
  index_in_store idx st = true
  <-> forall kv, In kv idx -> dict_mem st (snd kv) = true.
Proof. unfold index_in_store. apply forallb_forall. Qed.

Lemma index_in_store_add (idx : dict str) (st : store) (k md : str) :
  index_in_store idx st = true -> dict_mem st md = true ->
  index_in_store (dict_set idx k md) st = true.
Proof.
  rewrite !index_in_store_iff. intros H Hm kv Hin.
  destruct (dict_set_In idx k md kv Hin) as [H1|H1]; [now apply H|].
  now rewrite H1.
Qed.
Lemma dict_set_same_id {V} (d : dict V) (k : str) (v : V) :
  dict_get d k = Some v -> dict_set d k v = d.
Proof.
  induction d as [|[k' v'] d IH]; simpl; [discriminate|].
  destruct (str_eqb k k') eqn:E.
  - intros H; injection H as ->. reflexivity.
  - intros H. now rewrite IH.
Qed.

Lemma dict_get_mem_false {V} (d : dict V) (k : str) :
  dict_mem d k = false -> dict_get d k = None.
Proof. unfold dict_mem. destruct (dict_get d k); [discriminate|reflexivity]. Qed.

Lemma merge_value_at (existing newdata : metadata)
  (preserve_keys overwrite_keys : list str) (k : str) :
  distinct (dict_keys newdata) = true ->
  dict_get (merge_frontmatter existing newdata preserve_keys overwrite_keys) k
  = match dict_get newdata k with
    | None => dict_get existing k
    | Some v =>
        if mem_str k preserve_keys && dict_mem existing k
        then dict_get existing k
        else if mem_str k overwrite_keys || negb (dict_mem existing k)
                || is_empty (dict_get existing k)
        then Some v
        else dict_get existing k
    end.
Proof.
  intros Hd. unfold merge_frontmatter.
  destruct (dict_get newdata k) as [v|] eqn:E.
  - rewrite (merge_loop_incoming existing preserve_keys overwrite_keys
               newdata existing k v Hd E).
    unfold merge_step.
    destruct (mem_str k preserve_keys && dict_mem existing k); [reflexivity|].
    destruct (mem_str k overwrite_keys || negb (dict_mem existing k)
              || is_empty (dict_get existing k)); [|reflexivity].
    apply dict_get_set_same.
  - now apply merge_loop_absent.
Qed.

(** The value that the merge gives to a key is decided by the key alone.
    A key that the incoming metadata do not bind keeps its binding. A key
    that the existing metadata do not bind takes the incoming value. A key
    bound in both keeps the existing value when it is preserved; otherwise
    it takes the incoming value when it is an overwrite key or when the
    existing value is empty (a string made of blanks only, or a list without
    items), and keeps the existing value when it is not. *)
Theorem merge_pointwise (existing newdata : metadata)
  (preserve_keys overwrite_keys : list str) (k : str) :
  distinct (dict_keys newdata) = true ->
  dict_get (merge_frontmatter existing newdata preserve_keys overwrite_keys) k
  = match dict_get newdata k, dict_get existing k with
    | None, e => e
    | Some v, None => Some v
    | Some v, Some e =>
        if mem_str k preserve_keys then Some e
        else if mem_str k overwrite_keys then Some v
        else match e with
             | VStr s => if forallb is_space s then Some v else Some e
             | VList [] => Some v
             | VList (_ :: _) => Some e
             | VBool _ => Some e
             end
    end.
Proof.
  intros Hd.
  rewrite (merge_value_at existing newdata preserve_keys overwrite_keys k Hd).
  destruct (dict_get newdata k) as [v|]; [|now destruct (dict_get existing k)].
  unfold dict_mem.
  destruct (dict_get existing k) as [e|].
  - rewrite andb_true_r. destruct (mem_str k preserve_keys); [reflexivity|].
    destruct (mem_str k overwrite_keys); [reflexivity|].
    cbn [negb orb]. rewrite is_empty_blank_value.
    destruct e as [s|[|item items]|b]; cbn [blank_value length Nat.eqb];
      reflexivity.
  - rewrite andb_false_r. cbn [negb]. now rewrite orb_true_r.
Qed.

(** An overwrite key takes the incoming value; a key bound to a blank
    string takes it as well; a key bound to a name keeps the name; a
    preserved key keeps its value. *)
Lemma merge_pointwise_witness :
  dict_get (merge_frontmatter merge_existing merge_incoming
              DEFAULT_PRESERVE_KEYS DEFAULT_OVERWRITE_KEYS) (lit "Nom")
  = Some (VStr (lit "New"))
  /\ dict_get (merge_frontmatter merge_existing merge_incoming
                 DEFAULT_PRESERVE_KEYS DEFAULT_OVERWRITE_KEYS) (lit "role")
     = Some (VStr (lit "chef"))
  /\ dict_get (merge_frontmatter merge_existing
                 (merge_incoming ++ [(lit "ville", VStr (lit "Paris"))])
                 DEFAULT_PRESERVE_KEYS DEFAULT_OVERWRITE_KEYS) (lit "ville")
     = Some (VStr (lit "Lyon"))
  /\ dict_get (merge_frontmatter merge_existing merge_incoming
                 DEFAULT_PRESERVE_KEYS DEFAULT_OVERWRITE_KEYS) (lit "notes")
     = Some (VStr (lit "mine")).
Proof.
  split; [|split; [|split]].
  - exact (merge_pointwise merge_existing merge_incoming DEFAULT_PRESERVE_KEYS
             DEFAULT_OVERWRITE_KEYS (lit "Nom") eq_refl).
  - exact (merge_pointwise merge_existing merge_incoming DEFAULT_PRESERVE_KEYS
             DEFAULT_OVERWRITE_KEYS (lit "role") eq_refl).
  - exact (merge_pointwise merge_existing
             (merge_incoming ++ [(lit "ville", VStr (lit "Paris"))])
             DEFAULT_PRESERVE_KEYS DEFAULT_OVERWRITE_KEYS (lit "ville") eq_refl).
  - exact (merge_pointwise merge_existing merge_incoming DEFAULT_PRESERVE_KEYS
             DEFAULT_OVERWRITE_KEYS (lit "notes") eq_refl).
Defined.

Lemma merge_keys_loop (existing : metadata) (P O : list str) :
  forall (newdata out : metadata),
    distinct (dict_keys newdata) = true ->
    (forall k, In k (dict_keys newdata) -> dict_mem out k = dict_mem existing k) ->
    dict_keys (fold_left (merge_step existing P O) newdata out)
    = dict_keys out
      ++ filter (fun k => negb (dict_mem existing k)) (dict_keys newdata).
Proof.
  induction newdata as [|[k v] nd IH]; intros out Hd Hm.
  - cbn. now rewrite app_nil_r.
  - cbn [dict_keys map fst distinct] in Hd.
    apply andb_true_iff in Hd as [Hk Hd]. apply negb_true_iff in Hk.
    assert (Hother : forall k', In k' (dict_keys nd) -> str_eqb k' k = false).
    { intros k' Hin. apply str_eqb_neq. intros ->.
      apply mem_str_In in Hin. unfold dict_keys in Hin. congruence. }
    pose proof (Hm k (or_introl eq_refl)) as Hmk.
    cbn [fold_left].
    change (dict_keys ((k, v) :: nd)) with (k :: dict_keys nd).
    cbn [filter].
    set (out' := merge_step existing P O out (k, v)).
    assert (Hmem : forall k', In k' (dict_keys nd) ->
                              dict_mem out' k' = dict_mem existing k').
    { intros k' Hin. rewrite <- (Hm k' (or_intror Hin)).
      unfold out', merge_step.
      destruct (mem_str k P && dict_mem existing k); [reflexivity|].
      destruct (mem_str k O || negb (dict_mem existing k)
                || is_empty (dict_get existing k)); [|reflexivity].
      now rewrite dict_mem_set, (Hother k' Hin). }
    rewrite (IH out' Hd Hmem).
    assert (K : dict_keys out'
                = dict_keys out ++ (if negb (dict_mem existing k) then [k] else [])).
    { unfold out', merge_step.
      destruct (dict_mem existing k) eqn:Ee; cbn [negb].
      - rewrite app_nil_r.
        destruct (mem_str k P && true); [reflexivity|].
        destruct (mem_str k O || false || is_empty (dict_get existing k));
          [|reflexivity].
        now rewrite dict_keys_set, Hmk.
      - rewrite andb_false_r, orb_true_r. cbn [orb].
        now rewrite dict_keys_set, Hmk. }
    rewrite K, <- app_assoc.
    destruct (negb (dict_mem existing k)); reflexivity.
Qed.

(** The merge keeps every key of the existing metadata at its place and
    adds after them the incoming keys that were not bound, in their
    order. *)
Theorem merge_keys_in_order (existing newdata : metadata)
  (preserve_keys overwrite_keys : list str) :
  distinct (dict_keys newdata) = true ->
  dict_keys (merge_frontmatter existing newdata preserve_keys overwrite_keys)
  = dict_keys existing
    ++ filter (fun k => negb (dict_mem existing k)) (dict_keys newdata).
Proof.
  intros Hd. unfold merge_frontmatter. now apply merge_keys_loop.
Qed.

Lemma merge_keys_in_order_witness :
  dict_keys (merge_frontmatter merge_existing merge_fresh
               DEFAULT_PRESERVE_KEYS DEFAULT_OVERWRITE_KEYS)
  = dict_keys merge_existing
    ++ filter (fun k => negb (dict_mem merge_existing k))
         (dict_keys merge_fresh).
Proof.
  exact (merge_keys_in_order merge_existing merge_fresh DEFAULT_PRESERVE_KEYS
           DEFAULT_OVERWRITE_KEYS eq_refl).
Defined.

Lemma merge_fixed_loop (m : metadata) (P O : list str) (existing : metadata) :
  forall (newdata : metadata),
    (forall k v, In (k, v) newdata -> merge_step existing P O m (k, v) = m) ->
    fold_left (merge_step existing P O) newdata m = m.
Proof.
  induction newdata as [|[k v] nd IH]; intros H; [reflexivity|].
  cbn [fold_left]. rewrite (H k v (or_introl eq_refl)).
  apply IH. intros k' v' Hin. apply H. now right.
Qed.

(** Merging the same incoming metadata into the result of a merge changes
    nothing. *)
Theorem merge_idempotent (existing newdata : metadata)
  (preserve_keys overwrite_keys : list str) :
  distinct (dict_keys newdata) = true ->
  merge_frontmatter
    (merge_frontmatter existing newdata preserve_keys overwrite_keys)
    newdata preserve_keys overwrite_keys
  = merge_frontmatter existing newdata preserve_keys overwrite_keys.
Proof.
  intros Hd.
  set (m := merge_frontmatter existing newdata preserve_keys overwrite_keys).
  unfold merge_frontmatter at 1. apply merge_fixed_loop.
  intros k v Hin.
  assert (Hget : dict_get newdata k = Some v).
  { apply In_dict_get; [exact Hd | exact Hin]. }
  pose proof (merge_value_at existing newdata preserve_keys overwrite_keys k Hd)
    as Hm.
  fold m in Hm. rewrite Hget in Hm.
  unfold merge_step.
  destruct (mem_str k preserve_keys) eqn:Ep; cbn [andb] in *.
  - destruct (dict_mem existing k) eqn:Ee.
    + unfold dict_mem at 1. rewrite Hm.
      unfold dict_mem in Ee. destruct (dict_get existing k); [reflexivity|discriminate].
    + cbn [negb] in Hm. rewrite orb_true_r in Hm. cbn [orb] in Hm.
      unfold dict_mem at 1. now rewrite Hm.
  - destruct (mem_str k overwrite_keys || negb (dict_mem existing k)
              || is_empty (dict_get existing k)) eqn:Ec.
    + rewrite (dict_set_same_id m k v Hm).
      destruct (mem_str k overwrite_keys || negb (dict_mem m k)
                || is_empty (dict_get m k)); reflexivity.
    + apply orb_false_iff in Ec as [Ec Eem].
      apply orb_false_iff in Ec as [Eo Ee].
      rewrite Eo, Hm. unfold dict_mem at 1. rewrite Hm.
      apply negb_false_iff in Ee. unfold dict_mem in Ee.
      destruct (dict_get existing k) as [w|] eqn:Ew; [|discriminate].
      cbn [negb orb]. now rewrite Eem.
Qed.

Lemma merge_idempotent_witness :
  merge_frontmatter
    (merge_frontmatter merge_existing merge_fresh DEFAULT_PRESERVE_KEYS
       DEFAULT_OVERWRITE_KEYS)
    merge_fresh DEFAULT_PRESERVE_KEYS DEFAULT_OVERWRITE_KEYS
  = merge_frontmatter merge_existing merge_fresh DEFAULT_PRESERVE_KEYS
      DEFAULT_OVERWRITE_KEYS.
Proof.
  exact (merge_idempotent merge_existing merge_fresh DEFAULT_PRESERVE_KEYS
           DEFAULT_OVERWRITE_KEYS eq_refl).
Defined.

Lemma merge_into_empty_loop (P O : list str) :
  forall (newdata out : metadata),
    distinct (dict_keys (out ++ newdata)) = true ->
    fold_left (merge_step [] P O) newdata out = out ++ newdata.
Proof.
  induction newdata as [|[k v] nd IH]; intros out Hd.
  - now rewrite app_nil_r.
  - cbn [fold_left]. unfold merge_step at 2.
    cbn [dict_mem dict_get andb negb orb]. rewrite andb_false_r, orb_true_r.
    cbn [orb].
    assert (Hfresh : dict_get out k = None).
    { apply dict_get_notin. intros Hin.
      apply distinct_NoDup in Hd. unfold dict_keys in Hd, Hin.
      rewrite map_app in Hd. cbn [map fst] in Hd.
      apply NoDup_remove_2 in Hd. apply Hd, in_or_app. now left. }
    rewrite (dict_set_fresh out k v Hfresh).
    rewrite IH; rewrite <- app_assoc; [reflexivity | exact Hd].
Qed.

(** Merged into a document without metadata, the incoming metadata are
    written as they are, in their order. *)
Theorem merge_into_empty (newdata : metadata)
  (preserve_keys overwrite_keys : list str) :
  distinct (dict_keys newdata) = true ->
  merge_frontmatter [] newdata preserve_keys overwrite_keys = newdata.
Proof.
  intros Hd. unfold merge_frontmatter.
  now rewrite merge_into_empty_loop.
Qed.

Lemma merge_into_empty_witness :
  merge_frontmatter [] merge_fresh DEFAULT_PRESERVE_KEYS
    DEFAULT_OVERWRITE_KEYS = merge_fresh.
Proof.
  exact (merge_into_empty merge_fresh DEFAULT_PRESERVE_KEYS
           DEFAULT_OVERWRITE_KEYS eq_refl).
Defined.

(** ** Normalized keys, slugs and prefixes *)

Ltac each_char c :=
  destruct c as [[] [] [] [] [] [] [] []]; vm_compute;
  try reflexivity; try discriminate; auto.

Lemma drop_while_split (f : ascii -> bool) (s : str) :
  exists a, s = a ++ drop_while f s /\ forallb f a = true.
Proof.
  induction s as [|c s [a [E Ha]]]; [now exists []|].
  simpl. destruct (f c) eqn:Ec.
  - exists (c :: a). simpl. rewrite Ec, Ha. split; [now f_equal | reflexivity].
  - now exists [].
Qed.

Lemma drop_while_hd (f : ascii -> bool) (s : str) : hd_not f (drop_while f s).
Proof.
  induction s as [|c s IH]; simpl; [exact I|].
  destruct (f c) eqn:E; [exact IH | exact E].
Qed.

(** What [strip_with] takes off both ends, and what it leaves. *)
Lemma strip_with_split (f : ascii -> bool) (s : str) :
  exists a b, s = a ++ strip_with f s ++ b
              /\ forallb f a = true /\ forallb f b = true
              /\ hd_not f (strip_with f s) /\ hd_not f (rev (strip_with f s)).
Proof.
  unfold strip_with, rstrip_with, lstrip_with.
  destruct (drop_while_split f s) as [a [Ea Ha]].
  set (t := drop_while f s) in *.
  destruct (drop_while_split f (rev t)) as [b [Eb Hb]].
  set (u := drop_while f (rev t)) in *.
  exists a, (rev b).
  assert (Et : t = rev u ++ rev b).
  { rewrite <- rev_app_distr, <- Eb. now rewrite rev_involutive. }
  split; [now rewrite <- Et|]. split; [exact Ha|]. split.
  - rewrite forallb_forall in *. intros x Hx. apply Hb. now apply in_rev.
  - split.
    + pose proof (drop_while_hd f s) as Hh. fold t in Hh. rewrite Et in Hh.
      destruct (rev u); [exact I | exact Hh].
    + rewrite rev_involutive. apply drop_while_hd.
Qed.

Lemma strip_with_In (f : ascii -> bool) (s : str) (c : ascii) :
  In c (strip_with f s) -> In c s.
Proof.
  destruct (strip_with_split f s) as [a [b [E _]]].
  intros H. rewrite E. apply in_or_app. right. apply in_or_app. now left.
Qed.

Lemma strip_with_idem (f : ascii -> bool) (s : str) :
  strip_with f (strip_with f s) = strip_with f s.
Proof.
  destruct (strip_with_split f s) as [a [b [_ [_ [_ [H1 H2]]]]]].
  now apply strip_with_id.
Qed.

Lemma forallb_strip_with (q f : ascii -> bool) (s : str) :
  forallb q s = true -> forallb q (strip_with f s) = true.
Proof.
  rewrite !forallb_forall. intros H c Hc. apply H.
  now apply (strip_with_In f).
Qed.

Lemma forallb_flat_map (q : ascii -> bool) (g : ascii -> str) (s : str) :
  (forall c, In c s -> forallb q (g c) = true) ->
  forallb q (flat_map g s) = true.
Proof.
  induction s as [|c s IH]; intros H; [reflexivity|].
  simpl. rewrite forallb_app, (H c (or_introl eq_refl)). simpl.
  apply IH. intros x Hx. apply H. now right.
Qed.

Lemma forallb_filter_id (q : ascii -> bool) (s : str) :
  forallb q s = true -> filter q s = s.
Proof.
  induction s as [|c s IH]; simpl; [reflexivity|].
  intros H. apply andb_true_iff in H as [H1 H2]. now rewrite H1, IH.
Qed.

Lemma forallb_filter (q : ascii -> bool) (s : str) :
  forallb q (filter q s) = true.
Proof.
  induction s as [|c s IH]; simpl; [reflexivity|].
  destruct (q c) eqn:E; [simpl; now rewrite E | exact IH].
Qed.

Lemma flat_map_id_on (q : ascii -> bool) (g : ascii -> str) (s : str) :
  (forall c, q c = true -> g c = [c]) ->
  forallb q s = true -> flat_map g s = s.
Proof.
  intros Hg. induction s as [|c s IH]; simpl; [reflexivity|].
  intros H. apply andb_true_iff in H as [H1 H2].
  now rewrite (Hg c H1), IH.
Qed.

Lemma map_id_on (q : ascii -> bool) (g : ascii -> ascii) (s : str) :
  (forall c, q c = true -> g c = c) ->
  forallb q s = true -> map g s = s.
Proof.
  intros Hg. induction s as [|c s IH]; simpl; [reflexivity|].
  intros H. apply andb_true_iff in H as [H1 H2].
  now rewrite (Hg c H1), IH.
Qed.

Lemma key_char_nfkd (c : ascii) : key_char c = true -> nfkd_ascii_char c = [c].
Proof. each_char c. Qed.

Lemma key_char_lower (c : ascii) : key_char c = true -> lower_char c = c.
Proof. each_char c. Qed.

Lemma norm_key_fixed (s : str) :
  forallb key_char s = true -> _norm_key_for_match s = s.
Proof.
  intros H. unfold _norm_key_for_match, nfkd_ascii, lower.
  rewrite (flat_map_id_on key_char _ s key_char_nfkd H).
  rewrite (map_id_on key_char _ s key_char_lower H).
  now apply forallb_filter_id.
Qed.

Lemma norm_key_flat (s : str) :
  _norm_key_for_match s
  = flat_map (fun c => filter key_char (map lower_char (nfkd_ascii_char c))) s.
Proof.
  unfold _norm_key_for_match, nfkd_ascii, lower.
  induction s as [|c s IH]; [reflexivity|].
  simpl. rewrite map_app, filter_app. f_equal. exact IH.
Qed.

Lemma norm_char_lower (c : ascii) :
  filter key_char (map lower_char (nfkd_ascii_char (lower_char c)))
  = filter key_char (map lower_char (nfkd_ascii_char c)).
Proof. each_char c. Qed.

(** Matching of field names: the normalized key of a name is made of
    lower-case letters and digits, it is its own normalized key, and a name
    and its lower-case form have the same one. *)
Theorem norm_key_for_match_stable (name : str) :
  forallb key_char (_norm_key_for_match name) = true
  /\ _norm_key_for_match (_norm_key_for_match name) = _norm_key_for_match name
  /\ _norm_key_for_match (lower name) = _norm_key_for_match name.
Proof.
  assert (H : forallb key_char (_norm_key_for_match name) = true)
    by apply forallb_filter.
  split; [exact H|]. split; [now apply norm_key_fixed|].
  rewrite !norm_key_flat. unfold lower.
  induction name as [|c s IH]; [reflexivity|].
  simpl. rewrite norm_char_lower. f_equal. apply IH.
  rewrite norm_key_flat. apply forallb_flat_map. intros x _.
  apply forallb_filter.
Qed.

Lemma collapse_runs_cons (f : ascii -> bool) (by_ c : ascii) (s : str) :
  collapse_runs f by_ (c :: s)
  = if f c then
      match s with
      | d :: _ => if f d then collapse_runs f by_ s
                  else by_ :: collapse_runs f by_ s
      | [] => [by_]
      end
    else c :: collapse_runs f by_ s.
Proof. reflexivity. Qed.

Lemma collapse_runs_chars (q : ascii -> bool) (f : ascii -> bool) (by_ : ascii)
  (s : str) :
  q by_ = true -> (forall c, In c s -> f c = false -> q c = true) ->
  forallb q (collapse_runs f by_ s) = true.
Proof.
  intros Hb. induction s as [|c s IH]; intros H; [reflexivity|].
  assert (IH' : forallb q (collapse_runs f by_ s) = true).
  { apply IH. intros x Hx. apply H. now right. }
  rewrite collapse_runs_cons. destruct (f c) eqn:Ec.
  - destruct s as [|d s']; [simpl; now rewrite Hb|].
    destruct (f d); [exact IH'|].
    cbn [forallb]. now rewrite Hb, IH'.
  - cbn [forallb]. rewrite IH', andb_true_r. apply H; [now left | exact Ec].
Qed.

Lemma no_double_two (x c d : ascii) (s : str) :
  no_double x (c :: d :: s)
  = negb (Ascii.eqb c x && Ascii.eqb d x) && no_double x (d :: s).
Proof. reflexivity. Qed.

Lemma no_double_cons (x c : ascii) (s : str) :
  no_double x s = true ->
  Ascii.eqb c x = false
  \/ match s with [] => True | d :: _ => Ascii.eqb d x = false end ->
  no_double x (c :: s) = true.
Proof.
  intros Hs H. destruct s as [|d s]; [reflexivity|].
  rewrite no_double_two.
  destruct H as [H|H]; rewrite H; [|rewrite andb_false_r]; exact Hs.
Qed.

Lemma not_f_not_by (f : ascii -> bool) (x c : ascii) :
  f x = true -> f c = false -> Ascii.eqb c x = false.
Proof.
  intros Hh Hc. destruct (Ascii.eqb c x) eqn:E; [|reflexivity].
  apply Ascii.eqb_eq in E. congruence.
Qed.

(** A run of characters that are collapsed into one of them leaves it
    never twice in a row. *)
Lemma collapse_runs_single (f : ascii -> bool) (x : ascii) (s : str) :
  f x = true -> no_double x (collapse_runs f x s) = true.
Proof.
  intros Hh. induction s as [|c s IH]; [reflexivity|].
  rewrite collapse_runs_cons. destruct (f c) eqn:Ec.
  - destruct s as [|d s']; [reflexivity|].
    destruct (f d) eqn:Ed; [exact IH|].
    apply no_double_cons; [exact IH|]. right.
    rewrite collapse_runs_cons, Ed. now apply (not_f_not_by f).
  - apply no_double_cons; [exact IH|]. left.
    now apply (not_f_not_by f).
Qed.

Lemma slug_lower_char (c : ascii) :
  is_ascii_alnum c || Ascii.eqb c underscore || is_space c
  || Ascii.eqb c hyphen = true ->
  Ascii.eqb (lower_char c) hyphen || is_space (lower_char c) = false ->
  slug_char (lower_char c) = true.
Proof. each_char c. Qed.

(** A slug is made of lower-case letters, digits, underscores and hyphens,
    and has no two hyphens in a row. *)
Theorem slugify_alphabet (value : str) :
  forallb slug_char (slugify value) = true
  /\ no_double hyphen (slugify value) = true.
Proof.
  unfold slugify. split.
  - apply collapse_runs_chars; [reflexivity|].
    intros c Hc Hf. unfold lower in Hc. apply in_map_iff in Hc as [x [<- Hx]].
    apply strip_with_In in Hx. apply filter_In in Hx as [_ Hx].
    now apply slug_lower_char.
  - now apply collapse_runs_single.
Qed.

Lemma prefix_char_nfkd (c : ascii) :
  prefix_char c = true -> nfkd_ascii_char c = [c].
Proof. each_char c. Qed.

Lemma prefix_char_kept (c : ascii) :
  prefix_char c = true ->
  is_ascii_alnum c || Ascii.eqb c underscore || is_space c
  || Ascii.eqb c hyphen = true.
Proof. each_char c. Qed.

Lemma prefix_char_plain (c : ascii) :
  prefix_char c = true ->
  is_space c = false /\ Ascii.eqb (lower_char c) hyphen = false
  /\ is_space (lower_char c) = false /\ upper_char (lower_char c) = [Low c]
  /\ c <> hyphen.
Proof. each_char c; repeat split; try reflexivity; discriminate. Qed.

Lemma collapse_runs_none (f : ascii -> bool) (by_ : ascii) (s : str) :
  (forall c, In c s -> f c = false) -> collapse_runs f by_ s = s.
Proof.
  induction s as [|c s IH]; intros H; [reflexivity|].
  rewrite collapse_runs_cons, (H c (or_introl eq_refl)).
  f_equal. apply IH. intros x Hx. apply H. now right.
Qed.

Lemma make_id_prefix_fixed (t : str) :
  forallb prefix_char t = true -> make_id_prefix t = t.
Proof.
  intros H. unfold make_id_prefix.
  destruct t as [|c0 t0] eqn:Et; [reflexivity|]. rewrite <- Et in *.
  replace (is_empty_str t) with false by now rewrite Et.
  assert (Hall : forall c, In c t -> prefix_char c = true)
    by now apply forallb_forall.
  assert (Es : slugify t = lower t).
  { unfold slugify, nfkd_ascii.
    rewrite (flat_map_id_on prefix_char _ t prefix_char_nfkd H).
    rewrite forallb_filter_id.
    2:{ apply forallb_forall. intros c Hc. apply prefix_char_kept.
        now apply Hall. }
    assert (Est : strip t = t).
    { apply strip_with_id.
      - rewrite Et. simpl. apply (prefix_char_plain c0).
        apply Hall. rewrite Et. now left.
      - destruct (rev t) as [|c r] eqn:Er; [exact I|]. simpl.
        apply (prefix_char_plain c). apply Hall, in_rev. rewrite Er. now left. }
    rewrite Est. apply collapse_runs_none.
    intros c Hc. unfold lower in Hc. apply in_map_iff in Hc as [x [<- Hx]].
    destruct (prefix_char_plain x (Hall x Hx)) as [_ [E1 [E2 _]]].
    now rewrite E1, E2. }
  rewrite Es.
  assert (Eu : upper (lower t) = map Low t).
  { unfold upper, lower. clear Es Et. induction t as [|c t IH]; [reflexivity|].
    simpl in *. apply andb_true_iff in H as [H1 H2].
    destruct (prefix_char_plain c H1) as [_ [_ [_ [E _]]]].
    rewrite E. simpl. f_equal. apply IH; [exact H2|].
    intros x Hx. apply Hall. now right. }
  rewrite Eu. clear Es Eu Et.
  induction t as [|c t IH]; [reflexivity|].
  simpl in H. apply andb_true_iff in H as [H1 H2].
  cbn [map flat_map].
  destruct (prefix_char_plain c H1) as [_ [_ [_ [_ Hh]]]].
  replace (Ascii.eqb c hyphen) with false
    by (symmetry; now apply Ascii.eqb_neq).
  unfold prefix_char in H1. rewrite H1. cbn [app]. f_equal.
  apply IH; [exact H2|]. intros x Hx. apply Hall. now right.
Qed.

(** The characters of a sanitized prefix. *)
Lemma make_id_prefix_chars (prefix : str) :
  forallb prefix_char (make_id_prefix prefix) = true.
Proof.
  unfold make_id_prefix. destruct (is_empty_str prefix); [reflexivity|].
  generalize (map (fun w => match w with
                            | Low c =>
                                if Ascii.eqb c hyphen then Low underscore else w
                            | High _ => w
                            end) (upper (slugify prefix))).
  intros l. induction l as [|[c|n] l IH]; [reflexivity| |exact IH].
  cbn [flat_map]. rewrite forallb_app, IH, andb_true_r.
  destruct (is_ascii_upper c || is_ascii_digit c || Ascii.eqb c underscore)
    eqn:E; [|reflexivity].
  cbn [forallb]. unfold prefix_char. now rewrite E.
Qed.

(** A sanitized prefix is made of upper-case letters, digits and
    underscores, and sanitizing it again changes nothing: an identity
    composed with the sanitized prefix is the one composed with the prefix
    as given. *)
Theorem make_id_prefix_stable (prefix raw_id : str) (pad : Z) :
  forallb prefix_char (make_id_prefix prefix) = true
  /\ make_id_prefix (make_id_prefix prefix) = make_id_prefix prefix
  /\ format_composed_id (make_id_prefix prefix) raw_id pad
     = format_composed_id prefix raw_id pad.
Proof.
  assert (H : forallb prefix_char (make_id_prefix prefix) = true)
    by apply make_id_prefix_chars.
  split; [exact H|].
  assert (E : make_id_prefix (make_id_prefix prefix) = make_id_prefix prefix)
    by now apply make_id_prefix_fixed.
  split; [exact E|].
  unfold format_composed_id. now rewrite E.
Qed.

(** ** File names *)

Lemma no_double_app_l (x : ascii) (a b : str) :
  no_double x (a ++ b) = true -> no_double x a = true.
Proof.
  induction a as [|c a IH]; [reflexivity|].
  destruct a as [|d a']; [reflexivity|].
  simpl app in *. rewrite !no_double_two.
  intros H. apply andb_true_iff in H as [H1 H2].
  rewrite H1. now apply IH.
Qed.

Lemma no_double_app_r (x : ascii) (a b : str) :
  no_double x (a ++ b) = true -> no_double x b = true.
Proof.
  induction a as [|c a IH]; [trivial|].
  intros H. apply IH. simpl app in H.
  destruct (a ++ b) as [|d r]; [reflexivity|].
  rewrite no_double_two in H. now apply andb_true_iff in H as [_ H].
Qed.

Lemma collapse_runs_In (f : ascii -> bool) (by_ : ascii) (s : str) (c : ascii) :
  In c (collapse_runs f by_ s) -> c = by_ \/ (In c s /\ f c = false).
Proof.
  induction s as [|x s IH]; [intros []|].
  rewrite collapse_runs_cons. destruct (f x) eqn:Ex.
  - destruct s as [|d s'].
    + intros [<-|[]]. now left.
    + destruct (f d).
      * intros H. destruct (IH H) as [->|[H1 H2]]; [now left|].
        right. split; [now right | exact H2].
      * intros [<-|H]; [now left|].
        destruct (IH H) as [->|[H1 H2]]; [now left|].
        right. split; [now right | exact H2].
  - intros [<-|H].
    + right. split; [now left | exact Ex].
    + destruct (IH H) as [->|[H1 H2]]; [now left|].
      right. split; [now right | exact H2].
Qed.

Lemma space_not_forbidden (c : ascii) :
  is_space c = true -> forbidden_char c = false.
Proof. each_char c. Qed.

Lemma sanitize_filename_facts (title : value) :
  sanitize_filename title <> []
  /\ forallb (fun c => negb (forbidden_char c)) (sanitize_filename title) = true
  /\ strip (sanitize_filename title) = sanitize_filename title
  /\ forallb (fun c => negb (is_space c) || Ascii.eqb c " ")
       (sanitize_filename title) = true
  /\ no_double " " (sanitize_filename title) = true.
Proof.
  unfold sanitize_filename.
  set (s1 := collapse_runs forbidden_char " "%char
               (strip (text_of (Some title)))).
  set (s2 := collapse_runs is_space " "%char s1).
  destruct (is_empty_str (strip s2)) eqn:E.
  - repeat split; try reflexivity. discriminate.
  - destruct (strip_with_split is_space s2) as [a [b [Es _]]].
    fold (strip s2) in Es.
    split; [intros H; now rewrite H in E|]. split; [|split; [|split]].
    + apply forallb_forall. intros c Hc. apply negb_true_iff.
      apply (strip_with_In is_space) in Hc.
      apply collapse_runs_In in Hc as [->|[Hc _]]; [reflexivity|].
      apply collapse_runs_In in Hc as [->|[_ Hc]]; [reflexivity | exact Hc].
    + apply strip_with_idem.
    + apply forallb_forall. intros c Hc.
      apply (strip_with_In is_space) in Hc.
      apply collapse_runs_In in Hc as [->|[_ Hc]]; [reflexivity|].
      now rewrite Hc.
    + assert (D : no_double " " s2 = true)
        by now apply collapse_runs_single.
      rewrite Es in D. apply no_double_app_r in D.
      now apply no_double_app_l in D.
Qed.

(** The file name made from a title is never empty, holds none of the
    characters that the source replaces (slash, backslash, colon, star,
    question mark, double quote, angle brackets, bar), has no blank at
    either end, and its only blanks are single spaces. *)
Theorem sanitize_filename_safe (title : value) :
  sanitize_filename title <> []
  /\ forallb (fun c => negb (forbidden_char c)) (sanitize_filename title) = true
  /\ strip (sanitize_filename title) = sanitize_filename title
  /\ forallb (fun c => negb (is_space c) || Ascii.eqb c " ")
       (sanitize_filename title) = true
  /\ no_double " " (sanitize_filename title) = true.
Proof. exact (sanitize_filename_facts title). Qed.

(** ** Lists in a cell *)

Lemma split_char_In (c : ascii) (s q : str) (x : ascii) :
  In q (split_char c s) -> In x q -> In x s /\ x <> c.
Proof.
  revert q. induction s as [|y s IH]; intros q Hq Hx.
  - destruct Hq as [<-|[]]. destruct Hx.
  - simpl in Hq. destruct (Ascii.eqb y c) eqn:E.
    + destruct Hq as [<-|Hq]; [destruct Hx|].
      destruct (IH q Hq Hx) as [H1 H2]. split; [now right | exact H2].
    + destruct (split_char c s) as [|p ps] eqn:Ep.
      * destruct Hq as [<-|[]]. destruct Hx as [<-|[]].
        split; [now left|]. intros ->. now rewrite Ascii.eqb_refl in E.
      * destruct Hq as [<-|Hq].
        -- destruct Hx as [<-|Hx].
           ++ split; [now left|]. intros ->. now rewrite Ascii.eqb_refl in E.
           ++ destruct (IH p (or_introl eq_refl) Hx) as [H1 H2].
              split; [now right | exact H2].
        -- destruct (IH q (or_intror Hq) Hx) as [H1 H2].
           split; [now right | exact H2].
Qed.

Lemma list_sep_comma : list_sep ","%char = true.
Proof. reflexivity. Qed.

Lemma split_list_eq (val : str) :
  split_list val
  = filter (fun p => negb (is_empty_str p))
      (map strip (split_char ","%char
                    (map (fun c => if list_sep c then ","%char else c) val))).
Proof. reflexivity. Qed.

(** Every item that [split_list] returns is not empty, has no blank at its
    ends and holds no separator. *)
Theorem split_list_items_clean (val : str) :
  forallb clean_item (split_list val) = true.
Proof.
  rewrite split_list_eq. apply forallb_forall. intros p Hp.
  apply filter_In in Hp as [Hp Hne]. apply in_map_iff in Hp as [q [<- Hq]].
  unfold clean_item. rewrite Hne. cbn [andb].
  fold (strip q). unfold strip at 1. rewrite strip_with_idem.
  fold (strip q). rewrite str_eqb_refl. cbn [andb].
  apply forallb_forall. intros x Hx. apply negb_true_iff.
  apply (strip_with_In is_space) in Hx.
  destruct (split_char_In _ _ _ _ Hq Hx) as [Hin Hne'].
  apply in_map_iff in Hin as [y [Ey _]].
  destruct (list_sep y) eqn:Ey'; [congruence|]. now subst x.
Qed.

Lemma split_char_none (c : ascii) (p : str) :
  ~ In c p -> split_char c p = [p].
Proof.
  induction p as [|x p IH]; intros H; [reflexivity|].
  simpl. destruct (Ascii.eqb x c) eqn:E.
  - apply Ascii.eqb_eq in E. subst. exfalso. apply H. now left.
  - rewrite IH; [reflexivity|]. intros Hin. apply H. now right.
Qed.

Lemma split_char_app (c : ascii) (p rest : str) :
  ~ In c p -> split_char c (p ++ c :: rest) = p :: split_char c rest.
Proof.
  induction p as [|x p IH]; intros H.
  - simpl. now rewrite Ascii.eqb_refl.
  - simpl. destruct (Ascii.eqb x c) eqn:E.
    + apply Ascii.eqb_eq in E. subst. exfalso. apply H. now left.
    + rewrite IH; [reflexivity|]. intros Hin. apply H. now right.
Qed.

Lemma split_char_join (c : ascii) (items : list str) :
  items <> [] -> (forall p, In p items -> ~ In c p) ->
  split_char c (join [c] items) = items.
Proof.
  induction items as [|p items IH]; intros Hne H; [congruence|].
  destruct items as [|q items'].
  - simpl. apply split_char_none. apply H. now left.
  - change (join [c] (p :: q :: items'))
      with (p ++ c :: join [c] (q :: items')).
    rewrite split_char_app; [|apply H; now left].
    f_equal. apply IH; [discriminate|]. intros x Hx. apply H. now right.
Qed.

Lemma clean_item_facts (p : str) :
  clean_item p = true ->
  p <> [] /\ strip p = p /\ forall c, In c p -> list_sep c = false.
Proof.
  unfold clean_item. intros H.
  apply andb_true_iff in H as [H H3]. apply andb_true_iff in H as [H1 H2].
  split; [intros ->; discriminate|]. split; [now apply str_eqb_eq|].
  intros c Hc. rewrite forallb_forall in H3.
  apply negb_true_iff. now apply H3.
Qed.

Lemma map_join_sep (g : ascii -> ascii) (sep : ascii) (items : list str) :
  (forall p, In p items -> map g p = p) ->
  map g (join [sep] items) = join [g sep] items.
Proof.
  induction items as [|p items IH]; intros H; [reflexivity|].
  destruct items as [|q items'].
  - simpl. apply H. now left.
  - change (join [sep] (p :: q :: items'))
      with (p ++ sep :: join [sep] (q :: items')).
    change (join [g sep] (p :: q :: items'))
      with (p ++ g sep :: join [g sep] (q :: items')).
    rewrite map_app. cbn [map]. rewrite (H p (or_introl eq_refl)).
    f_equal. f_equal. apply IH. intros x Hx. apply H. now right.
Qed.

(** Items that are clean and joined by one of the separators are given
    back by [split_list], in their order. *)
Theorem split_list_of_joined (sep : ascii) (items : list str) :
  list_sep sep = true -> forallb clean_item items = true ->
  split_list (join [sep] items) = items.
Proof.
  intros Hsep Hitems. rewrite forallb_forall in Hitems.
  rewrite split_list_eq.
  destruct items as [|p0 items0] eqn:Ei; [reflexivity|]. rewrite <- Ei in *.
  assert (Hne : items <> []) by (rewrite Ei; discriminate).
  rewrite (map_join_sep _ sep items).
  2:{ intros p Hp. destruct (clean_item_facts p (Hitems p Hp)) as [_ [_ Hc]].
      apply map_id_on with (q := fun c => negb (list_sep c)).
      - intros c Hc'. apply negb_true_iff in Hc'. now rewrite Hc'.
      - apply forallb_forall. intros c Hc'. apply negb_true_iff. now apply Hc. }
  rewrite Hsep, split_char_join; [|exact Hne|].
  2:{ intros p Hp Hin.
      destruct (clean_item_facts p (Hitems p Hp)) as [_ [_ Hc]].
      specialize (Hc _ Hin). discriminate. }
  clear Ei Hne. induction items as [|p items IH]; [reflexivity|].
  cbn [map filter].
  destruct (clean_item_facts p (Hitems p (or_introl eq_refl))) as [H1 [H2 _]].
  rewrite H2. destruct p; [congruence|]. cbn [is_empty_str negb].
  f_equal. apply IH. intros x Hx. apply Hitems. now right.
Qed.

Lemma split_list_of_joined_witness :
  split_list (join [";"%char] [lit "Ecole A"; lit "B"])
  = [lit "Ecole A"; lit "B"].
Proof.
  apply (split_list_of_joined ";"%char [lit "Ecole A"; lit "B"]);
    reflexivity.
Defined.

(** ** Phone numbers *)

Lemma forallb_skipn (q : ascii -> bool) (n : nat) (s : str) :
  forallb q s = true -> forallb q (skipn n s) = true.
Proof.
  rewrite !forallb_forall. intros H c Hc. apply H.
  rewrite <- (firstn_skipn n s). apply in_or_app. now right.
Qed.

Lemma forallb_tl (q : ascii -> bool) (s : str) :
  forallb q s = true -> forallb q (tl s) = true.
Proof. destruct s; simpl; [trivial|]. intros H. now apply andb_true_iff in H. Qed.

(** A normalized phone number holds digits and plus signs only. *)
Theorem normalize_phone_chars (fr_phone : value) :
  forallb phone_char (normalize_phone fr_phone) = true.
Proof.
  unfold normalize_phone.
  destruct (negb (truthy fr_phone)); [reflexivity|].
  set (s0 := filter _ (py_str fr_phone)).
  assert (H0 : forallb phone_char s0 = true) by apply forallb_filter.
  set (s := if startswith (lit "00") s0 then "+"%char :: skipn 2 s0 else s0).
  assert (H : forallb phone_char s = true).
  { unfold s. destruct (startswith (lit "00") s0); [|exact H0].
    cbn [forallb]. now rewrite forallb_skipn. }
  destruct (startswith (lit "+33") s && _).
  - rewrite forallb_app. cbn [lit list_ascii_of_string forallb andb].
    change (phone_char "+" && (phone_char "3" && (phone_char "3" && true)))
      with true. cbn [andb].
    destruct (startswith _ (skipn 3 s));
      [apply forallb_tl|]; now apply forallb_skipn.
  - destruct (startswith (lit "0") s && _); [|exact H].
    rewrite forallb_app. cbn [lit list_ascii_of_string forallb andb].
    change (phone_char "+" && (phone_char "3" && (phone_char "3" && true)))
      with true. cbn [andb]. now apply forallb_tl.
Qed.

(** A national number of ten digits that begins with one zero, however it
    is punctuated, becomes [+33] and its nine last digits; normalizing the
    result again changes nothing. *)
Theorem normalize_phone_national (x d : str) (c : ascii) :
  filter phone_char x = "0"%char :: c :: d ->
  c <> "0"%char -> c <> "+"%char -> length d = 8 ->
  normalize_phone (VStr x) = lit "+33" ++ c :: d
  /\ normalize_phone (VStr (lit "+33" ++ c :: d)) = lit "+33" ++ c :: d.
Proof.
  intros Hf Hc0 Hcp Hd.
  assert (Ec0 : Ascii.eqb "0" c = false).
  { apply Ascii.eqb_neq. congruence. }
  assert (Ecp : Ascii.eqb "+" c = false).
  { apply Ascii.eqb_neq. congruence. }
  assert (Hx : x <> []) by (intros ->; discriminate).
  assert (Hall : forallb phone_char ("0"%char :: c :: d) = true).
  { rewrite <- Hf. apply forallb_filter. }
  assert (E1 : startswith (lit "00") ("0"%char :: c :: d) = false).
  { change (Ascii.eqb "0" "0" && (Ascii.eqb "0" c && true) = false).
    now rewrite Ec0. }
  assert (E2 : startswith (lit "0") (c :: d) = false).
  { change (Ascii.eqb "0" c && true = false). now rewrite Ec0. }
  assert (L1 : length ("0"%char :: c :: d) = 10) by (simpl; now rewrite Hd).
  assert (L2 : length (lit "+33" ++ c :: d) = 12) by (simpl; now rewrite Hd).
  split.
  - unfold normalize_phone.
    replace (negb (truthy (VStr x))) with false
      by (destruct x; [congruence | reflexivity]).
    cbn [py_str]. fold phone_char. rewrite Hf, E1. cbv beta iota zeta.
    change (startswith (lit "+33") ("0"%char :: c :: d)) with false.
    change (startswith (lit "0") ("0"%char :: c :: d)) with true.
    rewrite L1. reflexivity.
  - unfold normalize_phone.
    change (negb (truthy (VStr (lit "+33" ++ c :: d)))) with false.
    cbn [py_str]. fold phone_char.
    replace (filter phone_char (lit "+33" ++ c :: d))
      with (lit "+33" ++ c :: d).
    2:{ symmetry. apply forallb_filter_id. cbn [forallb] in *.
        apply andb_true_iff in Hall as [_ Hall]. exact Hall. }
    change (startswith (lit "00") (lit "+33" ++ c :: d)) with false.
    cbv beta iota zeta.
    change (startswith (lit "+33") (lit "+33" ++ c :: d)) with true.
    rewrite L2.
    change (skipn 3 (lit "+33" ++ c :: d)) with (c :: d).
    rewrite E2. reflexivity.
Qed.

Lemma normalize_phone_national_witness :
  normalize_phone (VStr (lit "06 12.34-56 78")) = lit "+33612345678"
  /\ normalize_phone (VStr (lit "+33612345678")) = lit "+33612345678".
Proof.
  apply (normalize_phone_national (lit "06 12.34-56 78") (lit "12345678")
           "6"%char); [reflexivity | discriminate | discriminate | reflexivity].
Defined.

(** ** Email addresses *)

Lemma partition_char_inv (c : ascii) (s a b : str) :
  partition_sub [c] s = Some (a, b) -> s = a ++ c :: b /\ ~ In c a.
Proof.
  revert a b. induction s as [|x s IH]; intros a b H.
  - discriminate H.
  - rewrite partition_sub_eq in H.
    destruct (startswith [c] (x :: s)) eqn:E.
    + injection H as <- <-. simpl in E. rewrite andb_true_r in E.
      apply Ascii.eqb_eq in E. subst x. split; [reflexivity | intros []].
    + destruct (partition_sub [c] s) as [[a' b']|] eqn:P; [|discriminate].
      injection H as <- <-. destruct (IH a' b' eq_refl) as [-> Hn].
      split; [reflexivity|]. intros [->|Hin]; [|now apply Hn].
      simpl in E. now rewrite Ascii.eqb_refl in E.
Qed.

Lemma nonempty_all_rev (f : ascii -> bool) (s : str) :
  nonempty_all f (rev s) = nonempty_all f s.
Proof.
  unfold nonempty_all. f_equal.
  - destruct s as [|c s]; [reflexivity|]. simpl.
    destruct (rev s); reflexivity.
  - destruct (forallb f s) eqn:E.
    + rewrite forallb_forall in *. intros x Hx. apply E. now apply in_rev.
    + destruct (forallb f (rev s)) eqn:E'; [|reflexivity].
      rewrite <- E. symmetry. rewrite forallb_forall in *.
      intros x Hx. apply E'. now apply in_rev in Hx.
Qed.

Lemma forallb_rev (f : ascii -> bool) (s : str) :
  forallb f (rev s) = forallb f s.
Proof.
  destruct (forallb f s) eqn:E.
  - rewrite forallb_forall in *. intros x Hx. apply E. now apply in_rev.
  - destruct (forallb f (rev s)) eqn:E'; [|reflexivity].
    rewrite <- E. symmetry. rewrite forallb_forall in *.
    intros x Hx. apply E'. now apply in_rev in Hx.
Qed.

Lemma at_not_local : email_local_char "@" = false.
Proof. reflexivity. Qed.

Lemma dot_not_alpha : is_ascii_alpha "." = false.
Proof. reflexivity. Qed.

Lemma forallb_notin (f : ascii -> bool) (c : ascii) (s : str) :
  f c = false -> forallb f s = true -> ~ In c s.
Proof.
  intros Hc H Hin. rewrite forallb_forall in H. specialize (H c Hin).
  congruence.
Qed.

(** The texts that [EMAIL_RE] matches: a local part that is not empty, made
    of letters, digits and [._%+-]; an at sign; a domain that is not empty,
    made of letters, digits, dots and hyphens; a dot; two letters or
    more. *)
Lemma email_re_match_iff (t : str) :
  email_re_match t = true
  <-> exists local domain tld,
        t = local ++ lit "@" ++ domain ++ lit "." ++ tld
        /\ nonempty_all email_local_char local = true
        /\ nonempty_all email_domain_char domain = true
        /\ 2 <= length tld /\ forallb is_ascii_alpha tld = true.
Proof.
  unfold email_re_match. split.
  - destruct (partition_sub (lit "@") t) as [[local rest]|] eqn:P;
      [|discriminate].
    destruct (partition_char_inv _ _ _ _ P) as [Et _].
    intros H. apply andb_true_iff in H as [Hl H].
    destruct (partition_sub (lit ".") (rev rest)) as [[rtld rdom]|] eqn:Q;
      [|discriminate].
    destruct (partition_char_inv _ _ _ _ Q) as [Er _].
    apply andb_true_iff in H as [H Ha]. apply andb_true_iff in H as [Hd Hn].
    exists local, (rev rdom), (rev rtld).
    split; [|split; [exact Hl|split; [|split]]].
    + rewrite Et. cbn [lit list_ascii_of_string app]. do 2 f_equal.
      rewrite <- (rev_involutive rest), Er, rev_app_distr. cbn [rev].
      now rewrite <- app_assoc.
    + now rewrite nonempty_all_rev.
    + rewrite length_rev. now apply Nat.leb_le.
    + now rewrite forallb_rev.
  - intros [local [domain [tld [-> [Hl [Hd [Hn Ha]]]]]]].
    assert (Hat : ~ In "@"%char local).
    { unfold nonempty_all in Hl. apply andb_true_iff in Hl as [_ Hl].
      exact (forallb_notin _ _ _ at_not_local Hl). }
    change (local ++ lit "@" ++ domain ++ lit "." ++ tld)
      with (local ++ "@"%char :: (domain ++ "."%char :: tld)).
    change (lit "@") with ["@"%char].
    rewrite (partition_char "@" local _ Hat), Hl.
    rewrite rev_app_distr. cbn [rev]. rewrite <- app_assoc. cbn [app].
    change (lit ".") with ["."%char].
    rewrite (partition_char "." (rev tld) (rev domain)).
    + rewrite nonempty_all_rev, Hd, forallb_rev, Ha, length_rev.
      apply Nat.leb_le in Hn. now rewrite Hn.
    + intros Hin. apply in_rev in Hin.
      exact (forallb_notin _ _ _ dot_not_alpha Ha Hin).
Qed.

(** [is_valid_email] accepts exactly the texts that are not empty and that,
    without the blanks at their ends, are a local part, an at sign, a
    domain, a dot and two letters or more. *)
Theorem is_valid_email_iff (s : str) :
  is_valid_email s = true
  <-> s <> []
      /\ exists local domain tld,
           strip s = local ++ lit "@" ++ domain ++ lit "." ++ tld
           /\ nonempty_all email_local_char local = true
           /\ nonempty_all email_domain_char domain = true
           /\ 2 <= length tld /\ forallb is_ascii_alpha tld = true.
Proof.
  unfold is_valid_email. destruct s as [|c s].
  - split; [discriminate | intros [H _]; congruence].
  - cbn [is_empty_str]. rewrite email_re_match_iff.
    split; [intros H; split; [discriminate | exact H] | now intros [_ H]].
Qed.

Lemma lower_char_idem (c : ascii) : lower_char (lower_char c) = lower_char c.
Proof. each_char c. Qed.

Lemma lower_idem (s : str) : lower (lower s) = lower s.
Proof.
  unfold lower. rewrite map_map. apply map_ext. apply lower_char_idem.
Qed.

(** The primary email of a contact is empty or an address that
    [is_valid_email] accepts and that is in lower case; it is empty exactly
    when none of the five fields that are looked at holds such an
    address. *)
Theorem choose_primary_email_lower_valid (c : contact) :
  (choose_primary_email_lower c = []
   \/ (is_valid_email (choose_primary_email_lower c) = true
       /\ lower (choose_primary_email_lower c) = choose_primary_email_lower c))
  /\ (choose_primary_email_lower c = []
      <-> forall ek v, In ek email_fields -> dict_get c ek = Some v ->
                       is_valid_email (lower (strip (py_str v))) = false).
Proof.
  change (choose_primary_email_lower c)
    with (primary_email_loop c email_fields).
  generalize email_fields.
  intros keys. induction keys as [|ek keys [IH1 IH2]].
  - split; [now left|]. split; [intros _ ek v [] | intros _; reflexivity].
  - assert (Hblank : forall v,
              truthy v && negb (is_blank (py_str v)) = false ->
              is_valid_email (lower (strip (py_str v))) = false).
    { intros v Hv. apply andb_false_iff in Hv as [Hv|Hv].
      - destruct v as [s|l|b]; cbn [truthy] in Hv.
        + apply negb_false_iff in Hv. destruct s; [reflexivity | discriminate Hv].
        + destruct l; [reflexivity | discriminate Hv].
        + subst b. reflexivity.
      - apply negb_false_iff in Hv. unfold is_blank in Hv.
        apply is_empty_str_true in Hv. rewrite Hv. reflexivity. }
    cbn [primary_email_loop].
    destruct (dict_get c ek) as [v|] eqn:G.
    + destruct (truthy v && negb (is_blank (py_str v))) eqn:T.
      * destruct (is_valid_email (lower (strip (py_str v)))) eqn:V.
        -- split.
           ++ right. split; [exact V | apply lower_idem].
           ++ split.
              ** intros E. rewrite E in V. discriminate V.
              ** intros H. specialize (H ek v (or_introl eq_refl) G).
                 congruence.
        -- split; [exact IH1|]. rewrite IH2. split.
           ++ intros H ek' v' [<-|Hin] G'; [congruence | now apply (H ek')].
           ++ intros H ek' v' Hin. apply H. now right.
      * split; [exact IH1|]. rewrite IH2. split.
        -- intros H ek' v' [<-|Hin] G'.
           ++ assert (v' = v) by congruence. subst v'. now apply Hblank.
           ++ now apply (H ek').
        -- intros H ek' v' Hin. apply H. now right.
    + split; [exact IH1|]. rewrite IH2. split.
      * intros H ek' v' [<-|Hin] G'; [congruence | now apply (H ek')].
      * intros H ek' v' Hin. apply H. now right.
Qed.

(** ** What the indexes of a store hold *)

Lemma dict_get_set_inv {V} (d : dict V) (k k' : str) (v p : V) :
  dict_get (dict_set d k v) k' = Some p ->
  (k' = k /\ p = v) \/ dict_get d k' = Some p.
Proof.
  destruct (str_eqb k' k) eqn:E.
  - apply str_eqb_eq in E. subst k'. rewrite dict_get_set_same.
    intros H. injection H as <-. now left.
  - apply str_eqb_neq in E. rewrite dict_get_set_other by exact E. now right.
Qed.

Lemma truthy_text (v : value) : truthy v = true -> py_str v <> [].
Proof.
  destruct v as [s|l|b]; cbn.
  - destruct s; [discriminate | discriminate].
  - intros _. discriminate.
  - intros ->. discriminate.
Qed.

Lemma index_file_eq (by_id by_email : dict str) (md txt : str) :
  index_file (by_id, by_email) (md, txt)
  = match fst (read_frontmatter txt) with
    | [] => (by_id, by_email)
    | _ =>
        (match dict_get (fst (read_frontmatter txt)) id_field with
         | Some v => if truthy v then dict_set by_id (py_str v) md else by_id
         | None => by_id
         end,
         fold_left (fun m e =>
                      if negb (is_empty_str e) && is_valid_email e
                      then dict_set m e md else m)
                   (email_candidates (fst (read_frontmatter txt))) by_email)
    end.
Proof.
  unfold index_file. now rewrite read_frontmatter_read_text.
Qed.

Lemma email_fold_sound (md : str) (P : str -> str -> Prop) (l0 : list str) :
  (forall e, In e l0 -> is_valid_email e = true -> e <> [] -> P e md) ->
  forall (l : list str) (m : dict str),
    (forall e, In e l -> In e l0) ->
    (forall e p, dict_get m e = Some p -> P e p) ->
    forall e p,
      dict_get (fold_left (fun m e =>
                             if negb (is_empty_str e) && is_valid_email e
                             then dict_set m e md else m) l m) e = Some p ->
      P e p.
Proof.
  intros H0. induction l as [|x l IH]; intros m Hl Hm e p; [apply Hm|].
  cbn [fold_left]. apply IH.
  - intros y Hy. apply Hl. now right.
  - destruct (negb (is_empty_str x) && is_valid_email x) eqn:E; [|exact Hm].
    apply andb_true_iff in E as [E1 E2]. apply negb_true_iff in E1.
    intros e' p' G. destruct (dict_get_set_inv _ _ _ _ _ G) as [[-> ->]|G'].
    + apply H0; [apply Hl; now left | exact E2 |].
      intros ->. discriminate E1.
    + now apply Hm.
Qed.

Lemma index_fold_sound (st : store) :
  forall (files : list (str * str)) (idx : dict str * dict str),
    (forall f, In f files -> In f st) ->
    (forall u p, dict_get (fst idx) u = Some p ->
       u <> [] /\ exists txt, In (p, txt) st /\ holds_id txt u) ->
    (forall e p, dict_get (snd idx) e = Some p ->
       (is_valid_email e = true /\ e <> [])
       /\ exists txt, In (p, txt) st /\ holds_email txt e) ->
    (forall u p, dict_get (fst (fold_left index_file files idx)) u = Some p ->
       u <> [] /\ exists txt, In (p, txt) st /\ holds_id txt u)
    /\ (forall e p, dict_get (snd (fold_left index_file files idx)) e = Some p ->
          (is_valid_email e = true /\ e <> [])
          /\ exists txt, In (p, txt) st /\ holds_email txt e).
Proof.
  induction files as [|[md txt] files IH]; intros [by_id by_email] Hf H1 H2;
    [now split|].
  cbn [fold_left]. apply IH.
  - intros f Hin. apply Hf. now right.
  - rewrite index_file_eq.
    destruct (fst (read_frontmatter txt)) as [|kv fm] eqn:E; [exact H1|].
    cbn [fst]. destruct (dict_get (kv :: fm) id_field) as [v|] eqn:G;
      [|exact H1].
    destruct (truthy v) eqn:T; [|exact H1].
    intros u p Hg. destruct (dict_get_set_inv _ _ _ _ _ Hg) as [[-> ->]|Hg'];
      [|now apply H1].
    split; [now apply truthy_text|].
    exists txt. split; [apply Hf; now left|].
    exists v. now rewrite E.
  - rewrite index_file_eq.
    destruct (fst (read_frontmatter txt)) as [|kv fm] eqn:E; [exact H2|].
    cbn [snd].
    apply (email_fold_sound md
             (fun e p => (is_valid_email e = true /\ e <> [])
                         /\ exists txt, In (p, txt) st /\ holds_email txt e)
             (email_candidates (kv :: fm))); [|auto|exact H2].
    intros e Hin Hv Hne. split; [now split|].
    exists txt. split; [apply Hf; now left|].
    unfold holds_email. now rewrite E.
Qed.

(** The indexes of a store are sound: an identity is indexed for a document
    of the store whose metadata hold it, and is not empty; an address is
    indexed for a document of the store that holds it under a key naming an
    email, and is one that [is_valid_email] accepts. *)
Theorem build_existing_indexes_sound (st : store) :
  (forall u p, dict_get (fst (build_existing_indexes st)) u = Some p ->
     u <> [] /\ exists txt, In (p, txt) st /\ holds_id txt u)
  /\ (forall e p, dict_get (snd (build_existing_indexes st)) e = Some p ->
        (is_valid_email e = true /\ e <> [])
        /\ exists txt, In (p, txt) st /\ holds_email txt e).
Proof.
  unfold build_existing_indexes. apply index_fold_sound.
  - auto.
  - intros u p H. discriminate H.
  - intros e p H. discriminate H.
Qed.

Lemma index_file_keeps (idx : dict str * dict str) (file : str * str) (u : str) :
  dict_get (fst idx) u <> None ->
  dict_get (fst (index_file idx file)) u <> None.
Proof.
  destruct idx as [by_id by_email]. destruct file as [md txt].
  rewrite index_file_eq. cbn [fst].
  destruct (fst (read_frontmatter txt)) as [|kv fm]; [trivial|].
  cbn [fst]. destruct (dict_get (kv :: fm) id_field) as [v|]; [|trivial].
  destruct (truthy v); [|trivial].
  intros H. destruct (str_eqb u (py_str v)) eqn:E.
  - apply str_eqb_eq in E. subst u. rewrite dict_get_set_same. discriminate.
  - apply str_eqb_neq in E. now rewrite dict_get_set_other.
Qed.

Lemma index_fold_keeps (files : list (str * str)) :
  forall (idx : dict str * dict str) (u : str),
    dict_get (fst idx) u <> None ->
    dict_get (fst (fold_left index_file files idx)) u <> None.
Proof.
  induction files as [|f files IH]; intros idx u H; [exact H|].
  cbn [fold_left]. apply IH. now apply index_file_keeps.
Qed.

Lemma index_file_holds (idx : dict str * dict str) (md txt u : str) :
  holds_id txt u ->
  dict_get (fst (index_file idx (md, txt))) u = Some md.
Proof.
  intros [v [G [T <-]]]. destruct idx as [by_id by_email].
  rewrite index_file_eq.
  destruct (fst (read_frontmatter txt)) as [|kv fm]; [discriminate G|].
  cbn [fst]. rewrite G, T. apply dict_get_set_same.
Qed.

(** The identity index is complete, and the last document wins: the
    identity that a document of the store holds is indexed, and it is
    indexed for that document when no document after it in the scan holds
    the same identity. *)
Theorem build_existing_indexes_complete (before after : store)
  (md txt u : str) :
  holds_id txt u ->
  dict_get (fst (build_existing_indexes (before ++ (md, txt) :: after))) u
  <> None
  /\ ((forall f, In f after -> ~ holds_id (snd f) u) ->
      dict_get (fst (build_existing_indexes (before ++ (md, txt) :: after))) u
      = Some md).
Proof.
  intros H. unfold build_existing_indexes.
  rewrite fold_left_app. cbn [fold_left].
  set (idx := fold_left index_file before ([], [])).
  pose proof (index_file_holds idx md txt u H) as G.
  split.
  - apply index_fold_keeps. rewrite G. discriminate.
  - generalize dependent (index_file idx (md, txt)). clear idx.
    induction after as [|[md' txt'] after IH]; intros idx G Hn; [exact G|].
    cbn [fold_left]. apply IH.
    + destruct idx as [by_id by_email]. rewrite index_file_eq.
      cbn [fst] in G.
      destruct (fst (read_frontmatter txt')) as [|kv fm] eqn:E; [exact G|].
      cbn [fst]. destruct (dict_get (kv :: fm) id_field) as [v|] eqn:Gv;
        [|exact G].
      destruct (truthy v) eqn:T; [|exact G].
      rewrite dict_get_set_other; [exact G|].
      intros ->. apply (Hn (md', txt') (or_introl eq_refl)).
      exists v. cbn [snd]. now rewrite E.
    + intros f Hf. apply Hn. now right.
Qed.

Lemma build_existing_indexes_complete_witness :
  dict_get (fst (build_existing_indexes twin_docs)) (lit "SCO-007") <> None
  /\ ((forall f : str * str, In f [] -> ~ holds_id (snd f) (lit "SCO-007")) ->
      dict_get (fst (build_existing_indexes twin_docs)) (lit "SCO-007")
      = Some (lit "B.md")).
Proof.
  apply (build_existing_indexes_complete
           [(lit "A.md",
             dump_frontmatter [(lit "id_mslist", VStr (lit "SCO-007"))])]
           [] (lit "B.md")
           (dump_frontmatter [(lit "id_mslist", VStr (lit "SCO-007"))])
           (lit "SCO-007")).
  exists (VStr (lit "SCO-007")). vm_compute. repeat split.
Defined.

Lemma dict_no_binding {V} (d : dict V) :
  (forall k, dict_get d k = None) -> d = [].
Proof.
  destruct d as [|[k v] d]; [reflexivity|].
  intros H. specialize (H k). simpl in H. now rewrite str_eqb_refl in H.
Qed.

(** Documents without metadata are not indexed: a store in which no text
    decodes to metadata gives two empty indexes. *)
Theorem build_existing_indexes_plain (st : store) :
  (forall f, In f st -> fst (read_frontmatter (snd f)) = []) ->
  build_existing_indexes st = ([], []).
Proof.
  intros H. unfold build_existing_indexes.
  induction st as [|[md txt] st IH]; [reflexivity|].
  cbn [fold_left]. rewrite index_file_eq.
  pose proof (H (md, txt) (or_introl eq_refl)) as E. cbn [snd] in E.
  rewrite E. apply IH. intros f Hf. apply H. now right.
Qed.

Lemma build_existing_indexes_plain_witness :
  build_existing_indexes plain_docs = ([], []).
Proof.
  apply (build_existing_indexes_plain plain_docs).
  intros f [<-|[<-|[]]]; reflexivity.
Defined.

(** ** What one row does *)

(** ** The fields of a contact and of the metadata built from it *)

Section ContactFields.

Variable json_items : str -> option (list str).

Lemma fold_set_other {V} (g : str -> V) (fields : list str) :
  forall (c : dict V) (k : str),
    ~ In k fields ->
    dict_get (fold_left (fun c l => dict_set c l (g l)) fields c) k
    = dict_get c k.
Proof.
  induction fields as [|f fields IH]; intros c k H; [reflexivity|].
  cbn [fold_left]. rewrite IH by (intros Hin; apply H; now right).
  apply dict_get_set_other. intros ->. apply H. now left.
Qed.

Lemma distinct_app_notin (l1 l2 : list str) (k : str) :
  distinct (l1 ++ k :: l2) = true -> ~ In k l1 /\ ~ In k l2.
Proof.
  intros H. apply distinct_NoDup in H.
  pose proof (NoDup_remove_2 _ _ _ H) as N.
  split; intros Hin; apply N, in_or_app; [now left | now right].
Qed.

Lemma fold_set_fields {V} (g : str -> V) (fields : list str) :
  forall (c : dict V),
    distinct (dict_keys c ++ fields) = true ->
    dict_keys (fold_left (fun c l => dict_set c l (g l)) fields c)
    = dict_keys c ++ fields
    /\ forall l, In l fields ->
         dict_get (fold_left (fun c l => dict_set c l (g l)) fields c) l
         = Some (g l).
Proof.
  induction fields as [|f fields IH]; intros c H.
  - split; [now rewrite app_nil_r | intros l []].
  - cbn [fold_left].
    destruct (distinct_app_notin _ _ _ H) as [N1 N2].
    assert (K : dict_keys (dict_set c f (g f)) = dict_keys c ++ [f]).
    { rewrite dict_keys_set, dict_mem_keys.
      destruct (mem_str f (dict_keys c)) eqn:E; [|reflexivity].
      apply mem_str_In in E. contradiction. }
    destruct (IH (dict_set c f (g f))) as [A B].
    { rewrite K, <- app_assoc. exact H. }
    split; [rewrite A, K, <- app_assoc; reflexivity|].
    intros l [<-|Hl]; [|now apply B].
    rewrite fold_set_other by exact N2. apply dict_get_set_same.
Qed.

Lemma norm_mem (k : str) (keys : list str) :
  In k keys -> mem_str (_norm_key_for_match k) (map _norm_key_for_match keys)
               = true.
Proof.
  intros H. apply mem_str_In. now apply in_map.
Qed.

(** The ten logical fields are bound first, in their order, whatever the
    row and the configuration, and a column copied as an extra never takes
    the place of one of them. *)
Theorem build_contact_logical_fields (r : row) (cfg : config) (project : str) :
  (exists l, dict_keys (build_contact json_items r cfg project)
             = LOGICAL_FIELDS ++ l)
  /\ forall logical, In logical LOGICAL_FIELDS ->
       dict_get (build_contact json_items r cfg project) logical
       = Some (logical_value json_items r cfg project logical).
Proof.
  set (g := logical_value json_items r cfg project).
  set (Inv := fun c : contact =>
                (exists l, dict_keys c = LOGICAL_FIELDS ++ l)
                /\ forall logical, In logical LOGICAL_FIELDS ->
                     dict_get c logical = Some (g logical)).
  assert (Hset : forall c k v, Inv c ->
             mem_str (_norm_key_for_match k)
               (map _norm_key_for_match (dict_keys c)) = false ->
             Inv (dict_set c k v)).
  { intros c k v [[l Hl] Hv] Hk.
    assert (Hn : ~ In k (dict_keys c)).
    { intros Hin. now rewrite (norm_mem k _ Hin) in Hk. }
    split.
    - rewrite dict_keys_set, dict_mem_keys.
      destruct (mem_str k (dict_keys c)) eqn:E.
      + now exists l.
      + exists (l ++ [k]). now rewrite Hl, app_assoc.
    - intros logical Hin. rewrite dict_get_set_other; [now apply Hv|].
      intros ->. apply Hn. rewrite Hl. apply in_or_app. now left. }
  change (Inv (build_contact json_items r cfg project)).
  unfold build_contact. lazy zeta. fold g.
  set (base := fold_left (fun c logical => dict_set c logical (g logical))
                 LOGICAL_FIELDS []).
  assert (Kb : dict_keys base = LOGICAL_FIELDS
               /\ forall l, In l LOGICAL_FIELDS -> dict_get base l = Some (g l))
    by (apply (fold_set_fields g LOGICAL_FIELDS []); reflexivity).
  assert (Hbase : Inv base).
  { destruct Kb as [Kb Vb]. split; [|exact Vb].
    exists []. now rewrite app_nil_r. }
  destruct (cfg_extras cfg) as [|names|]; [| |exact Hbase].
  - destruct Kb as [Kb _]. rewrite Kb.
    generalize (flat_map (candidates cfg project) LOGICAL_FIELDS).
    intros used.
    assert (G : forall (items : list (str * str)) c, Inv c ->
               Inv (fold_left
                      (fun (c : contact) (kv : str * str) =>
                         let (k, v) := kv in
                         if mem_str k used then c
                         else if mem_str (_norm_key_for_match k)
                                   (map _norm_key_for_match LOGICAL_FIELDS)
                              then c
                              else dict_set c k (extra_value json_items cfg k v))
                      items c)).
    { induction items as [|[k v] r' IH]; intros c Hc; [exact Hc|].
      cbn [fold_left]. apply IH.
      destruct (mem_str k used); [exact Hc|].
      destruct (mem_str (_norm_key_for_match k)
                  (map _norm_key_for_match LOGICAL_FIELDS)) eqn:E; [exact Hc|].
      destruct Hc as [[l Hl] Hv].
      assert (Hk : ~ In k LOGICAL_FIELDS).
      { intros Hin. now rewrite (norm_mem k _ Hin) in E. }
      split.
      - rewrite dict_keys_set.
        destruct (dict_mem c k).
        + now exists l.
        + exists (l ++ [k]). now rewrite Hl, app_assoc.
      - intros logical Hin. rewrite dict_get_set_other; [now apply Hv|].
        intros ->. contradiction. }
    now apply G.
  - revert Hbase. generalize base. clear base Kb.
    induction names as [|name names IH]; intros c Hc; [exact Hc|].
    cbn [fold_left]. apply IH.
    destruct (dict_get r name) as [v|]; [|exact Hc].
    destruct (mem_str (_norm_key_for_match name)
                (map _norm_key_for_match (dict_keys c))) eqn:E; [exact Hc|].
    now apply Hset.
Qed.

End ContactFields.

Lemma frontmatter_phone_keys (fm : metadata) (k : str) :
  dict_keys (frontmatter_phone fm k) = dict_keys fm.
Proof.
  unfold frontmatter_phone. destruct (dict_get fm k) as [v|] eqn:E;
    [|reflexivity].
  destruct (truthy v); [|reflexivity].
  rewrite dict_keys_set. unfold dict_mem. now rewrite E.
Qed.

Lemma frontmatter_step_cases (fm : metadata) (k : str) (v : value) :
  frontmatter_step fm (k, v) = fm
  \/ (frontmatter_step fm (k, v) = dict_set fm k v
      /\ k <> lit "src_id_mslist" /\ dict_mem fm k = false).
Proof.
  unfold frontmatter_step.
  destruct (str_eqb k (lit "src_id_mslist")) eqn:E1; [now left|].
  destruct (mem_str k [lit "email"; lit "telephone"] && _); [now left|].
  destruct (dict_mem fm k) eqn:E2; [now left|].
  right. split; [reflexivity|]. split; [now apply str_eqb_neq | reflexivity].
Qed.

Lemma frontmatter_fold_layout (c : contact) :
  forall (fm : metadata),
    dict_get fm (lit "src_id_mslist") = None ->
    (exists l, dict_keys (fold_left frontmatter_step c fm) = dict_keys fm ++ l)
    /\ dict_get (fold_left frontmatter_step c fm) (lit "src_id_mslist") = None.
Proof.
  induction c as [|[k v] c IH]; intros fm H.
  - split; [exists []; now rewrite app_nil_r | exact H].
  - cbn [fold_left].
    destruct (frontmatter_step_cases fm k v) as [->|[-> [Hk Hm]]].
    + now apply IH.
    + destruct (IH (dict_set fm k v)) as [[l Hl] Hs].
      { rewrite dict_get_set_other; [exact H | congruence]. }
      split; [|exact Hs].
      exists (k :: l). rewrite Hl, dict_keys_set, Hm, <- app_assoc.
      reflexivity.
Qed.

Lemma frontmatter_fold_carries (c : contact) (k : str) (v : value) :
  k <> lit "src_id_mslist" ->
  mem_str k [lit "email"; lit "telephone"] = false
  \/ truthy v && negb (is_blank (py_str v)) = true ->
  forall (fm : metadata),
    dict_get fm k = None -> dict_get c k = Some v ->
    dict_get (fold_left frontmatter_step c fm) k = Some v.
Proof.
  intros Hk Hv. induction c as [|[k' v'] c IH]; intros fm Hfm Hc;
    [discriminate Hc|].
  cbn [fold_left]. simpl in Hc. destruct (str_eqb k k') eqn:E.
  - apply str_eqb_eq in E. subst k'. injection Hc as ->.
    apply frontmatter_fold_keeps. unfold frontmatter_step.
    apply str_eqb_neq in Hk. rewrite Hk.
    assert (C : mem_str k [lit "email"; lit "telephone"]
                && negb (truthy v && negb (is_blank (py_str v))) = false).
    { destruct Hv as [Hv|Hv]; rewrite Hv; [reflexivity | apply andb_false_r]. }
    rewrite C. unfold dict_mem. rewrite Hfm. apply dict_get_set_same.
  - apply IH; [|exact Hc].
    destruct (frontmatter_step_cases fm k' v') as [->|[-> _]]; [exact Hfm|].
    rewrite dict_get_set_other; [exact Hfm|].
    now apply str_eqb_neq.
Qed.

(** The metadata built from a contact begin with the eleven core keys in
    their order; [source_updated] is the text of the clock, whatever the
    contact binds it to; [src_id_mslist] is never copied; and any other key
    of the contact is copied with its value, the keys [email] and
    [telephone] only when their value has a text that is not blank. *)
Theorem build_frontmatter_layout (c : contact) (cfg : config) (now : str) :
  (exists l, dict_keys (build_frontmatter c cfg now) = CORE_FIELDS ++ l)
  /\ dict_get (build_frontmatter c cfg now) (lit "source_updated")
     = Some (VStr now)
  /\ dict_get (build_frontmatter c cfg now) (lit "src_id_mslist") = None
  /\ forall k v,
       dict_get c k = Some v ->
       mem_str k CORE_FIELDS = false -> k <> lit "src_id_mslist" ->
       mem_str k [lit "email"; lit "telephone"] = false
       \/ truthy v && negb (is_blank (py_str v)) = true ->
       dict_get (build_frontmatter c cfg now) k = Some v.
Proof.
  rewrite build_frontmatter_eq.
  set (fm0 := if cfg_normalize_phone_fr cfg
              then frontmatter_phone
                     (frontmatter_phone (frontmatter_base c now)
                        (lit "Tel_Mobile")) (lit "Tel_Fixe")
              else frontmatter_base c now).
  assert (K0 : dict_keys fm0 = CORE_FIELDS).
  { unfold fm0. destruct (cfg_normalize_phone_fr cfg); [|reflexivity].
    now rewrite !frontmatter_phone_keys. }
  assert (G0 : forall k, k <> lit "Tel_Mobile" -> k <> lit "Tel_Fixe" ->
                 dict_get fm0 k = dict_get (frontmatter_base c now) k).
  { intros k H1 H2. unfold fm0. destruct (cfg_normalize_phone_fr cfg);
      [|reflexivity].
    now rewrite !frontmatter_phone_other. }
  assert (S0 : dict_get fm0 (lit "src_id_mslist") = None).
  { rewrite G0 by discriminate. reflexivity. }
  destruct (frontmatter_fold_layout c fm0 S0) as [[l Hl] Hs].
  split; [exists l; now rewrite Hl, K0|]. split; [|split; [exact Hs|]].
  - apply frontmatter_fold_keeps. rewrite G0 by discriminate. reflexivity.
  - intros k v Hc Hcore Hk Hv.
    apply frontmatter_fold_carries; try assumption.
    apply dict_get_mem_false. now rewrite dict_mem_keys, K0.
Qed.

Lemma build_frontmatter_layout_witness :
  dict_get (build_frontmatter odd_contact empty_config (noon 0)) (lit "ville")
  = Some (VStr (lit "Lyon")).
Proof.
  apply (proj2 (proj2 (proj2 (build_frontmatter_layout odd_contact
                                empty_config (noon 0))))).
  - reflexivity.
  - reflexivity.
  - discriminate.
  - now left.
Defined.

(** ** What the decoder gives back for what the encoder writes *)

Lemma no_delim_cons (c : ascii) (s : str) :
  no_delim (c :: s) = negb (startswith delim (c :: s)) && no_delim s.
Proof.
  unfold no_delim. rewrite (partition_sub_eq delim (c :: s)).
  destruct (startswith delim (c :: s)); [reflexivity|].
  destruct (partition_sub delim s) as [[a b]|]; reflexivity.
Qed.

Lemma startswith_escaped (p s : str) :
  (forall x, In x p -> x <> dquote /\ x <> backslash) ->
  startswith p (escaped s) = true -> startswith p s = true.
Proof.
  revert s. induction p as [|x p IH]; intros s Hp H; [reflexivity|].
  destruct s as [|c s]; [discriminate H|].
  unfold escaped, replace_char in H. cbn [flat_map] in H.
  destruct (Ascii.eqb c dquote) eqn:E.
  - cbn [app startswith] in H. apply andb_true_iff in H as [H1 H2].
    apply Ascii.eqb_eq in H1. destruct (Hp x (or_introl eq_refl)). congruence.
  - cbn [app startswith] in *. apply andb_true_iff in H as [H1 H2].
    rewrite H1. apply IH; [|exact H2]. intros y Hy. apply Hp. now right.
Qed.

Lemma no_delim_escaped (s : str) :
  no_delim s = true -> no_delim (escaped s) = true.
Proof.
  induction s as [|c s IH]; intros H; [reflexivity|].
  rewrite no_delim_cons in H. apply andb_true_iff in H as [H1 H2].
  apply negb_true_iff in H1. specialize (IH H2).
  assert (G : startswith delim (escaped (c :: s)) = false).
  { destruct (startswith delim (escaped (c :: s))) eqn:E;
      [|reflexivity].
    apply startswith_escaped in E; [congruence|].
    intros x [<-|[<-|[<-|[]]]]; split; discriminate. }
  unfold escaped, replace_char in *. cbn [flat_map] in *.
  destruct (Ascii.eqb c dquote) eqn:E.
  - cbn [app]. rewrite !no_delim_cons. now rewrite IH.
  - cbn [app] in *. rewrite no_delim_cons, IH, andb_true_r.
    apply negb_true_iff. exact G.
Qed.

Lemma no_linebreak_escaped (s : str) :
  no_linebreak s = true -> no_linebreak (escaped s) = true.
Proof.
  unfold no_linebreak, escaped, replace_char. intros H.
  apply forallb_flat_map. intros c Hc.
  rewrite forallb_forall in H. specialize (H c Hc).
  destruct (Ascii.eqb c dquote); [reflexivity|].
  cbn [forallb]. now rewrite H.
Qed.

(** The two shapes of a quoted string, and what the decoder reads back. *)
Lemma quote_str_cases (s : str) :
  no_linebreak s = true ->
  quote_str s = dquote :: decoded_scalar s ++ [dquote]
  \/ (quote_str s = s /\ bare s /\ decoded_scalar s = s).
Proof.
  intros Hl. unfold quote_str, decoded_scalar, plain_quoted.
  destruct s as [|c s]; [now left|].
  cbv beta iota delta [is_empty_str].
  destruct (str_isdigit (c :: s) || startswith (lit "+") (c :: s)
            || (1 <? length (c :: s)) && startswith (lit "0") (c :: s));
    [now left|].
  destruct (safe_re_match (c :: s)) eqn:Es; [|now left].
  right. unfold safe_re_match in Es.
  destruct (endswith [newline] (c :: s)) eqn:En.
  - apply startswith_rev_In in En.
    pose proof (no_linebreak_In _ _ Hl En) as Hb. discriminate Hb.
  - apply andb_true_iff in Es as [_ Es].
    split; [reflexivity|]. split; [split; [discriminate | exact Es]|].
    apply replace_char_absent. intros Hin.
    rewrite forallb_forall in Es. specialize (Es _ Hin). discriminate Es.
Qed.

Lemma parse_inline_wrapped (t : str) :
  parse_inline (dquote :: t ++ [dquote]) = VStr t.
Proof.
  unfold parse_inline.
  assert (A : startswith (lit "[") (dquote :: t ++ [dquote]) = false)
    by reflexivity.
  rewrite A; cbv beta iota delta [andb].
  assert (B : startswith [dquote] (dquote :: t ++ [dquote]) = true)
    by reflexivity.
  assert (C : endswith [dquote] (dquote :: t ++ [dquote]) = true).
  { unfold endswith.
    change (dquote :: t ++ [dquote]) with ((dquote :: t) ++ [dquote]).
    rewrite rev_app_distr. reflexivity. }
  rewrite B, C; cbv beta iota delta [andb orb].
  unfold drop_ends. change (tl (dquote :: t ++ [dquote])) with (t ++ [dquote]).
  now rewrite removelast_last.
Qed.

Lemma parse_inline_bare (s : str) :
  bare s -> parse_inline s = VStr s.
Proof.
  intros [_ Hs]. unfold parse_inline.
  change (lit "[") with ["["%char].
  rewrite (startswith_bare "["%char s eq_refl Hs).
  rewrite (startswith_bare dquote s eq_refl Hs).
  rewrite (startswith_bare squote s eq_refl Hs).
  reflexivity.
Qed.

Lemma quote_str_ends (s : str) :
  no_linebreak s = true ->
  quote_str s <> [] /\ hd_not is_space (quote_str s)
  /\ hd_not is_space (rev (quote_str s)).
Proof.
  intros Hl.
  destruct (quote_str_cases s Hl) as [E|[E [[Hne Hs] _]]]; rewrite E.
  - split; [discriminate|]. split; [reflexivity|].
    change (dquote :: decoded_scalar s ++ [dquote])
      with ((dquote :: decoded_scalar s) ++ [dquote]).
    apply hd_not_rev_snoc; reflexivity.
  - split; [exact Hne|].
    apply bare_ends; [|exact Hs].
    intros c Hc; now apply safe_char_facts.
Qed.

Lemma parse_inline_quote_str (s : str) :
  no_linebreak s = true ->
  parse_inline (quote_str s) = VStr (decoded_scalar s).
Proof.
  intros Hl.
  destruct (quote_str_cases s Hl) as [E|[E [Hb Hd]]]; rewrite E.
  - apply parse_inline_wrapped.
  - rewrite Hd. now apply parse_inline_bare.
Qed.

Lemma quote_str_written (s : str) :
  no_linebreak s = true -> no_delim s = true ->
  no_delim (quote_str s) = true /\ no_linebreak (quote_str s) = true.
Proof.
  intros Hl Hd.
  assert (D : no_delim (decoded_scalar s) = true
              /\ no_linebreak (decoded_scalar s) = true).
  { unfold decoded_scalar. destruct (plain_quoted s); [now split|].
    split; [now apply no_delim_escaped | now apply no_linebreak_escaped]. }
  destruct D as [D1 D2].
  destruct (quote_str_cases s Hl) as [E|[E _]]; rewrite E; [|now split].
  split.
  - change (dquote :: decoded_scalar s ++ [dquote])
      with ([] ++ dquote :: (decoded_scalar s ++ [dquote])).
    rewrite no_delim_sep; [|reflexivity|apply not_in_delim; discriminate].
    rewrite no_delim_sep; [reflexivity|exact D1|apply not_in_delim; discriminate].
  - change (dquote :: decoded_scalar s ++ [dquote])
      with ([dquote] ++ decoded_scalar s ++ [dquote]).
    rewrite !no_linebreak_app, D2. reflexivity.
Qed.

(** The text of a value that is written after its key. *)
Lemma scalar_text_facts (v : value) :
  (forall l, v <> VList l) -> written_value_ok v = true ->
  quote_scalar v <> [] /\ hd_not is_space (quote_scalar v)
  /\ hd_not is_space (rev (quote_scalar v))
  /\ no_delim (quote_scalar v) = true /\ no_linebreak (quote_scalar v) = true
  /\ parse_inline (quote_scalar v) = decoded_value v.
Proof.
  intros Hv H. destruct v as [s|l|b]; [|now elim (Hv l)|].
  - cbn [written_value_ok] in H. apply andb_true_iff in H as [Hl Hd].
    cbn [quote_scalar decoded_value].
    destruct (quote_str_ends s Hl) as [A [B C]].
    destruct (quote_str_written s Hl Hd) as [D E].
    repeat split; try assumption. now apply parse_inline_quote_str.
  - destruct b; repeat split; try reflexivity; discriminate.
Qed.

Lemma written_entry_lines (kv : str * value) :
  written_entry_ok kv = true ->
  forallb line_clean (dump_entry kv) = true
  /\ exists l more, dump_entry kv = l :: more /\ not_item l.
Proof.
  destruct kv as [k v]; unfold written_entry_ok; simpl fst; simpl snd.
  intros H. apply andb_true_iff in H as [Hk Hv].
  pose proof (key_ok_facts k Hk) as K.
  assert (Scalar : (forall l, v <> VList l) ->
            forallb line_clean [k ++ lit ": " ++ quote_scalar v] = true
            /\ not_item (k ++ lit ": " ++ quote_scalar v)).
  { intros Hnl.
    destruct (scalar_text_facts v Hnl Hv) as [Q0 [Q1 [Q2 [Q3 [Q4 _]]]]].
    destruct (space_tail_clean _ Q3 Q4) as [T1 T2].
    change (k ++ lit ": " ++ quote_scalar v)
      with (k ++ ":"%char :: " "%char :: quote_scalar v).
    split.
    - cbn [forallb]. now rewrite (key_line_clean k _ K T1 T2).
    - apply key_line_not_item; [exact K|].
      change (k ++ ":"%char :: " "%char :: quote_scalar v)
        with (k ++ lit ": " ++ quote_scalar v).
      rewrite app_assoc. now apply hd_not_rev_app. }
  destruct v as [s|[|it its]|b].
  - destruct Scalar as [S1 S2]; [discriminate|].
    split; [exact S1|]. now exists (k ++ lit ": " ++ quote_scalar (VStr s)), [].
  - split.
    + cbn [dump_entry forallb].
      change (k ++ lit ": []") with (k ++ ":"%char :: lit " []").
      now rewrite (key_line_clean k (lit " []") K eq_refl eq_refl).
    + exists (k ++ ":"%char :: lit " []"), []. split; [reflexivity|].
      apply key_line_not_item; [exact K|].
      apply hd_not_rev_app; [discriminate | reflexivity].
  - cbn [written_value_ok] in Hv. split.
    + cbn [dump_entry forallb quote_scalar].
      change (k ++ lit ":") with (k ++ ":"%char :: []).
      rewrite (key_line_clean k [] K eq_refl eq_refl).
      cbn [andb]. rewrite forallb_forall. intros l Hl.
      change (fun item : str => lit "  - " ++ quote_str item) with item_line in Hl.
      apply in_map_iff in Hl as [x [<- Hx]].
      apply item_line_clean.
      rewrite forallb_forall in Hv. apply Hv, Hx.
    + exists (k ++ ":"%char :: []), (map item_line (it :: its)).
      split; [reflexivity|].
      apply key_line_not_item; [exact K|].
      apply hd_not_rev_app; [discriminate | reflexivity].
  - destruct Scalar as [S1 S2]; [discriminate|].
    split; [exact S1|]. now exists (k ++ lit ": " ++ quote_scalar (VBool b)), [].
Qed.

Lemma written_lines_clean (m : metadata) :
  forallb written_entry_ok m = true ->
  forallb line_clean (flat_map dump_entry m) = true.
Proof.
  induction m as [|kv m IH]; intros H; [reflexivity|].
  simpl in H; apply andb_true_iff in H as [H1 H2].
  cbn [flat_map]. rewrite forallb_app, (IH H2), andb_true_r.
  now apply written_entry_lines.
Qed.

Lemma written_lines_head (m : metadata) :
  forallb written_entry_ok m = true -> key_head (flat_map dump_entry m).
Proof.
  destruct m as [|kv m]; intros H; [exact I|].
  simpl in H; apply andb_true_iff in H as [H _].
  destruct (written_entry_lines kv H) as [_ [l [more [E N]]]].
  cbn [flat_map]. rewrite E. exact N.
Qed.

Lemma decoded_keys (m : metadata) : dict_keys (decoded m) = dict_keys m.
Proof. unfold decoded, dict_keys. rewrite map_map. reflexivity. Qed.

Lemma parse_written (m : metadata) :
  forallb written_entry_ok m = true -> distinct (dict_keys m) = true ->
  forall data, (forall k, In k (dict_keys m) -> dict_get data k = None) ->
  parse_lines (flat_map dump_entry m) data = data ++ decoded m.
Proof.
  induction m as [|[k v] m IH]; intros Hok Hd data Hfresh.
  - simpl. now rewrite app_nil_r.
  - simpl in Hok; apply andb_true_iff in Hok as [Hkv Hok].
    cbn [dict_keys map fst distinct] in Hd.
    apply andb_true_iff in Hd as [Hk Hd].
    apply negb_true_iff in Hk.
    assert (Hstep : forall v', parse_lines (flat_map dump_entry m)
                      (dict_set data k v') = data ++ (k, v') :: decoded m).
    { intros v'. rewrite (dict_set_fresh data k v');
        [|apply Hfresh; now left].
      rewrite (IH Hok Hd).
      - now rewrite <- app_assoc.
      - intros k' Hk'. rewrite dict_get_snoc_other.
        + apply Hfresh; now right.
        + intros E; subst k'. apply mem_str_In in Hk'.
          unfold dict_keys in Hk'. rewrite Hk in Hk'. discriminate. }
    pose proof (written_lines_head m Hok) as Hhead.
    unfold written_entry_ok in Hkv; simpl fst in Hkv; simpl snd in Hkv.
    apply andb_true_iff in Hkv as [Hkey Hv].
    assert (Scalar : (forall l, v <> VList l) ->
              parse_lines ((k ++ lit ": " ++ quote_scalar v)
                           :: flat_map dump_entry m) data
              = data ++ (k, decoded_value v) :: decoded m).
    { intros Hnl.
      destruct (scalar_text_facts v Hnl Hv) as [Q0 [Q1 [Q2 [_ [_ Q5]]]]].
      change (k ++ lit ": " ++ quote_scalar v)
        with (k ++ ":"%char :: " "%char :: quote_scalar v).
      rewrite (parse_lines_key k _ _ data Hkey).
      rewrite (strip_space_tail _ Q1 Q2).
      assert (NE : is_empty_str (quote_scalar v) = false)
        by (destruct (quote_scalar v); [congruence | reflexivity]).
      rewrite NE, Q5. apply Hstep. }
    destruct v as [s|[|it its]|b].
    + apply Scalar. discriminate.
    + cbn [flat_map dump_entry app].
      change (k ++ lit ": []") with (k ++ ":"%char :: lit " []").
      rewrite (parse_lines_key k _ _ data Hkey).
      change (strip (lit " []")) with (lit "[]").
      change (parse_inline (lit "[]")) with (VList []).
      cbn [is_empty_str lit list_ascii_of_string]. apply Hstep.
    + cbn [flat_map dump_entry quote_scalar].
      change (k ++ lit ":") with (k ++ ":"%char :: []).
      change (fun item : str => lit "  - " ++ quote_str item) with item_line.
      rewrite <- app_comm_cons.
      rewrite (parse_lines_key k _ _ data Hkey).
      change (strip []) with (@nil ascii). cbn [is_empty_str].
      rewrite (items_loop_items _ data k (it :: its) _).
      * apply Hstep.
      * cbn [written_value_ok] in Hv.
        rewrite Forall_forall. rewrite forallb_forall in Hv.
        intros x Hx. apply item_ok_facts, Hv, Hx.
      * exact Hhead.
      * discriminate.
    + apply Scalar. discriminate.
Qed.

(** The text that the encoder writes for metadata that are written on lines
    of their own, followed by any text, as the decoder reads it. *)
Lemma read_dump_written (m : metadata) (body : str) :
  written_ok m = true ->
  read_frontmatter (dump_frontmatter m ++ body) = (decoded m, newline :: body).
Proof.
  unfold written_ok; intros H; apply andb_true_iff in H as [Hok Hd].
  pose proof (written_lines_clean m Hok) as Hc.
  assert (Hdl : forallb no_delim ([] :: flat_map dump_entry m) = true).
  { cbn [forallb]. change (no_delim []) with true. cbn [andb].
    rewrite forallb_forall in *. intros l Hl. specialize (Hc l Hl).
    unfold line_clean in Hc. now apply andb_true_iff in Hc as [? _]. }
  assert (Hlb : forallb no_linebreak ([] :: flat_map dump_entry m) = true).
  { cbn [forallb]. change (no_linebreak []) with true. cbn [andb].
    rewrite forallb_forall in *. intros l Hl. specialize (Hc l Hl).
    unfold line_clean in Hc. now apply andb_true_iff in Hc as [_ ?]. }
  rewrite dump_frontmatter_blocks, <- !app_assoc.
  unfold read_frontmatter. fold delim.
  rewrite startswith_app. cbn [negb].
  unfold split_max2, split_max1.
  rewrite partition_sub_here, (partition_block _ ([newline] ++ body) Hdl).
  rewrite (splitlines_block _ Hlb).
  rewrite parse_lines_cons. change (is_blank []) with true. cbv iota.
  rewrite (parse_written m Hok Hd []); [reflexivity|].
  reflexivity.
Qed.

(** Decoding what the encoder writes gives the keys back in their order,
    the lists as they were, a boolean as the string [true] or [false], and
    a string as it was when it is written between quotes as it is or
    without quotes, else with a backslash before each of its double quotes:
    this for keys that the codec carries through and for strings without
    line break and without [---]. The body is the text that follows,
    after a newline. *)
Theorem read_dump_decoded (m : metadata) (body : str) :
  written_ok m = true ->
  read_frontmatter (dump_frontmatter m ++ body) = (decoded m, newline :: body).
Proof. exact (read_dump_written m body). Qed.

Lemma read_dump_decoded_witness :
  read_frontmatter (dump_frontmatter quoted_meta ++ lit "text")
  = ([(lit "notes",
       VStr (lit "dit " ++ [backslash; dquote] ++ lit "oui"
             ++ [backslash; dquote]));
      (lit "actif", VStr (lit "true")); (lit "Tel_Mobile", VStr (lit "0612"))],
     newline :: lit "text").
Proof.
  apply (read_dump_decoded quoted_meta (lit "text")). reflexivity.
Defined.

(** ** What the decoder returns for any text *)

Lemma startswith_skipn (p s : str) :
  startswith p s = true -> s = p ++ skipn (length p) s.
Proof.
  revert s. induction p as [|x p IH]; intros s H; [reflexivity|].
  destruct s as [|y s]; [discriminate H|].
  simpl in H. apply andb_true_iff in H as [H1 H2].
  apply Ascii.eqb_eq in H1. subst y. simpl. f_equal. now apply IH.
Qed.

Lemma startswith_prefix (p a x : str) :
  startswith p a = true -> startswith p (a ++ x) = true.
Proof.
  revert a. induction p as [|c p IH]; intros a H; [reflexivity|].
  destruct a as [|y a]; [discriminate H|].
  simpl in *. apply andb_true_iff in H as [H1 H2].
  now rewrite H1, IH.
Qed.

(** [partition_sub] cuts at the first occurrence of the separator. *)
Lemma partition_sub_inv (sep s a b : str) :
  sep <> [] -> partition_sub sep s = Some (a, b) ->
  s = a ++ sep ++ b /\ partition_sub sep a = None.
Proof.
  intros Hsep. revert a b. induction s as [|c s IH]; intros a b H.
  - rewrite partition_sub_eq in H.
    destruct (startswith sep []) eqn:E; [|discriminate H].
    destruct sep; [congruence | discriminate E].
  - rewrite partition_sub_eq in H.
    destruct (startswith sep (c :: s)) eqn:E.
    + injection H as <- <-. split; [now apply startswith_skipn|].
      destruct sep; [congruence | reflexivity].
    + destruct (partition_sub sep s) as [[a' b']|] eqn:P; [|discriminate H].
      injection H as <- <-. destruct (IH a' b' eq_refl) as [Es Ha].
      split; [simpl; now f_equal|].
      rewrite partition_sub_eq, Ha.
      destruct (startswith sep (c :: a')) eqn:E'; [|reflexivity].
      apply (startswith_prefix _ _ (sep ++ b')) in E'.
      simpl in E'. rewrite <- Es in E'. congruence.
Qed.

Lemma read_frontmatter_cases (text : str) :
  read_frontmatter text = ([], text)
  \/ exists block body,
       text = delim ++ block ++ delim ++ body
       /\ no_delim block = true
       /\ read_frontmatter text = (parse_lines (splitlines block) [], body).
Proof.
  unfold read_frontmatter. fold delim.
  destruct (startswith delim text) eqn:S; [|now left]. cbn [negb].
  unfold split_max2, split_max1.
  destruct (partition_sub delim text) as [[a b]|] eqn:P; [|now left].
  destruct (partition_sub delim b) as [[y body]|] eqn:Q; [|now left].
  right. exists y, body.
  assert (Ha : a = []).
  { rewrite partition_sub_eq, S in P. now injection P as <- _. }
  subst a.
  destruct (partition_sub_inv delim text [] b) as [E1 _];
    [discriminate | exact P |].
  destruct (partition_sub_inv delim b y body) as [E2 N];
    [discriminate | exact Q |].
  split; [rewrite E1 at 1; simpl app; now rewrite E2|].
  split; [unfold no_delim; now rewrite N | reflexivity].
Qed.

(** The decoder either finds no block and returns the text as the body, or
    cuts the text at its first two delimiters: the block between them holds
    no delimiter and gives the metadata, and the body is all that follows
    the second one. *)
Theorem read_frontmatter_frame (text : str) :
  read_frontmatter text = ([], text)
  \/ exists block body,
       text = delim ++ block ++ delim ++ body
       /\ no_delim block = true
       /\ read_frontmatter text = (parse_lines (splitlines block) [], body).
Proof. exact (read_frontmatter_cases text). Qed.

Lemma splitlines_no_linebreak (s : str) :
  forallb no_linebreak (splitlines s) = true.
Proof.
  assert (G : forall n s, length s <= n ->
                forallb no_linebreak (splitlines s) = true).
  { induction n as [|n IH]; intros t Hn.
    - destruct t; [reflexivity | simpl in Hn; lia].
    - destruct t as [|c t]; [reflexivity|].
      simpl in Hn. cbn [splitlines].
      destruct (is_linebreak c) eqn:L.
      + destruct t as [|d t']; [reflexivity|].
        destruct ((code c =? 13) && (code d =? 10)).
        * cbn [forallb]. apply IH. simpl in Hn. lia.
        * cbn [forallb]. change (no_linebreak []) with true.
          apply IH. lia.
      + assert (H : forallb no_linebreak (splitlines t) = true)
          by (apply IH; lia).
        destruct (splitlines t) as [|l ls].
        * cbn. now rewrite L.
        * cbn [forallb] in *. apply andb_true_iff in H as [H1 H2].
          rewrite H2, andb_true_r. cbn. now rewrite L. }
  now apply (G (length s)).
Qed.

Lemma dict_set_In_pair {V} (d : dict V) (k : str) (v : V) (kv : str * V) :
  In kv (dict_set d k v) -> In kv d \/ kv = (k, v).
Proof.
  induction d as [|[k0 v0] d IH]; simpl.
  - intros [<-|[]]. now right.
  - destruct (str_eqb k k0) eqn:E; simpl.
    + apply str_eqb_eq in E. subst k0.
      intros [<-|H]; [now right | left; now right].
    + intros [<-|H]; [left; now left|].
      destruct (IH H) as [H1|H1]; [left; now right | now right].
Qed.

Lemma decoded_set (data : metadata) (k : str) (v : value) :
  distinct (dict_keys data) = true /\ forallb decoded_entry_ok data = true ->
  decoded_entry_ok (k, v) = true ->
  distinct (dict_keys (dict_set data k v)) = true
  /\ forallb decoded_entry_ok (dict_set data k v) = true.
Proof.
  intros [Hd Hf] Hkv. split; [now apply distinct_set|].
  rewrite forallb_forall in *. intros kv Hin.
  destruct (dict_set_In_pair _ _ _ _ Hin) as [H| ->]; [now apply Hf | exact Hkv].
Qed.

Lemma items_loop_cases (cont : list str -> metadata -> metadata)
  (rest0 : list str) (data : metadata) (key : str) :
  forall (l items : list str),
  exists l' v,
    items_loop cont rest0 data key l items = cont l' (dict_set data key v)
    /\ (l' = rest0 \/ exists pre, l = pre ++ l')
    /\ (forall b, v <> VBool b).
Proof.
  induction l as [|nxt l IH]; intros items.
  - destruct items as [|it its].
    + exists rest0, (VStr []). split; [reflexivity|].
      split; [now left | discriminate].
    + exists [], (VList (it :: its)). split; [reflexivity|].
      split; [right; now exists [] | discriminate].
  - cbn [items_loop]. fold (items_loop cont rest0 data key).
    destruct (startswith (lit "  - ") nxt).
    + destruct (IH (items ++ [unquote_item (skipn 4 nxt)]))
        as [l' [v [E [[->|[pre ->]] Hv]]]].
      * exists rest0, v. split; [exact E|]. split; [now left | exact Hv].
      * exists l', v. split; [exact E|].
        split; [right; now exists (nxt :: pre) | exact Hv].
    + destruct (startswith (lit "- ") (strip nxt)).
      * destruct (IH (items ++ [unquote_item (skipn 2 (strip nxt))]))
          as [l' [v [E [[->|[pre ->]] Hv]]]].
        -- exists rest0, v. split; [exact E|]. split; [now left | exact Hv].
        -- exists l', v. split; [exact E|].
           split; [right; now exists (nxt :: pre) | exact Hv].
      * destruct items as [|it its].
        -- exists rest0, (VStr []). split; [reflexivity|].
           split; [now left | discriminate].
        -- exists (nxt :: l), (VList (it :: its)). split; [reflexivity|].
           split; [right; now exists [] | discriminate].
Qed.

Lemma parse_inline_not_bool (val : str) (b : bool) : parse_inline val <> VBool b.
Proof.
  unfold parse_inline.
  destruct (startswith (lit "[") val && endswith (lit "]") val).
  - destruct (is_empty_str (strip (drop_ends val))); discriminate.
  - destruct (_ || _); discriminate.
Qed.

Lemma decoded_key_ok (line key0 val0 : str) (v : value) :
  no_linebreak line = true ->
  partition_sub (lit ":") line = Some (key0, val0) ->
  (forall b, v <> VBool b) ->
  decoded_entry_ok (strip key0, v) = true.
Proof.
  intros Hl P Hv. change (lit ":") with [":"%char] in P.
  destruct (partition_char_inv _ _ _ _ P) as [E Hc].
  unfold decoded_entry_ok. cbn [fst snd].
  unfold strip at 1. rewrite strip_with_idem. fold (strip key0).
  rewrite str_eqb_refl.
  assert (C : has_char ":"%char (strip key0) = false).
  { apply has_char_false. intros Hin. apply Hc.
    now apply (strip_with_In is_space). }
  rewrite C.
  assert (L : no_linebreak (strip key0) = true).
  { unfold no_linebreak in *. rewrite forallb_forall in *. intros x Hx.
    apply Hl. rewrite E. apply in_or_app. left.
    now apply (strip_with_In is_space). }
  rewrite L. destruct v as [s|l|b]; [reflexivity | reflexivity|].
  now elim (Hv b).
Qed.

Lemma parse_lines_decoded (n : nat) :
  forall (lines : list str) (data : metadata),
    length lines <= n ->
    forallb no_linebreak lines = true ->
    distinct (dict_keys data) = true /\ forallb decoded_entry_ok data = true ->
    distinct (dict_keys (parse_lines lines data)) = true
    /\ forallb decoded_entry_ok (parse_lines lines data) = true.
Proof.
  induction n as [|n IH]; intros lines data Hn Hl Hd.
  - destruct lines; [exact Hd | simpl in Hn; lia].
  - destruct lines as [|line rest]; [exact Hd|].
    simpl in Hn. cbn [forallb] in Hl. apply andb_true_iff in Hl as [Hl1 Hl2].
    assert (Hrest : forall d,
              distinct (dict_keys d) = true /\ forallb decoded_entry_ok d = true ->
              distinct (dict_keys (parse_lines rest d)) = true
              /\ forallb decoded_entry_ok (parse_lines rest d) = true).
    { intros d Hdd. apply IH; [lia | exact Hl2 | exact Hdd]. }
    rewrite parse_lines_cons.
    destruct (is_blank line); [now apply Hrest|].
    destruct (has_char ":"%char line
              && negb (startswith (lit "- ") (lstrip line)));
      [|now apply Hrest].
    destruct (partition_sub (lit ":") line) as [[key0 val0]|] eqn:P;
      [|now apply Hrest].
    destruct (is_empty_str (strip val0)).
    + destruct (items_loop_cases parse_lines rest data (strip key0) rest [])
        as [l' [v [E [Hl' Hv]]]].
      rewrite E. apply IH.
      * destruct Hl' as [->|[pre ->]]; [lia|].
        rewrite length_app in Hn. lia.
      * destruct Hl' as [->|[pre Hp]]; [exact Hl2|].
        rewrite Hp, forallb_app in Hl2.
        now apply andb_true_iff in Hl2 as [_ Hl2].
      * apply decoded_set; [exact Hd|].
        now apply (decoded_key_ok line key0 val0).
    + apply Hrest. apply decoded_set; [exact Hd|].
      apply (decoded_key_ok line key0 val0); [exact Hl1 | exact P|].
      intros b. apply parse_inline_not_bool.
Qed.

(** Whatever the text, the metadata that the decoder returns bind each key
    once; a key has no blank at its ends, no colon and no line break; and a
    value is a string or a list, never a boolean. *)
Theorem read_frontmatter_entries (text : str) :
  distinct (dict_keys (fst (read_frontmatter text))) = true
  /\ forallb decoded_entry_ok (fst (read_frontmatter text)) = true.
Proof.
  destruct (read_frontmatter_cases text) as [E|[block [body [_ [_ E]]]]];
    rewrite E; cbn [fst]; [now split|].
  apply (parse_lines_decoded (length (splitlines block)));
    [lia | apply splitlines_no_linebreak | now split].
Qed.

(** ** Identities made of a number *)

Lemma digit_fold_pos (d : Decimal.uint) :
  forall acc : positive,
    fold_left (fun (a : Z) c => (10 * a + digit_val c)%Z) (str_of_uint d)
      (Z.pos acc)
    = Z.pos (Pos.of_uint_acc d acc).
Proof.
  induction d; intros acc; cbn [str_of_uint fold_left Pos.of_uint_acc];
    [reflexivity|..];
    match goal with
    | |- fold_left _ _ ?z = _ =>
        let p := fresh "p" in
        evar (p : positive);
        replace z with (Z.pos p);
        [subst p; apply IHd | subst p; vm_compute digit_val; lia]
    end.
Qed.

Lemma digit_fold_zero (d : Decimal.uint) :
  fold_left (fun (a : Z) c => (10 * a + digit_val c)%Z) (str_of_uint d) 0%Z
  = Z.of_N (Pos.of_uint d).
Proof.
  induction d; cbn [str_of_uint fold_left Pos.of_uint];
    [reflexivity | exact IHd |..];
    match goal with
    | |- fold_left _ _ ?z = _ =>
        let p := fresh "p" in
        evar (p : positive);
        replace z with (Z.pos p);
        [subst p; rewrite digit_fold_pos; reflexivity
        | subst p; vm_compute; reflexivity]
    end.
Qed.

(** The number that the decimal writing of [n] denotes is [n]. *)
Lemma num_of_decimal (n : N) : num_of_digits (decimal n) = Z.of_N n.
Proof.
  unfold num_of_digits, decimal. rewrite digit_fold_zero.
  change (Pos.of_uint (N.to_uint n)) with (N.of_uint (N.to_uint n)).
  now rewrite DecimalN.Unsigned.of_to.
Qed.

Lemma num_of_zeros (k : nat) (s : str) :
  num_of_digits (repeat "0"%char k ++ s) = num_of_digits s.
Proof.
  unfold num_of_digits. induction k as [|k IH]; [reflexivity|].
  cbn [repeat app fold_left]. exact IH.
Qed.

Lemma num_of_zero_padded (width : nat) (n : N) :
  num_of_digits (zero_padded width (decimal n)) = Z.of_N n.
Proof. unfold zero_padded. now rewrite num_of_zeros, num_of_decimal. Qed.

Lemma format_composed_id_number (prefix raw_id : str) (pad : Z) :
  raw_id <> [] -> forallb is_ascii_digit raw_id = true ->
  (length raw_id <= int_max_str_digits)%nat ->
  (0 <= pad <= format_width_max)%Z ->
  format_composed_id prefix raw_id pad
  = id_head prefix
    ++ zero_padded (Z.to_nat pad) (decimal (Z.to_N (num_of_digits raw_id))).
Proof. apply format_composed_id_digits. Qed.

(** Two source identities made of decimal digits, of at most 4300 digits
    each (those that [int] reads), are given the same composed identity
    exactly when they denote the same number, whatever the pad width that
    the format accepts: leading zeros are not kept apart. *)
Theorem numeric_identities_same_number (prefix raw1 raw2 : str) (pad : Z) :
  raw1 <> [] -> forallb is_ascii_digit raw1 = true ->
  (length raw1 <= int_max_str_digits)%nat ->
  raw2 <> [] -> forallb is_ascii_digit raw2 = true ->
  (length raw2 <= int_max_str_digits)%nat ->
  (0 <= pad <= format_width_max)%Z ->
  format_composed_id prefix raw1 pad = format_composed_id prefix raw2 pad
  <-> num_of_digits raw1 = num_of_digits raw2.
Proof.
  intros N1 D1 L1 N2 D2 L2 Hp.
  rewrite (format_composed_id_number prefix raw1 pad N1 D1 L1 Hp).
  rewrite (format_composed_id_number prefix raw2 pad N2 D2 L2 Hp).
  split.
  - intros H. apply app_inv_head in H.
    apply (f_equal num_of_digits) in H. rewrite !num_of_zero_padded in H.
    pose proof (num_of_digits_nonneg raw1 D1).
    pose proof (num_of_digits_nonneg raw2 D2).
    rewrite !Z2N.id in H by assumption. exact H.
  - intros ->. reflexivity.
Qed.

Lemma numeric_identities_same_number_witness :
  format_composed_id (lit "SCO") (lit "7") 3
  = format_composed_id (lit "SCO") (lit "007") 3
  <-> num_of_digits (lit "7") = num_of_digits (lit "007").
Proof.
  apply (numeric_identities_same_number (lit "SCO") (lit "7") (lit "007") 3).
  - discriminate.
  - reflexivity.
  - apply Nat.leb_le. reflexivity.
  - discriminate.
  - reflexivity.
  - apply Nat.leb_le. reflexivity.
  - split; apply Z.leb_le; reflexivity.
Defined.

(** ** Identities made of a digest *)

Lemma hex_digit_char (n : nat) : n < 16 -> hex_char (hex_digit n) = true.
Proof.
  intros H. do 16 (destruct n as [|n]; [reflexivity|]). lia.
Qed.

Lemma hex8_chars (x : Z) :
  length (SHA1.hex8 x) = 8 /\ forallb hex_char (SHA1.hex8 x) = true.
Proof.
  unfold SHA1.hex8. split; [reflexivity|].
  apply forallb_forall. intros c Hc. apply in_map_iff in Hc as [k [<- _]].
  apply hex_digit_char.
  assert (0 <= Z.shiftr x (4 * Z.of_nat k) mod 16 < 16)%Z
    by (apply Z.mod_pos_bound; lia).
  lia.
Qed.

Lemma row_digest_chars (r : row) :
  length (row_digest r) = 8 /\ forallb hex_char (row_digest r) = true.
Proof.
  unfold row_digest, SHA1.hexdigest.
  destruct (SHA1.digest (utf8 (json_dumps_sorted r)))
    as [[[[h0 h1] h2] h3] h4].
  destruct (hex8_chars h0) as [L C].
  assert (F : firstn 8 (SHA1.hex8 h0) = SHA1.hex8 h0)
    by (rewrite <- L; apply firstn_all).
  rewrite firstn_app, L, Nat.sub_diag, F, firstn_O, app_nil_r.
  now split.
Qed.

Lemma hex_char_plain (c : ascii) :
  hex_char c = true ->
  is_space c = false /\ Ascii.eqb c "+" = false /\ Ascii.eqb c "-" = false
  /\ Ascii.eqb c underscore = false.
Proof. each_char c; repeat split; reflexivity. Qed.

Lemma literal_digits_letter (s : str) :
  forallb hex_char s = true -> forallb is_ascii_digit s = false ->
  forall b, literal_digits s b = None.
Proof.
  induction s as [|c s IH]; intros H Hd b; [discriminate Hd|].
  cbn [forallb] in *. apply andb_true_iff in H as [Hc Hs].
  cbn [literal_digits]. destruct (is_ascii_digit c) eqn:E.
  - cbn [andb] in Hd. now rewrite (IH Hs Hd).
  - destruct (hex_char_plain c Hc) as [_ [_ [_ U]]]. now rewrite U.
Qed.

Lemma str_isdigit_hex (s : str) :
  forallb hex_char s = true -> forallb is_ascii_digit s = false ->
  py_int (strip s) = None.
Proof.
  intros H Hd.
  assert (E : strip s = s).
  { apply strip_with_id.
    - destruct s as [|c s]; simpl; [exact I|].
      cbn [forallb] in H. apply andb_true_iff in H as [H _].
      now apply hex_char_plain.
    - rewrite forallb_forall in H.
      destruct (rev s) as [|c r] eqn:Er; simpl; [exact I|].
      apply hex_char_plain, H, in_rev. rewrite Er. now left. }
  rewrite E. unfold py_int. destruct s as [|c s]; [reflexivity|].
  pose proof H as H'. cbn [forallb] in H'. apply andb_true_iff in H' as [Hc _].
  destruct (hex_char_plain c Hc) as [_ [P [M _]]]. rewrite P, M.
  now rewrite (literal_digits_letter (c :: s) H Hd).
Qed.

(** Under the hash fallback, a row whose source identity is not made of
    digits and whose digest holds a letter is given the prefix, a hyphen and
    the digest, which has eight characters among [0-9a-f]; the sequence
    counter is left as it is; and two rows that bind the same columns to
    the same values, in whatever order, are given the same identity. *)
Theorem hash_identity_shape (r r' : row) (args : arguments) (src : str)
  (n n' : Z) :
  arg_id_fallback args = FbHash -> str_isdigit src = false ->
  forallb is_ascii_digit (row_digest r) = false ->
  Permutation r r' -> distinct (dict_keys r) = true ->
  compose_id r args src n
  = (Some (Some (id_head (arg_id_prefix args) ++ row_digest r)), n)
  /\ length (row_digest r) = 8 /\ forallb hex_char (row_digest r) = true
  /\ fst (compose_id r' args src n') = fst (compose_id r args src n).
Proof.
  intros Hf Hs Hd P D.
  destruct (row_digest_chars r) as [L C].
  destruct (row_digest_order_free r r' P D) as [_ E].
  assert (F : forall x m,
            row_digest x = row_digest r ->
            compose_id x args src m
            = (Some (Some (id_head (arg_id_prefix args) ++ row_digest r)), m)).
  { intros x m Ex. unfold compose_id. rewrite Hs, Hf, Ex.
    unfold format_composed_id, id_head.
    assert (Ne : is_empty_str (row_digest r) = false)
      by (destruct (row_digest r); [discriminate L | reflexivity]).
    rewrite Ne, (str_isdigit_hex _ C Hd).
    assert (St : strip (row_digest r) = row_digest r).
    { apply strip_with_id.
      - destruct (row_digest r) as [|c s]; simpl; [exact I|].
        cbn [forallb] in C. apply andb_true_iff in C as [C _].
        now apply hex_char_plain.
      - rewrite forallb_forall in C.
        destruct (rev (row_digest r)) as [|c s] eqn:Er; simpl; [exact I|].
        apply hex_char_plain, C, in_rev. rewrite Er. now left. }
    rewrite St.
    destruct (is_empty_str (make_id_prefix (arg_id_prefix args)));
      [reflexivity | now rewrite <- app_assoc]. }
  split; [now apply F|]. split; [exact L|]. split; [exact C|].
  rewrite (F r' n' (eq_sym E)), (F r n eq_refl). reflexivity.
Qed.

Lemma hash_identity_shape_witness :
  compose_id row_ab (sco_args FbHash) [] 1
  = (Some (Some (id_head (arg_id_prefix (sco_args FbHash))
                 ++ row_digest row_ab)), 1%Z)
  /\ length (row_digest row_ab) = 8
  /\ forallb hex_char (row_digest row_ab) = true
  /\ fst (compose_id row_ba (sco_args FbHash) [] 5)
     = fst (compose_id row_ab (sco_args FbHash) [] 1).
Proof.
  apply (hash_identity_shape row_ab row_ba (sco_args FbHash) [] 1 5).
  - reflexivity.
  - reflexivity.
  - vm_compute. reflexivity.
  - apply perm_swap.
  - reflexivity.
Defined.

(** ** The value that a row gives to a field *)

Lemma row_text_bound (r : row) (k : str) :
  is_blank (row_text r k) = false -> dict_get r k = Some (row_text r k).
Proof.
  unfold row_text. destruct (dict_get r k); [reflexivity | discriminate].
Qed.

Lemma first_normalized_value (r : row) (index : dict str) (keys : list str)
  (v : str) :
  first_normalized r index keys = Some v ->
  is_blank v = false /\ exists k, dict_get r k = Some v.
Proof.
  unfold first_normalized.
  assert (G : forall acc,
            (forall x, acc = Some x ->
               is_blank x = false /\ exists k, dict_get r k = Some x) ->
            fold_left
              (fun found ck =>
                 match found with
                 | Some v => Some v
                 | None =>
                     match dict_get index ck with
                     | Some orig =>
                         if is_blank (row_text r orig) then None
                         else Some (row_text r orig)
                     | None => None
                     end
                 end) keys acc = Some v ->
            is_blank v = false /\ exists k, dict_get r k = Some v).
  { induction keys as [|ck keys IH]; intros acc Hacc H; [now apply Hacc|].
    cbn [fold_left] in H. apply (IH _ ) in H; [exact H|].
    intros x Hx. destruct acc as [a|]; [now apply Hacc|].
    destruct (dict_get index ck) as [orig|]; [|discriminate Hx].
    destruct (is_blank (row_text r orig)) eqn:B; [discriminate Hx|].
    injection Hx as <-. split; [exact B|].
    exists orig. now apply row_text_bound. }
  apply G. intros x Hx. discriminate Hx.
Qed.

(** The value selected for a field is empty or a value of the row that is
    not blank; and it is not empty when one of the candidates is the exact
    name of a column whose value is not blank. *)
Theorem select_first_present_value (r : row) (cands : list str) :
  (select_first_present r cands = []
   \/ (is_blank (select_first_present r cands) = false
       /\ exists k, dict_get r k = Some (select_first_present r cands)))
  /\ forall c x, In c cands -> dict_get r c = Some x -> is_blank x = false ->
       select_first_present r cands <> [].
Proof.
  unfold select_first_present. generalize (norm_to_orig r). intros index.
  induction cands as [|c cs [IH1 IH2]].
  - split; [now left | intros c x []].
  - cbn [select_loop].
    destruct (dict_mem r c && negb (is_blank (row_text r c))) eqn:E.
    + apply andb_true_iff in E as [_ E]. apply negb_true_iff in E.
      split.
      * right. split; [exact E|]. exists c. now apply row_text_bound.
      * intros _ _ _ _ _ H. rewrite H in E. discriminate E.
    + destruct (first_normalized r index
                  [_norm_key_for_match c;
                   _singularize_norm (_norm_key_for_match c)])
        as [v|] eqn:F.
      * destruct (first_normalized_value _ _ _ _ F) as [B [k G]].
        split; [right; split; [exact B | now exists k]|].
        intros _ _ _ _ _ H. rewrite H in B. discriminate B.
      * split; [exact IH1|].
        intros c' x [<-|Hin] G B; [|now apply (IH2 c' x)].
        exfalso. unfold dict_mem, row_text in E. rewrite G in E.
        rewrite B in E. discriminate E.
Qed.

Lemma select_first_present_value_witness :
  (select_first_present shadow_row [lit "Ville"] = []
   \/ (is_blank (select_first_present shadow_row [lit "Ville"]) = false
       /\ exists k, dict_get shadow_row k
                    = Some (select_first_present shadow_row [lit "Ville"])))
  /\ select_first_present shadow_row [lit "Ville"] <> [].
Proof.
  split.
  - exact (proj1 (select_first_present_value shadow_row [lit "Ville"])).
  - apply (proj2 (select_first_present_value shadow_row [lit "Ville"])
             (lit "Ville") (lit " Lyon ")).
    + now left.
    + reflexivity.
    + reflexivity.
Defined.

(** ** The outcome of one row *)

(** Making the title leaves the contact as it is, or extends the list that
    it holds under [organisation] or under [email]. *)
Lemma title_of_contact (c0 c : contact) (title : value) :
  title_of c0 = Some (title, c) ->
  c = c0
  \/ exists k l, (k = lit "organisation" \/ k = lit "email")
                 /\ c = dict_set c0 k (VList l).
Proof.
  unfold title_of.
  destruct (strip_text (dict_get c0 (lit "Nom"))) as [last_name|];
    [|discriminate].
  destruct (strip_text (dict_get c0 Prenom)) as [first_name|]; [|discriminate].
  destruct (title_human_of c0 last_name first_name) as [[t held]|] eqn:T;
    [|discriminate].
  destruct (is_empty_str (get_contact_value c0 Etablissement_aliases)).
  - intros H; injection H as _ <-. now left.
  - unfold title_add. destruct t as [s|l|b]; [| |discriminate].
    + intros H; injection H as _ <-. now left.
    + intros H; injection H as _ <-.
      destruct held as [k|]; [|now left]. right.
      exists k, (l ++ map (fun ch => [ch])
                          (lit " - " ++ get_contact_value c0 Etablissement_aliases)).
      split; [|reflexivity].
      unfold title_human_of in T.
      destruct (negb (is_empty_str last_name)).
      { destruct (narrow (upper last_name)); discriminate T. }
      destruct (negb (is_empty_str first_name)); [discriminate T|].
      cbn [first_true] in T.
      destruct (dict_get c0 (lit "organisation")) as [v|].
      * destruct (truthy v); [injection T as _ <-; now left|].
        destruct (dict_get c0 (lit "email")) as [v'|]; [|discriminate T].
        destruct (truthy v'); [injection T as _ <-; now right | discriminate T].
      * destruct (dict_get c0 (lit "email")) as [v'|]; [|discriminate T].
        destruct (truthy v'); [injection T as _ <-; now right | discriminate T].
Qed.

(** Making the title does not touch the keys other than [organisation] and
    [email]. *)
Lemma title_of_other (c0 c : contact) (title : value) (k : str) :
  title_of c0 = Some (title, c) ->
  k <> lit "organisation" -> k <> lit "email" ->
  dict_get c k = dict_get c0 k.
Proof.
  intros H H1 H2.
  destruct (title_of_contact c0 c title H) as [->|[k' [l [Hk ->]]]];
    [reflexivity|].
  apply dict_get_set_other. destruct Hk as [->| ->]; assumption.
Qed.

Section Routing.

Variable json_items : str -> option (list str).

Lemma route_contact_spec (c0 : contact) (cfg : config) (args : arguments)
  (by_id by_email : dict str) (st : store) (now : str) (o : outcome) :
  route_contact c0 cfg args by_id by_email st now = Some o ->
  exists title c,
    title_of c0 = Some (title, c)
    /\ out_contact o = c
    /\ out_target o
       = Some (routed_target c args by_id by_email st (sanitize_filename title))
    /\ match dict_get st (routed_target c args by_id by_email st
                            (sanitize_filename title)) with
       | Some written =>
           out_action o = UPDATED
           /\ out_text o
              = Some (dump_frontmatter (merged_for c cfg now (read_text written))
                      ++ carried_body (read_text written))
       | None =>
           out_action o = CREATED
           /\ out_text o = Some (dump_frontmatter (build_frontmatter c cfg now)
                                 ++ body_default)
       end.
Proof.
  unfold route_contact, routed_target.
  destruct (title_of c0) as [[title c]|]; [|discriminate].
  intros H; exists title, c; split; [reflexivity|].
  destruct (dict_get st _) as [written|] eqn:E.
  - unfold merged_for, carried_body.
    destruct (read_frontmatter (read_text written)) as [old_fm old_body].
    injection H as <-. cbn. auto.
  - injection H as <-. cbn. auto.
Qed.

(** A row that is not skipped is kept with a contact, which is then routed. *)
Lemma process_contact_row_routed (r : row) (cfg : config) (args : arguments)
  (by_id by_email : dict str) (st : store) (now : str) (n n' : Z)
  (o : outcome) :
  process_contact_row json_items r cfg args by_id by_email st now n
  = Some (o, n') ->
  out_action o <> SKIPPED ->
  exists c0,
    prepare_contact json_items r cfg args n = (Keep c0, n')
    /\ route_contact c0 cfg args by_id by_email st now = Some o.
Proof.
  unfold process_contact_row.
  destruct (prepare_contact json_items r cfg args n) as [[c|c] m].
  - intros H Hs; injection H as <- _. now elim Hs.
  - destruct (route_contact c cfg args by_id by_email st now) as [o'|] eqn:E;
      [|discriminate].
    intros H _; injection H as -> ->. now exists c.
Qed.

(** The outcome of a row that is not skipped. *)
Lemma process_contact_row_spec (r : row) (cfg : config) (args : arguments)
  (by_id by_email : dict str) (st : store) (now : str) (n n' : Z)
  (o : outcome) :
  process_contact_row json_items r cfg args by_id by_email st now n
  = Some (o, n') ->
  out_action o <> SKIPPED ->
  exists title,
    out_target o
    = Some (routed_target (out_contact o) args by_id by_email st
              (sanitize_filename title))
    /\ match dict_get st (routed_target (out_contact o) args by_id by_email st
                            (sanitize_filename title)) with
       | Some written =>
           out_action o = UPDATED
           /\ out_text o
              = Some (dump_frontmatter
                        (merged_for (out_contact o) cfg now (read_text written))
                      ++ carried_body (read_text written))
       | None =>
           out_action o = CREATED
           /\ out_text o
              = Some (dump_frontmatter
                        (build_frontmatter (out_contact o) cfg now)
                      ++ body_default)
       end.
Proof.
  intros H Hs.
  destruct (process_contact_row_routed _ _ _ _ _ _ _ _ _ _ H Hs) as [c0 [_ R]].
  destruct (route_contact_spec _ _ _ _ _ _ _ _ R) as [title [c [_ [E [Ht Ha]]]]].
  exists title. rewrite E. now split.
Qed.

(** The clock decides neither the action, nor the target, nor the contact,
    nor the sequence counter. *)
Lemma process_contact_row_clock (r : row) (cfg : config) (args : arguments)
  (by_id by_email : dict str) (st : store) (now now' : str) (n n' : Z)
  (o : outcome) :
  process_contact_row json_items r cfg args by_id by_email st now n
  = Some (o, n') ->
  exists o',
    process_contact_row json_items r cfg args by_id by_email st now' n
    = Some (o', n')
    /\ out_action o' = out_action o /\ out_target o' = out_target o
    /\ out_contact o' = out_contact o.
Proof.
  unfold process_contact_row.
  destruct (prepare_contact json_items r cfg args n) as [[c|c] m].
  - intros H; injection H as <- <-. eexists; split; [reflexivity|]. auto.
  - unfold route_contact.
    destruct (title_of c) as [[title c']|]; [|discriminate].
    destruct (dict_get st _) as [txt|].
    + destruct (read_frontmatter (read_text txt)) as [old_fm old_body].
      intros H; injection H as <- <-. eexists; split; [reflexivity|]. cbn. auto.
    + intros H; injection H as <- <-. eexists; split; [reflexivity|]. cbn. auto.
Qed.

End Routing.

(** ** Matching a contact to a document (C5) *)

(** The indexes built from a store name documents of that store, and go on
    doing so when documents are written. *)

Lemma index_file_in_store (st : store) (by_id by_email : dict str)
  (file : str * str) :
  dict_mem st (fst file) = true ->
  index_in_store by_id st = true -> index_in_store by_email st = true ->
  index_in_store (fst (index_file (by_id, by_email) file)) st = true
  /\ index_in_store (snd (index_file (by_id, by_email) file)) st = true.
Proof.
  destruct file as [md txt]; cbn [fst]. intros Hm H1 H2.
  rewrite index_file_eq.
  destruct (fst (read_frontmatter txt)) as [|kv fm] eqn:E; [now split|].
  cbn [fst snd]. split.
  - destruct (dict_get (kv :: fm) id_field) as [v|]; [|exact H1].
    destruct (truthy v); [now apply index_in_store_add | exact H1].
  - generalize (email_candidates (kv :: fm)). intros l.
    revert by_email H2. induction l as [|e l IH]; intros by_email H2;
      [exact H2|].
    cbn [fold_left]. apply IH.
    destruct (negb (is_empty_str e) && is_valid_email e);
      [now apply index_in_store_add | exact H2].
Qed.

Lemma build_existing_indexes_in_store (st : store) :
  index_in_store (fst (build_existing_indexes st)) st = true
  /\ index_in_store (snd (build_existing_indexes st)) st = true.
Proof.
  unfold build_existing_indexes.
  assert (G : forall files idx,
             (forall f, In f files -> dict_mem st (fst f) = true) ->
             index_in_store (fst idx) st = true ->
             index_in_store (snd idx) st = true ->
             index_in_store (fst (fold_left index_file files idx)) st = true
             /\ index_in_store (snd (fold_left index_file files idx)) st = true).
  { induction files as [|f files IH]; intros [by_id by_email] Hf H1 H2;
      [now split|].
    cbn [fold_left].
    destruct (index_file_in_store st by_id by_email f) as [A B]; auto.
    - apply Hf; now left.
    - destruct (index_file (by_id, by_email) f) as [i1 i2].
      apply IH; auto. intros g Hg; apply Hf; now right. }
  apply G; try reflexivity.
  intros [k v] Hin. cbn [fst]. rewrite dict_mem_keys. apply mem_str_In.
  unfold dict_keys. apply in_map_iff. now exists (k, v).
Qed.

Lemma index_in_store_written (idx : dict str) (st : store) (k v : str) :
  index_in_store idx st = true -> index_in_store idx (dict_set st k v) = true.
Proof.
  rewrite !index_in_store_iff. intros H kv Hin.
  rewrite dict_mem_set, (H kv Hin). apply orb_true_r.
Qed.

Section Matching.

Variable json_items : str -> option (list str).

(** A row whose identity or whose primary email is indexed updates a
    document: it creates none. *)
Lemma matched_row_updates (r : row) (cfg : config) (args : arguments)
  (by_id by_email : dict str) (st : store) (now : str) (n n' : Z)
  (o : outcome) :
  process_contact_row json_items r cfg args by_id by_email st now n
  = Some (o, n') ->
  out_action o <> SKIPPED ->
  index_in_store by_id st = true -> index_in_store by_email st = true ->
  let unique_id := strip (text_of (dict_get (out_contact o) (arg_id_key args))) in
  let email_lc := choose_primary_email_lower (out_contact o) in
  (unique_id <> [] /\ dict_get by_id unique_id <> None)
  \/ (email_lc <> [] /\ dict_get by_email email_lc <> None) ->
  out_action o = UPDATED.
Proof.
  intros H Hs Hid Hem unique_id email_lc M.
  destruct (process_contact_row_spec json_items _ _ _ _ _ _ _ _ _ _ H Hs)
    as [title [_ Ha]].
  unfold routed_target, match_target in Ha.
  fold unique_id in Ha. fold email_lc in Ha.
  assert (U : forall idx k p, index_in_store idx st = true ->
              dict_get idx k = Some p ->
              match dict_get st p with
              | Some written =>
                  out_action o = UPDATED /\
                  out_text o = Some (dump_frontmatter
                    (merged_for (out_contact o) cfg now (read_text written))
                    ++ carried_body (read_text written))
              | None => out_action o = CREATED /\
                        out_text o = Some (dump_frontmatter
                          (build_frontmatter (out_contact o) cfg now)
                          ++ body_default)
              end -> out_action o = UPDATED).
  { intros idx k p Hi Hg A.
    destruct (index_in_store_get _ _ _ _ Hi Hg) as [txt Gt].
    rewrite Gt in A. tauto. }
  destruct (is_empty_str unique_id) eqn:Eu;
    [|destruct (dict_get by_id unique_id) as [q|] eqn:Gq;
      [exact (U _ _ _ Hid Gq Ha)|]];
    (destruct M as [[M1 M2]|[M1 M2]];
     [try (apply is_empty_str_true in Eu); congruence|];
     rewrite (is_empty_str_false _ M1) in Ha;
     destruct (dict_get by_email email_lc) as [q'|] eqn:Gq';
     [exact (U _ _ _ Hem Gq' Ha) | congruence]).
Qed.

(** The routing of a row that is not skipped, [unique_id] being the value
    of its contact under the identity key and [email_lc] its primary
    email. *)
Lemma routing_precedence (r : row) (cfg : config) (args : arguments)
  (by_id by_email : dict str) (st : store) (now : str) (n n' : Z)
  (o : outcome) :
  process_contact_row json_items r cfg args by_id by_email st now n
  = Some (o, n') ->
  out_action o <> SKIPPED ->
  let unique_id := strip (text_of (dict_get (out_contact o) (arg_id_key args))) in
  let email_lc := choose_primary_email_lower (out_contact o) in
  (forall p, unique_id <> [] -> dict_get by_id unique_id = Some p ->
     out_target o = Some p)
  /\ (forall p, unique_id = [] \/ dict_get by_id unique_id = None ->
        email_lc <> [] -> dict_get by_email email_lc = Some p ->
        out_target o = Some p)
  /\ (index_in_store by_id st = true -> index_in_store by_email st = true ->
      (out_action o = CREATED <->
       (unique_id = [] \/ dict_get by_id unique_id = None)
       /\ (email_lc = [] \/ dict_get by_email email_lc = None))
      /\ (out_action o = UPDATED <->
          (unique_id <> [] /\ dict_get by_id unique_id <> None)
          \/ (email_lc <> [] /\ dict_get by_email email_lc <> None))).
Proof.
  intros H Hs unique_id email_lc.
  destruct (process_contact_row_spec json_items _ _ _ _ _ _ _ _ _ _ H Hs)
    as [title [Ht Ha]].
  unfold routed_target, match_target in Ht, Ha.
  fold unique_id in Ht, Ha. fold email_lc in Ht, Ha.
  split; [|split].
  - intros p Hu Gp. rewrite (is_empty_str_false _ Hu), Gp in Ht. exact Ht.
  - intros p Hu He Gp.
    assert (E : (if is_empty_str unique_id then None
                 else dict_get by_id unique_id) = None)
      by (destruct Hu as [Hu|Hu]; rewrite Hu; [reflexivity|];
          destruct (is_empty_str unique_id); reflexivity).
    rewrite E, (is_empty_str_false _ He), Gp in Ht. exact Ht.
  - intros Hid Hem.
    assert (M : (unique_id <> [] /\ dict_get by_id unique_id <> None)
                \/ (email_lc <> [] /\ dict_get by_email email_lc <> None) ->
                out_action o = UPDATED)
      by (apply (matched_row_updates r cfg args by_id by_email st now n n' o);
          assumption).
    assert (D : ((unique_id <> [] /\ dict_get by_id unique_id <> None)
                 \/ (email_lc <> [] /\ dict_get by_email email_lc <> None))
                \/ ((unique_id = [] \/ dict_get by_id unique_id = None)
                    /\ (email_lc = [] \/ dict_get by_email email_lc = None))).
    { destruct unique_id as [|x u]; destruct email_lc as [|y e];
        destruct (dict_get by_id _); destruct (dict_get by_email _);
        try (right; split; auto; fail);
        try (left; left; split; discriminate);
        try (left; right; split; discriminate). }
    assert (C : (unique_id = [] \/ dict_get by_id unique_id = None)
                /\ (email_lc = [] \/ dict_get by_email email_lc = None) ->
                out_action o = CREATED).
    { intros [Hu He].
      assert (E1 : (if is_empty_str unique_id then None
                    else dict_get by_id unique_id) = None)
        by (destruct Hu as [Hu|Hu]; rewrite Hu; [reflexivity|];
            destruct (is_empty_str unique_id); reflexivity).
      assert (E2 : (if is_empty_str email_lc then None
                    else dict_get by_email email_lc) = None)
        by (destruct He as [He|He]; rewrite He; [reflexivity|];
            destruct (is_empty_str email_lc); reflexivity).
      rewrite E1, E2, fresh_target_free in Ha. tauto. }
    split; split.
    + intros A. destruct D as [D|D]; [|exact D].
      rewrite (M D) in A. discriminate A.
    + exact C.
    + intros A. destruct D as [D|D]; [exact D|].
      rewrite (C D) in A. discriminate A.
    + exact M.
Qed.

(** The identity composed for a row is what its contact holds under
    [id_mslist]. *)
Lemma composed_identity_held (r : row) (cfg : config) (args : arguments)
  (by_id by_email : dict str) (st : store) (now : str) (n n' : Z)
  (o : outcome) (composed : str) :
  process_contact_row json_items r cfg args by_id by_email st now n
  = Some (o, n') ->
  out_action o <> SKIPPED ->
  arg_id_prefix args <> [] ->
  fst (compose_id r args
         (strip (text_of (dict_get (build_contact json_items r cfg
                                      (arg_project args)) id_field))) n)
  = Some (Some composed) ->
  composed <> [] ->
  dict_get (out_contact o) id_field = Some (VStr composed).
Proof.
  intros H Hs Hp Hc Hne.
  destruct (process_contact_row_routed _ _ _ _ _ _ _ _ _ _ _ H Hs)
    as [c0 [P R]].
  destruct (route_contact_spec _ _ _ _ _ _ _ _ R) as [title [c [T [-> _]]]].
  rewrite (title_of_other c0 c title id_field T) by discriminate.
  unfold prepare_contact in P.
  destruct (negb (existsb _ (required_fields cfg))); [discriminate P|].
  rewrite (is_empty_str_false _ Hp) in P.
  change (lit "id_mslist") with id_field in P.
  destruct (compose_id r args _ n) as [[[x|]|] m]; cbn [fst] in Hc;
    try discriminate Hc.
  injection Hc as ->. rewrite (is_empty_str_false _ Hne) in P.
  injection P as <- _. apply dict_get_set_same.
Qed.

(** C5, where the code agrees with it: the identity key being [id_mslist].
    For a row that is not skipped, with [identity] the identity of its
    contact (its value under [id_mslist], which is the identity composed
    for the row when a prefix is given) and [email_lc] its primary email:
    when the identity is indexed the row goes to the document indexed for
    it, whatever the email and the email index are; the email index decides
    only when the identity is empty or not indexed; and, the indexes naming
    documents of the store, the row creates a document exactly when neither
    the identity nor the email is indexed, and updates the document it goes
    to otherwise. *)
Theorem identity_precedence (r : row) (cfg : config) (args : arguments)
  (by_id by_email : dict str) (st : store) (now : str) (n n' : Z)
  (o : outcome) :
  arg_id_key args = id_field ->
  process_contact_row json_items r cfg args by_id by_email st now n
  = Some (o, n') ->
  out_action o <> SKIPPED ->
  let identity := strip (text_of (dict_get (out_contact o) id_field)) in
  let email_lc := choose_primary_email_lower (out_contact o) in
  (forall composed,
      arg_id_prefix args <> [] ->
      fst (compose_id r args
             (strip (text_of (dict_get (build_contact json_items r cfg
                                          (arg_project args)) id_field))) n)
      = Some (Some composed) ->
      composed <> [] -> identity = strip composed)
  /\ (forall p, identity <> [] -> dict_get by_id identity = Some p ->
        out_target o = Some p)
  /\ (forall p, identity = [] \/ dict_get by_id identity = None ->
        email_lc <> [] -> dict_get by_email email_lc = Some p ->
        out_target o = Some p)
  /\ (index_in_store by_id st = true -> index_in_store by_email st = true ->
      (out_action o = CREATED <->
       (identity = [] \/ dict_get by_id identity = None)
       /\ (email_lc = [] \/ dict_get by_email email_lc = None))
      /\ (out_action o = UPDATED <->
          (identity <> [] /\ dict_get by_id identity <> None)
          \/ (email_lc <> [] /\ dict_get by_email email_lc <> None))).
Proof.
  intros Hkey H Hs identity email_lc. split.
  - intros composed Hp Hc Hne. unfold identity.
    rewrite (composed_identity_held r cfg args by_id by_email st now n n' o
               composed H Hs Hp Hc Hne).
    cbn [text_of truthy py_str]. now rewrite (is_empty_str_false _ Hne).
  - pose proof (routing_precedence r cfg args by_id by_email st now n n' o
                  H Hs) as G.
    rewrite Hkey in G. exact G.
Qed.

End Matching.

(** A row with the identity of one document and the address of another goes
    to the document that has its identity. *)
Lemma identity_precedence_witness :
  choose_primary_email_lower (out_contact (outcome_of crossed_result))
  = lit "anne.martin@example.org"
  /\ dict_get (snd (build_existing_indexes two_docs))
       (lit "anne.martin@example.org") = Some (lit "MARTIN.md")
  /\ out_target (outcome_of crossed_result) = Some (lit "DUPONT.md").
Proof.
  split; [vm_compute; reflexivity|]. split; [vm_compute; reflexivity|].
  refine (proj1 (proj2 (identity_precedence no_list_literal crossed_row
                   empty_config
                   (sco_args FbSeq) (fst (build_existing_indexes two_docs))
                   (snd (build_existing_indexes two_docs)) two_docs (noon 0)
                   1 (counter_of crossed_result) (outcome_of crossed_result)
                   _ _ _)) (lit "DUPONT.md") _ _).
  - reflexivity.
  - vm_compute; reflexivity.
  - vm_compute; discriminate.
  - vm_compute; discriminate.
  - vm_compute; reflexivity.
Defined.

(** C5 fails when the identity key is not [id_mslist]: the identity composed
    for the row, [SCO-007], is held by the contact under [id_mslist] and is
    indexed for [DUPONT.md], but the row is looked up under the identity
    key, where its contact holds nothing. With the address of another
    document it is sent to that document; with no address it creates a
    document of its own. *)
Lemma identity_key_mismatch :
  dict_get (out_contact (outcome_of ref_result)) id_field
  = Some (VStr (lit "SCO-007"))
  /\ dict_get (fst (build_existing_indexes two_docs)) (lit "SCO-007")
     = Some (lit "DUPONT.md")
  /\ out_action (outcome_of ref_result) = UPDATED
  /\ out_target (outcome_of ref_result) = Some (lit "MARTIN.md")
  /\ dict_get (out_contact (outcome_of ref_plain_result)) id_field
     = Some (VStr (lit "SCO-007"))
  /\ out_action (outcome_of ref_plain_result) = CREATED
  /\ out_target (outcome_of ref_plain_result) = Some (lit "DUPONT - 2.md").
Proof. repeat split; vm_compute; reflexivity. Qed.

(** ** The text of an updated document (C9) *)

Section Updating.

Variable json_items : str -> option (list str).

(** C9, as the code has it. The text written for a document that is updated
    is the encoded merged metadata followed by the body that the decoder
    returned for the existing text as it is read, or by one newline when
    that body is empty. The body carried is the text after the closing
    delimiter, the newline that ends the delimiter line included; the
    encoder ends that line again: when the merged metadata are written on
    lines of their own, the decoder finds in the new text the body carried
    after one more newline, which is never the body that the document
    had. *)
Theorem updated_text_carries_body (r : row) (cfg : config) (args : arguments)
  (by_id by_email : dict str) (st : store) (now : str) (n n' : Z)
  (o : outcome) :
  process_contact_row json_items r cfg args by_id by_email st now n
  = Some (o, n') ->
  out_action o = UPDATED ->
  exists target written,
    out_target o = Some target
    /\ dict_get st target = Some written
    /\ let old_fm := fst (read_frontmatter (read_text written)) in
       let old_body := snd (read_frontmatter (read_text written)) in
       let merged :=
         merge_frontmatter old_fm (build_frontmatter (out_contact o) cfg now)
           (preserve_keys_of cfg)
           (DEFAULT_OVERWRITE_KEYS ++ cfg_overwrite_keys cfg) in
       let carried := if is_empty_str old_body then [newline] else old_body in
       out_text o = Some (dump_frontmatter merged ++ carried)
       /\ (written_ok merged = true ->
           read_frontmatter (dump_frontmatter merged ++ carried)
           = (decoded merged, newline :: carried))
       /\ newline :: carried <> old_body.
Proof.
  intros H Hu.
  assert (Hs : out_action o <> SKIPPED) by (rewrite Hu; discriminate).
  destruct (process_contact_row_spec json_items _ _ _ _ _ _ _ _ _ _ H Hs)
    as [title [Ht Ha]].
  exists (routed_target (out_contact o) args by_id by_email st
            (sanitize_filename title)).
  destruct (dict_get st _) as [written|] eqn:E.
  - exists written. destruct Ha as [_ Ha].
    split; [exact Ht|]. split; [reflexivity|]. cbv zeta.
    split; [exact Ha|]. split.
    + intros Hok. now apply read_dump_written.
    + destruct (snd (read_frontmatter (read_text written))) as [|x b];
        cbn [is_empty_str]; [discriminate|].
      intros Heq. apply (f_equal (@length ascii)) in Heq.
      cbn [length] in Heq. lia.
  - destruct Ha as [Ha _]. rewrite Hu in Ha. discriminate Ha.
Qed.

End Updating.

Lemma updated_text_carries_body_witness :
  exists target written,
    out_target (outcome_of crossed_result) = Some target
    /\ dict_get two_docs target = Some written
    /\ let old_fm := fst (read_frontmatter (read_text written)) in
       let old_body := snd (read_frontmatter (read_text written)) in
       let merged :=
         merge_frontmatter old_fm
           (build_frontmatter (out_contact (outcome_of crossed_result))
              empty_config (noon 0))
           (preserve_keys_of empty_config)
           (DEFAULT_OVERWRITE_KEYS ++ cfg_overwrite_keys empty_config) in
       let carried := if is_empty_str old_body then [newline] else old_body in
       out_text (outcome_of crossed_result)
       = Some (dump_frontmatter merged ++ carried)
       /\ (written_ok merged = true ->
           read_frontmatter (dump_frontmatter merged ++ carried)
           = (decoded merged, newline :: carried))
       /\ newline :: carried <> old_body.
Proof.
  apply (updated_text_carries_body no_list_literal crossed_row empty_config
           (sco_args FbSeq) (fst (build_existing_indexes two_docs))
           (snd (build_existing_indexes two_docs)) two_docs (noon 0)
           1 (counter_of crossed_result) (outcome_of crossed_result)).
  - vm_compute; reflexivity.
  - vm_compute; reflexivity.
Defined.

(** C9, as the spec states it, fails. The text of [DUPONT.md] is a block
    closed by its delimiter line, then [Mes notes]: the decoder returns a
    newline and [Mes notes] for its body. A run that updates the document
    writes a text in which the decoder finds two newlines before
    [Mes notes], and a second run one in which it finds three: an empty
    line is put between the block and the body at every update. And a
    document whose text ends with its closing delimiter has an empty body,
    and is written with a newline for body. *)
Lemma body_gains_newline :
  snd (read_frontmatter noted_text) = newline :: lit "Mes notes"
  /\ map (fun f => snd (read_frontmatter (snd f))) (update_noted noted_doc)
     = [newline :: newline :: lit "Mes notes"]
  /\ map (fun f => snd (read_frontmatter (snd f)))
       (update_noted (update_noted noted_doc))
     = [newline :: newline :: newline :: lit "Mes notes"]
  /\ map fst (update_noted (update_noted noted_doc)) = [lit "DUPONT.md"]
  /\ out_action (outcome_of a7_result) = UPDATED
  /\ snd (read_frontmatter (row_text bare_doc (lit "DUPONT.md"))) = []
  /\ out_text (outcome_of a7_result)
     = Some (dump_frontmatter
               (merged_for (out_contact (outcome_of a7_result)) empty_config
                  (noon 0) (row_text bare_doc (lit "DUPONT.md")))
             ++ [newline]).
Proof. repeat split; vm_compute; reflexivity. Qed.

(** ** Scenario A: a first run on an empty store (C6) *)

Section FirstRun.

Variable json_items : str -> option (list str).



End FirstRun.



(** ** Running again on the store of a run (C2) *)

Lemma dict_set_length {V} (d : dict V) (k : str) (v : V) :
  length (dict_set d k v) = if dict_mem d k then length d else S (length d).
Proof.
  unfold dict_mem; induction d as [|[k' v'] d IH]; simpl; [reflexivity|].
  destruct (str_eqb k k'); simpl; [reflexivity|].
  rewrite IH. destruct (dict_get d k); reflexivity.
Qed.

Section Rerun.

Variable json_items : str -> option (list str).

(** A turn of the loop adds a document exactly when it counts a creation. *)
Lemma main_step_count (cfg : config) (args : arguments)
  (by_id by_email : dict str) (now : str) (s s' : run_state) (r : row) :
  arg_dry_run args = false ->
  main_step json_items cfg args by_id by_email now s r = Some s' ->
  length (rs_store s') + rs_created s = length (rs_store s) + rs_created s'.
Proof.
  intros Hdry; unfold main_step.
  destruct (process_contact_row json_items r cfg args by_id by_email
              (rs_store s) now (rs_seq s)) as [[o n]|] eqn:P; [|discriminate].
  destruct (out_action o) eqn:A.
  - intros H; injection H as <-. cbn. lia.
  - assert (Hs : out_action o <> SKIPPED) by (rewrite A; discriminate).
    destruct (process_contact_row_spec json_items _ _ _ _ _ _ _ _ _ _ P Hs)
      as [title [Ht Ha]].
    rewrite Ht, Hdry.
    destruct (dict_get (rs_store s) _) as [txt|] eqn:E;
      destruct Ha as [Ha1 Ha2]; [congruence|].
    rewrite Ha2. intros H; injection H as <-. cbn.
    rewrite dict_set_length. unfold dict_mem. rewrite E. lia.
  - assert (Hs : out_action o <> SKIPPED) by (rewrite A; discriminate).
    destruct (process_contact_row_spec json_items _ _ _ _ _ _ _ _ _ _ P Hs)
      as [title [Ht Ha]].
    rewrite Ht, Hdry.
    destruct (dict_get (rs_store s) _) as [txt|] eqn:E;
      destruct Ha as [Ha1 Ha2]; [|congruence].
    rewrite Ha2. intros H; injection H as <-. cbn.
    rewrite dict_set_length. unfold dict_mem. rewrite E. lia.
Qed.

Lemma main_loop_count (cfg : config) (args : arguments)
  (by_id by_email : dict str) (clock : nat -> str) (rows : list row) :
  arg_dry_run args = false ->
  forall (i : nat) (s s' : run_state),
    main_loop json_items cfg args by_id by_email clock i rows s = Some s' ->
    length (rs_store s') + rs_created s = length (rs_store s) + rs_created s'.
Proof.
  intros Hdry; induction rows as [|r rows IH]; intros i s s' H.
  - injection H as <-. reflexivity.
  - cbn [main_loop] in H.
    destruct (main_step json_items cfg args by_id by_email (clock i) s r)
      as [s1|] eqn:E; [|discriminate].
    pose proof (main_step_count _ _ _ _ _ _ _ _ Hdry E).
    pose proof (IH _ _ _ H). lia.
Qed.

End Rerun.

(** ** The metadata of a contact at two times *)

Lemma dict_keys_retime (now : str) (m : metadata) :
  dict_keys (retime now m) = dict_keys m.
Proof.
  unfold dict_keys, retime. rewrite map_map. apply map_ext.
  intros [k v]. cbn [fst]. now destruct (str_eqb k source_updated).
Qed.

Lemma dict_get_retime (now : str) (m : metadata) (k : str) :
  dict_get (retime now m) k
  = if str_eqb k source_updated
    then match dict_get m k with Some _ => Some (VStr now) | None => None end
    else dict_get m k.
Proof.
  induction m as [|[k' v] m IH]; cbn [retime map dict_get fst].
  - now destruct (str_eqb k source_updated).
  - destruct (str_eqb k' source_updated) eqn:E'; cbn [dict_get];
      destruct (str_eqb k k') eqn:E.
    + apply str_eqb_eq in E. subst k'. now rewrite E'.
    + exact IH.
    + apply str_eqb_eq in E. subst k'. now rewrite E'.
    + exact IH.
Qed.

Lemma dict_mem_retime (now : str) (m : metadata) (k : str) :
  dict_mem (retime now m) k = dict_mem m k.
Proof.
  unfold dict_mem. rewrite dict_get_retime.
  destruct (str_eqb k source_updated); [|reflexivity].
  now destruct (dict_get m k).
Qed.

Lemma retime_retime (now now' : str) (m : metadata) :
  retime now (retime now' m) = retime now m.
Proof.
  unfold retime. rewrite map_map. apply map_ext. intros [k v]. cbn [fst].
  destruct (str_eqb k source_updated) eqn:E; cbn [fst]; now rewrite E.
Qed.

Lemma retime_set (now : str) (m : metadata) (k : str) (v : value) :
  k <> source_updated ->
  retime now (dict_set m k v) = dict_set (retime now m) k v.
Proof.
  intros Hk. apply str_eqb_neq in Hk.
  induction m as [|[k' v'] m IH]; cbn [dict_set retime map fst].
  - now rewrite Hk.
  - destruct (str_eqb k k') eqn:E.
    + apply str_eqb_eq in E. subst k'. cbn [map fst]. rewrite Hk.
      cbn [dict_set]. now rewrite str_eqb_refl.
    + cbn [map fst].
      destruct (str_eqb k' source_updated); cbn [dict_set]; rewrite E;
        f_equal; exact IH.
Qed.

Lemma retime_phone (now : str) (m : metadata) (k : str) :
  k <> source_updated ->
  frontmatter_phone (retime now m) k = retime now (frontmatter_phone m k).
Proof.
  intros Hk. unfold frontmatter_phone. rewrite dict_get_retime.
  replace (str_eqb k source_updated) with false
    by (symmetry; now apply str_eqb_neq).
  destruct (dict_get m k) as [v|]; [|reflexivity].
  destruct (truthy v); [|reflexivity].
  now rewrite retime_set.
Qed.

Lemma retime_step (now : str) (m : metadata) (kv : str * value) :
  dict_mem m source_updated = true ->
  frontmatter_step (retime now m) kv = retime now (frontmatter_step m kv)
  /\ dict_mem (frontmatter_step m kv) source_updated = true.
Proof.
  intros Hm. destruct kv as [k v]. unfold frontmatter_step.
  destruct (str_eqb k (lit "src_id_mslist")); [now split|].
  destruct (mem_str k [lit "email"; lit "telephone"]
            && negb (truthy v && negb (is_blank (py_str v)))); [now split|].
  rewrite dict_mem_retime.
  destruct (dict_mem m k) eqn:E; [now split|].
  assert (Hk : k <> source_updated) by (intros ->; congruence).
  split; [now rewrite retime_set|].
  rewrite dict_mem_set, Hm. apply orb_true_r.
Qed.

Lemma retime_fold (now : str) (c : contact) :
  forall m, dict_mem m source_updated = true ->
            fold_left frontmatter_step c (retime now m)
            = retime now (fold_left frontmatter_step c m).
Proof.
  induction c as [|kv c IH]; intros m Hm; [reflexivity|].
  cbn [fold_left]. destruct (retime_step now m kv Hm) as [E Hm'].
  rewrite E. now apply IH.
Qed.

(** The metadata built at one time are those built at another with another
    text for [source_updated]. *)
Lemma build_frontmatter_retime (c : contact) (cfg : config) (now now' : str) :
  build_frontmatter c cfg now = retime now (build_frontmatter c cfg now').
Proof.
  rewrite !build_frontmatter_eq.
  assert (B : frontmatter_base c now = retime now (frontmatter_base c now'))
    by reflexivity.
  destruct (cfg_normalize_phone_fr cfg).
  - rewrite B, !retime_phone by discriminate.
    apply retime_fold.
    unfold frontmatter_phone.
    repeat match goal with
           | |- context [match ?x with Some _ => _ | None => _ end] =>
               destruct x
           | |- context [if ?b then _ else _] => destruct b
           end; rewrite ?dict_mem_set; try reflexivity;
      rewrite ?dict_mem_set; cbn; try reflexivity;
      apply orb_true_r.
  - rewrite B. now apply retime_fold.
Qed.

Lemma email_candidates_retime (now : str) (m : metadata) :
  email_candidates (retime now m) = email_candidates m.
Proof.
  unfold email_candidates, retime. induction m as [|[k v] m IH]; [reflexivity|].
  cbn [map flat_map fst snd]. rewrite IH. f_equal.
  destruct (str_eqb k source_updated) eqn:E; [|reflexivity].
  apply str_eqb_eq in E. subst k. reflexivity.
Qed.

Lemma email_candidates_clock (c : contact) (cfg : config) (now now' : str) :
  email_candidates (build_frontmatter c cfg now)
  = email_candidates (build_frontmatter c cfg now').
Proof.
  rewrite (build_frontmatter_retime c cfg now now').
  apply email_candidates_retime.
Qed.

Lemma metadata_ok_retime (now : str) (m : metadata) :
  metadata_ok m = true -> scalar_ok now = true ->
  metadata_ok (retime now m) = true.
Proof.
  unfold metadata_ok. intros H Hn. apply andb_true_iff in H as [H1 H2].
  rewrite dict_keys_retime, H2, andb_true_r.
  unfold retime. rewrite forallb_forall in *. intros kv Hin.
  apply in_map_iff in Hin as [[k v] [<- Hin]]. specialize (H1 _ Hin).
  cbn [fst]. destruct (str_eqb k source_updated); [|exact H1].
  unfold entry_ok in *. cbn [fst snd value_ok] in *.
  apply andb_true_iff in H1 as [H1 _]. now rewrite H1, Hn.
Qed.

Lemma metadata_ok_clock (c : contact) (cfg : config) (now now' : str) :
  metadata_ok (build_frontmatter c cfg now') = true ->
  scalar_ok now = true ->
  metadata_ok (build_frontmatter c cfg now) = true.
Proof.
  intros H Hn. rewrite (build_frontmatter_retime c cfg now now').
  now apply metadata_ok_retime.
Qed.

(** ** Merging the metadata of a contact into its document *)

Lemma dict_ext (a b : metadata) :
  dict_keys a = dict_keys b -> distinct (dict_keys a) = true ->
  (forall k, dict_get a k = dict_get b k) -> a = b.
Proof.
  revert b. induction a as [|[k v] a IH]; intros [|[k' v'] b] Hk Hd Hg;
    try discriminate Hk; [reflexivity|].
  cbn [dict_keys map fst] in Hk. injection Hk as <- Hk.
  cbn [dict_keys map fst distinct] in Hd.
  apply andb_true_iff in Hd as [Hn Hd]. apply negb_true_iff in Hn.
  pose proof (Hg k) as G. cbn [dict_get] in G. rewrite str_eqb_refl in G.
  injection G as <-. f_equal. apply IH; [exact Hk | exact Hd|].
  intros k0. specialize (Hg k0). cbn [dict_get] in Hg.
  destruct (str_eqb k0 k) eqn:E; [|exact Hg].
  apply str_eqb_eq in E. subst k0.
  rewrite !dict_get_notin; [reflexivity | |].
  - change (map fst b) with (dict_keys b) in Hk. rewrite <- Hk.
    intros Hin. apply mem_str_In in Hin. unfold dict_keys in Hin. congruence.
  - intros Hin. apply mem_str_In in Hin. unfold dict_keys in Hin. congruence.
Qed.

(** Merging the metadata built from a contact into those built from it at
    another time gives the metadata built from it at one of the two times:
    the earlier when [source_updated] is preserved, the later otherwise. *)
Lemma merge_retimed (m : metadata) (t now : str) (P O : list str) :
  distinct (dict_keys m) = true -> mem_str source_updated O = true ->
  merge_frontmatter (retime t m) (retime now m) P O
  = retime (if mem_str source_updated P then t else now) m.
Proof.
  intros Hd HO. apply dict_ext.
  - unfold merge_frontmatter. rewrite merge_keys_loop.
    + rewrite !dict_keys_retime.
      replace (filter _ (dict_keys m)) with (@nil str);
        [apply app_nil_r|].
      symmetry. apply filter_nil_existsb.
      destruct (existsb _ (dict_keys m)) eqn:E; [|reflexivity].
      apply existsb_exists in E as [k [Hin E]].
      apply negb_true_iff in E. rewrite dict_mem_retime, dict_mem_keys in E.
      apply mem_str_In in Hin. congruence.
    + now rewrite dict_keys_retime.
    + reflexivity.
  - unfold merge_frontmatter. rewrite merge_keys_loop.
    + rewrite !dict_keys_retime.
      replace (filter _ (dict_keys m)) with (@nil str);
        [now rewrite app_nil_r|].
      symmetry. apply filter_nil_existsb.
      destruct (existsb _ (dict_keys m)) eqn:E; [|reflexivity].
      apply existsb_exists in E as [k [Hin E]].
      apply negb_true_iff in E. rewrite dict_mem_retime, dict_mem_keys in E.
      apply mem_str_In in Hin. congruence.
    + now rewrite dict_keys_retime.
    + reflexivity.
  - intros k. rewrite merge_value_at by now rewrite dict_keys_retime.
    rewrite dict_mem_retime, !dict_get_retime. unfold dict_mem.
    destruct (str_eqb k source_updated) eqn:E.
    + apply str_eqb_eq in E. subst k. rewrite HO.
      destruct (dict_get m source_updated) as [v|]; [|reflexivity].
      rewrite andb_true_r. cbn [orb].
      now destruct (mem_str source_updated P).
    + destruct (dict_get m k) as [v|]; [|reflexivity].
      destruct (mem_str k P && true); [reflexivity|].
      now destruct (mem_str k O || negb true || is_empty (Some v)).
Qed.

(** ** The documents of the contacts *)

(** What the program reads in a document of a contact. *)
Lemma doc_read (cfg : config) (c : contact) (f : str * str) :
  doc_of cfg c f ->
  exists now body,
    metadata_ok (build_frontmatter c cfg now) = true
    /\ read_frontmatter (read_text (snd f))
       = (build_frontmatter c cfg now, newline :: read_text body)
    /\ fst (read_frontmatter (snd f)) = build_frontmatter c cfg now.
Proof.
  intros [now [body [E Hok]]]. exists now, body.
  split; [exact Hok|].
  rewrite read_frontmatter_read_text, E, (read_dump_body _ body Hok).
  split; reflexivity.
Qed.

Lemma source_updated_overwritten (cfg : config) :
  mem_str source_updated (DEFAULT_OVERWRITE_KEYS ++ cfg_overwrite_keys cfg)
  = true.
Proof. now rewrite mem_str_app. Qed.

(** The text that an update writes for the document of a contact is a
    document of that contact. *)
Lemma updated_doc (cfg : config) (c : contact) (p w now : str) :
  doc_of cfg c (p, w) -> scalar_ok now = true ->
  doc_of cfg c (p, dump_frontmatter (merged_for c cfg now (read_text w))
                   ++ carried_body (read_text w)).
Proof.
  intros Hd Hn. destruct (doc_read cfg c (p, w) Hd) as [t [body [Hok [R _]]]].
  cbn [snd] in R. unfold merged_for, carried_body. rewrite R. cbn [fst snd].
  cbn [is_empty_str].
  rewrite (build_frontmatter_retime c cfg t t) at 1.
  rewrite (build_frontmatter_retime c cfg now t).
  rewrite merge_retimed;
    [|apply build_frontmatter_distinct | apply source_updated_overwritten].
  rewrite <- build_frontmatter_retime.
  exists (if mem_str source_updated (preserve_keys_of cfg) then t else now),
         (newline :: read_text body).
  split; [reflexivity|].
  destruct (mem_str source_updated (preserve_keys_of cfg)); [exact Hok|].
  now apply (metadata_ok_clock c cfg now t).
Qed.

(** The identity and the addresses that the index finds in a document of a
    contact. *)
Lemma doc_holds_id (cfg : config) (c : contact) (f : str * str) (u : str) :
  doc_of cfg c f -> (holds_id (snd f) u <-> holds_identity u c = true).
Proof.
  intros Hd. destruct (doc_read cfg c f Hd) as [t [body [_ [_ E]]]].
  unfold holds_id, holds_identity, doc_id. rewrite E.
  change id_field with (lit "id_mslist") at 1.
  rewrite build_frontmatter_id. change (lit "id_mslist") with id_field.
  split.
  - intros [v [G [T <-]]]. injection G as <-. rewrite T. apply str_eqb_refl.
  - destruct (truthy (get_or c id_field (VStr []))) eqn:T; [|discriminate].
    intros H. apply str_eqb_eq in H.
    exists (get_or c id_field (VStr [])). now repeat split.
Qed.

Lemma doc_holds_email (cfg : config) (c : contact) (f : str * str) (e : str) :
  doc_of cfg c f ->
  (holds_email (snd f) e /\ e <> [] /\ is_valid_email e = true
   <-> holds_address cfg e c = true).
Proof.
  intros Hd. destruct (doc_read cfg c f Hd) as [t [body [_ [_ E]]]].
  unfold holds_email, holds_address, doc_emails. rewrite E.
  rewrite (email_candidates_clock c cfg t []).
  split.
  - intros [Hin [Hne Hv]]. apply mem_str_In. apply filter_In.
    split; [exact Hin|]. now rewrite (is_empty_str_false e Hne), Hv.
  - intros H. apply mem_str_In in H. apply filter_In in H as [Hin H].
    apply andb_true_iff in H as [H1 H2]. apply negb_true_iff in H1.
    repeat split; [exact Hin | | exact H2].
    intros ->. discriminate H1.
Qed.

(** ** The indexes of a store of such documents *)

Lemma email_fold_keeps (md : str) (l : list str) :
  forall (m : dict str) (e : str),
    dict_get m e <> None ->
    dict_get (fold_left (fun m e =>
                           if negb (is_empty_str e) && is_valid_email e
                           then dict_set m e md else m) l m) e <> None.
Proof.
  induction l as [|x l IH]; intros m e H; [exact H|].
  cbn [fold_left]. apply IH.
  destruct (negb (is_empty_str x) && is_valid_email x); [|exact H].
  destruct (str_eqb e x) eqn:E.
  - apply str_eqb_eq in E. subst x. rewrite dict_get_set_same. discriminate.
  - apply str_eqb_neq in E. now rewrite dict_get_set_other.
Qed.

Lemma email_fold_bound (md : str) (l : list str) :
  forall (m : dict str) (e : str),
    In e l -> e <> [] -> is_valid_email e = true ->
    dict_get (fold_left (fun m e =>
                           if negb (is_empty_str e) && is_valid_email e
                           then dict_set m e md else m) l m) e <> None.
Proof.
  induction l as [|x l IH]; intros m e Hin Hne Hv; [destruct Hin|].
  cbn [fold_left]. destruct Hin as [->|Hin]; [|now apply IH].
  apply email_fold_keeps.
  rewrite (is_empty_str_false e Hne), Hv. cbn [negb andb].
  rewrite dict_get_set_same. discriminate.
Qed.

Lemma index_file_keeps_email (idx : dict str * dict str) (file : str * str)
  (e : str) :
  dict_get (snd idx) e <> None ->
  dict_get (snd (index_file idx file)) e <> None.
Proof.
  destruct idx as [by_id by_email]. destruct file as [md txt].
  rewrite index_file_eq. cbn [snd].
  destruct (fst (read_frontmatter txt)) as [|kv fm]; [trivial|].
  cbn [snd]. apply email_fold_keeps.
Qed.

Lemma index_fold_keeps_email (files : list (str * str)) :
  forall (idx : dict str * dict str) (e : str),
    dict_get (snd idx) e <> None ->
    dict_get (snd (fold_left index_file files idx)) e <> None.
Proof.
  induction files as [|f files IH]; intros idx e H; [exact H|].
  cbn [fold_left]. apply IH. now apply index_file_keeps_email.
Qed.

Lemma index_file_holds_email (idx : dict str * dict str) (md txt e : str) :
  holds_email txt e -> e <> [] -> is_valid_email e = true ->
  dict_get (snd (index_file idx (md, txt))) e <> None.
Proof.
  unfold holds_email. intros Hin Hne Hv. destruct idx as [by_id by_email].
  rewrite index_file_eq.
  destruct (fst (read_frontmatter txt)) as [|kv fm]; [destruct Hin|].
  cbn [snd]. now apply email_fold_bound.
Qed.

(** A document of the store that holds an identity, or an address, has it
    indexed. *)
Lemma indexed_when_held (s1 s2 : store) (md txt : str) :
  (forall u, holds_id txt u ->
     dict_get (fst (build_existing_indexes (s1 ++ (md, txt) :: s2))) u
     <> None)
  /\ (forall e, holds_email txt e -> e <> [] -> is_valid_email e = true ->
        dict_get (snd (build_existing_indexes (s1 ++ (md, txt) :: s2))) e
        <> None).
Proof.
  unfold build_existing_indexes. rewrite fold_left_app. cbn [fold_left].
  split.
  - intros u H. apply index_fold_keeps.
    rewrite (index_file_holds _ md txt u H). discriminate.
  - intros e H Hne Hv. apply index_fold_keeps_email.
    now apply index_file_holds_email.
Qed.

(** What is indexed is held by a document of the store. *)
Lemma held_when_indexed (st : store) :
  (forall u p, dict_get (fst (build_existing_indexes st)) u = Some p ->
     exists txt, In (p, txt) st /\ holds_id txt u)
  /\ (forall e p, dict_get (snd (build_existing_indexes st)) e = Some p ->
        exists txt, In (p, txt) st
                    /\ holds_email txt e /\ e <> [] /\ is_valid_email e = true).
Proof.
  destruct (index_fold_sound st st ([], [])) as [A B].
  - auto.
  - intros u p H. discriminate H.
  - intros e p H. discriminate H.
  - split.
    + intros u p H. now destruct (A u p H) as [_ G].
    + intros e p H. destruct (B e p H) as [[Hv Hne] [txt [Hin He]]].
      exists txt. auto.
Qed.

Lemma Forall2_In_r {A B} (R : A -> B -> Prop) (l : list A) (s : list B) (y : B) :
  Forall2 R l s -> In y s -> exists x, In x l /\ R x y.
Proof.
  induction 1 as [|x y' l s Hxy _ IH]; intros Hin; [destruct Hin|].
  destruct Hin as [->|Hin].
  - exists x. split; [now left | exact Hxy].
  - destruct (IH Hin) as [x' [Hx' Hr]]. exists x'. split; [now right | exact Hr].
Qed.

Lemma count_of_one {A} (f : A -> bool) (l1 l2 : list A) (c : A) :
  (count_of f (l1 ++ c :: l2) =? 1) = true -> f c = true ->
  forall x, In x l1 \/ In x l2 -> f x = false.
Proof.
  unfold count_of. rewrite filter_app. cbn [filter]. intros H Hc.
  rewrite Hc, length_app in H. cbn [length] in H. apply Nat.eqb_eq in H.
  assert (E1 : filter f l1 = []) by (destruct (filter f l1); [reflexivity | cbn in H; lia]).
  assert (E2 : filter f l2 = []) by (destruct (filter f l2); [reflexivity | cbn in H; lia]).
  intros x Hx. destruct (f x) eqn:E; [|reflexivity]. exfalso.
  destruct Hx as [Hx|Hx].
  - assert (G : In x (filter f l1)) by (apply filter_In; now split).
    rewrite E1 in G. destruct G.
  - assert (G : In x (filter f l2)) by (apply filter_In; now split).
    rewrite E2 in G. destruct G.
Qed.

(** The parts of a store of documents around the document of one
    contact. *)
Lemma own_docs_split (cfg : config) (l1 l2 : list contact) (c : contact)
  (st : store) :
  Forall2 (doc_of cfg) (l1 ++ c :: l2) st ->
  exists s1 f s2,
    st = s1 ++ f :: s2 /\ Forall2 (doc_of cfg) l1 s1 /\ doc_of cfg c f
    /\ Forall2 (doc_of cfg) l2 s2 /\ length s1 = length l1.
Proof.
  intros H. apply Forall2_app_inv_l in H as [s1 [s2' [H1 [H2 ->]]]].
  inversion H2 as [|c' f l2' s2 Hf H2' E1 E2]; subst.
  exists s1, f, s2. repeat split; auto.
  symmetry. now apply (Forall2_length H1).
Qed.

Lemma nth_middle_keys {V} (s1 s2 : dict V) (f : str * V) :
  nth (length s1) (dict_keys (s1 ++ f :: s2)) [] = fst f.
Proof.
  unfold dict_keys. rewrite map_app. cbn [map].
  rewrite <- (length_map fst s1). apply nth_middle.
Qed.

(** In a store that holds a document of each contact, the indexes send
    every contact that is settled to its own document. *)
Lemma index_routes_home (cfg : config) (args : arguments)
  (all : list contact) (st : store) :
  Forall2 (doc_of cfg) all st ->
  routes_home cfg args all (dict_keys st)
    (fst (build_existing_indexes st)) (snd (build_existing_indexes st)).
Proof.
  intros Hall l1 c l2 st' base E Hs. subst all.
  destruct (own_docs_split cfg l1 l2 c st Hall)
    as [s1 [[md txt] [s2 [-> [H1 [Hc [H2 Hlen]]]]]]].
  rewrite <- Hlen, nth_middle_keys. cbn [fst].
  destruct (held_when_indexed (s1 ++ (md, txt) :: s2)) as [Sid Sem].
  destruct (indexed_when_held s1 s2 md txt) as [Bid Bem].
  set (by_id := fst (build_existing_indexes (s1 ++ (md, txt) :: s2))) in *.
  set (by_email := snd (build_existing_indexes (s1 ++ (md, txt) :: s2))) in *.
  (* a document of the store that holds what only [c] holds is that of [c] *)
  assert (Own : forall (h : contact -> bool) p' txt',
            (forall c' f', doc_of cfg c' f' -> snd f' = txt' ->
                           h c' = true) ->
            (forall x, In x l1 \/ In x l2 -> h x = false) ->
            In (p', txt') (s1 ++ (md, txt) :: s2) -> p' = md).
  { intros h p' txt' Hh Hnone Hin. apply in_app_or in Hin.
    destruct Hin as [Hin|[Hin|Hin]].
    - destruct (Forall2_In_r _ _ _ _ H1 Hin) as [c' [Hc' Hd]].
      pose proof (Hnone c' (or_introl Hc')) as G.
      rewrite (Hh c' (p', txt') Hd eq_refl) in G. discriminate.
    - now injection Hin as <- _.
    - destruct (Forall2_In_r _ _ _ _ H2 Hin) as [c' [Hc' Hd]].
      pose proof (Hnone c' (or_intror Hc')) as G.
      rewrite (Hh c' (p', txt') Hd eq_refl) in G. discriminate. }
  unfold settled in Hs. unfold routed_target, match_target.
  fold (lookup_id args c).
  set (u := lookup_id args c) in *.
  set (e := choose_primary_email_lower c) in *.
  destruct (negb (is_empty_str u)
            && existsb (holds_identity u) (l1 ++ c :: l2)) eqn:Cond.
  - apply andb_true_iff in Cond as [Hu _]. apply negb_true_iff in Hu.
    apply andb_true_iff in Hs as [Hh Hcount]. rewrite Hu.
    destruct (dict_get by_id u) as [p'|] eqn:G.
    + destruct (Sid u p' G) as [txt' [Hin Hhold]].
      apply (Own (holds_identity u) p' txt'); [| |exact Hin].
      * intros c' f' Hd <-. now apply (doc_holds_id cfg c' f' u Hd).
      * now apply (count_of_one _ l1 l2 c).
    + exfalso. apply (Bid u); [|exact G].
      now apply (doc_holds_id cfg c (md, txt) u Hc).
  - assert (Gid : (if is_empty_str u then None else dict_get by_id u) = None).
    { destruct (is_empty_str u) eqn:Hu; [reflexivity|].
      cbn [negb andb] in Cond.
      destruct (dict_get by_id u) as [p'|] eqn:G; [|reflexivity].
      destruct (Sid u p' G) as [txt' [Hin Hhold]].
      destruct (Forall2_In_r _ _ _ _ Hall Hin) as [c' [Hc' Hd]].
      assert (T : existsb (holds_identity u) (l1 ++ c :: l2) = true).
      { apply existsb_exists. exists c'. split; [exact Hc'|].
        now apply (doc_holds_id cfg c' (p', txt') u Hd). }
      congruence. }
    rewrite Gid.
    apply andb_true_iff in Hs as [Hs Hcount].
    apply andb_true_iff in Hs as [He Hh]. apply negb_true_iff in He.
    rewrite He.
    destruct (dict_get by_email e) as [p'|] eqn:G.
    + destruct (Sem e p' G) as [txt' [Hin [Hhold [Hne Hv]]]].
      apply (Own (holds_address cfg e) p' txt'); [| |exact Hin].
      * intros c' f' Hd <-. now apply (doc_holds_email cfg c' f' e Hd).
      * now apply (count_of_one _ l1 l2 c).
    + exfalso.
      apply (doc_holds_email cfg c (md, txt) e Hc) in Hh
        as [Hhold [Hne Hv]].
      now apply (Bem e Hhold Hne Hv).
Qed.

(** ** A first run, and a run on a store of documents of the contacts *)

Lemma dict_get_middle {V} (s1 s2 : dict V) (p : str) (w : V) :
  distinct (dict_keys (s1 ++ (p, w) :: s2)) = true ->
  dict_get (s1 ++ (p, w) :: s2) p = Some w.
Proof.
  induction s1 as [|[k v] s1 IH]; cbn [app dict_get dict_keys map fst distinct].
  - intros _. now rewrite str_eqb_refl.
  - intros H. apply andb_true_iff in H as [Hn Hd]. apply negb_true_iff in Hn.
    fold (dict_keys (s1 ++ (p, w) :: s2)) in Hn.
    destruct (str_eqb p k) eqn:E; [|now apply IH].
    apply str_eqb_eq in E. subst k. exfalso.
    assert (M : mem_str p (dict_keys (s1 ++ (p, w) :: s2)) = true).
    { apply mem_str_In. unfold dict_keys. rewrite map_app.
      apply in_or_app. right. now left. }
    congruence.
Qed.

Lemma dict_set_middle {V} (s1 s2 : dict V) (p : str) (w w' : V) :
  distinct (dict_keys (s1 ++ (p, w) :: s2)) = true ->
  dict_set (s1 ++ (p, w) :: s2) p w' = s1 ++ (p, w') :: s2.
Proof.
  induction s1 as [|[k v] s1 IH]; cbn [app dict_set dict_keys map fst distinct].
  - intros _. now rewrite str_eqb_refl.
  - intros H. apply andb_true_iff in H as [Hn Hd]. apply negb_true_iff in Hn.
    fold (dict_keys (s1 ++ (p, w) :: s2)) in Hn.
    destruct (str_eqb p k) eqn:E; [|now rewrite IH].
    apply str_eqb_eq in E. subst k. exfalso.
    assert (M : mem_str p (dict_keys (s1 ++ (p, w) :: s2)) = true).
    { apply mem_str_In. unfold dict_keys. rewrite map_app.
      apply in_or_app. right. now left. }
    congruence.
Qed.

Lemma dict_keys_middle {V} (s1 s2 : dict V) (p : str) (w w' : V) :
  dict_keys (s1 ++ (p, w') :: s2) = dict_keys (s1 ++ (p, w) :: s2).
Proof. unfold dict_keys. now rewrite !map_app. Qed.

Lemma steady_spec (cfg : config) (args : arguments) (all : list contact)
  (c0 : contact) :
  steady cfg args all c0 = true ->
  exists title c,
    title_of c0 = Some (title, c) /\ titled c0 = c
    /\ metadata_ok (build_frontmatter c cfg []) = true
    /\ settled cfg args all c = true.
Proof.
  unfold steady, titled. destruct (title_of c0) as [[title c]|]; [|discriminate].
  intros H. apply andb_true_iff in H as [H1 H2]. now exists title, c.
Qed.

Section Stability.

Variable json_items : str -> option (list str).
Variables (cfg : config) (args : arguments).
Hypothesis writes : arg_dry_run args = false.

Lemma main_step_prepared (by_id by_email : dict str) (now : str)
  (s : run_state) (r : row) :
  main_step json_items cfg args by_id by_email now s r
  = match prepare_contact json_items r cfg args (rs_seq s) with
    | (Skip c, m) =>
        Some {| rs_store := rs_store s; rs_seq := m;
                rs_created := rs_created s; rs_updated := rs_updated s;
                rs_skipped := S (rs_skipped s) |}
    | (Keep c, m) =>
        match route_contact c cfg args by_id by_email (rs_store s) now with
        | None => None
        | Some o =>
            match out_action o with
            | SKIPPED =>
                Some {| rs_store := rs_store s; rs_seq := m;
                        rs_created := rs_created s;
                        rs_updated := rs_updated s;
                        rs_skipped := S (rs_skipped s) |}
            | act =>
                Some {| rs_store :=
                          match out_target o, out_text o with
                          | Some target, Some md_text =>
                              dict_set (rs_store s) target md_text
                          | _, _ => rs_store s
                          end;
                        rs_seq := m;
                        rs_created :=
                          match act with
                          | CREATED => S (rs_created s)
                          | _ => rs_created s
                          end;
                        rs_updated :=
                          match act with
                          | UPDATED => S (rs_updated s)
                          | _ => rs_updated s
                          end;
                        rs_skipped := rs_skipped s |}
            end
        end
    end.
Proof.
  unfold main_step, process_contact_row.
  destruct (prepare_contact json_items r cfg args (rs_seq s)) as [[c|c] m];
    [reflexivity|].
  destruct (route_contact c cfg args by_id by_email (rs_store s) now) as [o|];
    [|reflexivity].
  cbn [option_map]. rewrite writes. reflexivity.
Qed.

(** With empty indexes a contact that has a title creates a document under
    a name that is free. *)
Lemma route_contact_unindexed (c0 c : contact) (title : value) (st : store)
  (now : str) :
  title_of c0 = Some (title, c) ->
  route_contact c0 cfg args [] [] st now
  = Some {| out_action := CREATED;
            out_target := Some (fresh_target st (sanitize_filename title));
            out_text := Some (dump_frontmatter (build_frontmatter c cfg now)
                              ++ body_default);
            out_contact := c |}.
Proof.
  intros Ht. unfold route_contact. rewrite Ht.
  assert (E : match_target (strip (text_of (dict_get c (arg_id_key args))))
                (choose_primary_email_lower c) [] [] st
                (sanitize_filename title)
              = fresh_target st (sanitize_filename title)).
  { unfold match_target.
    destruct (is_empty_str (strip (text_of (dict_get c (arg_id_key args)))));
      destruct (is_empty_str (choose_primary_email_lower c)); reflexivity. }
  rewrite E, fresh_target_free. reflexivity.
Qed.

(** A contact that the indexes send to its own document updates it. *)
Lemma route_contact_home (c0 c : contact) (title : value)
  (by_id by_email : dict str) (all l1 l2 : list contact) (s1 s2 : store)
  (p w now : str) :
  title_of c0 = Some (title, c) ->
  all = l1 ++ c :: l2 -> settled cfg args all c = true ->
  routes_home cfg args all (dict_keys (s1 ++ (p, w) :: s2)) by_id by_email ->
  length s1 = length l1 ->
  distinct (dict_keys (s1 ++ (p, w) :: s2)) = true ->
  route_contact c0 cfg args by_id by_email (s1 ++ (p, w) :: s2) now
  = Some {| out_action := UPDATED; out_target := Some p;
            out_text :=
              Some (dump_frontmatter (merged_for c cfg now (read_text w))
                    ++ carried_body (read_text w));
            out_contact := c |}.
Proof.
  intros Ht Hall Hs Hr Hlen Hd. unfold route_contact. rewrite Ht.
  fold (routed_target c args by_id by_email (s1 ++ (p, w) :: s2)
          (sanitize_filename title)).
  rewrite (Hr l1 c l2 _ _ Hall Hs), <- Hlen, nth_middle_keys. cbn [fst].
  rewrite (dict_get_middle s1 s2 p w Hd).
  unfold merged_for, carried_body.
  now destruct (read_frontmatter (read_text w)) as [old_fm old_body].
Qed.

(** A run on empty indexes creates a document for every contact kept. *)
Lemma first_loop (clock : nat -> str) (all : list contact) :
  (forall i, scalar_ok (clock i) = true) ->
  forall (rows : list row) (i : nat) (s : run_state) (done : list contact),
    forallb (steady cfg args all)
      (kept_contacts json_items cfg args rows (rs_seq s)) = true ->
    own_docs cfg done (rs_store s) ->
    exists s',
      main_loop json_items cfg args [] [] clock i rows s = Some s'
      /\ own_docs cfg
           (done ++ map titled
                      (kept_contacts json_items cfg args rows (rs_seq s)))
           (rs_store s').
Proof.
  intros Hclock. induction rows as [|r rows IH]; intros i s done Hst Hown.
  - exists s. split; [reflexivity|]. cbn. now rewrite app_nil_r.
  - cbn [main_loop kept_contacts] in *. rewrite main_step_prepared.
    destruct (prepare_contact json_items r cfg args (rs_seq s)) as [[c0|c0] m].
    + apply (IH (S i)
               {| rs_store := rs_store s; rs_seq := m;
                  rs_created := rs_created s; rs_updated := rs_updated s;
                  rs_skipped := S (rs_skipped s) |} done);
        cbn [rs_store rs_seq]; assumption.
    + cbn [forallb] in Hst. apply andb_true_iff in Hst as [Hc Hst].
      destruct (steady_spec cfg args all c0 Hc) as [title [c [Ht [Hti [Hok _]]]]].
      rewrite (route_contact_unindexed c0 c title (rs_store s) (clock i) Ht).
      cbn [out_action out_target out_text].
      pose proof (fresh_target_free (rs_store s) (sanitize_filename title))
        as Hfree.
      rewrite (dict_set_fresh _ _ _ Hfree).
      cbn [map]. rewrite Hti.
      replace (done ++ c :: map titled
                             (kept_contacts json_items cfg args rows m))
        with ((done ++ [c])
              ++ map titled (kept_contacts json_items cfg args rows m))
        by now rewrite <- app_assoc.
      apply (IH (S i)
               {| rs_store :=
                    rs_store s
                    ++ [(fresh_target (rs_store s) (sanitize_filename title),
                         dump_frontmatter (build_frontmatter c cfg (clock i))
                         ++ body_default)];
                  rs_seq := m; rs_created := S (rs_created s);
                  rs_updated := rs_updated s;
                  rs_skipped := rs_skipped s |} (done ++ [c]));
        cbn [rs_store rs_seq]; [exact Hst|].
      destruct Hown as [Hf Hd]. split.
      * apply Forall2_app; [exact Hf|]. constructor; [|constructor].
        exists (clock i), body_default. split; [reflexivity|].
        now apply (metadata_ok_clock c cfg (clock i) []).
      * unfold dict_keys. rewrite map_app. cbn [map fst].
        apply distinct_snoc; [exact Hd|].
        fold (dict_keys (rs_store s)). rewrite <- dict_mem_keys.
        unfold dict_mem. now rewrite Hfree.
Qed.

(** A run whose indexes send every contact kept to its own document updates
    the documents and creates none. *)
Lemma home_loop (by_id by_email : dict str) (clock : nat -> str)
  (all : list contact) (names : list str) :
  routes_home cfg args all names by_id by_email ->
  (forall i, scalar_ok (clock i) = true) ->
  forall (rows : list row) (i : nat) (s : run_state) (done : list contact),
    all = done ++ map titled
                    (kept_contacts json_items cfg args rows (rs_seq s)) ->
    forallb (steady cfg args all)
      (kept_contacts json_items cfg args rows (rs_seq s)) = true ->
    own_docs cfg all (rs_store s) -> dict_keys (rs_store s) = names ->
    exists s',
      main_loop json_items cfg args by_id by_email clock i rows s = Some s'
      /\ rs_created s' = rs_created s
      /\ own_docs cfg all (rs_store s') /\ dict_keys (rs_store s') = names.
Proof.
  intros Hr Hclock.
  induction rows as [|r rows IH]; intros i s done Hall Hst Hown Hnames.
  - exists s. split; [reflexivity|]. split; [reflexivity|]. now split.
  - cbn [main_loop kept_contacts] in *. rewrite main_step_prepared.
    destruct (prepare_contact json_items r cfg args (rs_seq s)) as [[c0|c0] m].
    + apply (IH (S i)
               {| rs_store := rs_store s; rs_seq := m;
                  rs_created := rs_created s; rs_updated := rs_updated s;
                  rs_skipped := S (rs_skipped s) |} done);
        cbn [rs_store rs_seq]; assumption.
    + cbn [forallb] in Hst. apply andb_true_iff in Hst as [Hc Hst].
      destruct (steady_spec cfg args all c0 Hc)
        as [title [c [Ht [Hti [Hok Hs]]]]].
      cbn [map] in Hall. rewrite Hti in Hall.
      destruct Hown as [Hf Hd].
      pose proof Hf as Hf'. rewrite Hall in Hf'.
      destruct (own_docs_split cfg _ _ c _ Hf')
        as [s1 [[p w] [s2 [Est [H1 [Hdoc [H2 Hlen]]]]]]].
      rewrite Est in *. rewrite <- Hnames in Hr.
      rewrite (route_contact_home c0 c title by_id by_email all done _ s1 s2
                 p w (clock i) Ht Hall Hs Hr Hlen Hd).
      cbn [out_action out_target out_text].
      rewrite (dict_set_middle s1 s2 p w _ Hd).
      set (text := dump_frontmatter (merged_for c cfg (clock i) (read_text w))
                   ++ carried_body (read_text w)).
      destruct (IH (S i)
                  {| rs_store := s1 ++ (p, text) :: s2; rs_seq := m;
                     rs_created := rs_created s;
                     rs_updated := S (rs_updated s);
                     rs_skipped := rs_skipped s |} (done ++ [c]))
        as [s' [E [Cr [Own Keys]]]]; cbn [rs_store rs_seq rs_created].
      * now rewrite <- app_assoc.
      * exact Hst.
      * split.
        -- rewrite Hall. apply Forall2_app; [exact H1|].
           constructor; [|exact H2].
           now apply updated_doc.
        -- exact (eq_trans (f_equal distinct (dict_keys_middle s1 s2 p w text))
                    Hd).
      * rewrite <- Hnames. apply dict_keys_middle.
      * exists s'. split; [exact E|]. split; [exact Cr|].
        split; [exact Own | exact Keys].
Qed.

(** The first run, on the empty store. *)
Lemma first_run_docs (clock : nat -> str) (rows : list row) :
  (forall i, scalar_ok (clock i) = true) ->
  forallb (steady cfg args (routed_contacts json_items cfg args rows))
    (kept_contacts json_items cfg args rows 1) = true ->
  exists s,
    run json_items cfg args rows [] clock = Some s
    /\ own_docs cfg (routed_contacts json_items cfg args rows) (rs_store s).
Proof.
  intros Hclock Hst. unfold run. cbn [build_existing_indexes fold_left].
  destruct (first_loop clock (routed_contacts json_items cfg args rows)
              Hclock rows 0 (initial_state []) [])
    as [s [E Own]].
  - exact Hst.
  - split; [constructor | reflexivity].
  - exists s. split; [exact E | exact Own].
Qed.

(** A run on a store that holds a document of each contact kept. *)
Lemma later_run_docs (st : store) (clock : nat -> str) (rows : list row) :
  (forall i, scalar_ok (clock i) = true) ->
  forallb (steady cfg args (routed_contacts json_items cfg args rows))
    (kept_contacts json_items cfg args rows 1) = true ->
  own_docs cfg (routed_contacts json_items cfg args rows) st ->
  exists s,
    run json_items cfg args rows st clock = Some s
    /\ rs_created s = 0
    /\ own_docs cfg (routed_contacts json_items cfg args rows) (rs_store s)
    /\ dict_keys (rs_store s) = dict_keys st.
Proof.
  intros Hclock Hst Hown. unfold run.
  pose proof (index_routes_home cfg args _ st (proj1 Hown)) as Hr.
  destruct (build_existing_indexes st) as [by_id by_email]. cbn [fst snd] in Hr.
  destruct (home_loop by_id by_email clock
              (routed_contacts json_items cfg args rows) (dict_keys st)
              Hr Hclock rows 0 (initial_state st) [])
    as [s [E [Cr [Own Keys]]]]; cbn [initial_state rs_store rs_seq].
  - reflexivity.
  - exact Hst.
  - exact Hown.
  - reflexivity.
  - exists s. split; [exact E|]. split; [exact Cr|]. now split.
Qed.

(** Two stores that hold, under the same names, documents of the same
    contacts: the values are the same, [source_updated] apart. *)
Lemma own_docs_same_values (all : list contact) (st1 st2 : store) :
  Forall2 (doc_of cfg) all st1 -> Forall2 (doc_of cfg) all st2 ->
  dict_keys st1 = dict_keys st2 ->
  Forall2 same_values st1 st2.
Proof.
  intros H1. revert st2. induction H1 as [|c f1 all st1 Hd1 _ IH];
    intros st2 H2 Hk; inversion H2 as [|c' f2 all' st2' Hd2 H2' E1 E2]; subst.
  - constructor.
  - cbn [dict_keys map] in Hk. injection Hk as Hf Hk.
    constructor; [|now apply IH]. split; [exact Hf|].
    intros k Hne.
    destruct (doc_read cfg c f1 Hd1) as [t1 [b1 [_ [R1 _]]]].
    destruct (doc_read cfg c f2 Hd2) as [t2 [b2 [_ [R2 _]]]].
    rewrite R1, R2. cbn [fst].
    now apply (build_frontmatter_clock c cfg t1 t2 k).
Qed.

(** Three runs on the same rows, each on the store of the run before it, the
    first on the empty store. *)
Lemma three_runs (clock1 clock2 clock3 : nat -> str) (rows : list row) :
  (forall i, scalar_ok (clock1 i) = true /\ scalar_ok (clock2 i) = true
             /\ scalar_ok (clock3 i) = true) ->
  forallb (steady cfg args (routed_contacts json_items cfg args rows))
    (kept_contacts json_items cfg args rows 1) = true ->
  exists s1 s2 s3,
    run json_items cfg args rows [] clock1 = Some s1
    /\ run json_items cfg args rows (rs_store s1) clock2 = Some s2
    /\ run json_items cfg args rows (rs_store s2) clock3 = Some s3
    /\ rs_created s2 = 0 /\ rs_created s3 = 0
    /\ length (rs_store s2) = length (rs_store s1)
    /\ length (rs_store s3) = length (rs_store s2)
    /\ Forall2 same_values (rs_store s1) (rs_store s2)
    /\ Forall2 same_values (rs_store s2) (rs_store s3).
Proof.
  intros Hclock Hst.
  destruct (first_run_docs clock1 rows) as [s1 [E1 Own1]];
    [intros i; apply Hclock | exact Hst|].
  destruct (later_run_docs (rs_store s1) clock2 rows)
    as [s2 [E2 [Cr2 [Own2 K2]]]];
    [intros i; apply Hclock | exact Hst | exact Own1|].
  destruct (later_run_docs (rs_store s2) clock3 rows)
    as [s3 [E3 [Cr3 [Own3 K3]]]];
    [intros i; apply Hclock | exact Hst | exact Own2|].
  exists s1, s2, s3. repeat (split; [assumption|]).
  assert (L : forall a b : store, dict_keys a = dict_keys b ->
                                  length a = length b).
  { intros a b H. apply (f_equal (@length str)) in H.
    unfold dict_keys in H. now rewrite !length_map in H. }
  split; [now apply L|]. split; [now apply L|].
  split.
  - apply (own_docs_same_values _ _ _ (proj1 Own1) (proj1 Own2)).
    now symmetry.
  - apply (own_docs_same_values _ _ _ (proj1 Own2) (proj1 Own3)).
    now symmetry.
Qed.

End Stability.

(** ** Runs on the store of a run *)

Section Reruns.

Variable json_items : str -> option (list str).

(** C2, as the code has it. A run that writes leaves in the store the
    documents it found plus one for each row it counts as created, and a
    row that is not skipped is counted as created exactly when neither the
    identity under which it is looked up nor its primary email is indexed.
    And for three runs on the same rows, the first on the empty store and
    each other on the store of the run before it, the texts of the clock
    holding no double quote, line break or delimiter: when every contact
    kept has a title, has metadata that the codec carries through, and
    finds the document written for it and no other (by the identity under
    which it is looked up, when a document holds that identity; else by its
    primary email), each run returns, the second and the third create no
    document, the store keeps its documents under their names, and in each
    document every key other than [source_updated] is bound after the
    second run as after the first, and after the third as after the
    second. *)
Theorem rerun_counts_and_values :
  (forall (cfg : config) (args : arguments) (rows : list row) (st : store)
          (clock : nat -> str) (s : run_state),
      arg_dry_run args = false ->
      run json_items cfg args rows st clock = Some s ->
      length (rs_store s) = length st + rs_created s)
  /\ (forall (r : row) (cfg : config) (args : arguments)
             (by_id by_email : dict str) (st : store) (now : str) (n n' : Z)
             (o : outcome),
         process_contact_row json_items r cfg args by_id by_email st now n
         = Some (o, n') ->
         out_action o <> SKIPPED ->
         index_in_store by_id st = true -> index_in_store by_email st = true ->
         (out_action o = CREATED
          <-> (lookup_id args (out_contact o) = []
               \/ dict_get by_id (lookup_id args (out_contact o)) = None)
              /\ (choose_primary_email_lower (out_contact o) = []
                  \/ dict_get by_email
                       (choose_primary_email_lower (out_contact o)) = None)))
  /\ (forall (cfg : config) (args : arguments) (rows : list row)
             (clock1 clock2 clock3 : nat -> str),
         arg_dry_run args = false ->
         (forall i, scalar_ok (clock1 i) = true /\ scalar_ok (clock2 i) = true
                    /\ scalar_ok (clock3 i) = true) ->
         forallb (steady cfg args (routed_contacts json_items cfg args rows))
           (kept_contacts json_items cfg args rows 1) = true ->
         exists s1 s2 s3,
           run json_items cfg args rows [] clock1 = Some s1
           /\ run json_items cfg args rows (rs_store s1) clock2 = Some s2
           /\ run json_items cfg args rows (rs_store s2) clock3 = Some s3
           /\ rs_created s2 = 0 /\ rs_created s3 = 0
           /\ length (rs_store s2) = length (rs_store s1)
           /\ length (rs_store s3) = length (rs_store s2)
           /\ Forall2 same_values (rs_store s1) (rs_store s2)
           /\ Forall2 same_values (rs_store s2) (rs_store s3)).
Proof.
  split; [|split].
  - intros cfg args rows st clock s Hdry H. unfold run in H.
    destruct (build_existing_indexes st) as [by_id by_email].
    pose proof (main_loop_count json_items cfg args by_id by_email clock rows
                  Hdry _ _ _ H) as L.
    cbn [initial_state rs_store rs_created] in L. lia.
  - intros r cfg args by_id by_email st now n n' o H Hs Hid Hem.
    destruct (routing_precedence json_items r cfg args by_id by_email st now
                n n' o H Hs) as [_ [_ G]].
    exact (proj1 (G Hid Hem)).
  - intros cfg args rows clock1 clock2 clock3 Hdry Hclock Hst.
    exact (three_runs json_items cfg args Hdry clock1 clock2 clock3 rows
             Hclock Hst).
Qed.

End Reruns.

(** Three runs on a row with an identity and an address and a row with an
    address only. *)
Lemma rerun_counts_and_values_witness :
  length (rerun_all empty_config steady_rows
            (rerun_all empty_config steady_rows []))
  = length (rerun_all empty_config steady_rows [])
    + rs_created (state_of (run no_list_literal empty_config plain_args
                              steady_rows
                              (rerun_all empty_config steady_rows []) noon))
  /\ exists s1 s2 s3,
       run no_list_literal empty_config plain_args steady_rows [] noon
       = Some s1
       /\ run no_list_literal empty_config plain_args steady_rows
            (rs_store s1) noon = Some s2
       /\ run no_list_literal empty_config plain_args steady_rows
            (rs_store s2) noon = Some s3
       /\ rs_created s2 = 0 /\ rs_created s3 = 0
       /\ length (rs_store s2) = length (rs_store s1)
       /\ length (rs_store s3) = length (rs_store s2)
       /\ Forall2 same_values (rs_store s1) (rs_store s2)
       /\ Forall2 same_values (rs_store s2) (rs_store s3).
Proof.
  split.
  - apply (proj1 (rerun_counts_and_values no_list_literal)
             empty_config plain_args steady_rows
             (rerun_all empty_config steady_rows []) noon
             (state_of (run no_list_literal empty_config plain_args
                          steady_rows
                          (rerun_all empty_config steady_rows []) noon))).
    + reflexivity.
    + vm_compute; reflexivity.
  - apply (proj2 (proj2 (rerun_counts_and_values no_list_literal))
             empty_config plain_args steady_rows noon noon noon).
    + reflexivity.
    + intros i. repeat split.
    + vm_compute; reflexivity.
Defined.

(** C2, as the spec states it, fails. A row that holds a name and neither
    an identity nor an email matches no document: each run on the store of
    the run before it creates one more document. So does a row whose name
    holds the delimiter, the document written for it being read without its
    identity, and a row whose identity stands between blanks, the document
    holding the blanks and the lookup not. A preserved key whose value holds
    a double quote gets one more backslash before it at every run. And of
    three rows of which two share an address and two an identity, the second
    run rewrites the document of the second with the name and the identity
    of the first. *)
Lemma unmatched_row_grows_store :
  map fst (rerun name_only_row (rerun name_only_row (rerun name_only_row [])))
  = [lit "DUPONT.md"; lit "DUPONT - 2.md"; lit "DUPONT - 3.md"]
  /\ map fst (rerun dash_row (rerun dash_row (rerun dash_row [])))
     = [lit "A---B.md"; lit "A---B - 2.md"; lit "A---B - 3.md"]
  /\ map fst (rerun blank_id_row (rerun blank_id_row (rerun blank_id_row [])))
     = [lit "DUPONT.md"; lit "DUPONT - 2.md"; lit "DUPONT - 3.md"]
  /\ values_at (lit "notes") (rerun_all all_extras_config [quoted_notes_row] [])
     = [Some (VStr (lit "dit " ++ [backslash; dquote] ++ lit "oui"
                    ++ [backslash; dquote]))]
  /\ values_at (lit "notes")
       (rerun_all all_extras_config [quoted_notes_row]
          (rerun_all all_extras_config [quoted_notes_row] []))
     = [Some (VStr (lit "dit " ++ [backslash; backslash; dquote] ++ lit "oui"
                    ++ [backslash; backslash; dquote]))]
  /\ values_at (lit "Nom") (rerun_all empty_config shared_rows [])
     = [Some (VStr (lit "B")); Some (VStr (lit "C")); Some (VStr (lit "D"))]
  /\ values_at (lit "Nom")
       (rerun_all empty_config shared_rows
          (rerun_all empty_config shared_rows []))
     = [Some (VStr (lit "B")); Some (VStr (lit "B")); Some (VStr (lit "D"))]
  /\ values_at id_field (rerun_all empty_config shared_rows [])
     = [Some (VStr []); Some (VStr (lit "7")); Some (VStr (lit "7"))]
  /\ values_at id_field
       (rerun_all empty_config shared_rows
          (rerun_all empty_config shared_rows []))
     = [Some (VStr []); Some (VStr []); Some (VStr (lit "7"))].
Proof. repeat split; vm_compute; reflexivity. Qed.
Section RowContract.

Variable json_items : str -> option (list str).

(** ** What a run does to the store and to its counters *)

Lemma main_step_accounts (cfg : config) (args : arguments)
  (by_id by_email : dict str) (now : str) (s s' : run_state) (r : row) :
  main_step json_items cfg args by_id by_email now s r = Some s' ->
  rs_created s' + rs_updated s' + rs_skipped s'
  = S (rs_created s + rs_updated s + rs_skipped s)
  /\ (arg_dry_run args = true -> rs_store s' = rs_store s)
  /\ exists l, dict_keys (rs_store s') = dict_keys (rs_store s) ++ l.
Proof.
  unfold main_step.
  destruct (process_contact_row json_items r cfg args by_id by_email
              (rs_store s) now (rs_seq s)) as [[o n]|]; [|discriminate].
  assert (K : forall target md_text,
             exists l, dict_keys (dict_set (rs_store s) target md_text)
                       = dict_keys (rs_store s) ++ l).
  { intros target md_text. rewrite dict_keys_set.
    destruct (dict_mem (rs_store s) target).
    - exists []. now rewrite app_nil_r.
    - now exists [target]. }
  assert (K0 : exists l : list str,
             dict_keys (rs_store s) = dict_keys (rs_store s) ++ l)
    by (exists []; now rewrite app_nil_r).
  destruct (out_action o); intros H; injection H as <-; cbn;
    (split; [lia|]); (split; [|]);
    try (intros _; reflexivity); try exact K0;
    destruct (out_target o) as [target|]; destruct (out_text o) as [txt|];
    try (intros _; reflexivity); try exact K0.
  - intros ->. reflexivity.
  - destruct (arg_dry_run args); [exact K0 | apply K].
  - intros ->. reflexivity.
  - destruct (arg_dry_run args); [exact K0 | apply K].
Qed.

Lemma main_loop_accounts (cfg : config) (args : arguments)
  (by_id by_email : dict str) (clock : nat -> str) (rows : list row) :
  forall (i : nat) (s s' : run_state),
    main_loop json_items cfg args by_id by_email clock i rows s = Some s' ->
    rs_created s' + rs_updated s' + rs_skipped s'
    = rs_created s + rs_updated s + rs_skipped s + length rows
    /\ (arg_dry_run args = true -> rs_store s' = rs_store s)
    /\ exists l, dict_keys (rs_store s') = dict_keys (rs_store s) ++ l.
Proof.
  induction rows as [|r rows IH]; intros i s s' H.
  - injection H as <-. split; [cbn; lia|]. split; [reflexivity|].
    exists []. now rewrite app_nil_r.
  - cbn [main_loop] in H.
    destruct (main_step json_items cfg args by_id by_email (clock i) s r)
      as [s1|] eqn:E; [|discriminate].
    destruct (main_step_accounts _ _ _ _ _ _ _ _ E) as [A1 [B1 [l1 C1]]].
    destruct (IH _ _ _ H) as [A2 [B2 [l2 C2]]].
    split; [cbn [length]; lia|]. split.
    + intros Hd. now rewrite (B2 Hd), (B1 Hd).
    + exists (l1 ++ l2). now rewrite C2, C1, app_assoc.
Qed.

(** A run that returns has counted every row once, as created, updated or
    skipped; it has kept every file name of the store, at its place; and
    with [--dry-run] it has left the store as it was. *)
Theorem run_accounts (cfg : config) (args : arguments) (rows : list row)
  (st : store) (clock : nat -> str) (s : run_state) :
  run json_items cfg args rows st clock = Some s ->
  rs_created s + rs_updated s + rs_skipped s = length rows
  /\ (exists l, dict_keys (rs_store s) = dict_keys st ++ l)
  /\ (arg_dry_run args = true -> rs_store s = st).
Proof.
  unfold run. destruct (build_existing_indexes st) as [by_id by_email].
  intros H.
  destruct (main_loop_accounts _ _ _ _ _ _ _ _ _ H) as [A [B C]].
  cbn [initial_state rs_created rs_updated rs_skipped rs_store] in *.
  split; [lia|]. split; [exact C | exact B].
Qed.

(** ** Rows of blanks *)

Lemma blank_row_text (r : row) (k : str) :
  blank_row r = true -> is_blank (row_text r k) = true.
Proof.
  intros H. unfold row_text. destruct (dict_get r k) as [v|] eqn:G;
    [|reflexivity].
  unfold blank_row in H. rewrite forallb_forall in H.
  induction r as [|[k' v'] r IH]; [discriminate G|].
  simpl in G. destruct (str_eqb k k').
  - injection G as <-. apply (H (k', v')). now left.
  - apply IH; [|exact G]. intros x Hx. apply H. now right.
Qed.

Lemma select_first_present_blank (r : row) (cands : list str) :
  blank_row r = true -> select_first_present r cands = [].
Proof.
  intros H. unfold select_first_present.
  generalize (norm_to_orig r). intros index.
  induction cands as [|c cs IH]; [reflexivity|].
  cbn [select_loop]. rewrite (blank_row_text r c H), andb_false_r.
  unfold first_normalized. cbn [fold_left].
  destruct (dict_get index (_norm_key_for_match c)) as [o1|];
    [rewrite (blank_row_text r o1 H)|];
    (destruct (dict_get index (_singularize_norm (_norm_key_for_match c)))
       as [o2|]; [rewrite (blank_row_text r o2 H)|]); exact IH.
Qed.

Lemma blank_spaces (v : str) : is_blank v = true -> forallb is_space v = true.
Proof.
  unfold is_blank. intros H. apply is_empty_str_true in H.
  destruct (strip_with_split is_space v) as [a [b [E [Ha [Hb _]]]]].
  fold (strip v) in E. rewrite H in E. rewrite E, !forallb_app, Ha, Hb.
  reflexivity.
Qed.

Lemma space_not_sep (c : ascii) : is_space c = true -> list_sep c = false.
Proof. each_char c. Qed.

Lemma split_list_blank (v : str) : is_blank v = true -> split_list v = [].
Proof.
  intros H. pose proof (blank_spaces v H) as Hs.
  rewrite split_list_eq.
  rewrite (map_id_on is_space).
  - rewrite split_char_none.
    + cbn [map filter]. unfold is_blank in H. now rewrite H.
    + intros Hin. rewrite forallb_forall in Hs. specialize (Hs _ Hin).
      discriminate Hs.
  - intros c Hc. now rewrite (space_not_sep c Hc).
  - exact Hs.
Qed.

Lemma parse_maybe_list_blank (v : str) :
  is_blank v = true -> parse_maybe_list json_items v = None.
Proof.
  unfold is_blank, parse_maybe_list. intros H. apply is_empty_str_true in H.
  now rewrite H.
Qed.

Lemma blank_text_str (s : str) :
  is_blank s = true -> is_blank (text_of (Some (VStr s))) = true.
Proof.
  intros H. unfold text_of. destruct (truthy (VStr s)); [exact H | reflexivity].
Qed.

Lemma extra_value_blank (cfg : config) (k v : str) :
  is_blank v = true ->
  is_blank (text_of (Some (extra_value json_items cfg k v))) = true.
Proof.
  intros H. unfold extra_value. rewrite (parse_maybe_list_blank v H).
  destruct (is_list_field cfg k).
  - now rewrite (split_list_blank v H).
  - unfold coerce_bool_if_needed.
    destruct (negb (is_bool_field k cfg)).
    + now apply blank_text_str.
    + pose proof H as H'. unfold is_blank in H'.
      apply is_empty_str_true in H'. rewrite H'.
      cbn [lower map mem_str existsb str_eqb lit list_ascii_of_string orb].
      now apply blank_text_str.
Qed.

Lemma logical_value_blank (r : row) (cfg : config) (project logical : str) :
  blank_row r = true -> logical <> lit "type" ->
  is_blank (text_of (Some (logical_value json_items r cfg project logical)))
  = true.
Proof.
  intros H Hl. unfold logical_value.
  rewrite (select_first_present_blank r _ H).
  destruct (mem_str logical (cfg_list_fields cfg)); [reflexivity|].
  apply str_eqb_neq in Hl. now rewrite Hl.
Qed.

Lemma blank_values_set (c : contact) (k : str) (v : value) :
  blank_values c ->
  (k <> lit "type" -> is_blank (text_of (Some v)) = true) ->
  blank_values (dict_set c k v).
Proof.
  intros Hc Hv k' v' G Hk'.
  destruct (dict_get_set_inv _ _ _ _ _ G) as [[-> ->]|G'];
    [now apply Hv | now apply (Hc k')].
Qed.

Lemma build_contact_blank (r : row) (cfg : config) (project : str) :
  blank_row r = true ->
  blank_values (build_contact json_items r cfg project).
Proof.
  intros H. unfold build_contact. lazy zeta.
  set (base := fold_left
                 (fun c logical =>
                    dict_set c logical
                      (logical_value json_items r cfg project logical))
                 LOGICAL_FIELDS []).
  assert (Hbase : blank_values base).
  { unfold base. generalize LOGICAL_FIELDS. intros fields.
    assert (G : forall c, blank_values c ->
                 blank_values
                   (fold_left (fun c logical =>
                                 dict_set c logical
                                   (logical_value json_items r cfg project
                                      logical)) fields c)).
    { induction fields as [|f fields IH]; intros c Hc; [exact Hc|].
      cbn [fold_left]. apply IH. apply blank_values_set; [exact Hc|].
      intros Hf. now apply logical_value_blank. }
    apply G. intros k v G0. discriminate G0. }
  assert (Hrow : forall k v, In (k, v) r -> is_blank v = true).
  { intros k v Hin. unfold blank_row in H. rewrite forallb_forall in H.
    exact (H (k, v) Hin). }
  destruct (cfg_extras cfg) as [|names|]; [| |exact Hbase].
  - generalize (flat_map (candidates cfg project) LOGICAL_FIELDS).
    generalize (map _norm_key_for_match (dict_keys base)).
    intros existing_norm used. revert Hbase. generalize base. clear base.
    induction r as [|[k v] r IH]; intros c Hc; [exact Hc|].
    cbn [fold_left]. apply IH.
    + cbn [blank_row forallb] in H. now apply andb_true_iff in H as [_ H].
    + intros k' v' Hin. apply (Hrow k'). now right.
    + destruct (mem_str k used); [exact Hc|].
      destruct (mem_str (_norm_key_for_match k) existing_norm); [exact Hc|].
      apply blank_values_set; [exact Hc|]. intros _.
      apply extra_value_blank. apply (Hrow k). now left.
  - revert Hbase. generalize base. clear base.
    induction names as [|name names IH]; intros c Hc; [exact Hc|].
    cbn [fold_left]. apply IH.
    destruct (dict_get r name) as [v|] eqn:G; [|exact Hc].
    destruct (mem_str _ _); [exact Hc|].
    apply blank_values_set; [exact Hc|]. intros _.
    apply extra_value_blank.
    pose proof (blank_row_text r name H) as B. unfold row_text in B.
    now rewrite G in B.
Qed.

(** A row whose every value is blank is skipped, whatever the
    configuration and the arguments, unless the required fields name
    [type]; the sequence counter is left as it was. *)
Theorem blank_row_skipped (r : row) (cfg : config) (args : arguments)
  (by_id by_email : dict str) (st : store) (now : str) (n : Z) :
  blank_row r = true ->
  mem_str (lit "type") (required_fields cfg) = false ->
  process_contact_row json_items r cfg args by_id by_email st now n
  = Some (skipped (build_contact json_items r cfg (arg_project args)), n).
Proof.
  intros H Ht. unfold process_contact_row, prepare_contact.
  pose proof (build_contact_blank r cfg (arg_project args) H) as Hb.
  set (c := build_contact json_items r cfg (arg_project args)) in *.
  assert (E : existsb (fun k => negb (is_blank (text_of (dict_get c k))))
                (required_fields cfg) = false).
  { destruct (existsb _ (required_fields cfg)) eqn:E; [|reflexivity].
    apply existsb_exists in E as [k [Hk Hv]]. apply negb_true_iff in Hv.
    destruct (dict_get c k) as [v|] eqn:G; [|discriminate Hv].
    rewrite (Hb k v G) in Hv; [discriminate Hv|].
    intros ->. apply mem_str_In in Hk. congruence. }
  rewrite E. reflexivity.
Qed.

End RowContract.

Lemma run_accounts_witness :
  rs_created (state_of dry_run_sample) + rs_updated (state_of dry_run_sample)
  + rs_skipped (state_of dry_run_sample) = 2
  /\ (exists l, dict_keys (rs_store (state_of dry_run_sample))
                = dict_keys two_docs ++ l)
  /\ (arg_dry_run dry_args = true -> rs_store (state_of dry_run_sample) = two_docs).
Proof.
  apply (run_accounts no_list_literal empty_config dry_args
           [dupont_row; name_only_row] two_docs noon (state_of dry_run_sample)).
  vm_compute. reflexivity.
Defined.

Lemma blank_row_skipped_witness :
  process_contact_row no_list_literal spaces_row all_extras_config
    (sco_args FbSeq) [] [] [] (noon 0) 1
  = Some (skipped (build_contact no_list_literal spaces_row all_extras_config
                     (arg_project (sco_args FbSeq))), 1%Z).
Proof.
  apply (blank_row_skipped no_list_literal spaces_row all_extras_config
           (sco_args FbSeq) [] [] [] (noon 0) 1); reflexivity.
Defined.

(** ** The contact that is returned *)

Lemma first_true_bound (c : contact) (keys : list str) (k : str) (v : value) :
  first_true c keys = Some (k, v) ->
  In k keys /\ dict_get c k = Some v /\ truthy v = true.
Proof.
  induction keys as [|k0 keys IH]; [discriminate|].
  cbn [first_true].
  destruct (dict_get c k0) as [v0|] eqn:G.
  - destruct (truthy v0) eqn:T.
    + intros H; injection H as <- <-. split; [now left|]. now split.
    + intros H. destruct (IH H) as [A B]. split; [now right | exact B].
  - intros H. destruct (IH H) as [A B]. split; [now right | exact B].
Qed.

(** Making the title leaves the contact as it is, but for a contact
    without a name whose title is a list that it holds, an establishment
    being found: that list is then longer in the contact as well. *)
Lemma title_of_grows (c0 c : contact) (title : value) :
  title_of c0 = Some (title, c) ->
  c = c0
  \/ exists k l,
       (k = lit "organisation" \/ k = lit "email")
       /\ dict_get c0 k = Some (VList l) /\ l <> []
       /\ strip_text (dict_get c0 (lit "Nom")) = Some []
       /\ strip_text (dict_get c0 Prenom) = Some []
       /\ get_contact_value c0 Etablissement_aliases <> []
       /\ c = dict_set c0 k
                (VList (l ++ map (fun ch => [ch])
                               (lit " - "
                                ++ get_contact_value c0 Etablissement_aliases)))
       /\ title = VList (l ++ map (fun ch => [ch])
                               (lit " - "
                                ++ get_contact_value c0 Etablissement_aliases)).
Proof.
  unfold title_of.
  destruct (strip_text (dict_get c0 (lit "Nom"))) as [last_name|];
    [|discriminate].
  destruct (strip_text (dict_get c0 Prenom)) as [first_name|]; [|discriminate].
  destruct (title_human_of c0 last_name first_name) as [[t held]|] eqn:T;
    [|discriminate].
  destruct (is_empty_str (get_contact_value c0 Etablissement_aliases)) eqn:E.
  - intros H; injection H as _ <-. now left.
  - unfold title_add. destruct t as [s|l|b]; [| |discriminate].
    + intros H; injection H as _ <-. now left.
    + intros H; injection H as <- <-.
      destruct held as [k|]; [|now left]. right.
      unfold title_human_of in T.
      destruct last_name as [|x last_name]; cbn [is_empty_str negb] in T.
      2:{ destruct (narrow (upper (x :: last_name))); discriminate T. }
      destruct first_name as [|y first_name]; cbn [is_empty_str negb] in T;
        [|discriminate T].
      destruct (first_true c0 [lit "organisation"; lit "email"])
        as [[k' v]|] eqn:F; [|discriminate T].
      injection T as -> ->.
      destruct (first_true_bound _ _ _ _ F) as [Hin [G Tv]].
      exists k, l. split.
      { destruct Hin as [<-|[<-|[]]]; [now left | now right]. }
      split; [exact G|]. split; [intros ->; discriminate Tv|].
      split; [reflexivity|]. split; [reflexivity|].
      split; [intros N; rewrite N in E; discriminate E|].
      split; reflexivity.
Qed.

Section ReturnedContact.

Variable json_items : str -> option (list str).

(** The contact that [process_contact_row] returns for a row that is not
    skipped is the contact made from the row, with the identity composed for
    it, but for one case: the contact has neither last name nor first name,
    its title is a list that it holds under [organisation] or [email], and
    an establishment is found. The list is then extended in place by the
    characters of the hyphen and of the establishment, one item each, and
    the contact returned, from which the metadata are built, holds the
    longer list. *)
Theorem returned_contact (r : row) (cfg : config) (args : arguments)
  (by_id by_email : dict str) (st : store) (now : str) (n n' : Z)
  (o : outcome) :
  process_contact_row json_items r cfg args by_id by_email st now n
  = Some (o, n') ->
  out_action o <> SKIPPED ->
  exists c0,
    prepare_contact json_items r cfg args n = (Keep c0, n')
    /\ (out_contact o = c0
        \/ exists k l,
             let suffix :=
               lit " - " ++ get_contact_value c0 Etablissement_aliases in
             (k = lit "organisation" \/ k = lit "email")
             /\ dict_get c0 k = Some (VList l) /\ l <> []
             /\ strip_text (dict_get c0 (lit "Nom")) = Some []
             /\ strip_text (dict_get c0 Prenom) = Some []
             /\ get_contact_value c0 Etablissement_aliases <> []
             /\ out_contact o
                = dict_set c0 k (VList (l ++ map (fun ch => [ch]) suffix))).
Proof.
  intros H Hs.
  destruct (process_contact_row_routed json_items _ _ _ _ _ _ _ _ _ _ H Hs)
    as [c0 [P R]].
  exists c0. split; [exact P|].
  destruct (route_contact_spec _ _ _ _ _ _ _ _ R) as [title [c [T [-> _]]]].
  destruct (title_of_grows c0 c title T)
    as [->|[k [l [A [B [C [D [E [F [G _]]]]]]]]]]; [now left|].
  right. exists k, l. cbn zeta. auto 10.
Qed.

End ReturnedContact.

Lemma returned_contact_witness :
  (exists c0,
    prepare_contact no_list_literal org_list_row org_list_config plain_args 1
    = (Keep c0, counter_of org_list_result)
    /\ (out_contact (outcome_of org_list_result) = c0
        \/ exists k l,
             let suffix :=
               lit " - " ++ get_contact_value c0 Etablissement_aliases in
             (k = lit "organisation" \/ k = lit "email")
             /\ dict_get c0 k = Some (VList l) /\ l <> []
             /\ strip_text (dict_get c0 (lit "Nom")) = Some []
             /\ strip_text (dict_get c0 Prenom) = Some []
             /\ get_contact_value c0 Etablissement_aliases <> []
             /\ out_contact (outcome_of org_list_result)
                = dict_set c0 k (VList (l ++ map (fun ch => [ch]) suffix))))
  /\ dict_get (out_contact (outcome_of org_list_result)) (lit "organisation")
     = Some (VList [lit "Ecole A"; lit "Ecole B"; lit " "; lit "-"; lit " ";
                    lit "M"; lit "J"; lit "C"])
  /\ out_target (outcome_of org_list_result)
     = Some (lit "['Ecole A', 'Ecole B', ' ', '-', ' ', 'M', 'J', 'C'].md").
Proof.
  split; [|split; vm_compute; reflexivity].
  apply (returned_contact no_list_literal org_list_row org_list_config
           plain_args [] [] [] (noon 0) 1 (counter_of org_list_result)
           (outcome_of org_list_result)).
  - vm_compute. reflexivity.
  - vm_compute. discriminate.
Defined.

(** ** The file name of a document that is created *)

Lemma fresh_loop_first (st : store) (b : str) (fuel : nat) :
  forall k,
  exists j,
    k <= j
    /\ fresh_loop st b fuel (Z.of_nat k + 2) (candidate b k) = candidate b j
    /\ forall i, k <= i < j -> dict_mem st (candidate b i) = true.
Proof.
  induction fuel as [|f IH]; intros k.
  - exists k. split; [lia|]. split; [|intros i Hi; lia].
    simpl. destruct (dict_mem st (candidate b k)); reflexivity.
  - cbn [fresh_loop].
    destruct (dict_mem st (candidate b k)) eqn:E.
    + destruct (IH (S k)) as [j [Hj [Ej Tj]]].
      exists j. split; [lia|]. split.
      * rewrite <- Ej.
        replace (Z.of_nat (S k) + 2)%Z with (Z.of_nat k + 2 + 1)%Z by lia.
        replace (candidate b (S k))
          with (b ++ lit " - " ++ str_of_Z (Z.of_nat k + 2) ++ lit ".md");
          [reflexivity|].
        unfold candidate.
        replace (Z.of_nat (S k) + 1)%Z with (Z.of_nat k + 2)%Z by lia.
        reflexivity.
      * intros i Hi. destruct (Nat.eq_dec i k) as [->|Hne]; [exact E|].
        apply Tj. lia.
    + exists k. split; [lia|]. split; [reflexivity | intros i Hi; lia].
Qed.

Section CreatedName.

Variable json_items : str -> option (list str).

(** A document that is created, the indexes naming documents of the store,
    gets the first name that the store does not hold among [base.md],
    [base - 2.md], [base - 3.md] and so on, [base] being the sanitized
    title made from the contact as it was prepared: it is not empty and
    holds no forbidden character. The contact of the outcome is the one
    that making the title leaves, with its list extended when the title
    is that list. *)
Theorem created_file_name (r : row) (cfg : config) (args : arguments)
  (by_id by_email : dict str) (st : store) (now : str) (n n' : Z)
  (o : outcome) :
  process_contact_row json_items r cfg args by_id by_email st now n
  = Some (o, n') ->
  out_action o = CREATED ->
  index_in_store by_id st = true -> index_in_store by_email st = true ->
  exists c0 title k,
    prepare_contact json_items r cfg args n = (Keep c0, n')
    /\ title_of c0 = Some (title, out_contact o)
    /\ out_target o = Some (candidate (sanitize_filename title) k)
    /\ dict_get st (candidate (sanitize_filename title) k) = None
    /\ (forall i, i < k ->
          dict_mem st (candidate (sanitize_filename title) i) = true)
    /\ sanitize_filename title <> []
    /\ forallb (fun x => negb (forbidden_char x)) (sanitize_filename title)
       = true.
Proof.
  intros H Ha I1 I2.
  assert (Hs : out_action o <> SKIPPED) by (rewrite Ha; discriminate).
  destruct (process_contact_row_routed json_items _ _ _ _ _ _ _ _ _ _ H Hs)
    as [c0 [P R]].
  destruct (route_contact_spec _ _ _ _ _ _ _ _ R)
    as [title [c [Hb [Hc [Ht Hx]]]]].
  subst c.
  destruct (sanitize_filename_facts title) as [B1 [B2 _]].
  set (base := sanitize_filename title) in *.
  destruct (dict_get st (routed_target (out_contact o) args by_id by_email
                           st base)) as [txt|] eqn:E;
    [destruct Hx as [Hx _]; congruence|].
  assert (T : routed_target (out_contact o) args by_id by_email st base
              = fresh_target st base).
  { unfold routed_target, match_target in *.
    destruct (if is_empty_str _ then None else dict_get by_id _) as [p|] eqn:G1.
    - destruct (is_empty_str _); [discriminate G1|].
      destruct (index_in_store_get by_id st _ p I1 G1) as [t Gt]. congruence.
    - destruct (if is_empty_str (choose_primary_email_lower (out_contact o))
                then None else dict_get by_email _) as [p|] eqn:G2;
        [|reflexivity].
      destruct (is_empty_str (choose_primary_email_lower (out_contact o)));
        [discriminate G2|].
      destruct (index_in_store_get by_email st _ p I2 G2) as [t Gt].
      congruence. }
  rewrite T in *.
  destruct (fresh_loop_first st base (length st) 0) as [k [_ [Ek Tk]]].
  change (fresh_loop st base (length st) (Z.of_nat 0 + 2) (candidate base 0))
    with (fresh_target st base) in Ek.
  exists c0, title, k. fold base. rewrite <- Ek.
  split; [exact P|]. split; [exact Hb|]. split; [exact Ht|].
  split; [exact E|].
  split; [intros i Hi; apply Tk; lia|]. now split.
Qed.

End CreatedName.

Lemma created_file_name_witness :
  exists c0 title k,
    prepare_contact no_list_literal name_only_row empty_config plain_args 1
    = (Keep c0, counter_of second_dupont)
    /\ title_of c0 = Some (title, out_contact (outcome_of second_dupont))
    /\ out_target (outcome_of second_dupont)
       = Some (candidate (sanitize_filename title) k)
    /\ dict_get (rerun name_only_row []) (candidate (sanitize_filename title) k)
       = None
    /\ (forall i, i < k ->
          dict_mem (rerun name_only_row [])
            (candidate (sanitize_filename title) i) = true)
    /\ sanitize_filename title <> []
    /\ forallb (fun x => negb (forbidden_char x)) (sanitize_filename title)
       = true.
Proof.
  apply (created_file_name no_list_literal name_only_row empty_config
           plain_args
           (fst (build_existing_indexes (rerun name_only_row [])))
           (snd (build_existing_indexes (rerun name_only_row [])))
           (rerun name_only_row []) (noon 0) 1
           (counter_of second_dupont) (outcome_of second_dupont)).
  - vm_compute. reflexivity.
  - vm_compute. reflexivity.
  - vm_compute. reflexivity.
  - vm_compute. reflexivity.
Defined.

(** ** The output folder *)

Section OutputFolder.

Variable path : Type.
Variable icloud_obsidian : path.
Variable join_path : path -> str -> path.
Variable path_of : str -> path.
Variable path_exists : path -> bool.

(** [resolve_output_directory] ends the process, with status 2, exactly
    when the vault named does not exist or when, no vault being named,
    neither the output folder nor both the vault path and the subpath are
    given: a vault path alone is not enough. When a vault is named, the
    vault path and the output folder are not looked at. *)
Theorem resolve_output_directory_exits (a : out_args) :
  (forall status,
     resolve_output_directory path icloud_obsidian join_path path_of
       path_exists a = Exit status -> status = 2%Z)
  /\ ((exists status,
         resolve_output_directory path icloud_obsidian join_path path_of
           path_exists a = Exit status)
      <-> (oa_vault_name a <> []
           /\ path_exists (join_path icloud_obsidian (oa_vault_name a)) = false)
          \/ (oa_vault_name a = []
              /\ (oa_vault a = [] \/ oa_out_subpath a = [])
              /\ oa_out a = []))
  /\ (oa_vault_name a <> [] ->
      forall vault out,
        resolve_output_directory path icloud_obsidian join_path path_of
          path_exists
          {| oa_vault_name := oa_vault_name a; oa_vault := vault;
             oa_out_subpath := oa_out_subpath a; oa_out := out |}
        = resolve_output_directory path icloud_obsidian join_path path_of
            path_exists a).
Proof.
  unfold resolve_output_directory. cbn [oa_vault_name oa_vault oa_out_subpath oa_out].
  destruct a as [vn v sp o]. cbn [oa_vault_name oa_vault oa_out_subpath oa_out].
  split; [|split].
  - intros status.
    destruct vn, v, sp, o; cbn;
      try destruct (path_exists _); cbn; intros H; try discriminate H;
      now injection H.
  - split.
    + intros [status H].
      destruct vn as [|c vn].
      * right. destruct v, sp, o; cbn in H; try discriminate H; auto.
      * left. split; [discriminate|]. cbn in H.
        destruct (path_exists _); [|reflexivity].
        cbn in H. discriminate H.
    + intros [[Hn He]|[Hn [Hv Ho]]].
      * exists 2%Z. destruct vn; [congruence|]. cbn. now rewrite He.
      * exists 2%Z. subst vn o. cbn.
        destruct Hv as [->| ->]; [reflexivity|].
        destruct v; reflexivity.
  - intros Hn vault out. destruct vn; [congruence|]. reflexivity.
Qed.

End OutputFolder.

Lemma resolve_output_directory_exits_witness :
  exists status,
    resolve_output_directory str [] (fun p s => p ++ lit "/" ++ s)
      (fun s => s) (fun _ => true) vault_only = Exit status.
Proof.
  apply (proj2 (proj1 (proj2 (resolve_output_directory_exits str []
                               (fun p s => p ++ lit "/" ++ s) (fun s => s)
                               (fun _ => true) vault_only)))).
  right. repeat split. now right.
Defined.
